(* ===== verification/_CoqProject ===== *)
-Q . S2P
Prelude.v
Base64.v
Strconv.v
EnginePacket.v
Utf8.v
Value.v
Json.v
FixedFloat.v
SioPacket.v
AckTable.v
PacketQueue.v
Adapter.v
Emitter.v
Sched.v
Safety.v
SioServer.v
SioWire.v
SioInvariant.v
SioHandlers.v
EngineTypes.v
EngineOptions.v
OpenPacket.v
Polling.v
Websocket.v
EngineSocket.v
EngineServer.v
ClientTypes.v
ClientTransport.v
ClientEngine.v
EngineDemo.v
EngineInvariant.v
EngineSafety.v
EngineRaces.v
EngineHandlers.v
EngineSessions.v
ClientDemo.v
ClientInvariant.v
ClientRequests.v
ClientSafety.v
ClientHandlers.v
EngineEndToEnd.v
ClientRaces.v
SioClientTypes.v
SioClient.v
SioClientDemo.v
SioClientHandlers.v
SioClientSessions.v
SioClientSafety.v
SioClientRaces.v
SioHttp.v
FullStack.v
SioEndToEnd.v
ChatServer.v
ChatClient.v
ChatEndToEnd.v
