(* ===== verification/Prelude.v ===== *)
(** * gosocketio: a verification development

    gosocketio is a Go implementation of Engine.IO (protocol 4) and, above it,
    of Socket.IO.  This development models both servers and both clients with
    their packet codecs and proves what makes them correct, and where they are
    not.

    ** How Go is modelled

    - Data: bytes are [list byte]; an [int64] is a [Z] with its range and its
      wrapping ([wrap64]) written out; a Go string is a byte sequence; maps are
      [gmap]s, and what depends on a map's iteration order takes an arbitrary
      order as a parameter; [any] is the type [Value.gval], pointers are indices
      into the list of what has been allocated.
    - Code: a function that no other goroutine can interfere with is a
      function.  Everything else is a program [mprog W M A] (Sched.v): a tree
      of atomic steps on the shared world [W], one step per critical section
      or unprotected access, which may wait ([await]), start goroutines ([Go],
      [GoLoop]) and call methods by name ([Call], which makes calls through
      interfaces that lead back to the caller a structural recursion).  A
      [config] is the world with its goroutines, [cstep] lets one of them take
      a step, and [reachable] is its closure: it contains every interleaving.
    - [exec] runs a program alone to its end.  Its argument [calls n] lets
      calls nest at most [n] deep; theorems state a depth that is enough
      ([S (S n)] for any [n]) and give the result, so that the code returns is
      part of what they show.  [FormatInt] uses at most 20 digits, which holds
      every int64.
    - Safety.v proves invariants of all interleavings: [own I R Pre w o p Q]
      says that [p], started with the exclusive tokens [o], keeps the invariant
      [I] and the history relation [R] at each step whatever the other
      goroutines do meanwhile; [reachable_own] is its adequacy.  What a
      goroutine still owns when it ends may have to be of some kind (the class
      [Lasting]); [reachable_twice] then says what holds when all have ended.
    - [exec_env] runs a program against a list of steps of its environment,
      one for each time it waits (the answer to a request, say);
      [exec_env_reachable] says that this is one of the runs.

    ** The parts, and where they are

    - The Engine.IO packet codec: [engineio/transport/packet.go] in
      EnginePacket.v, over Base64.v.
    - The Engine.IO server: the shared structs of [engineio/socket.go],
      [server.go], [transport/polling.go] and [transport/websocket.go] in
      EngineTypes.v; [options.go], [errors.go] and the handshake data in
      EngineOptions.v; then one file per source file: Polling.v, Websocket.v,
      EngineSocket.v and EngineServer.v.  A request is an exchange with its
      [ResponseWriter]; [serve_request] is net/http calling [ServeHTTP]; the
      WebSocket library is the class [WebsocketConn]; the layer above is the
      record [user]; an armed timer may fire at any moment.
    - The Engine.IO client: the structs of [engineio/client.go] and
      [client_transport.go] in ClientTypes.v, the transports in
      ClientTransport.v, the client in ClientEngine.v, and the decoding of the
      open packet's JSON in OpenPacket.v.  Requests and dials are under way
      until the environment answers them; contexts are flags that may be set
      at any time; [url.Parse] is the caller's.
    - The Socket.IO packet codec: [socketio/packet.go] in SioPacket.v, over
      Utf8.v, Strconv.v, FixedFloat.v, Value.v and Json.v, which model what it
      uses of unicode/utf8, strconv and encoding/json.
    - The Socket.IO server: [ack.go] in AckTable.v, [adapter.go] in Adapter.v
      (the class [Adapter] with its laws, and the in-memory adapter that meets
      them), [emitter.go] in Emitter.v, the incoming queue of [server.go] in
      PacketQueue.v, and [server.go], [namespace.go] and [socket.go] in
      SioServer.v; the configuration of [server.go], its [ServeHTTP] and the
      CORS layer in SioHttp.v, over the response writers of net/http.
    - The Socket.IO client: the structs of [socketio/client.go] and the
      runtime it uses (contexts, channels of capacity one) in SioClientTypes.v,
      its methods in SioClient.v.  It shares PacketQueue.v, AckTable.v,
      Emitter.v and the packet functions of SioServer.v.  The loop of
      [reconnectLoop] is the method [MReconnectLoop], with its variables as
      arguments.  [float64] and the random numbers are parameters.

    - The example programs, applications of the two libraries:
      [examples/chat-server/server.go] in ChatServer.v, [examples/chat-client/client.go]
      in ChatClient.v; the handlers they register are the users of SioServer.v
      and SioClient.v, what they log and print is the application's state.

    The Socket.IO server sees an Engine.IO session as a connection with a log
    of the frames handed to it; the callbacks the Engine.IO server makes
    ([UpConnect], [UpData], [UpClose]) are the entries of SioServer.v.  The
    Socket.IO client sees the Engine.IO client in the same way: a dial is under
    way until the environment answers it, [SendMessage] adds to a log, and the
    environment delivers messages and ends sessions ([eng_data], [eng_ends]).

    ** What is proved

    - Codecs: encoding and decoding are inverse for packets and payloads of
      both protocols, and for binary attachments; which inputs are accepted;
      which prefix of a payload is decoded under a limit; bounds on ids.
    - All interleavings: [EngineSafety.engine_invariant] (no channel is closed
      twice, no response is written twice or after its handler has returned,
      each parked response belongs to one transport and one waiting handler),
      proved over the tokens of EngineInvariant.v;
      [ClientSafety.client_invariant] (one poll in flight at most, a polling
      transport counts every request it has sent and not been answered and no
      request when its goroutines are over, no timer outlives its session, the
      user is told of its end at most once), over ClientInvariant.v and, for
      the counters, the tokens of ClientRequests.v;
      [SioInvariant.server_invariant] (every id resolves to a socket of its
      namespace, broadcasts stay inside it, frames are never taken back);
      [SioClientSafety.sio_client_invariant] (a namespace waited for has an
      empty channel of its own, so that telling it never blocks; sessions and
      the client are never reopened).
    - Operations run alone, EngineHandlers.v and EngineSessions.v: request
      verification, rejection, handshake, poll, post, heartbeat (the ping leaves
      by a parked poll, by the WebSocket connection or waits in the buffer),
      close, upgrade; ClientHandlers.v: the same for the client, against a
      network that answers, and the upgrade also against one that fails at each
      of its requests ([ClientHandlers.upgrade_fails]); SioHandlers.v and SioWire.v: connect, disconnect, events,
      acknowledgements, broadcasts, the frames on the wire; SioClientHandlers.v:
      the client sends what the server would, connects namespaces, emits,
      acknowledges; SioClientSessions.v: closing, the end of a session, what a
      reconnection restores, its backoff with and without jitter, and when it
      gives up.
    - The two sides together, SioEndToEnd.v: the frames one side hands to its
      session are read by the other ([server_reads], [client_reads]); a client
      that joins a namespace and the server agree on the outcome and the id, and
      a call runs its callback once with what the server's handlers returned.
      Below it, EngineEndToEnd.v, with HTTP between them: the first poll of a
      client that dials makes both sides hold the same session, and in a session
      over polling what either side sends reaches the user of the other, once
      and in its order.  FullStack.v puts one on the other: Socket.IO packets
      sent by both sides cross HTTP.
    - The chat: the handlers of the server refine an abstract chat of rooms
      ([ChatServer.chat_step]); a typed command is parsed as it is meant
      (ChatClient.v); and a line typed at one client makes the others print it
      (ChatEndToEnd.v).
    - The HTTP entry, SioHttp.v: which origins are allowed, what is answered
      before the engine sees the request, and that the CORS layer otherwise
      only adds its headers.
    - Components: acknowledgements run at most once; the queue is a FIFO; the
      in-memory adapter refines the membership relation; when a handler call
      panics.
    - Runs that go wrong, as reachable configurations: EngineRaces.v,
      ClientRaces.v, SioClientRaces.v and [SioWire.attachments_mix].
      EngineDemo.v, ClientDemo.v and SioClientDemo.v are the concrete networks
      and applications they use.

    ** Not modelled

    The loggers of the libraries and the documentation files are left out: they
    change no state of the library.  Durations are data only: that a timer
    fires is possible at any time, never certain.  [url.Parse], and case folding
    beyond ASCII, are parameters of SioHttp.v; the hijacking of a response by a
    WebSocket upgrade ([corsWriter.Unwrap]) is not in its response writers. *)

From Stdlib Require Export ZArith Lia.
From Stdlib Require Export Strings.Byte.
From stdpp Require Export base tactics option numbers strings gmap.
From stdpp Require Export list.

#[global] Set Default Goal Selector "!".
#[global] Open Scope Z_scope.
#[global] Open Scope stdpp_scope.

(** ** Bytes

    Go's [[]byte] is a list of bytes; Go's [string] is a [string] (a byte
    sequence too), the two conversions are [bytes_of] and [string_of]. *)

Abbreviation bytes := (list Byte.byte).

#[export] Instance byte_eq_decision : EqDecision Byte.byte := Byte.byte_eq_dec.

Definition bytes_of (s : string) : bytes := String.list_byte_of_string s.
Definition string_of (b : bytes) : string := String.string_of_list_byte b.

Lemma bytes_of_string_of b : bytes_of (string_of b) = b.
Proof. apply String.list_byte_of_string_of_list_byte. Qed.

Lemma string_of_bytes_of s : string_of (bytes_of s) = s.
Proof. apply String.string_of_list_byte_of_string. Qed.

(** The numeric value of a byte, and the byte of a number (taken mod 256, as
    Go's conversion [byte(x)] does). *)
Definition byte_val (b : Byte.byte) : Z := Z.of_N (Byte.to_N b).

Definition byte_of_val (z : Z) : Byte.byte :=
  default Byte.x00 (Byte.of_N (Z.to_N (z mod 256))).

Lemma byte_val_bounds b : 0 <= byte_val b < 256.
Proof. unfold byte_val. pose proof (Byte.to_N_bounded b). lia. Qed.

Lemma byte_of_val_val b : byte_of_val (byte_val b) = b.
Proof.
  unfold byte_of_val. rewrite Z.mod_small by apply byte_val_bounds.
  unfold byte_val. rewrite N2Z.id. by rewrite Byte.of_to_N.
Qed.

Lemma byte_val_of_val z : 0 <= z < 256 → byte_val (byte_of_val z) = z.
Proof.
  intros Hz. unfold byte_of_val, byte_val. rewrite Z.mod_small by lia.
  destruct (Byte.of_N (Z.to_N z)) as [b|] eqn:E; simpl.
  - apply Byte.to_of_N in E. rewrite E. lia.
  - apply Byte.of_N_None_iff in E. lia.
Qed.

Lemma byte_val_inj b1 b2 : byte_val b1 = byte_val b2 → b1 = b2.
Proof. intros H. rewrite <- (byte_of_val_val b1), <- (byte_of_val_val b2). by f_equal. Qed.

(** [len(b)] as Go's [int]. *)
Definition blen (b : bytes) : Z := Z.of_nat (length b).

Lemma blen_nonneg b : 0 <= blen b.
Proof. unfold blen. lia. Qed.

Lemma blen_app b1 b2 : blen (b1 ++ b2) = blen b1 + blen b2.
Proof. unfold blen. rewrite length_app. lia. Qed.

Lemma blen_cons c b : blen (c :: b) = 1 + blen b.
Proof. unfold blen. simpl. lia. Qed.

(** ** Results: Go's [(T, error)] pairs *)

Inductive result (E A : Type) : Type :=
| Ok (a : A)
| Err (e : E).
Arguments Ok {E A} a.
Arguments Err {E A} e.

#[export] Instance result_ret E : MRet (result E) := λ A a, Ok a.
#[export] Instance result_bind E : MBind (result E) :=
  λ A B f m, match m with Ok a => f a | Err e => Err e end.
#[export] Instance result_fmap E : FMap (result E) :=
  λ A B f m, match m with Ok a => Ok (f a) | Err e => Err e end.

Definition is_ok {E A} (r : result E A) : bool :=
  match r with Ok _ => true | Err _ => false end.

Definition option_to_result {E A} (e : E) (o : option A) : result E A :=
  match o with Some a => Ok a | None => Err e end.

#[export] Instance result_eq_dec {E A} `{EqDecision E} `{EqDecision A} : EqDecision (result E A).
Proof. solve_decision. Defined.

(** [f] over a list, failing if one call fails. *)
Definition option_map_list {A B} (f : A → option B) : list A → option (list B) :=
  fix go l := match l with
              | [] => Some []
              | a :: l' => match f a with
                           | Some b => match go l' with Some bs => Some (b :: bs) | None => None end
                           | None => None
                           end
              end.

Lemma option_map_list_Some {A B} (f : A → option B) l bs :
  option_map_list f l = Some bs ↔ Forall2 (λ a b, f a = Some b) l bs.
Proof.
  revert bs. induction l as [|a l IH]; intros bs; simpl.
  - split; [intros [= <-]; constructor|by intros ->%Forall2_nil_inv_l].
  - split.
    + destruct (f a) eqn:Ha; [|done]. destruct (option_map_list f l) eqn:Hl; [|done].
      intros [= <-]. constructor; [done|]. by apply IH.
    + intros (b & bs' & Hb & Hf & ->)%Forall2_cons_inv_l. rewrite Hb.
      by rewrite (proj2 (IH bs') Hf).
Qed.

(** Computations over a state that may fail and keep the state reached. *)
Definition SE (S E A : Type) : Type := S → result E A * S.

#[export] Instance SE_ret S E : MRet (SE S E) := λ A a s, (Ok a, s).
#[export] Instance SE_bind S E : MBind (SE S E) := λ A B f m s,
  match m s with (Ok a, s') => f a s' | (Err e, s') => (Err e, s') end.

Definition SE_map {S E A B} (f : A → SE S E B) : list A → SE S E (list B) :=
  fix go l := match l with
              | [] => mret []
              | a :: l' => b ← f a; bs ← go l'; mret (b :: bs)
              end.

(** ** Splitting and joining on a separator

    [split_on sep l] is Go's [bytes.Split(l, []byte{sep})]: it always has at
    least one part, and [join_with] is its inverse. *)
Section SplitJoin.
Context {A : Type} `{EqDecision A}.
Implicit Types (sep x : A) (l : list A) (ls : list (list A)).

Fixpoint split_on sep l : list (list A) :=
  match l with
  | [] => [[]]
  | x :: l' =>
      if decide (x = sep) then [] :: split_on sep l'
      else match split_on sep l' with
           | [] => [[x]]
           | p :: ps => (x :: p) :: ps
           end
  end.

Fixpoint join_with sep ls : list A :=
  match ls with
  | [] => []
  | [p] => p
  | p :: ps => p ++ sep :: join_with sep ps
  end.

Lemma split_on_nonempty sep l : split_on sep l ≠ [].
Proof. destruct l; simpl; [done|]. case_decide; [done|]. by case_match. Qed.

Lemma join_with_cons sep p ls :
  ls ≠ [] → join_with sep (p :: ls) = p ++ sep :: join_with sep ls.
Proof. by destruct ls. Qed.

Lemma join_split sep l : join_with sep (split_on sep l) = l.
Proof.
  induction l as [|x l IH]; simpl; [done|].
  pose proof (split_on_nonempty sep l) as Hne.
  case_decide as Hx.
  - rewrite join_with_cons by done. rewrite IH. by subst.
  - destruct (split_on sep l) as [|p ps] eqn:E; [done|].
    destruct ps; simpl in *; congruence.
Qed.

Lemma split_on_part sep p : sep ∉ p → split_on sep p = [p].
Proof.
  induction p as [|x p IH]; intros Hni; simpl; [done|].
  apply not_elem_of_cons in Hni as [Hx Hp].
  case_decide; [congruence|]. by rewrite IH.
Qed.

Lemma split_on_app_sep sep p l :
  sep ∉ p → split_on sep (p ++ sep :: l) = p :: split_on sep l.
Proof.
  induction p as [|x p IH]; intros Hni; simpl.
  - by case_decide.
  - apply not_elem_of_cons in Hni as [Hx Hp].
    case_decide; [congruence|]. by rewrite IH.
Qed.

Lemma split_join sep ls :
  ls ≠ [] → Forall (λ p, sep ∉ p) ls → split_on sep (join_with sep ls) = ls.
Proof.
  intros Hne Hall. induction Hall as [|p ls Hp Hall IH]; [done|].
  destruct ls as [|q ls].
  - simpl. by apply split_on_part.
  - rewrite join_with_cons by done. rewrite split_on_app_sep by done.
    by rewrite IH.
Qed.

Lemma split_on_no_sep sep l : Forall (λ p, sep ∉ p) (split_on sep l).
Proof.
  induction l as [|x l IH]; simpl; [by apply Forall_singleton, not_elem_of_nil|].
  case_decide.
  - apply Forall_cons. split; [by apply not_elem_of_nil|done].
  - destruct (split_on sep l) as [|p ps].
    + apply Forall_singleton. by apply not_elem_of_cons; split; [|apply not_elem_of_nil].
    + apply Forall_cons in IH as [Hp Hps]. apply Forall_cons. split; [|done].
      by apply not_elem_of_cons.
Qed.
End SplitJoin.

(** ** Scanning *)

(** The scanning loops [for j < len(data) && data[j] != stop]: what comes
    before the first byte that satisfies [stop], and the rest from it on. *)
Fixpoint scan (stop : Byte.byte → bool) (s : bytes) : bytes * bytes :=
  match s with
  | [] => ([], [])
  | c :: s' => if stop c then ([], s)
               else let '(a, b) := scan stop s' in (c :: a, b)
  end.

Lemma scan_stop stop a c b :
  Forall (λ x, stop x = false) a → stop c = true → scan stop (a ++ c :: b) = (a, c :: b).
Proof. intros Ha Hc. induction Ha as [|x a Hx Ha IH]; simpl; [by rewrite Hc|]. by rewrite Hx, IH. Qed.

Lemma scan_end stop a : Forall (λ x, stop x = false) a → scan stop a = (a, []).
Proof. intros Ha. induction Ha as [|x a Hx Ha IH]; simpl; [done|]. by rewrite Hx, IH. Qed.

Lemma scan_none_stop stop s a b : scan stop s = (a, b) → Forall (λ c, stop c = false) a.
Proof.
  revert a b. induction s as [|c s IH]; intros a b; simpl; [intros [= <- <-]; constructor|].
  destruct (stop c) eqn:Hc; [intros [= <- <-]; constructor|].
  destruct (scan stop s) as [a' b']. intros [= <- <-]. constructor; [done|]. by eapply IH.
Qed.

(** ** Running a fallible function over a list *)

(** The longest list of results before the first error, with that error. *)
Fixpoint map_until {E A B} (f : A → result E B) (l : list A) : list B * option E :=
  match l with
  | [] => ([], None)
  | a :: l' =>
      match f a with
      | Err e => ([], Some e)
      | Ok b => let '(bs, e) := map_until f l' in (b :: bs, e)
      end
  end.

Lemma map_until_ok {E A B} (f : A → result E B) (g : A → B) l :
  Forall (λ a, f a = Ok (g a)) l → map_until f l = (g <$> l, None).
Proof. induction 1 as [|a l Ha _ IH]; simpl; [done|]. by rewrite Ha, IH. Qed.

(** ** Tactics *)

(** Case on every [match]/[if] of the goal or the hypotheses that blocks. *)
Ltac bust := repeat (case_match || case_decide); simplify_eq/=.

(** Destruct the variable of a small finite type and compute. *)
Ltac by_enum x := destruct x; vm_compute; congruence.

(** ** Hint databases

    [gosio] holds the invariants' preservation lemmas and simple facts of the
    components, [gosio_simp] the rewriting rules of their accessors. *)
Create HintDb gosio.
Create Rewrite HintDb gosio_simp.
#[export] Hint Rewrite bytes_of_string_of string_of_bytes_of blen_app blen_cons
  byte_of_val_val : gosio_simp.
#[export] Hint Resolve byte_val_bounds blen_nonneg split_on_nonempty : gosio.

(** An update in place. *)
Lemma alter_as_insert {A : Type} (f : A → A) i (l : list A) a :
  l !! i = Some a → alter f i l = <[i := f a]> l.
Proof.
  intros Ha. apply list_eq. intros j. destruct (decide (i = j)) as [->|Hne].
  - rewrite list_lookup_alter_eq, Ha. rewrite list_lookup_insert_eq; [done|]. by eapply lookup_lt_Some.
  - by rewrite list_lookup_alter_ne, list_lookup_insert_ne.
Qed.

(** The last element. *)
Lemma alter_snoc {A : Type} (f : A → A) (l : list A) a : alter f (length l) (l ++ [a]) = l ++ [f a].
Proof. induction l as [|b l IH]; [done|]. simpl. f_equal. apply IH. Qed.

Lemma lookup_snoc {A : Type} (l : list A) a : (l ++ [a]) !! length l = Some a.
Proof. by apply list_lookup_middle. Qed.

Lemma insert_snoc {A : Type} (l : list A) a b : <[length l := b]> (l ++ [a]) = l ++ [b].
Proof. induction l as [|c l IH]; [done|]. simpl. f_equal. apply IH. Qed.

(** ** Counting *)

Section Count.
Context {A B : Type} `{EqDecision B} (f : A → option B).

Definition one (b : B) (a : A) : nat := if decide (f a = Some b) then 1 else 0.
Fixpoint cnt (b : B) (l : list A) : nat :=
  match l with [] => 0%nat | a :: l' => (one b a + cnt b l')%nat end.

Lemma cnt_app b l1 l2 : cnt b (l1 ++ l2) = (cnt b l1 + cnt b l2)%nat.
Proof. induction l1 as [|a l1 IH]; simpl; lia. Qed.

Lemma cnt_alter b g i l a :
  l !! i = Some a → (cnt b (alter g i l) + one b a = cnt b l + one b (g a))%nat.
Proof.
  revert i. induction l as [|a' l IH]; intros [|i] Hi; simplify_eq/=; [lia|].
  specialize (IH i Hi). change (list_alter g i l) with (alter g i l). lia.
Qed.

Lemma cnt_alter_same b g i l :
  (∀ a, l !! i = Some a → f (g a) = f a) → cnt b (alter g i l) = cnt b l.
Proof.
  intros Hg. destruct (l !! i) as [a|] eqn:Hi.
  - pose proof (cnt_alter b g i l a Hi) as Hc. unfold one in Hc. rewrite Hg in Hc by done. lia.
  - clear Hg. revert i Hi. induction l as [|a l IH]; intros [|i] Hi; simplify_eq/=; [done..|].
    change (list_alter g i l) with (alter g i l). by rewrite IH.
Qed.

Lemma cnt_pos b l i a : l !! i = Some a → f a = Some b → (1 ≤ cnt b l)%nat.
Proof.
  revert i. induction l as [|a' l IH]; intros [|i] Hi Hf; simplify_eq/=.
  - unfold one. rewrite decide_True by done. lia.
  - specialize (IH i Hi Hf). lia.
Qed.

Lemma cnt_unique b l i j a a' :
  (cnt b l ≤ 1)%nat → l !! i = Some a → l !! j = Some a' → f a = Some b → f a' = Some b → i = j.
Proof.
  revert i j. induction l as [|a0 l IH]; intros [|i] [|j] Hc Hi Hj Hf Hf'; simplify_eq/=; [done|..].
  - pose proof (cnt_pos b l j a' Hj Hf'). unfold one in Hc. rewrite decide_True in Hc by done. lia.
  - pose proof (cnt_pos b l i a Hi Hf). unfold one in Hc. rewrite decide_True in Hc by done. lia.
  - f_equal. eapply IH; eauto; lia.
Qed.
End Count.
