(* ===== verification/Base64.v ===== *)
(** * Base64: what the transport uses of Go's [encoding/base64]

    [StdEncoding] with padding, not strict: [base64_encode] is
    [EncodeToString], [base64_decode] is [Decode] ([None] for a
    [CorruptInputError]).  Go's decoder skips [\r] and [\n] anywhere in its
    input, so the newlines are dropped first; it accepts non-zero trailing
    bits in the last group, and padding only in the last group. *)

From S2P Require Import Prelude.

Definition b64_alphabet : bytes :=
  bytes_of "ABCDEFGHIJKLMNOPQRSTUVWXYZabcdefghijklmnopqrstuvwxyz0123456789+/".

Definition b64_pad : Byte.byte := "="%byte.

(** The character of a 6-bit value, and Go's [decodeMap]. *)
Definition b64_char (n : Z) : Byte.byte := default Byte.x00 (b64_alphabet !! Z.to_nat n).

Definition b64_val (c : Byte.byte) : option Z :=
  Z.of_nat ∘ fst <$> list_find (λ c', c' = c) b64_alphabet.

Fixpoint base64_encode (data : bytes) : bytes :=
  match data with
  | [] => []
  | [a] =>
      let v := byte_val a * 65536 in
      [b64_char (v / 262144); b64_char (v / 4096 mod 64); b64_pad; b64_pad]
  | [a; b] =>
      let v := byte_val a * 65536 + byte_val b * 256 in
      [b64_char (v / 262144); b64_char (v / 4096 mod 64);
       b64_char (v / 64 mod 64); b64_pad]
  | a :: b :: c :: rest =>
      let v := byte_val a * 65536 + byte_val b * 256 + byte_val c in
      b64_char (v / 262144) :: b64_char (v / 4096 mod 64)
      :: b64_char (v / 64 mod 64) :: b64_char (v mod 64) :: base64_encode rest
  end.

(** The bytes of a 24-bit group value. *)
Definition b64_bytes3 (v : Z) : bytes :=
  [byte_of_val (v / 65536); byte_of_val (v / 256); byte_of_val v].

Fixpoint b64_groups (src : bytes) : option bytes :=
  match src with
  | [] => Some []
  | c0 :: c1 :: c2 :: c3 :: rest =>
      match b64_val c0, b64_val c1 with
      | Some v0, Some v1 =>
          match b64_val c2, b64_val c3 with
          | Some v2, Some v3 =>
              app (b64_bytes3 (v0 * 262144 + v1 * 4096 + v2 * 64 + v3)) <$> b64_groups rest
          | Some v2, None =>
              if decide (c3 = b64_pad ∧ rest = [])
              then Some (take 2 (b64_bytes3 (v0 * 262144 + v1 * 4096 + v2 * 64)))
              else None
          | None, _ =>
              if decide (c2 = b64_pad ∧ c3 = b64_pad ∧ rest = [])
              then Some (take 1 (b64_bytes3 (v0 * 262144 + v1 * 4096)))
              else None
          end
      | _, _ => None
      end
  | _ => None
  end.

Definition b64_newline (c : Byte.byte) : bool :=
  bool_decide (c = "010"%byte) || bool_decide (c = "013"%byte).

Definition base64_decode (src : bytes) : option bytes :=
  b64_groups (filter (λ c, b64_newline c = false) src).

(** [EncodedLen]. *)
Definition base64_encoded_len (n : Z) : Z := (n + 2) / 3 * 4.

(** ** Facts *)

Lemma b64_char_ok n : 0 <= n < 64 →
  b64_val (b64_char n) = Some n ∧ b64_newline (b64_char n) = false
  ∧ b64_char n ≠ b64_pad ∧ b64_char n ∈ b64_alphabet.
Proof.
  intros Hn.
  assert (Forall (λ k, b64_val (b64_char k) = Some k ∧ b64_newline (b64_char k) = false
    ∧ b64_char k ≠ b64_pad ∧ b64_char k ∈ b64_alphabet) (seqZ 0 64)) as HF.
  { apply (bool_decide_unpack _). by vm_compute. }
  rewrite Forall_forall in HF. apply HF. apply elem_of_seqZ. lia.
Qed.

Lemma b64_val_char n : 0 <= n < 64 → b64_val (b64_char n) = Some n.
Proof. intros H. by apply b64_char_ok. Qed.

Lemma b64_val_pad : b64_val b64_pad = None.
Proof. reflexivity. Qed.

(** Every character the encoder writes is in the alphabet or the padding. *)
Definition b64_out (c : Byte.byte) : Prop := c ∈ b64_alphabet ∨ c = b64_pad.

Lemma byte_list_ind3 (P : bytes → Prop) :
  P [] → (∀ a, P [a]) → (∀ a b, P [a; b]) →
  (∀ a b c l, P l → P (a :: b :: c :: l)) → ∀ l, P l.
Proof.
  intros H0 H1 H2 H3. fix IH 1. intros [|a [|b [|c l]]];
    [done|apply H1|apply H2|exact (H3 _ _ _ _ (IH l))].
Qed.

Lemma base64_encode_out data : Forall b64_out (base64_encode data).
Proof.
  unfold b64_out.
  induction data as [|a|a b|a b c l IH] using byte_list_ind3; cbn [base64_encode];
    repeat apply List.Forall_cons; try done; try (by right); left; apply b64_char_ok;
    repeat match goal with
    | a : Byte.byte |- _ =>
        let H := fresh in pose proof (byte_val_bounds a) as H; revert H;
        generalize (byte_val a); clear a; intros ?z ?
    end; Z.to_euclidean_division_equations; lia.
Qed.

Lemma b64_out_not_newline c : b64_out c → b64_newline c = false.
Proof.
  intros [Hc| ->]; [|reflexivity].
  assert (Forall (λ c, b64_newline c = false) b64_alphabet) as HF
    by (apply (bool_decide_unpack _); by vm_compute).
  rewrite Forall_forall in HF. by apply HF.
Qed.

Lemma filter_no_newline l : Forall b64_out l → filter (λ c, b64_newline c = false) l = l.
Proof.
  induction 1 as [|c l Hc _ IH]; [done|].
  rewrite filter_cons_True by (by apply b64_out_not_newline). by rewrite IH.
Qed.

(** The three bytes of a group value. *)
Lemma b64_bytes3_val a b c v :
  v = byte_val a * 65536 + byte_val b * 256 + byte_val c → b64_bytes3 v = [a; b; c].
Proof.
  intros ->. pose proof (byte_val_bounds a). pose proof (byte_val_bounds b).
  pose proof (byte_val_bounds c). unfold b64_bytes3.
  assert (∀ x y, x mod 256 = byte_val y → byte_of_val x = y) as Hx.
  { intros x y Hxy. rewrite <- (byte_of_val_val y), <- Hxy. unfold byte_of_val.
    by rewrite Z.mod_mod. }
  f_equal; [apply Hx|f_equal; [apply Hx|f_equal; apply Hx]];
    Z.to_euclidean_division_equations; lia.
Qed.

Lemma b64_regroup v : 0 <= v < 16777216 →
  v / 262144 * 262144 + v / 4096 mod 64 * 4096 + v / 64 mod 64 * 64 + v mod 64 = v.
Proof. intros. Z.to_euclidean_division_equations. lia. Qed.

Lemma b64_groups_encode data : b64_groups (base64_encode data) = Some data.
Proof.
  induction data as [|a|a b|a b c l IH] using byte_list_ind3;
    cbn [base64_encode b64_groups]; [done|..].
  all: pose proof (byte_val_bounds a).
  - set (v := byte_val a * 65536).
    assert (0 <= v / 262144 < 64 ∧ 0 <= v / 4096 mod 64 < 64) as [H1 H2]
      by (subst v; Z.to_euclidean_division_equations; lia).
    rewrite !b64_val_char, !b64_val_pad, decide_True by done.
    rewrite (b64_bytes3_val a x00 x00); [done|].
    change (byte_val x00) with 0. subst v. Z.to_euclidean_division_equations; lia.
  - pose proof (byte_val_bounds b). set (v := byte_val a * 65536 + byte_val b * 256).
    assert (0 <= v / 262144 < 64 ∧ 0 <= v / 4096 mod 64 < 64 ∧ 0 <= v / 64 mod 64 < 64)
      as (H1 & H2 & H3) by (subst v; Z.to_euclidean_division_equations; lia).
    rewrite !b64_val_char, !b64_val_pad, decide_True by done.
    rewrite (b64_bytes3_val a b x00); [done|].
    change (byte_val x00) with 0. subst v. Z.to_euclidean_division_equations; lia.
  - pose proof (byte_val_bounds b). pose proof (byte_val_bounds c).
    set (v := byte_val a * 65536 + byte_val b * 256 + byte_val c).
    assert (0 <= v < 16777216) as Hv by lia.
    rewrite !b64_val_char by (Z.to_euclidean_division_equations; lia).
    rewrite b64_regroup by done. rewrite IH, (b64_bytes3_val a b c) by done. done.
Qed.

(** Decoding undoes encoding. *)
Lemma base64_decode_encode data : base64_decode (base64_encode data) = Some data.
Proof.
  unfold base64_decode. rewrite filter_no_newline by apply base64_encode_out.
  apply b64_groups_encode.
Qed.

Lemma base64_encode_length data :
  blen (base64_encode data) = base64_encoded_len (blen data).
Proof.
  unfold base64_encoded_len.
  induction data as [|a|a b|a b c l IH] using byte_list_ind3; try reflexivity.
  cbn [base64_encode]. rewrite !blen_cons, IH.
  generalize (blen l). intros z. Z.to_euclidean_division_equations; lia.
Qed.

#[export] Hint Rewrite base64_decode_encode : gosio_simp.

(** ** [RawURLEncoding.EncodeToString]: the URL alphabet, no padding *)
Definition url_char (c : Byte.byte) : Byte.byte :=
  if decide (c = "+"%byte) then "-"%byte else if decide (c = "/"%byte) then "_"%byte else c.

Definition raw_url_encode (data : bytes) : bytes :=
  url_char <$> filter (λ c, c ≠ b64_pad) (base64_encode data).

Lemma url_char_inj c1 c2 : c1 ∈ b64_alphabet → c2 ∈ b64_alphabet → url_char c1 = url_char c2 → c1 = c2.
Proof.
  assert (Forall (λ c1, Forall (λ c2, url_char c1 = url_char c2 → c1 = c2) b64_alphabet) b64_alphabet)
    as Hall by (apply (bool_decide_unpack (Forall _ _)); by vm_compute).
  intros H1 H2. rewrite Forall_forall in Hall. specialize (Hall c1 H1).
  rewrite Forall_forall in Hall. by apply Hall.
Qed.

(** Whole groups have no padding. *)
Lemma base64_encode_no_pad data :
  (length data mod 3 = 0)%nat → Forall (λ c, c ∈ b64_alphabet) (base64_encode data).
Proof.
  induction data as [|a|a b|a b c data IH] using byte_list_ind3; intros Hm; [constructor|done..|].
  assert (length data mod 3 = 0)%nat as Hd.
  { cbn [length] in Hm. replace (S (S (S (length data)))) with (length data + 1 * 3)%nat in Hm by lia.
    by rewrite Nat.Div0.mod_add in Hm. }
  pose proof (byte_val_bounds a). pose proof (byte_val_bounds b). pose proof (byte_val_bounds c).
  cbn [base64_encode]. repeat (apply List.Forall_cons); [..|by apply IH];
    apply (b64_char_ok _); first [by apply Z.mod_pos_bound|split; [by apply Z.div_pos; lia|apply Z.div_lt_upper_bound; lia]].
Qed.

Lemma raw_url_encode_inj d1 d2 :
  (length d1 mod 3 = 0)%nat → (length d2 mod 3 = 0)%nat →
  raw_url_encode d1 = raw_url_encode d2 → d1 = d2.
Proof.
  intros H1%base64_encode_no_pad H2%base64_encode_no_pad. unfold raw_url_encode.
  assert (∀ l, Forall (λ c, c ∈ b64_alphabet) l → filter (λ c, c ≠ b64_pad) l = l) as Hf.
  { induction 1 as [|c l Hc Hl IH]; [done|]. rewrite filter_cons_True, IH; [done|].
    intros ->. revert Hc. apply (bool_decide_unpack (¬ _)). by vm_compute. }
  rewrite !Hf by done. intros He.
  assert (base64_encode d1 = base64_encode d2) as Heq.
  { revert H1 H2 He. generalize (base64_encode d1) (base64_encode d2). intros l1 l2 H1. revert l2.
    induction H1 as [|c l Hc Hl IH]; intros [|c2 l2] H2; [done..|]. rewrite !fmap_cons.
    apply Forall_cons in H2 as [Hc2 Hl2]. intros [= Hu He]. f_equal; [by apply url_char_inj|by apply IH]. }
  apply (f_equal base64_decode) in Heq. rewrite !base64_decode_encode in Heq. congruence.
Qed.
