(* ===== verification/Strconv.v ===== *)
(** * Strconv: what the packet codec uses of Go's [strconv]

    [FormatInt]/[Itoa] in base 10, and [ParseInt(s, 10, 64)]/[Atoi] with
    their result on overflow: [ParseInt] returns the nearest [int64] together
    with a range error, [Atoi] fails.  [FormatInt] uses twenty steps of fuel,
    one per digit: an [int64] has at most nineteen ([FormatInt_fuel]). *)

From S2P Require Import Prelude.

Definition int64_max : Z := 9223372036854775807.
Definition int64_min : Z := -9223372036854775808.

Definition isDigit (c : Byte.byte) : bool :=
  (byte_val "0" <=? byte_val c) && (byte_val c <=? byte_val "9").

Definition digit_char (d : Z) : Byte.byte := byte_of_val (48 + d).
Definition digit_val (c : Byte.byte) : Z := byte_val c - 48.

Fixpoint format_digits (fuel : nat) (n : Z) (acc : bytes) : bytes :=
  match fuel with
  | O => acc
  | S fuel' =>
      let acc' := digit_char (n mod 10) :: acc in
      if n <? 10 then acc' else format_digits fuel' (n / 10) acc'
  end.

Definition minus_sign : Byte.byte := "-"%byte.

Definition FormatInt (n : Z) : bytes :=
  if n <? 0 then minus_sign :: format_digits 20 (- n) [] else format_digits 20 n [].

(** [fmt.Sprintf("unknown(%d)", c)], the name of a packet type that is none. *)
Definition unknown_type (c : Byte.byte) : string := "unknown(" +:+ string_of (FormatInt (byte_val c)) +:+ ")".

Definition digits_val (s : bytes) : Z := foldl (λ acc c, acc * 10 + digit_val c) 0 s.

(** [ParseUint]'s test: a non-empty string of digits. *)
Definition all_digits (s : bytes) : bool := negb (bool_decide (s = [])) && forallb isDigit s.

Inductive num_error := ErrSyntax | ErrRange.

#[export] Instance num_error_eq_dec : EqDecision num_error.
Proof. solve_decision. Defined.

(** The value and the error, as Go returns both. *)
Definition ParseInt (s : bytes) : Z * option num_error :=
  let '(neg, ds) :=
    match s with
    | c :: s' => if decide (c = minus_sign) then (true, s')
                 else if decide (c = "+"%byte) then (false, s') else (false, s)
    | [] => (false, [])
    end in
  if negb (all_digits ds) then (0, Some ErrSyntax)
  else let un := digits_val ds in
       if negb neg && (int64_max <? un) then (int64_max, Some ErrRange)
       else if neg && (- int64_min <? un) then (int64_min, Some ErrRange)
       else (if neg then - un else un, None).

Definition Atoi (s : bytes) : result num_error Z :=
  match ParseInt s with (n, None) => Ok n | (_, Some e) => Err e end.

(** ** Facts *)

Lemma digit_char_ok d : 0 <= d < 10 →
  isDigit (digit_char d) = true ∧ digit_val (digit_char d) = d.
Proof.
  intros Hd. unfold isDigit, digit_char, digit_val. rewrite byte_val_of_val by lia.
  change (byte_val "0") with 48. change (byte_val "9") with 57. split; [|lia].
  apply andb_true_iff. split; apply Z.leb_le; lia.
Qed.

Lemma isDigit_not c : isDigit c = true → c ≠ minus_sign ∧ c ≠ "+"%byte ∧ c ≠ "/"%byte ∧ c ≠ ","%byte.
Proof. intros Hd. repeat split; intros ->; discriminate. Qed.

Lemma digits_val_snoc s c : digits_val (s ++ [c]) = digits_val s * 10 + digit_val c.
Proof. unfold digits_val. by rewrite foldl_app. Qed.

Lemma format_digits_acc fuel n acc : format_digits fuel n acc = format_digits fuel n [] ++ acc.
Proof.
  revert n acc. induction fuel as [|fuel IH]; intros n acc; simpl; [done|].
  destruct (n <? 10); [done|]. rewrite IH, (IH _ [_]). by rewrite <- app_assoc.
Qed.

Lemma format_digits_ok fuel n : 0 <= n < 10 ^ Z.of_nat fuel → (0 < fuel)%nat →
  all_digits (format_digits fuel n []) = true ∧ digits_val (format_digits fuel n []) = n.
Proof.
  unfold all_digits. revert n. induction fuel as [|fuel IH]; intros n Hn Hf; [lia|].
  cbn [format_digits]. assert (0 <= n mod 10 < 10) as Hd by (apply Z.mod_pos_bound; lia).
  destruct (digit_char_ok _ Hd) as [Hdig Hval].
  destruct (Z.ltb_spec n 10) as [Hlt|Hge].
  - cbn [forallb]. rewrite Hdig. split; [done|]. unfold digits_val. simpl. rewrite Hval.
    rewrite Z.mod_small; lia.
  - rewrite format_digits_acc. destruct (IH (n / 10)) as [Ha Hv].
    + rewrite Nat2Z.inj_succ, Z.pow_succ_r in Hn by lia.
      split; [apply Z.div_pos; lia|apply Z.div_lt_upper_bound; lia].
    + destruct fuel; [|lia]. simpl in Hn. lia.
    + apply andb_true_iff in Ha as [_ Ha]. rewrite forallb_app, Ha. cbn [forallb].
      rewrite Hdig. split.
      * rewrite bool_decide_eq_false_2; [done|]. by destruct (format_digits fuel (n/10) []).
      * rewrite digits_val_snoc, Hv, Hval. pose proof (Z.div_mod n 10). lia.
Qed.

(** Every [int64] is below the fuel. *)
Lemma FormatInt_fuel n : 0 <= n <= int64_max → 0 <= n < 10 ^ Z.of_nat 20.
Proof. unfold int64_max. intros. split; [lia|]. change (10 ^ Z.of_nat 20) with 100000000000000000000. lia. Qed.

Lemma FormatInt_digits n : 0 <= n <= int64_max →
  all_digits (FormatInt n) = true ∧ digits_val (FormatInt n) = n.
Proof.
  intros Hn. unfold FormatInt. destruct (Z.ltb_spec n 0); [lia|].
  apply format_digits_ok; [by apply FormatInt_fuel|lia].
Qed.

Lemma all_digits_cons s : all_digits s = true →
  ∃ c s', s = c :: s' ∧ isDigit c = true ∧ forallb isDigit s' = true.
Proof.
  unfold all_digits. destruct s as [|c s']; [done|]. simpl.
  intros [Hc Hs]%andb_true_iff. eauto.
Qed.

Lemma all_digits_forallb s : all_digits s = true → forallb isDigit s = true.
Proof. by intros [_ ?]%andb_true_iff. Qed.

Lemma digit_val_nonneg c : isDigit c = true → 0 <= digit_val c < 10.
Proof.
  unfold isDigit, digit_val. change (byte_val "0") with 48. change (byte_val "9") with 57.
  intros [H1%Z.leb_le H2%Z.leb_le]%andb_true_iff. lia.
Qed.

Lemma digits_val_nonneg s : forallb isDigit s = true → 0 <= digits_val s.
Proof.
  induction s as [|c s IH] using rev_ind; [done|]. rewrite forallb_app. simpl.
  intros [Hs [Hc _]%andb_true_iff]%andb_true_iff. rewrite digits_val_snoc.
  pose proof (digit_val_nonneg _ Hc). specialize (IH Hs). lia.
Qed.

(** [ParseInt] on a string of digits: the value, capped at [int64_max]. *)
Lemma ParseInt_digits s : all_digits s = true →
  ParseInt s = (Z.min (digits_val s) int64_max,
                if int64_max <? digits_val s then Some ErrRange else None).
Proof.
  intros Hs. destruct (all_digits_cons _ Hs) as (c & s' & -> & Hc & _).
  unfold ParseInt. destruct (isDigit_not _ Hc) as (H1 & H2 & _).
  rewrite !decide_False by done. rewrite Hs. cbn [negb andb].
  destruct (Z.ltb_spec int64_max (digits_val (c :: s'))); f_equal; lia.
Qed.

Lemma ParseInt_le s n : ParseInt s = (n, None) → n <= int64_max.
Proof.
  unfold ParseInt. destruct (match s with [] => _ | _ => _ end) as [neg ds].
  destruct (all_digits ds) eqn:Hd; simpl; [|done].
  apply all_digits_forallb, digits_val_nonneg in Hd.
  destruct neg; simpl; destruct (Z.ltb_spec int64_max (digits_val ds)); simpl; try done;
    repeat case_match; intros [= <-]; unfold int64_max in *; lia.
Qed.

Lemma ParseInt_FormatInt n : 0 <= n <= int64_max → ParseInt (FormatInt n) = (n, None).
Proof.
  intros Hn. destruct (FormatInt_digits n Hn) as [Ha Hv]. rewrite ParseInt_digits by done.
  rewrite Hv. destruct (Z.ltb_spec int64_max n); [lia|]. f_equal. lia.
Qed.

Lemma Atoi_FormatInt n : 0 <= n <= int64_max → Atoi (FormatInt n) = Ok n.
Proof. intros Hn. unfold Atoi. by rewrite ParseInt_FormatInt. Qed.

#[export] Hint Resolve FormatInt_digits : gosio.

(** ** JSON numbers

    The number grammar of [encoding/json]'s scanner: a sign, an integer part
    without leading zeros, a fraction and an exponent.  [scan_number] reads
    the longest literal at the head and refuses one left incomplete. *)
(** A digit string followed by nothing, or by a byte that is no digit. *)
Lemma scan_digits a b :
  forallb isDigit a = true → (∀ c, head b = Some c → isDigit c = false) →
  scan (λ c, negb (isDigit c)) (a ++ b) = (a, b).
Proof.
  intros Ha Hb. assert (Forall (λ c, negb (isDigit c) = false) a) as HF.
  { apply Forall_forall. intros c Hc. rewrite forallb_forall in Ha.
    rewrite Ha; [done|]. by apply list_elem_of_In. }
  destruct b as [|c b].
  - rewrite app_nil_r. by apply scan_end.
  - apply scan_stop; [done|]. by rewrite (Hb c).
Qed.


(** One digit or more, after [pre]. *)
Definition scan_digits1 (pre s : bytes) : option (bytes * bytes) :=
  match scan (λ c, negb (isDigit c)) s with
  | ([], _) => None
  | (ds, rest) => Some (pre ++ ds, rest)
  end.

Definition scan_int (s : bytes) : option (bytes * bytes) :=
  match s with
  | c :: s' => if decide (c = "0"%byte) then Some ([c], s') else scan_digits1 [] s
  | [] => None
  end.

Definition scan_frac (s : bytes) : option (bytes * bytes) :=
  match s with
  | c :: s' => if decide (c = "."%byte) then scan_digits1 [c] s' else Some ([], s)
  | [] => Some ([], [])
  end.

Definition is_exp (c : Byte.byte) : bool := bool_decide (c = "e"%byte) || bool_decide (c = "E"%byte).
Definition is_sign (c : Byte.byte) : bool := bool_decide (c = "+"%byte) || bool_decide (c = minus_sign).

Definition scan_exp (s : bytes) : option (bytes * bytes) :=
  match s with
  | c :: s' =>
      if is_exp c then
        match s' with
        | c' :: s'' => if is_sign c' then scan_digits1 [c; c'] s'' else scan_digits1 [c] s'
        | [] => None
        end
      else Some ([], s)
  | [] => Some ([], [])
  end.

Definition scan_sign (s : bytes) : bytes * bytes :=
  match s with
  | c :: s' => if decide (c = minus_sign) then ([c], s') else ([], s)
  | [] => ([], [])
  end.

Definition scan_number (s : bytes) : option (bytes * bytes) :=
  let '(sg, s1) := scan_sign s in
  match scan_int s1 with
  | None => None
  | Some (i, s2) =>
      match scan_frac s2 with
      | None => None
      | Some (f, s3) =>
          match scan_exp s3 with
          | None => None
          | Some (e, s4) => Some (sg ++ i ++ f ++ e, s4)
          end
      end
  end.

Definition number_literal (s : bytes) : Prop := scan_number s = Some (s, []).

(** What may follow a number without being part of it. *)
Definition ends_number (rest : bytes) : Prop :=
  ∀ c, head rest = Some c → isDigit c = false ∧ c ≠ "."%byte ∧ is_exp c = false.

Lemma scan_app stop s a b rest :
  (∀ c, head rest = Some c → stop c = true) →
  scan stop s = (a, b) → scan stop (s ++ rest) = (a, b ++ rest).
Proof.
  intros Hr. revert a b. induction s as [|c s IH]; intros a b; simpl.
  - intros [= <- <-]. destruct rest as [|c rest]; [done|]. simpl. by rewrite (Hr c).
  - destruct (stop c); [by intros [= <- <-]|]. destruct (scan stop s) as [a' b'].
    intros [= <- <-]. by rewrite (IH a' b').
Qed.

Lemma scan_digits1_app pre s a b rest :
  ends_number rest → scan_digits1 pre s = Some (a, b) →
  scan_digits1 pre (s ++ rest) = Some (a, b ++ rest).
Proof.
  intros Hr. unfold scan_digits1. destruct (scan _ s) as [ds r] eqn:E.
  rewrite (scan_app _ _ _ _ rest) with (1 := λ c H, f_equal negb (proj1 (Hr c H))) (2 := E).
  destruct ds; [done|]. by intros [= <- <-].
Qed.

Lemma scan_int_app s a b rest :
  ends_number rest → scan_int s = Some (a, b) → scan_int (s ++ rest) = Some (a, b ++ rest).
Proof.
  intros Hr. unfold scan_int. destruct s as [|c s]; [done|]. cbn [app].
  case_decide; [by intros [= <- <-]|]. by apply (scan_digits1_app [] (c :: s)).
Qed.

Lemma scan_frac_app s a b rest :
  ends_number rest → scan_frac s = Some (a, b) → scan_frac (s ++ rest) = Some (a, b ++ rest).
Proof.
  intros Hr. unfold scan_frac. destruct s as [|c s]; cbn [app].
  - intros [= <- <-]. destruct rest as [|c rest]; [done|].
    destruct (Hr c eq_refl) as (_ & Hd & _). by rewrite decide_False.
  - case_decide; [by apply scan_digits1_app|by intros [= <- <-]].
Qed.

Lemma scan_exp_app s a b rest :
  ends_number rest → scan_exp s = Some (a, b) → scan_exp (s ++ rest) = Some (a, b ++ rest).
Proof.
  intros Hr. unfold scan_exp. destruct s as [|c s]; cbn [app].
  - intros [= <- <-]. destruct rest as [|c rest]; [done|].
    destruct (Hr c eq_refl) as (_ & _ & ->). done.
  - destruct (is_exp c); [|by intros [= <- <-]]. destruct s as [|c' s]; [done|]. cbn [app].
    destruct (is_sign c'); [by apply scan_digits1_app|].
    by apply (scan_digits1_app [c] (c' :: s)).
Qed.

(** A literal is read exactly, whatever follows that cannot extend it. *)
Lemma scan_number_app s rest :
  number_literal s → ends_number rest → scan_number (s ++ rest) = Some (s, rest).
Proof.
  unfold number_literal, scan_number. intros Hs Hr.
  destruct s as [|c s]; [discriminate|]. cbn [app scan_sign] in *.
  assert (∀ sg s1, match scan_int s1 with
    | None => None
    | Some (i, s2) => match scan_frac s2 with
      | None => None
      | Some (f, s3) => match scan_exp s3 with
        | None => None
        | Some (e, s4) => Some (sg ++ i ++ f ++ e, s4) end end end = Some (c :: s, []) →
    match scan_int (s1 ++ rest) with
    | None => None
    | Some (i, s2) => match scan_frac s2 with
      | None => None
      | Some (f, s3) => match scan_exp s3 with
        | None => None
        | Some (e, s4) => Some (sg ++ i ++ f ++ e, s4) end end end = Some (c :: s, rest)) as Hgen.
  { intros sg s1. destruct (scan_int s1) as [[i s2]|] eqn:Ei; [|done].
    rewrite (scan_int_app _ _ _ _ Hr Ei).
    destruct (scan_frac s2) as [[f s3]|] eqn:Ef; [|done]. rewrite (scan_frac_app _ _ _ _ Hr Ef).
    destruct (scan_exp s3) as [[e s4]|] eqn:Ee; [|done]. rewrite (scan_exp_app _ _ _ _ Hr Ee).
    by intros [= -> ->]. }
  case_decide; [exact (Hgen [c] s Hs)|exact (Hgen [] (c :: s) Hs)].
Qed.

(** [FormatInt] writes number literals: no leading zero. *)
Lemma format_digits_head fuel n acc : 0 < n < 10 ^ Z.of_nat fuel →
  ∃ c s, format_digits fuel n acc = c :: s ++ acc ∧ isDigit c = true ∧ c ≠ "0"%byte.
Proof.
  revert n acc. induction fuel as [|fuel IH]; intros n acc Hn; [simpl in Hn; lia|].
  cbn [format_digits]. destruct (Z.ltb_spec n 10).
  - exists (digit_char (n mod 10)), []. rewrite Z.mod_small by lia.
    destruct (digit_char_ok n) as [Hd Hv]; [lia|]. split_and!; [done..|].
    intros Hz. rewrite Hz in Hv. revert Hv. change (digit_val "0") with 0. lia.
  - rewrite Nat2Z.inj_succ, Z.pow_succ_r in Hn by lia.
    destruct (IH (n / 10) (digit_char (n mod 10) :: acc)) as (c & s & -> & Hc).
    { split; [apply Z.div_str_pos; lia|apply Z.div_lt_upper_bound; lia]. }
    exists c, (s ++ [digit_char (n mod 10)]). by rewrite <- app_assoc.
Qed.

Lemma scan_number_digits s :
  all_digits s = true → head s ≠ Some "0"%byte → number_literal s.
Proof.
  intros Ha Hz. destruct (all_digits_cons _ Ha) as (c & s' & -> & Hc & Hs').
  destruct (isDigit_not _ Hc) as (Hm & _). unfold number_literal, scan_number, scan_sign.
  rewrite decide_False by done. unfold scan_int. rewrite decide_False by (by intros ->).
  assert (scan (λ c, negb (isDigit c)) (c :: s') = (c :: s', [])) as Hscan.
  { rewrite <- (app_nil_r (c :: s')) at 1. apply scan_digits; [by apply all_digits_forallb|done]. }
  unfold scan_digits1. rewrite Hscan. simpl. by rewrite app_nil_r.
Qed.

Lemma FormatInt_literal n : 0 <= n <= int64_max → number_literal (FormatInt n).
Proof.
  intros Hn. destruct (decide (n = 0)) as [->|]; [by vm_compute|].
  apply scan_number_digits; [by apply FormatInt_digits|]. unfold FormatInt.
  destruct (Z.ltb_spec n 0); [lia|].
  destruct (format_digits_head 20 n []) as (c & s & -> & _ & Hc).
  { pose proof (FormatInt_fuel n Hn). lia. }
  simpl. by intros [= ->].
Qed.
