(* ===== verification/EnginePacket.v ===== *)
(** * EnginePacket: the Engine.IO packet codec

    Models [engineio/transport/packet.go]: the packet types, [EncodePacket],
    [DecodePacket], [EncodePayload], [DecodePayload] and
    [DecodePayloadWithLimit]. *)

From S2P Require Import Prelude.
From S2P Require Import Base64.
From S2P Require Import Strconv.

(** The seven packet types, and the byte each constant stands for. *)
Inductive Type_ := Open | Close | Ping | Pong | Message | Upgrade | Noop.

#[export] Instance Type_eq_dec : EqDecision Type_.
Proof. solve_decision. Defined.

Definition type_byte (t : Type_) : Byte.byte :=
  match t with
  | Open => "0" | Close => "1" | Ping => "2" | Pong => "3"
  | Message => "4" | Upgrade => "5" | Noop => "6"
  end%byte.

(** [t := Type(c); if t < Open || t > Noop] of [DecodePacket]: the constants
    are consecutive, so the range test names exactly one of them. *)
Definition byte_type (c : Byte.byte) : option Type_ :=
  if (byte_val c <? byte_val (type_byte Open)) || (byte_val c >? byte_val (type_byte Noop))
  then None
  else list_find (λ t, type_byte t = c) [Open; Close; Ping; Pong; Message; Upgrade; Noop]
         ≫= λ p, Some p.2.

(** [Type.String]; a [Type] is any byte. *)
Definition type_String (c : Byte.byte) : string :=
  match byte_type c with
  | Some Open => "open" | Some Close => "close" | Some Ping => "ping" | Some Pong => "pong"
  | Some Message => "message" | Some Upgrade => "upgrade" | Some Noop => "noop"
  | None => unknown_type c
  end.

Example type_names : type_String "4" = "message" ∧ type_String "7" = "unknown(55)".
Proof. by vm_compute. Qed.

Record Packet := mkPacket { Type_of : Type_; Data : bytes; IsBinary : bool }.

#[export] Instance Packet_eq_dec : EqDecision Packet.
Proof. solve_decision. Defined.

(** The sentinel errors the codec wraps ([errors.Is] sees the sentinel). *)
Inductive codec_error := ErrInvalidPacket | ErrInvalidPayload | ErrPayloadTooLarge.

#[export] Instance codec_error_eq_dec : EqDecision codec_error.
Proof. solve_decision. Defined.

Definition b64_mark : Byte.byte := "b"%byte.

Definition EncodePacket (p : Packet) (supportsBinary : bool) : bytes :=
  if IsBinary p then
    if supportsBinary then Data p
    else b64_mark :: base64_encode (Data p)
  else type_byte (Type_of p) :: Data p.

Definition DecodePacket (b : bytes) (isBinary : bool) : result codec_error Packet :=
  if isBinary then Ok (mkPacket Message b true)
  else match b with
       | [] => Err ErrInvalidPacket
       | c :: rest =>
           if decide (c = b64_mark) then
             match base64_decode rest with
             | None => Err ErrInvalidPacket
             | Some data => Ok (mkPacket Message data true)
             end
           else match byte_type c with
                | None => Err ErrInvalidPacket
                | Some t => Ok (mkPacket t rest false)
                end
       end.

#[global] Arguments EncodePacket : simpl never.
#[global] Arguments DecodePacket : simpl never.

Definition separator : Byte.byte := "030"%byte.

Definition EncodePayload (pkts : list Packet) : bytes :=
  join_with separator ((λ p, EncodePacket p false) <$> pkts).

(** The loop of [DecodePayloadWithLimit] over the parts, with the cumulative
    size [decoded] so far.  The result keeps Go's two values: the packets
    decoded and the error ([None] for nil). *)
Fixpoint decode_parts (parts : list bytes) (maxPayload decoded : Z)
    : list Packet * option codec_error :=
  match parts with
  | [] => ([], None)
  | part :: rest =>
      let size := blen part in
      if (0 <? maxPayload) && (maxPayload <? size) then ([], Some ErrPayloadTooLarge)
      else if (0 <? maxPayload) && (maxPayload <? decoded + size) then ([], None)
      else match DecodePacket part false with
           | Err _ => ([], Some ErrInvalidPayload)
           | Ok p =>
               let '(out, err) := decode_parts rest maxPayload (decoded + size) in
               (p :: out, err)
           end
  end.

Definition DecodePayloadWithLimit (b : bytes) (maxPayload : Z)
    : list Packet * option codec_error :=
  if decide (b = []) then ([], None)
  else decode_parts (split_on separator b) maxPayload 0.

Definition DecodePayload (b : bytes) : list Packet * option codec_error :=
  DecodePayloadWithLimit b 0.

(** ** Lemmas *)

Lemma byte_type_byte t : byte_type (type_byte t) = Some t.
Proof. by destruct t; vm_compute. Qed.

Lemma byte_type_Some c t : byte_type c = Some t → c = type_byte t.
Proof.
  unfold byte_type. destruct (_ || _); [done|].
  destruct (list_find _ _) as [[i t']|] eqn:E; simpl; [|done].
  apply list_find_Some in E. intros [= <-]. symmetry. by apply E.
Qed.

Lemma type_byte_not_mark t : type_byte t ≠ b64_mark.
Proof. by destruct t. Qed.

Lemma type_byte_not_sep t : type_byte t ≠ separator.
Proof. by destruct t. Qed.

(** A packet the codec can produce: a binary packet is a message. *)
Definition packet_wf (p : Packet) : Prop := IsBinary p = true → Type_of p = Message.

Definition text_without_separator (p : Packet) : Prop :=
  IsBinary p = false → separator ∉ Data p.

Lemma EncodePacket_text_nonempty p : EncodePacket p false ≠ [].
Proof. unfold EncodePacket. by destruct (IsBinary p). Qed.

Lemma decode_encode_aux p supportsBinary :
  packet_wf p →
  DecodePacket (EncodePacket p supportsBinary) (supportsBinary && IsBinary p) = Ok p.
Proof.
  destruct p as [t d bin]. unfold packet_wf, EncodePacket, DecodePacket; simpl.
  destruct bin, supportsBinary; simpl; intros Hwf.
  - by rewrite Hwf.
  - by rewrite base64_decode_encode, Hwf.
  - pose proof (type_byte_not_mark t). by rewrite decide_False, byte_type_byte.
  - pose proof (type_byte_not_mark t). by rewrite decide_False, byte_type_byte.
Qed.

Lemma DecodePacket_wf b isBinary p : DecodePacket b isBinary = Ok p → packet_wf p.
Proof. unfold DecodePacket, packet_wf. intros; by bust. Qed.

Lemma DecodePacket_text_canonical b p :
  DecodePacket b false = Ok p → IsBinary p = false → EncodePacket p false = b.
Proof.
  unfold DecodePacket. destruct b as [|c rest]; [done|].
  case_decide; [case_match; intros; simplify_eq/=|].
  destruct (byte_type c) eqn:Ht; intros; simplify_eq/=.
  by apply byte_type_Some in Ht as ->.
Qed.

Lemma encoded_no_separator p :
  text_without_separator p → separator ∉ EncodePacket p false.
Proof.
  unfold text_without_separator, EncodePacket. destruct (IsBinary p); intros Ht.
  - apply not_elem_of_cons. split; [done|]. intros Hin.
    pose proof (base64_encode_out (Data p)) as HF. rewrite Forall_forall in HF.
    specialize (HF _ Hin) as [Ha|]; [|done].
    revert Ha. apply (bool_decide_unpack (separator ∉ b64_alphabet)). by vm_compute.
  - apply not_elem_of_cons. split; [|by apply Ht].
    intros Hs. by apply (type_byte_not_sep (Type_of p)).
Qed.

Lemma join_nonempty (l : list bytes) :
  l ≠ [] → Forall (λ p, p ≠ []) l → join_with separator l ≠ [].
Proof.
  destruct l as [|p l]; [done|]. intros _ [Hp Hls]%Forall_cons. destruct l; simpl; [done|].
  by destruct p.
Qed.

(** The sizes of a list of encoded parts. *)
Definition parts_size (parts : list bytes) : Z := foldr (λ p acc, blen p + acc) 0 parts.

Lemma parts_size_app l1 l2 : parts_size (l1 ++ l2) = parts_size l1 + parts_size l2.
Proof. induction l1 as [|p l1 IH]; simpl; [done|]. unfold parts_size in *. simpl. lia. Qed.

(** Without a limit the loop decodes up to the first bad part. *)
Definition decode_text (part : bytes) : result codec_error Packet :=
  match DecodePacket part false with Ok p => Ok p | Err _ => Err ErrInvalidPayload end.

Lemma decode_parts_unlimited parts maxPayload decoded :
  maxPayload <= 0 → decode_parts parts maxPayload decoded = map_until decode_text parts.
Proof.
  intros Hm. revert decoded. induction parts as [|p parts IH]; intros decoded; simpl; [done|].
  rewrite (proj2 (Z.ltb_ge 0 maxPayload)) by lia. simpl. unfold decode_text at 1.
  destruct (DecodePacket p false); [|done]. by rewrite IH.
Qed.

Lemma decode_text_encode p : packet_wf p → decode_text (EncodePacket p false) = Ok p.
Proof. intros Hp. unfold decode_text. pose proof (decode_encode_aux p false Hp) as H.
  cbn [andb] in H. by rewrite H. Qed.

(** What stops the loop at part [k]. *)
Definition stop_reason (parts : list bytes) (maxPayload decoded : Z) (k : nat)
    (err : option codec_error) : Prop :=
  match parts !! k with
  | None => err = None
  | Some part =>
      (maxPayload < blen part ∧ err = Some ErrPayloadTooLarge)
      ∨ (blen part <= maxPayload < decoded + parts_size (take (S k) parts) ∧ err = None)
      ∨ (decoded + parts_size (take (S k) parts) <= maxPayload
         ∧ is_ok (DecodePacket part false) = false ∧ err = Some ErrInvalidPayload)
  end.

Local Ltac stop_here :=
  exists 0%nat; repeat split; [lia|constructor|unfold parts_size; simpl; lia|];
  unfold stop_reason; cbn [lookup list_lookup].

Lemma decode_parts_limited parts maxPayload decoded out err :
  0 < maxPayload → 0 <= decoded <= maxPayload →
  decode_parts parts maxPayload decoded = (out, err) →
  ∃ k, (k ≤ length parts)%nat
    ∧ Forall2 (λ part p, DecodePacket part false = Ok p) (take k parts) out
    ∧ decoded + parts_size (take k parts) <= maxPayload
    ∧ stop_reason parts maxPayload decoded k err.
Proof.
  intros Hm. revert decoded out err.
  induction parts as [|part parts IH]; intros decoded out err Hd; cbn [decode_parts].
  { intros [= <- <-]. exists 0%nat. repeat split; [lia|constructor|simpl; lia]. }
  pose proof (blen_nonneg part). rewrite (proj2 (Z.ltb_lt 0 maxPayload)) by lia.
  cbn [andb]. destruct (Z.ltb_spec maxPayload (blen part)).
  { intros [= <- <-]. stop_here. by left. }
  destruct (Z.ltb_spec maxPayload (decoded + blen part)).
  { intros [= <- <-]. stop_here. right; left. unfold parts_size; simpl. repeat split; (lia || done). }
  destruct (DecodePacket part false) as [p|e] eqn:Hp.
  2:{ intros [= <- <-]. stop_here. right; right. rewrite Hp.
      unfold parts_size; simpl. repeat split; (lia || done). }
  destruct (decode_parts parts maxPayload (decoded + blen part)) as [out' err'] eqn:Hrec.
  intros [= <- <-].
  destruct (IH (decoded + blen part) out' err') as (k & Hk & Hf & Hs & Hstop); [lia|done|].
  exists (S k). repeat split; [simpl; lia|by constructor|unfold parts_size in *; simpl; lia|].
  unfold stop_reason in *. cbn [lookup list_lookup] in *.
  destruct (parts !! k) as [part'|]; [|done].
  unfold parts_size in *. simpl in *. by rewrite !Z.add_assoc.
Qed.

Lemma DecodePayload_parts b maxPayload :
  b ≠ [] → DecodePayloadWithLimit b maxPayload = decode_parts (split_on separator b) maxPayload 0.
Proof. intros. unfold DecodePayloadWithLimit. by rewrite decide_False. Qed.

Lemma map_until_prefix (parts : list bytes) k out :
  Forall2 (λ part p, DecodePacket part false = Ok p) (take k parts) out →
  out `prefix_of` (map_until decode_text parts).1.
Proof.
  revert k out. induction parts as [|part parts IH]; intros k out.
  - rewrite take_nil. intros ->%Forall2_nil_inv_l. apply prefix_nil.
  - destruct k as [|k]; simpl; [intros ->%Forall2_nil_inv_l; apply prefix_nil|].
    intros (p & out' & Hp & Hf & ->)%Forall2_cons_inv_l. unfold decode_text at 1.
    rewrite Hp. specialize (IH _ _ Hf). destruct (map_until _ _). by apply prefix_cons.
Qed.

(** ** Properties *)

(** Packet round trip: a well-formed packet (binary only for messages)
    decodes to itself, over a transport with binary frames (where a binary
    packet arrives as a binary frame) and over polling (base64). *)
Theorem decode_encode_packet p supportsBinary :
  packet_wf p →
  DecodePacket (EncodePacket p supportsBinary) (supportsBinary && IsBinary p) = Ok p.
Proof. apply decode_encode_aux. Qed.

Lemma decode_encode_packet_witness :
  DecodePacket (EncodePacket (mkPacket Message (bytes_of "hello") true) false) false
  = Ok (mkPacket Message (bytes_of "hello") true).
Proof. apply (decode_encode_packet (mkPacket Message (bytes_of "hello") true) false). done. Defined.

(** What [DecodePacket] accepts: the packet is well-formed, a frame that
    does not start with ['b'] is exactly the encoding of its packet (the
    decoder is injective on text), and every type byte outside ['0'..'6'] and
    every empty frame is refused with [ErrInvalidPacket]. *)
Theorem decode_packet_sound b :
  match DecodePacket b false with
  | Ok p => packet_wf p ∧ (IsBinary p = false → EncodePacket p false = b)
            ∧ (IsBinary p = true → ∃ rest, b = b64_mark :: rest
                                     ∧ base64_decode rest = Some (Data p))
  | Err e => e = ErrInvalidPacket
             ∧ (b = [] ∨ (∃ c rest, b = c :: rest ∧ c ≠ b64_mark ∧ ∀ t, c ≠ type_byte t)
                ∨ ∃ rest, b = b64_mark :: rest ∧ base64_decode rest = None)
  end.
Proof.
  destruct (DecodePacket b false) as [p|e] eqn:Hd.
  - split; [by eapply DecodePacket_wf|].
    split; [by apply DecodePacket_text_canonical|]. intros Hb.
    unfold DecodePacket in Hd. bust; by eauto.
  - unfold DecodePacket in Hd. destruct b as [|c rest]; simplify_eq/=; [by auto|].
    case_decide; [bust; by eauto 6|].
    destruct (byte_type c) eqn:Hc; simplify_eq/=. split; [done|]. right; left.
    exists c, rest. split_and!; [done..|]. intros t ->. by rewrite byte_type_byte in Hc.
Qed.

(** C30. Payload round trip: a batch of well-formed packets none of whose text
    holds the record separator decodes to the same batch, in order. *)
Theorem decode_encode_payload pkts :
  Forall packet_wf pkts → Forall text_without_separator pkts →
  DecodePayload (EncodePayload pkts) = (pkts, None).
Proof.
  intros Hwf Hsep. destruct (decide (pkts = [])) as [->|Hne]; [done|].
  assert (((λ p, EncodePacket p false) <$> pkts) ≠ []) by (by destruct pkts).
  unfold DecodePayload, EncodePayload. rewrite DecodePayload_parts.
  - rewrite split_join; [|done|].
    2:{ apply Forall_fmap. eapply Forall_impl; [done|]. apply encoded_no_separator. }
    rewrite decode_parts_unlimited by done.
    clear - Hwf. induction Hwf as [|p pkts Hp Hwf IH]; [done|].
    rewrite fmap_cons. cbn [map_until]. by rewrite decode_text_encode, IH.
  - apply join_nonempty; [done|]. apply Forall_fmap, Forall_true. apply EncodePacket_text_nonempty.
Qed.

Lemma decode_encode_payload_witness :
  DecodePayload (EncodePayload [mkPacket Message (bytes_of "a") false; mkPacket Pong [] false])
  = ([mkPacket Message (bytes_of "a") false; mkPacket Pong [] false], None).
Proof.
  apply decode_encode_payload.
  - apply (bool_decide_unpack (Forall _ _)); reflexivity.
  - repeat constructor; intros _; apply (bool_decide_unpack (separator ∉ _)); reflexivity.
Defined.

(** C31. The limit of [DecodePayloadWithLimit]: with [maxPayload > 0] the
    packets returned are the decodings of a prefix of the parts whose sizes
    sum to at most [maxPayload], and the prefix ends exactly where the code
    says: at a part bigger than the limit ([ErrPayloadTooLarge]), at the
    first part that makes the sum pass the limit (no error: the tail is
    dropped), at a part that does not decode ([ErrInvalidPayload]), or at
    the end.  This is what the comment of the function, the README
    ("drops overflow packets") and section 7.2 of docs/TECHNICAL_DESIGN.md
    (truncation from the end) say; section 10 of the same document says
    instead that the oldest packets are dropped and the connection is closed,
    which no code does. *)
Theorem payload_limit_spec b maxPayload out err :
  b ≠ [] → 0 < maxPayload → DecodePayloadWithLimit b maxPayload = (out, err) →
  ∃ k, (k ≤ length (split_on separator b))%nat
    ∧ Forall2 (λ part p, DecodePacket part false = Ok p) (take k (split_on separator b)) out
    ∧ parts_size (take k (split_on separator b)) <= maxPayload
    ∧ stop_reason (split_on separator b) maxPayload 0 k err.
Proof.
  intros Hb Hm. rewrite DecodePayload_parts by done. intros Hd.
  by apply decode_parts_limited in Hd; [|lia..].
Qed.

Lemma payload_limit_spec_witness :
  ∃ k, (k ≤ 2)%nat
    ∧ Forall2 (λ part p, DecodePacket part false = Ok p)
        (take k [bytes_of "4abc"; bytes_of "4de"]) [mkPacket Message (bytes_of "abc") false]
    ∧ parts_size (take k [bytes_of "4abc"; bytes_of "4de"]) <= 5
    ∧ stop_reason [bytes_of "4abc"; bytes_of "4de"] 5 0 k None.
Proof.
  apply (payload_limit_spec (bytes_of "4abc" ++ separator :: bytes_of "4de")); done.
Defined.

(** Limiting never changes a packet: whatever the limit, the packets
    returned are a prefix of those of the unlimited [DecodePayload]; and a
    limit [<= 0] disables it. *)
Theorem payload_limit_prefix b maxPayload :
  (DecodePayloadWithLimit b maxPayload).1 `prefix_of` (DecodePayload b).1
  ∧ (maxPayload <= 0 → DecodePayloadWithLimit b maxPayload = DecodePayload b).
Proof.
  destruct (decide (b = [])) as [->|Hb]; [by split; [apply prefix_nil|]|].
  unfold DecodePayload. rewrite !DecodePayload_parts by done.
  rewrite (decode_parts_unlimited _ 0) by done.
  destruct (decide (0 < maxPayload)) as [Hm|Hm].
  - split; [|lia]. destruct (decode_parts _ maxPayload 0) as [out err] eqn:Hd.
    apply decode_parts_limited in Hd as (k & _ & Hf & _); [|lia..].
    by eapply map_until_prefix.
  - rewrite decode_parts_unlimited by lia. done.
Qed.
