(* ===== verification/Utf8.v ===== *)
(** * Utf8: Go's [unicode/utf8], as the JSON codec uses it

    [utf8_len] is the length of the valid encoding at the head of a byte
    string ([utf8.DecodeRune]'s size, [None] for an invalid one, which Go
    reports as [RuneError] of size 1). *)

From S2P Require Import Prelude.

Definition in_range (lo hi : Z) (c : Byte.byte) : bool :=
  (lo <=? byte_val c) && (byte_val c <=? hi).

Definition is_cont : Byte.byte → bool := in_range 128 191.

(** The valid sequences of RFC 3629: no overlong form, no surrogate, nothing
    above U+10FFFF. *)
Definition utf8_len (s : bytes) : option nat :=
  match s with
  | [] => None
  | a :: r =>
      if in_range 0 127 a then Some 1%nat
      else match r with
      | [] => None
      | b :: r2 =>
          if in_range 194 223 a && is_cont b then Some 2%nat
          else match r2 with
          | [] => None
          | c :: r3 =>
              if ((in_range 224 224 a && in_range 160 191 b)
                  || (in_range 225 236 a && is_cont b)
                  || (in_range 237 237 a && in_range 128 159 b)
                  || (in_range 238 239 a && is_cont b)) && is_cont c then Some 3%nat
              else match r3 with
              | [] => None
              | d :: _ =>
                  if ((in_range 240 240 a && in_range 144 191 b)
                      || (in_range 241 243 a && is_cont b)
                      || (in_range 244 244 a && in_range 128 143 b))
                     && is_cont c && is_cont d then Some 4%nat else None
              end
          end
      end
  end.

(** A byte string made of valid sequences ([utf8.Valid]); [length s] steps are
    enough because each takes at least one byte. *)
Fixpoint utf8_valid_fuel (fuel : nat) (s : bytes) : bool :=
  match s, fuel with
  | [], _ => true
  | _, O => false
  | _, S fuel' => match utf8_len s with
                  | Some n => utf8_valid_fuel fuel' (drop n s)
                  | None => false
                  end
  end.

Definition utf8_valid (s : bytes) : bool := utf8_valid_fuel (length s) s.

(** [utf8.EncodeRune]: surrogates and values out of range encode U+FFFD. *)
Definition utf8_encode (r : Z) : bytes :=
  let r := if ((55296 <=? r) && (r <=? 57343)) || (r <? 0) || (1114111 <? r)
           then 65533 else r in
  if r <? 128 then [byte_of_val r]
  else if r <? 2048 then [byte_of_val (192 + r / 64); byte_of_val (128 + r mod 64)]
  else if r <? 65536 then
    [byte_of_val (224 + r / 4096); byte_of_val (128 + r / 64 mod 64); byte_of_val (128 + r mod 64)]
  else [byte_of_val (240 + r / 262144); byte_of_val (128 + r / 4096 mod 64);
        byte_of_val (128 + r / 64 mod 64); byte_of_val (128 + r mod 64)].

(** Induction along the valid sequences. *)
Lemma utf8_len_bounds s n : utf8_len s = Some n → (1 ≤ n ≤ length s)%nat.
Proof.
  destruct s as [|a [|b [|c [|d r]]]]; unfold utf8_len; intros H;
    repeat match goal with
    | H : (if ?x then _ else _) = _ |- _ => destruct x
    end; simplify_eq/=; lia.
Qed.

Lemma utf8_valid_fuel_ind (P : bytes → Prop) :
  P [] →
  (∀ s n, utf8_len s = Some n → utf8_valid_fuel (length (drop n s)) (drop n s) = true →
          P (drop n s) → P s) →
  ∀ fuel s, utf8_valid_fuel fuel s = true → P s.
Proof.
  intros H0 Hs.
  assert (∀ fuel s, utf8_valid_fuel fuel s = true →
    ∀ fuel', (length s ≤ fuel')%nat → utf8_valid_fuel fuel' s = true) as Hmono.
  { induction fuel as [|fuel IH]; intros s Hv fuel' Hle; destruct s as [|a s]; try done.
    - by destruct fuel'.
    - by destruct fuel'.
    - destruct fuel' as [|fuel']; simpl in Hle; [lia|]. cbn [utf8_valid_fuel] in *.
    destruct (utf8_len (a :: s)) as [n|] eqn:Hn; [|done].
    apply utf8_len_bounds in Hn. apply IH; [done|]. rewrite length_drop. simpl in *. lia. }
  induction fuel as [|fuel IH]; intros [|a s] Hv; try done.
  cbn [utf8_valid_fuel] in Hv. destruct (utf8_len (a :: s)) as [n|] eqn:Hn; [|done].
  eapply Hs; [done| |by apply IH]. by eapply Hmono.
Qed.

Lemma utf8_valid_ind (P : bytes → Prop) :
  P [] →
  (∀ s n, utf8_len s = Some n → utf8_valid (drop n s) = true → P (drop n s) → P s) →
  ∀ s, utf8_valid s = true → P s.
Proof. intros H0 Hs s. by apply utf8_valid_fuel_ind. Qed.
