(* ===== verification/Value.v ===== *)
(** * Value: Go's dynamic values, and the interface of [encoding/json]

    A payload of the Socket.IO layer is a Go [any].  [gval] has the dynamic
    types the code distinguishes: nil, booleans, [float64] (JSON numbers),
    strings, [[]any], [map[string]any], [[]byte], [io.Reader] and the
    [placeholder] struct.  Numbers a user passes as Go integers are written
    as the [float64] of the same value, whose JSON text is the same.

    A map is a list of key/value pairs in an iteration order (Go leaves it
    unspecified, so the theorems quantify over it).  A reader is a reference
    into a store, because reading one drains it for every other use. *)

From S2P Require Import Prelude.
From S2P Require Import Strconv.
From S2P Require Import Utf8.

(** [float64] and the conversions used of it.  The laws are those of IEEE
    binary64 and [strconv]: integers up to 2^53 are exact, and the shortest
    decimal that [encoding/json] writes reads back as the same number. *)
Class Float64 := {
  f64 : Type;
  f64_eq_dec :: EqDecision f64;
  f64_of_Z : Z → f64;                (* float64(n) *)
  f64_to_Z : f64 → Z;                (* int(x) *)
  f64_format : f64 → option bytes;   (* the JSON text; None for NaN and Inf *)
  f64_parse : bytes → option f64;    (* ParseFloat on a JSON number; None out of range *)
}.

Definition f64_exact : Z := 9007199254740992.

#[local] Set Warnings "-register-all".

Section Gval.
Context `{Float64}.

Inductive gval :=
| VNil
| VBool (b : bool)
| VNum (x : f64)
| VStr (s : string)
| VArr (l : list gval)
| VMap (m : list (string * gval))
| VBytes (b : bytes)
| VReader (r : nat)
| VPlaceholder (num : Z).

(** Induction with hypotheses for the elements of arrays and maps. *)
Lemma gval_rect' (P : gval → Prop) :
  P VNil → (∀ b, P (VBool b)) → (∀ x, P (VNum x)) → (∀ s, P (VStr s)) →
  (∀ l, Forall P l → P (VArr l)) → (∀ m, Forall (λ kv, P kv.2) m → P (VMap m)) →
  (∀ b, P (VBytes b)) → (∀ r, P (VReader r)) → (∀ n, P (VPlaceholder n)) →
  ∀ v, P v.
Proof.
  intros H1 H2 H3 H4 H5 H6 H7 H8 H9. fix IH 1.
  intros [|b|x|s|l|m|b|r|n];
    [exact H1|exact (H2 b)|exact (H3 x)|exact (H4 s)|..|exact (H7 b)|exact (H8 r)|exact (H9 n)].
  - apply H5. induction l as [|v l IHl]; constructor; [apply IH|exact IHl].
  - apply H6. induction m as [|[k v] m IHm]; constructor; [apply IH|exact IHm].
Qed.

(** [v == nil] for an [any]. *)
Definition is_nil (v : gval) : bool := match v with VNil => true | _ => false end.

(** [m[k]] on a [map[string]any]: the value, or nil. *)
Definition map_get (m : list (string * gval)) (k : string) : option gval :=
  snd <$> (list_find (λ kv, kv.1 = k) m ≫= λ p, Some p.2).

Definition map_keys (m : list (string * gval)) : list string := m.*1.

(** ** JSON *)

(** The order in which [encoding/json] writes the keys of a map. *)
Fixpoint insert_key {A} (kv : string * A) (m : list (string * A)) : list (string * A) :=
  match m with
  | [] => [kv]
  | kv' :: m' => if String.leb kv.1 kv'.1 then kv :: m else kv' :: insert_key kv m'
  end.

Definition sort_keys {A} (m : list (string * A)) : list (string * A) := foldr insert_key [] m.

Definition placeholder_map (num : Z) : list (string * gval) :=
  [("_placeholder", VBool true); ("num", VNum (f64_of_Z num))].

(** The value [json.Unmarshal] into an [any] gives for the text
    [json.Marshal] writes: structs become maps, maps are read in the order
    their keys were written. *)
Fixpoint json_view (v : gval) : gval :=
  match v with
  | VArr l => VArr (json_view <$> l)
  | VMap m => VMap (sort_keys ((λ kv, (kv.1, json_view kv.2)) <$> m))
  | VPlaceholder num => VMap (placeholder_map num)
  | _ => v
  end.

(** Values whose JSON text carries them exactly: strings and keys of valid
    UTF-8, finite numbers, at most [depth] levels of arrays and maps
    ([encoding/json] reads 10000), no raw binary. *)
Fixpoint json_ok (depth : nat) (v : gval) : Prop :=
  match v, depth with
  | VNil, _ | VBool _, _ => True
  | VNum x, _ => is_Some (f64_format x)
  | VStr s, _ => utf8_valid (bytes_of s) = true
  | VArr l, S d => foldr (λ e acc, json_ok d e ∧ acc) True l
  | VMap m, S d =>
      NoDup (map_keys m)
      ∧ foldr (λ kv acc, (utf8_valid (bytes_of kv.1) = true ∧ json_ok d kv.2) ∧ acc) True m
  | VPlaceholder num, S d => 0 <= num <= f64_exact
  | _, _ => False
  end.

Definition json_max_depth : nat := Z.to_nat 10000.

(** The first byte of the JSON text of a value that is an array, a map or a
    string. *)
Definition json_head (v : gval) : option Byte.byte :=
  match v with
  | VArr _ => Some "["%byte
  | VMap _ | VPlaceholder _ => Some "{"%byte
  | VStr _ => Some Byte.x22
  | _ => None
  end.

(** What the Socket.IO layer relies on of [encoding/json]: reading back what
    was written, the first byte of a text, and no raw control character. *)
Class JSON := {
  json_marshal : gval → option bytes;
  json_unmarshal : bytes → option gval;
  json_round_trip v :
    json_ok json_max_depth v →
    ∃ j, json_marshal v = Some j ∧ json_unmarshal j = Some (json_view v);
  json_marshal_head v j c :
    json_marshal v = Some j → json_head v = Some c → head j = Some c;
  json_marshal_no_control v j :
    json_ok json_max_depth v → json_marshal v = Some j →
    Forall (λ c, 32 <= byte_val c) j;
}.
End Gval.

(** The laws of [float64], as a class of their own. *)
Class Float64Laws `{Float64} := {
  f64_of_to n : 0 <= n <= f64_exact → f64_to_Z (f64_of_Z n) = n;
  f64_format_int n : 0 <= n <= f64_exact → f64_format (f64_of_Z n) = Some (FormatInt n);
  f64_parse_format x s : f64_format x = Some s → number_literal s ∧ f64_parse s = Some x;
}.

(** ** Facts *)
Section Facts.
Context `{Float64}.

Lemma insert_key_perm {A} kv (m : list (string * A)) : insert_key kv m ≡ₚ kv :: m.
Proof.
  induction m as [|kv' m IH]; simpl; [done|]. destruct (String.leb _ _); [done|].
  rewrite IH. apply Permutation_swap.
Qed.

Lemma sort_keys_perm {A} (m : list (string * A)) : sort_keys m ≡ₚ m.
Proof. induction m as [|kv m IH]; simpl; [done|]. by rewrite insert_key_perm, IH. Qed.

(** Sorting looks at the keys only. *)
Definition on_value {A B} (f : A → B) (kv : string * A) : string * B := (kv.1, f kv.2).

Lemma on_value_keys {A B} (f : A → B) (m : list (string * A)) : (on_value f <$> m).*1 = m.*1.
Proof. induction m as [|kv m IH]; [done|]. rewrite !fmap_cons, IH. done. Qed.

Lemma sort_keys_on_value {A B} (f : A → B) (m : list (string * A)) :
  sort_keys (on_value f <$> m) = on_value f <$> sort_keys m.
Proof.
  assert (∀ kv l, insert_key (on_value f kv) (on_value f <$> l) = on_value f <$> insert_key kv l)
    as Hins.
  { intros kv l. induction l as [|kv' l IH]; [done|]. rewrite fmap_cons. cbn [insert_key].
    unfold on_value at 1 2. cbn [fst]. destruct (String.leb _ _); [done|]. by rewrite IH. }
  induction m as [|kv m IH]; [done|].
  change (insert_key (on_value f kv) (sort_keys (on_value f <$> m))
    = on_value f <$> insert_key kv (sort_keys m)).
  by rewrite IH, Hins.
Qed.

Lemma map_get_spec m k v :
  NoDup (map_keys m) → map_get m k = Some v ↔ (k, v) ∈ m.
Proof.
  unfold map_get, map_keys. intros Hnd. split.
  - destruct (list_find _ m) as [[i [k' v']]|] eqn:E; [|done].
    apply list_find_Some in E as (Hi & Hk & _). simpl in *. subst. intros [= ->].
    by eapply list_elem_of_lookup_2.
  - intros Hin. destruct (list_find (λ kv, kv.1 = k) m) as [[i [k' v']]|] eqn:E; simpl.
    + apply list_find_Some in E as (Hi & Hk & _). simpl in Hk. subst.
      apply list_elem_of_lookup_1 in Hin as [j Hj].
      assert (i = j) as ->.
      { eapply NoDup_lookup; [done|..]; rewrite list_lookup_fmap.
        - by rewrite Hi. - by rewrite Hj. }
      congruence.
    + exfalso. rewrite list_find_None in E. rewrite Forall_forall in E. by apply (E _ Hin).
Qed.

Lemma map_get_perm m m' k :
  NoDup (map_keys m) → m ≡ₚ m' → map_get m k = map_get m' k.
Proof.
  intros Hnd Hp. assert (NoDup (map_keys m')) as Hnd'.
  { unfold map_keys. by rewrite <- Hp. }
  apply option_eq. intros v. rewrite !map_get_spec by done. by rewrite Hp.
Qed.
End Facts.
