(* ===== verification/Json.v ===== *)
(** * Json: what the codec uses of Go's [encoding/json]

    [marshal] is [json.Marshal] on the values of [Value] (HTML-safe string
    escapes, map keys sorted, structs as objects, [[]byte] as base64);
    [unmarshal] is [json.Unmarshal] into an [any].  The text of a number is
    that of the [Float64] interface.  The parser has two units of fuel per
    input byte; [marshal_unmarshal] shows that this is enough for every text
    [marshal] writes.  The instance [go_json] discharges the [JSON] interface. *)

From S2P Require Import Prelude.
From S2P Require Import Base64.
From S2P Require Import Strconv.
From S2P Require Import Utf8.
From S2P Require Import Value.

Definition quote : Byte.byte := x22.
Definition backslash : Byte.byte := x5c.

(** ** Writing strings *)

Definition hex_digit (n : Z) : Byte.byte :=
  if n <? 10 then byte_of_val (48 + n) else byte_of_val (87 + n).

Definition u_escape (n : Z) : bytes :=
  [backslash; "u"%byte; hex_digit (n / 4096); hex_digit (n / 256 mod 16);
   hex_digit (n / 16 mod 16); hex_digit (n mod 16)].

(** The text of one ASCII byte. *)
Definition escape_ascii (c : Byte.byte) : bytes :=
  if decide (c = quote ∨ c = backslash) then [backslash; c]
  else if decide (c = x08) then [backslash; "b"%byte]
  else if decide (c = x0c) then [backslash; "f"%byte]
  else if decide (c = x0a) then [backslash; "n"%byte]
  else if decide (c = x0d) then [backslash; "r"%byte]
  else if decide (c = x09) then [backslash; "t"%byte]
  else if (byte_val c <? 32) || bool_decide (c ∈ [x3c; x3e; x26]) then u_escape (byte_val c)
  else [c].

(** The text of a valid multi-byte sequence: U+2028 and U+2029 are escaped. *)
Definition escape_rune (seq : bytes) : bytes :=
  if decide (seq = [xe2; x80; xa8]) then u_escape 8232
  else if decide (seq = [xe2; x80; xa9]) then u_escape 8233
  else seq.

Fixpoint quote_body (fuel : nat) (s : bytes) : bytes :=
  match s, fuel with
  | [], _ | _, O => []
  | c :: s', S fuel' =>
      if byte_val c <? 128 then escape_ascii c ++ quote_body fuel' s'
      else match utf8_len s with
           | Some n => escape_rune (take n s) ++ quote_body fuel' (drop n s)
           | None => u_escape 65533 ++ quote_body fuel' s'
           end
  end.

Definition quoted (s : bytes) : bytes := quote :: quote_body (length s) s ++ [quote].

(** ** Reading strings *)

Definition hex_val (c : Byte.byte) : option Z :=
  if isDigit c then Some (byte_val c - 48)
  else if in_range 97 102 c then Some (byte_val c - 87)
  else if in_range 65 70 c then Some (byte_val c - 55)
  else None.

(** [getu4]: four hexadecimal digits. *)
Definition getu4 (h1 h2 h3 h4 : Byte.byte) : option Z :=
  match hex_val h1, hex_val h2, hex_val h3, hex_val h4 with
  | Some a, Some b, Some c, Some d => Some (a * 4096 + b * 256 + c * 16 + d)
  | _, _, _, _ => None
  end.

Definition unescape (c : Byte.byte) : option Byte.byte :=
  if decide (c = quote ∨ c = backslash ∨ c = "/"%byte) then Some c
  else if decide (c = "b"%byte) then Some x08
  else if decide (c = "f"%byte) then Some x0c
  else if decide (c = "n"%byte) then Some x0a
  else if decide (c = "r"%byte) then Some x0d
  else if decide (c = "t"%byte) then Some x09
  else None.

(** The low surrogate that completes the high surrogate [hi], if the text
    goes on with its escape: the rune and the rest. *)
Definition low_surrogate (hi : Z) (s : bytes) : option (Z * bytes) :=
  match s with
  | b :: u :: h1 :: h2 :: h3 :: h4 :: rest =>
      if decide (b = backslash ∧ u = "u"%byte) then
        match getu4 h1 h2 h3 h4 with
        | Some lo => if (55296 <=? hi) && (hi <? 56320) && (56320 <=? lo) && (lo <? 57344)
                     then Some (65536 + (hi - 55296) * 1024 + (lo - 56320), rest) else None
        | None => None
        end
      else None
  | _ => None
  end.

(** The rest of a string literal after its opening quote: its bytes and what
    follows the closing quote. *)
Fixpoint unquote (fuel : nat) (s : bytes) : option (bytes * bytes) :=
  match fuel with
  | O => None
  | S fuel' =>
      let put (out rest : bytes) :=
        match unquote fuel' rest with Some (o, r) => Some (out ++ o, r) | None => None end in
      match s with
      | [] => None
      | c :: s' =>
          if decide (c = quote) then Some ([], s')
          else if decide (c = backslash) then
            match s' with
            | e :: s2 =>
                if decide (e = "u"%byte) then
                  match s2 with
                  | h1 :: h2 :: h3 :: h4 :: s3 =>
                      match getu4 h1 h2 h3 h4 with
                      | None => None
                      | Some r =>
                          if (55296 <=? r) && (r <? 57344) then
                            match low_surrogate r s3 with
                            | Some (r', s4) => put (utf8_encode r') s4
                            | None => put (utf8_encode 65533) s3
                            end
                          else put (utf8_encode r) s3
                      end
                  | _ => None
                  end
                else match unescape e with Some b => put [b] s2 | None => None end
            | [] => None
            end
          else if byte_val c <? 32 then None
          else if byte_val c <? 128 then put [c] s'
          else match utf8_len s with
               | Some n => put (take n s) (drop n s)
               | None => put (utf8_encode 65533) s'
               end
      end
  end.

(** ** Values *)
Section Json.
Context `{Float64}.

Definition lit_null : bytes := bytes_of "null".
Definition lit_true : bytes := bytes_of "true".
Definition lit_false : bytes := bytes_of "false".
Definition colon : Byte.byte := ":"%byte.
Definition jcomma : Byte.byte := ","%byte.

Definition member_text (k : string) (j : bytes) : bytes := quoted (bytes_of k) ++ colon :: j.

Definition array_text (js : list bytes) : bytes := "["%byte :: join_with jcomma js ++ ["]"%byte].
Definition object_text (ms : list (string * bytes)) : bytes :=
  "{"%byte :: join_with jcomma ((λ kj, member_text kj.1 kj.2) <$> ms) ++ ["}"%byte].

Fixpoint marshal (v : gval) : option bytes :=
  match v with
  | VNil => Some lit_null
  | VBool true => Some lit_true
  | VBool false => Some lit_false
  | VNum x => f64_format x
  | VStr s => Some (quoted (bytes_of s))
  | VArr l => array_text <$> option_map_list marshal l
  | VMap m =>
      (λ ms, object_text (sort_keys ms))
      <$> option_map_list (λ kv, pair kv.1 <$> marshal kv.2) m
  | VBytes b => Some (quoted (base64_encode b))
  | VReader _ => None
  | VPlaceholder num =>
      Some (object_text [("_placeholder", lit_true); ("num", FormatInt num)])
  end.

Definition is_ws (c : Byte.byte) : bool := bool_decide (c ∈ [x20; x09; x0a; x0d]).

Definition skip_ws (s : bytes) : bytes := (scan (λ c, negb (is_ws c)) s).2.

(** The rest after a keyword. *)
Definition after_literal (lit s : bytes) : option bytes :=
  if decide (take (length lit) s = lit) then Some (drop (length lit) s) else None.

(** A later member of an object replaces an earlier one of the same key. *)
Fixpoint map_set (m : list (string * gval)) (k : string) (v : gval) : list (string * gval) :=
  match m with
  | [] => [(k, v)]
  | kv :: m' => if decide (kv.1 = k) then (k, v) :: m' else kv :: map_set m' k v
  end.

Fixpoint parse_value (fuel depth : nat) (s : bytes) {struct fuel} : option (gval * bytes) :=
  match fuel with
  | O => None
  | S fuel' =>
      match skip_ws s with
      | [] => None
      | c :: r =>
          if decide (c = "["%byte) then
            match depth with
            | O => None
            | S d => match skip_ws r with
                     | [] => None
                     | c' :: r' => if decide (c' = "]"%byte) then Some (VArr [], r')
                                   else parse_elems fuel' d [] r
                     end
            end
          else if decide (c = "{"%byte) then
            match depth with
            | O => None
            | S d => match skip_ws r with
                     | [] => None
                     | c' :: r' => if decide (c' = "}"%byte) then Some (VMap [], r')
                                   else parse_members fuel' d [] r
                     end
            end
          else if decide (c = quote) then
            match unquote (length r) r with
            | Some (b, r') => Some (VStr (string_of b), r')
            | None => None
            end
          else if decide (c = "n"%byte) then pair VNil <$> after_literal lit_null (c :: r)
          else if decide (c = "t"%byte) then pair (VBool true) <$> after_literal lit_true (c :: r)
          else if decide (c = "f"%byte) then pair (VBool false) <$> after_literal lit_false (c :: r)
          else match scan_number (c :: r) with
               | Some (lit, r') => (λ x, (VNum x, r')) <$> f64_parse lit
               | None => None
               end
      end
  end
with parse_elems (fuel depth : nat) (acc : list gval) (s : bytes) {struct fuel}
    : option (gval * bytes) :=
  match fuel with
  | O => None
  | S fuel' =>
      match parse_value fuel' depth s with
      | None => None
      | Some (v, r) =>
          match skip_ws r with
          | [] => None
          | c :: r' =>
              if decide (c = jcomma) then parse_elems fuel' depth (acc ++ [v]) r'
              else if decide (c = "]"%byte) then Some (VArr (acc ++ [v]), r')
              else None
          end
      end
  end
with parse_members (fuel depth : nat) (acc : list (string * gval)) (s : bytes) {struct fuel}
    : option (gval * bytes) :=
  match fuel with
  | O => None
  | S fuel' =>
      match skip_ws s with
      | [] => None
      | q :: r =>
          if decide (q = quote) then
            match unquote (length r) r with
            | None => None
            | Some (k, r1) =>
                match skip_ws r1 with
                | [] => None
                | c1 :: r2 =>
                    if decide (c1 = colon) then
                      match parse_value fuel' depth r2 with
                      | None => None
                      | Some (v, r3) =>
                          match skip_ws r3 with
                          | [] => None
                          | c :: r4 =>
                              let acc' := map_set acc (string_of k) v in
                              if decide (c = jcomma) then parse_members fuel' depth acc' r4
                              else if decide (c = "}"%byte) then Some (VMap acc', r4)
                              else None
                          end
                      end
                    else None
                end
            end
          else None
      end
  end.

Definition unmarshal (s : bytes) : option gval :=
  match parse_value (2 * length s) json_max_depth s with
  | Some (v, r) => if decide (skip_ws r = []) then Some v else None
  | None => None
  end.
End Json.

(** ** Strings round trip *)

Definition put_out (out : bytes) (r : option (bytes * bytes)) : option (bytes * bytes) :=
  match r with Some (o, r) => Some (out ++ o, r) | None => None end.

Lemma unquote_ascii c fuel t :
  byte_val c < 128 → unquote (S fuel) (escape_ascii c ++ t) = put_out [c] (unquote fuel t).
Proof. intros Hc. destruct c; try reflexivity; exfalso; revert Hc; by vm_compute. Qed.

Lemma utf8_len_take s n t : utf8_len s = Some n → utf8_len (take n s ++ t) = Some n.
Proof.
  destruct s as [|a [|b [|c [|d s]]]]; unfold utf8_len; intros Hl;
    repeat match goal with
    | H : (if ?x then _ else _) = _ |- _ => destruct x eqn:?
    end; simplify_eq; cbn [take firstn app];
    repeat match goal with H : ?x = _ |- context [if ?x then _ else _] => rewrite H end; done.
Qed.

Lemma utf8_len_one s n : utf8_len s = Some n →
  ∃ c s', s = c :: s' ∧ (if byte_val c <? 128 then n = 1%nat else 128 <= byte_val c).
Proof.
  destruct s as [|c s']; [done|]. intros Hl. exists c, s'. split; [done|].
  pose proof (byte_val_bounds c). unfold utf8_len, in_range in Hl.
  destruct (Z.ltb_spec (byte_val c) 128); [|done].
  rewrite (proj2 (Z.leb_le 0 _)), (proj2 (Z.leb_le _ 127)) in Hl by lia. simpl in Hl. congruence.
Qed.

Lemma byte_ge_128 c : 128 <= byte_val c → c ≠ quote ∧ c ≠ backslash.
Proof. intros Hc. split; intros ->; revert Hc; by vm_compute. Qed.

Lemma unquote_rune s n fuel t :
  utf8_len s = Some n → (∀ c s', s = c :: s' → 128 <= byte_val c) →
  unquote (S fuel) (escape_rune (take n s) ++ t) = put_out (take n s) (unquote fuel t).
Proof.
  intros Hl Hc. pose proof (utf8_len_bounds _ _ Hl) as Hb. unfold escape_rune.
  case_decide as H1; [by rewrite H1|]. case_decide as H2; [by rewrite H2|].
  pose proof (utf8_len_take _ _ t Hl) as Ht.
  destruct s as [|c s']; [done|]. destruct n as [|n]; [lia|]. cbn [take firstn app] in *.
  specialize (Hc c s' eq_refl). destruct (byte_ge_128 c Hc) as [Hq Hs].
  cbn [unquote]. rewrite !decide_False by done.
  destruct (Z.ltb_spec (byte_val c) 32); [lia|]. destruct (Z.ltb_spec (byte_val c) 128); [lia|].
  rewrite Ht. cbn [take firstn drop skipn].
  rewrite take_app_length', drop_app_length' by (rewrite length_take; simpl in *; lia). done.
Qed.

Lemma unquote_quote_body s : utf8_valid s = true →
  ∀ m fuel rest, (length s ≤ m)%nat → (length (quote_body m s ++ [quote]) ≤ fuel)%nat →
  unquote fuel (quote_body m s ++ quote :: rest) = Some (s, rest).
Proof.
  revert s. apply (utf8_valid_ind (λ s, ∀ m fuel rest, (length s ≤ m)%nat →
    (length (quote_body m s ++ [quote]) ≤ fuel)%nat →
    unquote fuel (quote_body m s ++ quote :: rest) = Some (s, rest))).
  { intros m fuel rest _ Hf. destruct m, fuel; simpl in *; try lia; done. }
  intros s n Hl _ IH m fuel rest Hm. pose proof (utf8_len_bounds _ _ Hl) as Hb.
  destruct (utf8_len_one _ _ Hl) as (c & s' & -> & Hc).
  destruct m as [|m]; [simpl in Hm; lia|]. cbn [quote_body].
  destruct (Z.ltb_spec (byte_val c) 128) as [Hlt|Hge].
  - subst n. simpl in IH. rewrite drop_0 in IH. rewrite <- !app_assoc. intros Hf.
    assert (1 ≤ length (escape_ascii c))%nat by (destruct c; simpl; lia).
    rewrite length_app in Hf. destruct fuel as [|fuel]; [lia|].
    rewrite unquote_ascii by done. rewrite IH; [done|simpl in Hm; lia|lia].
  - rewrite Hl, <- !app_assoc. intros Hf. rewrite length_app in Hf.
    assert (1 ≤ length (escape_rune (take n (c :: s'))))%nat.
    { unfold escape_rune. do 2 (case_decide; [simpl; lia|]). rewrite length_take. lia. }
    destruct fuel as [|fuel]; [lia|].
    rewrite unquote_rune; [|done|by intros ?? [= <- <-]].
    rewrite IH; [|rewrite length_drop; simpl in *; lia|lia]. simpl. by rewrite take_drop.
Qed.

Lemma unquote_quoted s rest : utf8_valid s = true →
  ∃ body, quoted s ++ rest = quote :: body
    ∧ unquote (length body) body = Some (s, rest).
Proof.
  intros Hs. exists (quote_body (length s) s ++ quote :: rest). split.
  - unfold quoted. cbn [app]. by rewrite <- app_assoc.
  - apply unquote_quote_body; [done|lia|]. rewrite !length_app. simpl. lia.
Qed.

(** ** Values round trip *)
Section RoundTrip.
Context `{Float64} `{!Float64Laws}.

Lemma skip_ws_id c s : is_ws c = false → skip_ws (c :: s) = c :: s.
Proof. intros Hc. unfold skip_ws. simpl. by rewrite Hc. Qed.

(** The bytes a value's text can start with. *)
Definition value_head (c : Byte.byte) : Prop :=
  (c ∈ ["["; "{"; "n"; "t"; "f"]%byte) ∨ c = quote ∨ c = minus_sign ∨ isDigit c = true.

Lemma value_head_plain c : value_head c → is_ws c = false ∧ c ≠ "]"%byte ∧ c ≠ "}"%byte.
Proof.
  intros [Hc|[->|[->|Hc]]]; [|by vm_compute|by vm_compute|].
  - rewrite list_elem_of_In in Hc. simpl in Hc.
    destruct Hc as [<-|[<-|[<-|[<-|[<-|[]]]]]]; by vm_compute.
  - revert Hc. destruct c; try discriminate; by vm_compute.
Qed.

Lemma scan_number_head s a b : scan_number s = Some (a, b) →
  ∃ c s', s = c :: s' ∧ (c = minus_sign ∨ isDigit c = true).
Proof.
  unfold scan_number, scan_sign. destruct s as [|c s]; [done|]. intros Hs. exists c, s.
  split; [done|]. destruct (decide (c = minus_sign)) as [|Hc]; [by left|right].
  unfold scan_int in Hs. case_decide; [by subst|]. unfold scan_digits1 in Hs. simpl in Hs.
  destruct (isDigit c); done.
Qed.

Lemma digit_plain c : c = minus_sign ∨ isDigit c = true →
  (c ∉ ["["; "{"; "n"; "t"; "f"]%byte) ∧ c ≠ quote.
Proof.
  intros [->|Hc]; [split; [apply (bool_decide_unpack (_ ∉ _)); by vm_compute|done]|].
  revert Hc. destruct c; try discriminate; intros _;
    (split; [apply (bool_decide_unpack (_ ∉ _)); by vm_compute|done]).
Qed.

Lemma marshal_head v j : marshal v = Some j → (∀ x, v = VNum x → number_literal j) →
  ∃ c s, j = c :: s ∧ value_head c.
Proof.
  unfold value_head. destruct v as [|[]|x|s|l|m|b|r|n]; simpl; intros Hj Hn; try done.
  all: try (injection Hj as <-; eexists _, _; split; [reflexivity|];
            first [right; left; reflexivity|left; set_solver]).
  - specialize (Hn x eq_refl). apply scan_number_head in Hn as (c & s & -> & Hc).
    exists c, s. tauto.
  - destruct (option_map_list _ l); [|done]. injection Hj as <-.
    eexists _, _. split; [reflexivity|left; set_solver].
  - destruct (option_map_list _ m); [|done]. injection Hj as <-.
    eexists _, _. split; [reflexivity|left; set_solver].
Qed.

Lemma marshal_head_ok v j : marshal v = Some j →
  ∃ c s, j = c :: s ∧ value_head c.
Proof.
  intros Hj. eapply marshal_head; [done|]. intros x ->. simpl in Hj.
  by apply f64_parse_format in Hj as [].
Qed.

(** Reading back the text of one value. *)
Definition reads (depth : nat) (v : gval) (j : bytes) : Prop :=
  ∀ fuel rest, (2 * length j ≤ fuel)%nat → ends_number rest →
  parse_value fuel depth (j ++ rest) = Some (json_view v, rest).

Lemma ends_number_byte c rest :
  isDigit c = false → c ≠ "."%byte → is_exp c = false → ends_number (c :: rest).
Proof. intros ??? c' [= <-]. auto. Qed.

Lemma ends_number_nil : ends_number [].
Proof. by intros c. Qed.

Lemma parse_elems_ok depth l js :
  Forall2 (λ v j, reads depth v j ∧ marshal v = Some j) l js → l ≠ [] →
  ∀ fuel acc rest, (2 * length (join_with jcomma js ++ ["]"%byte]) + 1 ≤ fuel)%nat →
  parse_elems fuel depth acc (join_with jcomma js ++ "]"%byte :: rest)
  = Some (VArr (acc ++ (json_view <$> l)), rest).
Proof.
  induction 1 as [|v j l js [Hr Hm] HF IH]; [done|]. intros _ fuel acc rest Hfuel.
  destruct fuel as [|fuel]; [lia|]. cbn [parse_elems].
  destruct HF as [|v' j' l js Hv' HF].
  - simpl in *. rewrite length_app in Hfuel. rewrite Hr; [|lia|by apply ends_number_byte].
    rewrite skip_ws_id by done. by rewrite decide_False, decide_True.
  - rewrite join_with_cons in * by done. rewrite <- app_assoc in *. cbn [app] in *.
    rewrite length_app in Hfuel. cbn [length] in Hfuel.
    rewrite Hr; [|lia|by apply ends_number_byte]. rewrite skip_ws_id by done.
    rewrite decide_True by done. rewrite IH; [|done|lia]. by rewrite <- app_assoc.
Qed.

Lemma map_set_fresh (m : list (string * gval)) k v :
  k ∉ m.*1 → map_set m k v = m ++ [(k, v)].
Proof.
  induction m as [|kv m IH]; [done|]. rewrite fmap_cons. intros [Hk Hm]%not_elem_of_cons.
  cbn [map_set]. rewrite decide_False by congruence. by rewrite IH.
Qed.

(** An entry of an object: its key, its value and the value's text. *)
Definition entry_ok (depth : nat) (t : string * (gval * bytes)) : Prop :=
  reads depth t.2.1 t.2.2 ∧ utf8_valid (bytes_of t.1) = true
  ∧ ∃ c s, t.2.2 = c :: s ∧ value_head c.

Definition entry_text (t : string * (gval * bytes)) : bytes := member_text t.1 t.2.2.

Lemma parse_members_ok depth T :
  Forall (entry_ok depth) T → T ≠ [] →
  ∀ fuel acc rest, NoDup (acc.*1 ++ T.*1) →
  (2 * length (join_with jcomma (entry_text <$> T) ++ ["}"%byte]) + 1 ≤ fuel)%nat →
  parse_members fuel depth acc (join_with jcomma (entry_text <$> T) ++ "}"%byte :: rest)
  = Some (VMap (acc ++ (on_value (json_view ∘ fst) <$> T)), rest).
Proof.
  induction 1 as [|[k [v j]] T (Hr & Hk & _) HF IH]; [done|]. intros _ fuel acc rest Hnd Hfuel.
  simpl in Hr, Hk. destruct fuel as [|fuel]; [lia|].
  assert (map_set acc k (json_view v) = acc ++ [(k, json_view v)]) as Hset.
  { apply map_set_fresh. rewrite fmap_cons in Hnd. apply NoDup_app in Hnd as (_ & Hd & _).
    intros Hin. apply (Hd k Hin). by apply list_elem_of_here. }
  assert (∀ tl, quoted (bytes_of k) ++ colon :: j ++ tl = entry_text (k, (v, j)) ++ tl) as Htext.
  { intros tl. unfold entry_text, member_text. cbn [fst snd]. by rewrite <- app_assoc. }
  assert (1 ≤ length (quoted (bytes_of k)))%nat as Hq by (unfold quoted; simpl; lia).
  assert (length (entry_text (k, (v, j))) = length (quoted (bytes_of k)) + 1 + length j)%nat as Hlen.
  { unfold entry_text, member_text. cbn [fst snd]. rewrite length_app. simpl. lia. }
  cbn [parse_members]. destruct (decide (T = [])) as [->|HT].
  - cbn [fmap list_fmap join_with] in *. rewrite length_app in Hfuel.
    rewrite <- Htext.
    destruct (unquote_quoted (bytes_of k) (colon :: j ++ "}"%byte :: rest) Hk) as (body & -> & Hu).
    rewrite skip_ws_id by done. rewrite decide_True by done. rewrite Hu.
    rewrite skip_ws_id by done. rewrite decide_True by done.
    rewrite Hr; [|simpl in *; lia|by apply ends_number_byte]. rewrite skip_ws_id by done.
    rewrite decide_False, decide_True, string_of_bytes_of, Hset by done. done.
  - rewrite fmap_cons in *. rewrite join_with_cons in * by (by destruct T).
    rewrite <- app_assoc in *. cbn [app] in *. rewrite length_app in Hfuel. cbn [length] in Hfuel.
    rewrite <- Htext.
    destruct (unquote_quoted (bytes_of k)
      (colon :: j ++ jcomma :: join_with jcomma (entry_text <$> T) ++ "}"%byte :: rest) Hk)
      as (body & -> & Hu).
    rewrite skip_ws_id by done. rewrite decide_True by done. rewrite Hu.
    rewrite skip_ws_id by done. rewrite decide_True by done.
    rewrite Hr; [|simpl in *; lia|by apply ends_number_byte]. rewrite skip_ws_id by done.
    rewrite decide_True, string_of_bytes_of, Hset by done. rewrite IH; [|done| |lia].
    + rewrite fmap_cons. by rewrite <- app_assoc.
    + rewrite fmap_app. cbn [fmap list_fmap fst]. rewrite <- app_assoc. done.
Qed.

Lemma entry_text_head t : ∃ s, entry_text t = quote :: s.
Proof. by eexists. Qed.

Lemma join_entry_head T tl :
  T ≠ [] → ∃ s, join_with jcomma (entry_text <$> T) ++ tl = quote :: s.
Proof.
  destruct T as [|t T]; [done|]. intros _. rewrite fmap_cons.
  destruct (entry_text_head t) as [s ->]. destruct (entry_text <$> T); simpl; eauto.
Qed.

(** An array and an object, once their items read back. *)
Lemma reads_array depth l js :
  Forall2 (λ v j, reads depth v j ∧ marshal v = Some j) l js →
  reads (S depth) (VArr l) (array_text js).
Proof.
  intros HF fuel rest Hfuel _. unfold array_text in *. cbn [length app] in *.
  rewrite length_app in Hfuel. cbn [length] in Hfuel.
  destruct fuel as [|fuel]; [lia|]. rewrite <- app_assoc. cbn [parse_value].
  rewrite skip_ws_id by done. rewrite decide_True by done.
  destruct HF as [|v j l js [Hr Hm] HF].
  { cbn [join_with fmap list_fmap app]. by rewrite skip_ws_id, decide_True by done. }
  destruct (marshal_head_ok _ _ Hm) as (c & s & Hj & Hc). apply value_head_plain in Hc as (Hw & Hb & _).
  assert (∃ tl, join_with jcomma (j :: js) ++ ["]"%byte] ++ rest = c :: tl) as [tl Htl]
    by (rewrite Hj; destruct js; simpl; eauto).
  rewrite Htl, skip_ws_id, decide_False, <- Htl by done. cbn [app].
  rewrite (parse_elems_ok depth (v :: l)); [done| |done|].
  - by constructor.
  - rewrite length_app. cbn [length]. lia.
Qed.

Lemma reads_object depth T v :
  json_view v = VMap (on_value (json_view ∘ fst) <$> T) →
  Forall (entry_ok depth) T → NoDup T.*1 →
  reads (S depth) v ("{"%byte :: join_with jcomma (entry_text <$> T) ++ ["}"%byte]).
Proof.
  intros Hview HF Hnd fuel rest Hfuel _. rewrite Hview. cbn [length app] in *.
  rewrite length_app in Hfuel. cbn [length] in Hfuel.
  destruct fuel as [|fuel]; [lia|]. rewrite <- app_assoc. cbn [parse_value].
  rewrite skip_ws_id by done. rewrite decide_False, decide_True by done.
  destruct (decide (T = [])) as [->|HT].
  { cbn [join_with fmap list_fmap app]. by rewrite skip_ws_id, decide_True by done. }
  destruct (join_entry_head T (["}"%byte] ++ rest) HT) as [s Hs].
  rewrite Hs, skip_ws_id, decide_False, <- Hs by done. cbn [app].
  rewrite (parse_members_ok depth T); [done..|]. rewrite length_app. cbn [length]. lia.
Qed.

Lemma reads_number depth x j : f64_format x = Some j → reads depth (VNum x) j.
Proof.
  intros Hf fuel rest Hfuel Hrest. destruct (f64_parse_format _ _ Hf) as [Hlit Hparse].
  pose proof (scan_number_head _ _ _ Hlit) as (c & s & -> & Hc).
  destruct fuel as [|fuel]; [simpl in Hfuel; lia|]. cbn [app parse_value].
  rewrite skip_ws_id.
  2:{ apply value_head_plain. unfold value_head. tauto. }
  apply digit_plain in Hc as [Hc Hq].
  repeat (apply not_elem_of_cons in Hc as [? Hc]). rewrite !decide_False by done.
  change (c :: s ++ rest) with ((c :: s) ++ rest). rewrite scan_number_app by done.
  by rewrite Hparse.
Qed.

Lemma reads_string depth s : utf8_valid (bytes_of s) = true →
  reads depth (VStr s) (quoted (bytes_of s)).
Proof.
  intros Hs fuel rest Hfuel _. destruct (unquote_quoted _ rest Hs) as (body & -> & Hu).
  destruct fuel as [|fuel]; [unfold quoted in Hfuel; simpl in Hfuel; lia|]. cbn [parse_value].
  rewrite skip_ws_id by done. rewrite !decide_False by done. rewrite decide_True by done.
  by rewrite Hu, string_of_bytes_of.
Qed.

Lemma reads_literal depth v lit :
  v = VNil ∧ lit = lit_null ∨ v = VBool true ∧ lit = lit_true ∨ v = VBool false ∧ lit = lit_false →
  reads depth v lit.
Proof.
  intros [[-> ->]|[[-> ->]|[-> ->]]] fuel rest Hfuel _; (destruct fuel; [simpl in Hfuel; lia|]);
    cbn; unfold after_literal; simpl; by rewrite take_0, drop_0 || done.
Qed.

Lemma entry_ok_placeholder depth num : 0 <= num <= f64_exact →
  Forall (entry_ok depth)
    [("_placeholder", (VBool true, lit_true)); ("num", (VNum (f64_of_Z num), FormatInt num))].
Proof.
  intros Hn. pose proof (f64_format_int _ Hn) as Hf.
  apply Forall_cons. split; [|apply Forall_singleton]; unfold entry_ok; cbn [fst snd]; split_and!;
    try reflexivity.
  - apply reads_literal. tauto.
  - eexists _, _. split; [reflexivity|]. left. by apply list_elem_of_In; vm_compute; tauto.
  - by apply reads_number.
  - by apply (marshal_head_ok (VNum (f64_of_Z num))).
Qed.

(** The entries of a map all of whose values read back. *)
Lemma map_entries depth (m : list (string * gval)) :
  Forall (λ kv, utf8_valid (bytes_of kv.1) = true
                ∧ ∃ j, marshal kv.2 = Some j ∧ reads depth kv.2 j) m →
  ∃ T, m = on_value fst <$> T
    ∧ option_map_list (λ kv, pair kv.1 <$> marshal kv.2) m = Some (on_value snd <$> T)
    ∧ Forall (entry_ok depth) T.
Proof.
  induction 1 as [|[k v] m [Hk (j & Hm & Hr)] _ (T & -> & HT & HF)]; [by exists []|].
  simpl in *. exists ((k, (v, j)) :: T). split; [done|]. split.
  - rewrite Hm. simpl. by rewrite HT.
  - apply Forall_cons. split; [|done]. split_and!; [done..|]. by eapply marshal_head_ok.
Qed.

Lemma object_text_entries T :
  object_text (on_value snd <$> T)
  = "{"%byte :: join_with jcomma (entry_text <$> T) ++ ["}"%byte].
Proof. unfold object_text. by rewrite <- list_fmap_compose. Qed.

Lemma marshal_reads v : ∀ depth, json_ok depth v → ∃ j, marshal v = Some j ∧ reads depth v j.
Proof.
  induction v as [|b|x|s|l IH|m IH|b|r|n] using gval_rect'; intros depth Hok.
  - eexists. split; [done|]. apply reads_literal. tauto.
  - destruct b; (eexists; split; [done|]); apply reads_literal; tauto.
  - destruct depth, Hok as [j Hj]; (exists j; split; [done|by apply reads_number]).
  - eexists. split; [done|]. apply reads_string. by destruct depth.
  - destruct depth as [|d]; [done|]. cbn [json_ok marshal] in *.
    assert (∃ js, Forall2 (λ v j, reads d v j ∧ marshal v = Some j) l js) as [js HF].
    { induction IH as [|v l Hv _ IHl]; [by exists []; constructor|]. destruct Hok as [H1 H2].
      destruct (Hv _ H1) as (j & ? & ?), (IHl H2) as [js ?]. exists (j :: js). by constructor. }
    assert (option_map_list marshal l = Some js) as ->.
    { apply option_map_list_Some. eapply Forall2_impl; [exact HF|]. by intros ?? []. }
    eexists. split; [done|]. by apply reads_array.
  - destruct depth as [|d]; [done|]. destruct Hok as [Hnd Hok]. cbn [marshal].
    destruct (map_entries d m) as (T & -> & -> & HT).
    { induction IH as [|kv m Hv _ IHm]; [constructor|]. simpl in Hok. destruct Hok as [[? ?] ?].
      apply Forall_cons. split; [split; [done|by apply Hv]|]. apply IHm; [|done].
      unfold map_keys in *. rewrite fmap_cons in Hnd. by apply NoDup_cons in Hnd as []. }
    eexists. split; [done|]. rewrite sort_keys_on_value, object_text_entries.
    apply reads_object.
    + cbn [json_view]. f_equal.
      change ((λ kv, (kv.1, json_view kv.2)) <$> ?l) with (on_value json_view <$> l).
      rewrite <- list_fmap_compose.
      change ((λ x, on_value json_view (on_value fst x)) <$> T)
        with (on_value (json_view ∘ fst (B := bytes)) <$> T).
      by rewrite <- sort_keys_on_value.
    + by rewrite sort_keys_perm.
    + rewrite sort_keys_perm. unfold map_keys in Hnd.
      by rewrite (on_value_keys (fst (B := bytes)) T) in Hnd.
  - by destruct depth.
  - by destruct depth.
  - destruct depth as [|d]; [done|]. simpl in Hok. eexists. split; [done|].
    pose proof (entry_ok_placeholder d n Hok) as HT.
    eapply reads_object in HT; [exact HT|done|].
    apply (bool_decide_unpack (NoDup _)). by vm_compute.
Qed.
End RoundTrip.

(** ** No control characters in the text *)
Section Printable.
Context `{Float64} `{!Float64Laws}.

Definition printable (c : Byte.byte) : Prop := 32 <= byte_val c.

#[local] Instance printable_dec c : Decision (printable c).
Proof. unfold printable. apply _. Defined.

Lemma printable_digit c : isDigit c = true → printable c.
Proof.
  unfold isDigit, printable. change (byte_val "0") with 48.
  intros [H1%Z.leb_le _]%andb_true_iff. lia.
Qed.

Lemma scan_digits_printable s a b :
  scan (λ c, negb (isDigit c)) s = (a, b) → Forall printable a.
Proof.
  revert a b. induction s as [|c s IH]; intros a b; simpl; [by intros [= <- <-]|].
  destruct (isDigit c) eqn:Hc; simpl; [|by intros [= <- <-]].
  destruct (scan _ s) as [a' b'] eqn:E. intros [= <- <-].
  constructor; [by apply printable_digit|by eapply IH].
Qed.

Lemma scan_digits1_printable pre s a b :
  Forall printable pre → scan_digits1 pre s = Some (a, b) → Forall printable a.
Proof.
  unfold scan_digits1. intros Hp. destruct (scan _ s) as [ds r] eqn:E.
  apply scan_digits_printable in E. destruct ds; [done|]. intros [= <- <-].
  by apply Forall_app.
Qed.

Lemma number_printable s : number_literal s → Forall printable s.
Proof.
  unfold number_literal, scan_number.
  assert (Forall printable (scan_sign s).1) as Hsg.
  { unfold scan_sign. destruct s as [|c s]; [constructor|]. case_decide; simpl; [|constructor].
    subst. apply (bool_decide_unpack (Forall _ _)). by vm_compute. }
  destruct (scan_sign s) as [sg s1]. simpl in Hsg.
  destruct (scan_int s1) as [[i s2]|] eqn:Ei; [|done].
  destruct (scan_frac s2) as [[f s3]|] eqn:Ef; [|done].
  destruct (scan_exp s3) as [[e s4]|] eqn:Ee; [|done]. intros [= <- ->].
  apply Forall_app; split; [done|]. apply Forall_app; split; [|apply Forall_app; split].
  - unfold scan_int in Ei. destruct s1 as [|c s1]; [done|]. case_decide.
    + injection Ei as <- <-. subst. apply Forall_singleton. by vm_compute.
    + by eapply scan_digits1_printable in Ei.
  - unfold scan_frac in Ef. destruct s2 as [|c s2]; [by injection Ef as <- <-|]. case_decide.
    + subst. eapply scan_digits1_printable in Ef; [done|].
      apply Forall_singleton. by vm_compute.
    + by injection Ef as <- <-.
  - unfold scan_exp in Ee. destruct s3 as [|c s3]; [by injection Ee as <-|].
    assert (is_exp c = true → printable c) as Hc by (destruct c; try discriminate; by vm_compute).
    destruct (is_exp c) eqn:Hexp; [|discriminate]. destruct s3 as [|c' s3]; [done|].
    assert (is_sign c' = true → printable c') as Hc' by (destruct c'; try discriminate; by vm_compute).
    destruct (is_sign c').
    + eapply scan_digits1_printable in Ee; [done|].
      apply Forall_cons; split; [by apply Hc|]. apply Forall_singleton. by apply Hc'.
    + eapply scan_digits1_printable in Ee; [done|]. apply Forall_singleton. by apply Hc.
Qed.

Lemma escape_ascii_printable c : Forall printable (escape_ascii c).
Proof. destruct c; apply (bool_decide_unpack (Forall _ _)); by vm_compute. Qed.

Lemma in_range_printable lo hi c : 32 <= lo → in_range lo hi c = true → printable c.
Proof. unfold in_range, printable. intros ? [?%Z.leb_le _]%andb_true_iff. lia. Qed.

Lemma utf8_take_printable s n : utf8_len s = Some n →
  (∀ c s', s = c :: s' → 128 <= byte_val c) → Forall printable (take n s).
Proof.
  intros Hl Hc. destruct s as [|a s]; [done|]. specialize (Hc a s eq_refl).
  assert (printable a) as Ha by (unfold printable; lia).
  assert (in_range 0 127 a = false) as H127.
  { unfold in_range. apply andb_false_iff. right. apply Z.leb_gt. lia. }
  unfold utf8_len in Hl. rewrite H127 in Hl.
  destruct s as [|b [|c [|d s]]]; repeat match goal with
    | H : (if ?x then _ else _) = _ |- _ => destruct x eqn:?
    end; simplify_eq; cbn [take firstn];
    repeat match goal with
    | H : (_ && _) = true |- _ => apply andb_true_iff in H as [??]
    | H : (_ || _) = true |- _ => apply orb_true_iff in H as [?|?]
    end; repeat apply List.Forall_cons; try done; try constructor;
    (eapply in_range_printable; [|eassumption]; lia).
Qed.

Lemma quote_body_printable m s : Forall printable (quote_body m s).
Proof.
  revert s. induction m as [|m IH]; intros [|c s]; try constructor.
  cbn [quote_body]. destruct (Z.ltb_spec (byte_val c) 128).
  - apply Forall_app. split; [apply escape_ascii_printable|done].
  - destruct (utf8_len (c :: s)) as [n|] eqn:Hl.
    + apply Forall_app. split; [|done]. unfold escape_rune.
      do 2 (case_decide; [apply (bool_decide_unpack (Forall _ _)); by vm_compute|]).
      apply utf8_take_printable; [done|]. by intros ?? [= <- <-].
    + apply Forall_app. split; [|done]. apply (bool_decide_unpack (Forall _ _)); by vm_compute.
Qed.

Lemma quoted_printable s : Forall printable (quoted s).
Proof.
  unfold quoted. apply List.Forall_cons; [by vm_compute|]. apply Forall_app.
  split; [apply quote_body_printable|]. apply Forall_singleton. by vm_compute.
Qed.

Lemma join_printable c l :
  printable c → Forall (Forall printable) l → Forall printable (join_with c l).
Proof.
  intros Hc. induction 1 as [|p l Hp Hl IH]; [constructor|]. destruct l as [|q l]; [done|].
  rewrite join_with_cons by done. apply Forall_app. split; [done|]. by constructor.
Qed.

Lemma object_printable (ms : list (string * bytes)) :
  Forall (λ kj, Forall printable kj.2) ms → Forall printable (object_text ms).
Proof.
  intros HF. unfold object_text. apply List.Forall_cons; [by vm_compute|].
  apply Forall_app. split; [|apply Forall_singleton; by vm_compute].
  apply join_printable; [by vm_compute|]. apply Forall_fmap. eapply Forall_impl; [done|].
  intros [k j] Hj. simpl in *. unfold member_text. apply Forall_app.
  split; [apply quoted_printable|]. constructor; [by vm_compute|done].
Qed.

Lemma marshal_printable v : ∀ depth j, json_ok depth v → marshal v = Some j → Forall printable j.
Proof.
  induction v as [|b|x|s|l IH|m IH|b|r|n] using gval_rect'; intros depth j Hok Hj.
  - injection Hj as <-. apply (bool_decide_unpack (Forall _ _)); by vm_compute.
  - destruct b; injection Hj as <-; apply (bool_decide_unpack (Forall _ _)); by vm_compute.
  - by apply f64_parse_format in Hj as [?%number_printable _].
  - injection Hj as <-. apply quoted_printable.
  - destruct depth as [|d]; [done|]. cbn [marshal json_ok] in *.
    destruct (option_map_list marshal l) as [js|] eqn:Hl; [|done]. injection Hj as <-.
    apply option_map_list_Some in Hl. unfold array_text.
    apply List.Forall_cons; [by vm_compute|]. apply Forall_app.
    split; [|apply Forall_singleton; by vm_compute]. apply join_printable; [by vm_compute|].
    induction Hl as [|v j l js Hv Hl IHl]; [constructor|]. destruct Hok as [H1 H2].
    apply Forall_cons in IH as [IH1 IH2]. constructor; [by eapply IH1|by apply IHl].
  - destruct depth as [|d]; [done|]. cbn [marshal] in *. destruct Hok as [_ Hok].
    destruct (option_map_list _ m) as [ms|] eqn:Hm; [|done]. injection Hj as <-.
    apply option_map_list_Some in Hm. apply object_printable. rewrite sort_keys_perm.
    induction Hm as [|kv kj m ms Hv Hm IHm]; [constructor|]. simpl in Hok. destruct Hok as [[_ H1] H2].
    apply Forall_cons in IH as [IH1 IH2]. destruct (marshal kv.2) as [j|] eqn:Hj; [|done].
    injection Hv as <-. constructor; [by eapply IH1|by apply IHm].
  - by destruct depth.
  - by destruct depth.
  - destruct depth as [|d]; [done|]. injection Hj as <-. simpl in Hok. apply object_printable.
    apply List.Forall_cons; [apply (bool_decide_unpack (Forall _ _)); by vm_compute|].
    apply Forall_singleton. simpl. apply number_printable.
    by eapply f64_parse_format, f64_format_int.
Qed.

Lemma unmarshal_marshal v : json_ok json_max_depth v →
  ∃ j, marshal v = Some j ∧ unmarshal j = Some (json_view v).
Proof.
  intros Hok. destruct (marshal_reads v _ Hok) as (j & Hj & Hr). exists j. split; [done|].
  unfold unmarshal. specialize (Hr (2 * length j)%nat [] (le_n _) ends_number_nil).
  rewrite app_nil_r in Hr. by rewrite Hr.
Qed.

#[export] Instance go_json : JSON.
Proof.
  refine {| json_marshal := marshal; json_unmarshal := unmarshal |}.
  - apply unmarshal_marshal.
  - intros v j c Hj Hc. destruct v; simplify_eq/=; try done.
    + by destruct (option_map_list _ l); simplify_eq/=.
    + by destruct (option_map_list _ m); simplify_eq/=.
  - intros v j. apply marshal_printable.
Defined.
End Printable.
