(* ===== verification/FixedFloat.v ===== *)
(** * FixedFloat: an instance of the [Float64] interface

    Fixed-point numbers, in steps of 1/1024: the integers up to 2^53 are among
    them, with their decimal form as text, and so is 0.5.  It shows that the
    laws of the interface can hold together, and is what the examples compute
    with. *)

From S2P Require Import Prelude.
From S2P Require Import Strconv.
From S2P Require Import Utf8.
From S2P Require Import Value.

(** A number is a count of steps. *)
Definition steps : Z := 1024.

Definition fixed_format (x : Z) : option bytes :=
  let n := Z.quot x steps in
  if (0 <=? n) && (n <=? f64_exact) && (n * steps =? x) then Some (FormatInt n) else None.

Definition fixed_parse (s : bytes) : option Z :=
  match ParseInt s with (n, None) => Some (n * steps) | _ => None end.

#[export] Instance fixed_float : Float64 := {|
  f64 := Z; f64_of_Z := λ n, n * steps; f64_to_Z := λ x, Z.quot x steps;
  f64_format := fixed_format; f64_parse := fixed_parse
|}.

Lemma f64_exact_int64 n : 0 <= n <= f64_exact → 0 <= n <= int64_max.
Proof. unfold f64_exact, int64_max. lia. Qed.

#[export] Instance fixed_float_laws : Float64Laws.
Proof.
  split; simpl; unfold fixed_format, fixed_parse.
  - intros n _. by apply Z.quot_mul.
  - intros n Hn. rewrite Z.quot_mul, (proj2 (Z.leb_le 0 n)), (proj2 (Z.leb_le n _)), Z.eqb_refl by (done || lia). done.
  - intros x s. set (n := Z.quot x steps).
    destruct (Z.leb_spec 0 n), (Z.leb_spec n f64_exact), (Z.eqb_spec (n * steps) x); simpl; try done.
    intros [= <-]. assert (0 <= n <= int64_max) by (by apply f64_exact_int64).
    split; [by apply FormatInt_literal|]. rewrite ParseInt_FormatInt by done. by f_equal.
Qed.
