(* ===== verification/SioPacket.v ===== *)
(** * SioPacket: the Socket.IO packet codec

    Models [socketio/packet.go]: the packet and its text form
    ([Encode]/[Decode]), the validation of payloads ([validatePayload]) and
    the splitting of binary payloads into placeholders and buffers
    ([hasBinary], [deconstruct], [readAll], [reconstruct]). *)

From S2P Require Import Prelude.
From S2P Require Import Strconv.
From S2P Require Import Utf8.
From S2P Require Import Value.
From S2P Require Import Json.
From S2P Require Import FixedFloat.

Inductive PacketType := Connect | Disconnect | Event | Ack | ConnectError | BinaryEvent | BinaryAck.

#[export] Instance PacketType_eq_dec : EqDecision PacketType.
Proof. solve_decision. Defined.

Definition ptype_byte (t : PacketType) : Byte.byte :=
  match t with
  | Connect => "0" | Disconnect => "1" | Event => "2" | Ack => "3"
  | ConnectError => "4" | BinaryEvent => "5" | BinaryAck => "6"
  end%byte.

(** The [switch p.Type] of [Decode]: the seven known bytes. *)
Definition byte_ptype (c : Byte.byte) : option PacketType :=
  list_find (λ t, ptype_byte t = c)
    [Connect; Disconnect; Event; Ack; ConnectError; BinaryEvent; BinaryAck]
  ≫= λ p, Some p.2.

(** [PacketType.String]; a [PacketType] is any byte. *)
Definition ptype_String (c : Byte.byte) : string :=
  match byte_ptype c with
  | Some Connect => "connect" | Some Disconnect => "disconnect" | Some Event => "event" | Some Ack => "ack"
  | Some ConnectError => "connect_error" | Some BinaryEvent => "binary_event"
  | Some BinaryAck => "binary_ack" | None => unknown_type c
  end.

Definition defaultNamespace : string := "/".

Definition is_binary_type (t : PacketType) : bool :=
  match t with BinaryEvent | BinaryAck => true | _ => false end.

Definition reservedEvents : list string :=
  ["connect"; "connect_error"; "disconnect"; "disconnecting"; "newListener"; "removeListener"].

Definition isReservedEvent (name : string) : bool := bool_decide (name ∈ reservedEvents).

(** The errors of [Decode], one per message of the code. *)
Inductive decode_error :=
| ErrEmptyPacket
| ErrUnknownType
| ErrIllegalAttachments
| ErrInvalidJSON
| ErrConnectPayload
| ErrDisconnectPayload
| ErrConnectErrorPayload
| ErrEventPayload
| ErrReservedEvent
| ErrEventName
| ErrAckPayload.

#[export] Instance decode_error_eq_dec : EqDecision decode_error.
Proof. solve_decision. Defined.

(** ** Readers *)

(** What an [io.Reader] still has to give: nil (also a typed nil), the bytes
    up to EOF, or an error. *)
Inductive reader := NilReader | Remaining (b : bytes) | FailingReader (msg : string).

Abbreviation readers := (gmap nat reader).

(** [readAll]: reading drains the reader for every later use of it. *)
Definition readAll (r : nat) (st : readers) : result string bytes * readers :=
  match st !! r with
  | Some (Remaining b) => (Ok b, <[r := Remaining []]> st)
  | Some (FailingReader msg) => (Err msg, st)
  | Some NilReader | None => (Ok [], st)
  end.

(** [deconstruct(v, &bufs)] over the readers' state and the buffers so far. *)
Abbreviation dstate := (readers * list bytes)%type.

Section Packet.
Context `{Float64}.

(** A negative [ID] is no acknowledgement id; [Data] is nil as [VNil]. *)
Record Packet := mkPacket {
  pType : PacketType; pNsp : string; pID : Z; pData : gval; pAttachments : Z
}.

Definition validatePayload (t : PacketType) (data : gval) : option decode_error :=
  match t with
  | Connect =>
      match data with VNil | VMap _ => None | _ => Some ErrConnectPayload end
  | Disconnect =>
      match data with VNil => None | _ => Some ErrDisconnectPayload end
  | ConnectError =>
      match data with VNil | VStr _ | VMap _ => None | _ => Some ErrConnectErrorPayload end
  | Event | BinaryEvent =>
      match data with
      | VArr (first :: _) =>
          match first with
          | VNum _ => None
          | VStr name => if isReservedEvent name then Some ErrReservedEvent else None
          | _ => Some ErrEventName
          end
      | _ => Some ErrEventPayload
      end
  | Ack | BinaryAck =>
      match data with VArr _ => None | _ => Some ErrAckPayload end
  end.

(** ** The text form *)

Definition dash : Byte.byte := "-"%byte.
Definition comma : Byte.byte := ","%byte.
Definition slash : Byte.byte := "/"%byte.

Definition Encode `{!JSON} (p : Packet) : bytes :=
  [ptype_byte (pType p)]
  ++ (if is_binary_type (pType p) then FormatInt (pAttachments p) ++ [dash] else [])
  ++ (if decide (pNsp p ≠ "" ∧ pNsp p ≠ defaultNamespace)
      then bytes_of (pNsp p) ++ [comma] else [])
  ++ (if 0 <=? pID p then FormatInt (pID p) else [])
  ++ (if is_nil (pData p) then [] else default [] (json_marshal (pData p))).

(** The attachment count of a binary packet, up to and with its dash. *)
Definition decode_attachments (t : PacketType) (rest : bytes) : result decode_error (Z * bytes) :=
  if is_binary_type t then
    match scan (λ c, bool_decide (c = dash)) rest with
    | (_, []) => Err ErrIllegalAttachments
    | (digits, _ :: rest') =>
        match Atoi digits with
        | Ok n => if n <? 0 then Err ErrIllegalAttachments else Ok (n, rest')
        | Err _ => Err ErrIllegalAttachments
        end
    end
  else Ok (0, rest).

Definition decode_nsp (rest : bytes) : string * bytes :=
  match rest with
  | c :: _ =>
      if decide (c = slash) then
        let '(nsp, rest') := scan (λ c, bool_decide (c = comma)) rest in
        (string_of nsp, tail rest')
      else (defaultNamespace, rest)
  | [] => (defaultNamespace, rest)
  end.

(** [p.ID, _ = strconv.ParseInt(...)]: the error is ignored, the value kept. *)
Definition decode_id (rest : bytes) : Z * bytes :=
  match rest with
  | c :: _ =>
      if isDigit c then
        let '(digits, rest') := scan (λ c, negb (isDigit c)) rest in
        ((ParseInt digits).1, rest')
      else (-1, rest)
  | [] => (-1, rest)
  end.

Definition decode_payload `{!JSON} (t : PacketType) (rest : bytes) : result decode_error gval :=
  if decide (rest = []) then Ok VNil
  else match json_unmarshal rest with
       | None => Err ErrInvalidJSON
       | Some v => match validatePayload t v with
                   | Some e => Err e
                   | None => Ok v
                   end
       end.

Definition Decode `{!JSON} (data : bytes) : result decode_error Packet :=
  match data with
  | [] => Err ErrEmptyPacket
  | c :: rest =>
      t ← option_to_result ErrUnknownType (byte_ptype c);
      '(n, rest) ← decode_attachments t rest;
      let '(nsp, rest) := decode_nsp rest in
      let '(id, rest) := decode_id rest in
      v ← decode_payload t rest;
      mret (mkPacket t nsp id v n)
  end.

(** ** Binary payloads *)

Fixpoint hasBinary (v : gval) : bool :=
  match v with
  | VBytes _ | VReader _ => true
  | VArr l => existsb hasBinary l
  | VMap m => existsb (λ kv, hasBinary kv.2) m
  | _ => false
  end.

Definition push_buf (b : bytes) : SE dstate string gval :=
  λ '(st, bufs), (Ok (VPlaceholder (Z.of_nat (length bufs))), (st, bufs ++ [b])).

Definition read_buf (r : nat) : SE dstate string bytes :=
  λ '(st, bufs), let '(b, st') := readAll r st in (b, (st', bufs)).

Fixpoint deconstruct (v : gval) : SE dstate string gval :=
  match v with
  | VBytes b => push_buf b
  | VReader r => b ← read_buf r; push_buf b
  | VArr l => out ← SE_map deconstruct l; mret (VArr out)
  | VMap m => out ← SE_map (λ kv, d ← deconstruct kv.2; mret (kv.1, d)) m; mret (VMap out)
  | _ => mret v
  end.

(** [x["_placeholder"].(bool)] is true. *)
Definition is_placeholder (m : list (string * gval)) : bool :=
  match map_get m "_placeholder" with Some (VBool b) => b | _ => false end.

Definition placeholder_buf (m : list (string * gval)) (bufs : list bytes) : gval :=
  match map_get m "num" with
  | Some (VNum x) =>
      let idx := f64_to_Z x in
      if (0 <=? idx) && (idx <? Z.of_nat (length bufs))
      then match bufs !! Z.to_nat idx with Some b => VBytes b | None => VNil end
      else VNil
  | _ => VNil
  end.

Fixpoint reconstruct (v : gval) (bufs : list bytes) : gval :=
  match v with
  | VMap m =>
      if is_placeholder m then placeholder_buf m bufs
      else VMap ((λ kv, (kv.1, reconstruct kv.2 bufs)) <$> m)
  | VArr l => VArr ((λ e, reconstruct e bufs) <$> l)
  | _ => v
  end.
End Packet.

#[global] Arguments Packet {_}.

(** ** Lemmas: the text form *)

Lemma byte_ptype_byte t : byte_ptype (ptype_byte t) = Some t.
Proof. by destruct t; vm_compute. Qed.

Lemma byte_ptype_Some c t : byte_ptype c = Some t → c = ptype_byte t.
Proof.
  unfold byte_ptype. destruct (list_find _ _) as [[i t']|] eqn:E; simpl; [|done].
  apply list_find_Some in E. intros [= <-]. symmetry. by apply E.
Qed.

Lemma not_stop_elem x (a : bytes) : x ∉ a → Forall (λ c, bool_decide (c = x) = false) a.
Proof.
  intros Hx. apply Forall_forall. intros c Hc. apply bool_decide_eq_false_2. by intros ->.
Qed.

Lemma digits_no_dash s : forallb isDigit s = true → dash ∉ s.
Proof. intros Hd Hin%list_elem_of_In. rewrite forallb_forall in Hd. by apply Hd in Hin. Qed.

Lemma FormatInt_head n rest : 0 <= n <= int64_max →
  ∃ c s, FormatInt n ++ rest = c :: s ∧ isDigit c = true.
Proof.
  intros Hn. destruct (FormatInt_digits n Hn) as [Ha _].
  destruct (all_digits_cons _ Ha) as (c & s & -> & Hc & _). eauto.
Qed.

Lemma decode_attachments_encode t n rest :
  (if is_binary_type t then 0 <= n <= int64_max else n = 0) →
  decode_attachments t ((if is_binary_type t then FormatInt n ++ [dash] else []) ++ rest)
  = Ok (n, rest).
Proof.
  unfold decode_attachments. destruct (is_binary_type t); intros Hn; [|by subst].
  destruct (FormatInt_digits n Hn) as [Ha _].
  rewrite <- app_assoc. cbn [app]. rewrite scan_stop.
  - rewrite Atoi_FormatInt by done. destruct (Z.ltb_spec n 0); [lia|done].
  - by apply not_stop_elem, digits_no_dash, all_digits_forallb.
  - by apply bool_decide_eq_true_2.
Qed.

(** A namespace the wire form carries: it starts with a slash and holds no
    comma. *)
Definition nsp_ok (nsp : string) : Prop :=
  head (bytes_of nsp) = Some slash ∧ comma ∉ bytes_of nsp.

Lemma decode_nsp_encode nsp rest :
  nsp_ok nsp → (nsp = defaultNamespace → head rest ≠ Some slash) →
  decode_nsp ((if decide (nsp ≠ "" ∧ nsp ≠ defaultNamespace)
               then bytes_of nsp ++ [comma] else []) ++ rest) = (nsp, rest).
Proof.
  intros [Hh Hc] Hr. case_decide as Hd.
  - rewrite <- app_assoc. unfold decode_nsp. cbn [app].
    destruct (bytes_of nsp) as [|c b] eqn:Hb; [done|]. simpl in Hh. simplify_eq.
    cbn [app]. rewrite decide_True by done.
    change (slash :: b ++ comma :: rest) with ((slash :: b) ++ comma :: rest).
    rewrite scan_stop; [|by apply not_stop_elem|by apply bool_decide_eq_true_2].
    cbn [tail]. by rewrite <- Hb, string_of_bytes_of.
  - assert (nsp = defaultNamespace) as ->.
    { destruct (decide (nsp = "")) as [->|]; [done|].
      destruct (decide (nsp = defaultNamespace)); tauto. }
    specialize (Hr eq_refl). simpl. unfold decode_nsp.
    destruct rest as [|c rest]; [done|]. rewrite decide_False; [done|]. intros ->. by apply Hr.
Qed.

Definition id_ok (id : Z) : Prop := id = -1 ∨ 0 <= id <= int64_max.

Lemma decode_id_encode id rest :
  id_ok id → (∀ c, head rest = Some c → isDigit c = false) →
  decode_id ((if 0 <=? id then FormatInt id else []) ++ rest) = (id, rest).
Proof.
  intros [->|Hid] Hr; unfold decode_id.
  - simpl. destruct rest as [|c rest]; [done|]. by rewrite (Hr c).
  - destruct (Z.leb_spec 0 id); [|lia]. destruct (FormatInt_head id rest Hid) as (c & s & Hcs & Hc).
    destruct (FormatInt_digits id Hid) as [Ha _].
    rewrite Hcs at 1. rewrite Hc, scan_digits; [|by apply all_digits_forallb|done].
    by rewrite ParseInt_FormatInt.
Qed.

(** What the three scanning steps produce. *)
Lemma decode_nsp_ok rest nsp rest' : decode_nsp rest = (nsp, rest') → nsp_ok nsp.
Proof.
  assert (nsp_ok defaultNamespace) as Hd.
  { split; [done|]. apply (bool_decide_unpack (_ ∉ _)). by vm_compute. }
  unfold decode_nsp. destruct rest as [|c rest]; [by intros [= <- <-]|].
  case_decide as Hc; [|by intros [= <- <-]]. subst.
  destruct (scan _ (slash :: rest)) as [a b] eqn:E. intros [= <- <-].
  unfold nsp_ok. rewrite bytes_of_string_of. pose proof (scan_none_stop _ _ _ _ E) as HF. split.
  - simpl in E. destruct (scan _ rest). by injection E as <- <-.
  - intros Hin. rewrite Forall_forall in HF. apply HF in Hin. by rewrite bool_decide_eq_false in Hin.
Qed.

Lemma decode_id_ok rest id rest' : decode_id rest = (id, rest') → id_ok id.
Proof.
  unfold decode_id, id_ok. destruct rest as [|c rest]; [intros [= <- <-]; by left|].
  destruct (isDigit c) eqn:Hc; [|intros [= <- <-]; by left].
  destruct (scan _ (c :: rest)) as [ds r] eqn:E. intros [= <- <-]. right.
  assert (all_digits ds = true) as Hds.
  { pose proof (scan_none_stop _ _ _ _ E) as HF. simpl in E. rewrite Hc in E. simpl in E.
    destruct (scan _ rest). injection E as <- <-. unfold all_digits. apply forallb_forall.
    intros x Hx%list_elem_of_In. rewrite Forall_forall in HF. apply HF in Hx.
    by apply negb_false_iff. }
  rewrite ParseInt_digits by done. simpl.
  pose proof (digits_val_nonneg ds (all_digits_forallb _ Hds)). unfold int64_max. lia.
Qed.

Lemma decode_attachments_ok t rest n rest' :
  decode_attachments t rest = Ok (n, rest') →
  if is_binary_type t then 0 <= n <= int64_max else n = 0.
Proof.
  unfold decode_attachments. destruct (is_binary_type t); [|by intros [= <- <-]].
  destruct (scan _ rest) as [ds [|c r]]; [done|].
  destruct (Atoi ds) as [k|] eqn:Hk; [|done]. destruct (Z.ltb_spec k 0); [done|].
  intros [= <- <-]. split; [done|]. revert Hk. unfold Atoi.
  destruct (ParseInt ds) as [k' [|]] eqn:Hp; [done|]. intros [= ->]. by eapply ParseInt_le in Hp.
Qed.

Section RoundTrip.
Context `{Float64} `{!JSON}.

(** The data a packet of type [t] may carry and the parser accepts. *)
Definition data_ok (t : PacketType) (v : gval) : Prop :=
  v = VNil ∨ (is_nil v = false ∧ json_ok json_max_depth v
              ∧ validatePayload t (json_view v) = None).

(** A packet that [Encode] puts on the wire unambiguously. *)
Record packet_ok (p : Packet) : Prop := {
  ok_nsp : nsp_ok (pNsp p);
  ok_id : id_ok (pID p);
  ok_attachments : if is_binary_type (pType p) then 0 <= pAttachments p <= int64_max
                   else pAttachments p = 0;
  ok_data : data_ok (pType p) (pData p);
}.

(** Accepted payloads are arrays, maps and strings. *)
Lemma data_ok_head t v j :
  is_nil v = false → validatePayload t (json_view v) = None → json_marshal v = Some j →
  ∃ c, head j = Some c ∧ isDigit c = false ∧ c ≠ slash.
Proof.
  intros Hn Hv Hj.
  assert (∃ c, json_head v = Some c ∧ isDigit c = false ∧ c ≠ slash) as (c & Hc & Hd).
  { destruct t, v; simpl in *; simplify_eq/=; eexists; (split; [done|split; by vm_compute]). }
  exists c. split; [|done]. by eapply json_marshal_head.
Qed.

Definition data_text (v : gval) : bytes := if is_nil v then [] else default [] (json_marshal v).

Lemma data_text_head t v c :
  data_ok t v → head (data_text v) = Some c → isDigit c = false ∧ c ≠ slash.
Proof.
  unfold data_text. intros [->|(Hn & Hj & Hv)]; [done|]. rewrite Hn.
  destruct (json_round_trip v Hj) as (j & Hm & _). rewrite Hm. simpl.
  destruct (data_ok_head _ _ _ Hn Hv Hm) as (c' & Hc' & Hd). intros. by simplify_eq.
Qed.

Lemma decode_payload_encode t v :
  data_ok t v → decode_payload t (data_text v) = Ok (json_view v).
Proof.
  unfold data_text, decode_payload. intros [->|(Hn & Hj & Hv)]; [done|]. rewrite Hn.
  destruct (json_round_trip v Hj) as (j & Hm & Hu). rewrite Hm. simpl.
  destruct (data_ok_head _ _ _ Hn Hv Hm) as (c & Hc & _).
  rewrite decide_False by (by destruct j). by rewrite Hu, Hv.
Qed.

Lemma Decode_Encode_aux p :
  packet_ok p →
  Decode (Encode p) = Ok (mkPacket (pType p) (pNsp p) (pID p) (json_view (pData p)) (pAttachments p)).
Proof.
  destruct p as [t nsp id v n]. intros [Hnsp Hid Hn Hd]. simpl in *.
  unfold Encode, Decode. simpl. fold (data_text v). rewrite byte_ptype_byte.
  cbn -[decode_attachments decode_nsp decode_id decode_payload].
  pose proof (λ c, data_text_head t v c Hd) as Hhead.
  rewrite decode_attachments_encode by done.
  cbn -[decode_attachments decode_nsp decode_id decode_payload].
  rewrite decode_nsp_encode; [|done|].
  - rewrite decode_id_encode; [|done|by intros c [? _]%Hhead].
    by rewrite decode_payload_encode.
  - intros _. destruct Hid as [->|Hid].
    + simpl. intros [_ ?]%Hhead. done.
    + destruct (Z.leb_spec 0 id); [|lia].
      destruct (FormatInt_head id (data_text v) Hid) as (c & s & -> & Hc). simpl.
      intros [= ->]. done.
Qed.
End RoundTrip.

(** ** Lemmas: binary payloads *)
Section Binary.
Context `{Float64}.

(** The specification of a binary payload: every reader replaced by the
    bytes it gives, in the order the walk meets them. *)
Definition resolve_reader (r : nat) : SE readers string gval :=
  λ st, let '(b, st') := readAll r st in (VBytes <$> b, st').

Fixpoint resolve (v : gval) : SE readers string gval :=
  match v with
  | VReader r => resolve_reader r
  | VArr l => out ← SE_map resolve l; mret (VArr out)
  | VMap m => out ← SE_map (λ kv, d ← resolve kv.2; mret (kv.1, d)) m; mret (VMap out)
  | _ => mret v
  end.

(** User data that is not itself in the form of a placeholder: no map of it
    has ["_placeholder": true] (and the keys of a map are distinct). *)
Fixpoint marker_free (v : gval) : Prop :=
  match v with
  | VArr l => foldr (λ e acc, marker_free e ∧ acc) True l
  | VMap m => NoDup (map_keys m) ∧ map_get m "_placeholder" ≠ Some (VBool true)
              ∧ foldr (λ kv acc, marker_free kv.2 ∧ acc) True m
  | VPlaceholder _ => False
  | _ => True
  end.

(** The walk [m] against its specification [s]: the buffers grow at the end,
    the readers evolve as in [s], and the results are related by [rel]. *)
Definition walk {A B} (m : SE dstate string A) (s : SE readers string B)
    (rel : A → B → list bytes → Prop) : Prop :=
  ∀ st bufs r st' bufs', m (st, bufs) = (r, (st', bufs')) →
  (∃ bs, bufs' = bufs ++ bs) ∧
  match r with
  | Ok d => ∃ w, s st = (Ok w, st') ∧ rel d w bufs'
  | Err e => s st = (Err e, st')
  end.

Definition grows {A B} (rel : A → B → list bytes → Prop) : Prop :=
  ∀ d w bufs bs, rel d w bufs → rel d w (bufs ++ bs).

Lemma walk_ret {A B} (a : A) (b : B) (rel : A → B → list bytes → Prop) :
  (∀ bufs, rel a b bufs) → walk (mret a) (mret b) rel.
Proof.
  intros Hr st bufs r st' bufs' [= <- <- <-].
  split; [by exists []; rewrite app_nil_r|]. exists b. auto.
Qed.

Lemma walk_bind {A B A' B'} m1 s1 (rel1 : A → B → list bytes → Prop)
    (m2 : A → SE dstate string A') (s2 : B → SE readers string B') rel2 :
  grows rel1 → walk m1 s1 rel1 →
  (∀ d w, walk (m2 d) (s2 w) (λ d' w' bufs, rel1 d w bufs → rel2 d' w' bufs)) →
  walk (m1 ≫= m2) (s1 ≫= s2) rel2.
Proof.
  intros Hg H1 H2 st bufs r st'' bufs''. unfold mbind, SE_bind.
  destruct (m1 (st, bufs)) as [[d|e] [st' bufs']] eqn:E1;
    destruct (H1 _ _ _ _ _ E1) as [[bs ->] Hr1].
  - destruct Hr1 as (w & -> & Hrel). intros E2.
    destruct (H2 d w _ _ _ _ _ E2) as [[bs2 ->] Hr2].
    split; [exists (bs ++ bs2); by rewrite app_assoc|].
    destruct r as [d'|e]; [|done]. destruct Hr2 as (w' & Hs & Hr).
    exists w'. split; [done|]. by apply Hr, Hg.
  - rewrite Hr1. intros [= <- <- <-]. eauto.
Qed.

Lemma walk_map {C A B} (f : C → SE dstate string A) (g : C → SE readers string B) rel l :
  grows rel → Forall (λ a, walk (f a) (g a) rel) l →
  walk (SE_map f l) (SE_map g l) (λ ds ws bufs, Forall2 (λ d w, rel d w bufs) ds ws).
Proof.
  intros Hg HF. induction HF as [|a l Ha HF IH]; simpl.
  { apply walk_ret. constructor. }
  eapply walk_bind; [exact Hg|exact Ha|]. intros d w.
  eapply walk_bind; [|exact IH|].
  - intros ds ws bufs bs Hf. eapply Forall2_impl; [exact Hf|]. auto.
  - intros ds ws. apply walk_ret. by constructor.
Qed.

(** The relation on values: putting the buffers back in the JSON view of the
    deconstructed value gives the JSON view of the resolved one. *)
Definition rebuilds (d w : gval) (bufs : list bytes) : Prop :=
  ∀ more, Z.of_nat (length (bufs ++ more)) <= f64_exact →
  reconstruct (json_view d) (bufs ++ more) = json_view w.

Lemma rebuilds_grows : grows rebuilds.
Proof.
  intros d w bufs bs Hr more Hm. rewrite <- app_assoc in *. by apply Hr.
Qed.

Lemma SE_map_Forall2 {S E A B} (f : A → SE S E B) l s bs s' :
  SE_map f l s = (Ok bs, s') → Forall2 (λ a b, ∃ s1 s2, f a s1 = (Ok b, s2)) l bs.
Proof.
  revert s bs s'. induction l as [|a l IH]; intros s bs s'; simpl.
  - intros [= <- <-]. constructor.
  - unfold mbind, SE_bind. destruct (f a s) as [[b|e] s1] eqn:Ea; [|done].
    destruct (SE_map f l s1) as [[bs'|e] s2] eqn:El; [|done].
    intros [= <- <-]. constructor; eauto.
Qed.

(** Deconstructing makes no [true] out of anything else. *)
Lemma deconstruct_true v s d s' :
  deconstruct v s = (Ok d, s') → d = VBool true → v = VBool true.
Proof.
  destruct v, s as [st bufs]; simpl; unfold mbind, SE_bind, push_buf, read_buf, mret, SE_ret;
    intros Hd ->; repeat case_match; simplify_eq/=; done.
Qed.

Lemma walk_with_run {A B} (m : SE dstate string A) (s : SE readers string B) rel :
  walk m s rel → walk m s (λ d w bufs, rel d w bufs ∧ ∃ x y, m x = (Ok d, y)).
Proof.
  intros Hw st bufs r st' bufs' Hm. destruct (Hw _ _ _ _ _ Hm) as [Hb Hr].
  split; [done|]. destruct r; [|done]. destruct Hr as (w & ? & ?). exists w. eauto 10.
Qed.

Context `{!Float64Laws}.

Lemma push_buf_walk b : walk (push_buf b) (mret (VBytes b)) rebuilds.
Proof.
  intros st bufs r st' bufs' [= <- <- <-]. split; [eauto|]. exists (VBytes b).
  split; [done|]. intros more Hm. rewrite !length_app in Hm. simpl in Hm.
  cbn [json_view reconstruct]. change (is_placeholder (placeholder_map _)) with true.
  unfold placeholder_buf. change (map_get (placeholder_map _) "num")
    with (Some (VNum (f64_of_Z (Z.of_nat (length bufs))))). cbn beta iota zeta.
  rewrite f64_of_to by lia. rewrite (proj2 (Z.leb_le _ _)) by lia.
  rewrite (proj2 (Z.ltb_lt _ _)) by (rewrite !length_app; simpl; lia). cbn [andb].
  rewrite Nat2Z.id, <- app_assoc. cbn [app]. by rewrite list_lookup_middle.
Qed.

Lemma read_buf_walk r :
  walk (b ← read_buf r; push_buf b) (resolve_reader r) rebuilds.
Proof.
  intros st bufs res st' bufs'. unfold mbind, SE_bind, read_buf, resolve_reader.
  destruct (readAll r st) as [[b|e] st1]; [|intros [= <- <- <-]].
  - intros Hp. apply push_buf_walk in Hp as [Hb Hr]. split; [done|].
    destruct res; [|done]. destruct Hr as (w & [= <- <-] & Hr). eauto.
  - split; [exists []; by rewrite app_nil_r|done].
Qed.

Lemma map_get_cons kv m k :
  map_get (kv :: m) k = if decide (kv.1 = k) then Some kv.2 else map_get m k.
Proof.
  unfold map_get. cbn [list_find]. destruct (decide (kv.1 = k)); [done|].
  by destruct (list_find _ m) as [[]|].
Qed.

Lemma map_get_on_value (f : gval → gval) m k :
  map_get (on_value f <$> m) k = f <$> map_get m k.
Proof.
  induction m as [|kv m IH]; [done|]. rewrite fmap_cons, !map_get_cons, IH.
  unfold on_value at 1 2. cbn [fst snd]. by case_decide.
Qed.

(** The pairs of a map after the walk, against the pairs before. *)
Lemma map_get_true_back (m ds : list (string * gval)) k :
  Forall2 (λ kv kd, kd.1 = kv.1 ∧ (kd.2 = VBool true → kv.2 = VBool true)) m ds →
  map_get ds k = Some (VBool true) → map_get m k = Some (VBool true).
Proof.
  induction 1 as [|kv kd m ds [Hk Ht] HF IH]; [done|].
  rewrite !map_get_cons, Hk. case_decide; [|done]. intros [= ?]. f_equal. by apply Ht.
Qed.

Lemma json_view_true v : json_view v = VBool true → v = VBool true.
Proof. by destruct v. Qed.

(** The view of a map that is no placeholder is rebuilt value by value. *)
Lemma reconstruct_map ds bufs :
  NoDup (map_keys ds) → map_get ds "_placeholder" ≠ Some (VBool true) →
  reconstruct (json_view (VMap ds)) bufs
  = VMap (sort_keys (on_value (λ d, reconstruct (json_view d) bufs) <$> ds)).
Proof.
  intros Hnd Hm. cbn [json_view reconstruct].
  change ((λ kv, (kv.1, json_view kv.2)) <$> ds) with (on_value json_view <$> ds).
  assert (is_placeholder (sort_keys (on_value json_view <$> ds)) = false) as ->.
  { unfold is_placeholder.
    rewrite <- (map_get_perm (on_value json_view <$> ds));
      [|unfold map_keys; by rewrite on_value_keys|symmetry; apply sort_keys_perm].
    rewrite map_get_on_value. destruct (map_get ds "_placeholder") as [v|]; [|done].
    cbn [fmap option_fmap option_map]. destruct (json_view v) as [|[]| | | | | | |] eqn:Hv; try done.
    apply json_view_true in Hv as ->. done. }
  change ((λ kv, (kv.1, reconstruct kv.2 bufs)) <$> ?l) with (on_value (λ v, reconstruct v bufs) <$> l).
  rewrite <- sort_keys_on_value, <- list_fmap_compose. done.
Qed.

Lemma deconstruct_walk v :
  marker_free v → walk (deconstruct v) (resolve v) rebuilds.
Proof.
  induction v as [|b|x|s|l IH|m IH|b|r|n] using gval_rect'; cbn [marker_free deconstruct resolve];
    intros Hf; try (apply walk_ret; by intros bufs more); try done.
  - eapply (walk_bind _ _ _ _ _ _ (λ ds ws bufs bs H, Forall2_impl _ _ _ _ H (λ d w, rebuilds_grows d w bufs bs))).
    + apply walk_map; [apply rebuilds_grows|].
      clear - IH Hf. induction IH as [|v l Hv IH IHl]; constructor.
      * apply Hv, Hf. * apply IHl, Hf.
    + intros ds ws. apply walk_ret. intros bufs HF more Hm. cbn [json_view reconstruct].
      f_equal. rewrite <- list_fmap_compose.
      induction HF as [|d w ds ws Hd HF IHF]; [done|]. rewrite !fmap_cons. f_equal; [by apply Hd|done].
  - destruct Hf as (Hnd & Hnp & Hf).
    eapply (walk_bind _ _ (λ ds ws bufs, Forall2 (λ kd kw, kd.1 = kw.1 ∧ rebuilds kd.2 kw.2 bufs) ds ws
      ∧ ∃ x y, SE_map (λ kv, d ← deconstruct kv.2; mret (kv.1, d)) m x = (Ok ds, y))).
    + intros ds ws bufs bs [HF Hrun]. split; [|done]. eapply Forall2_impl; [exact HF|].
      intros kd kw [? ?]. split; [done|]. by apply rebuilds_grows.
    + apply walk_with_run. apply walk_map.
      { intros kd kw bufs bs [? ?]. split; [done|]. by apply rebuilds_grows. }
      clear - IH Hf. induction IH as [|kv m Hv IH IHm]; constructor; [|apply IHm, Hf].
      eapply walk_bind; [apply rebuilds_grows|apply Hv, Hf|].
      intros d w. by apply walk_ret.
    + intros ds ws. apply walk_ret. intros bufs [HF (x & y & Hrun)] more Hm.
      apply SE_map_Forall2 in Hrun.
      assert (Forall2 (λ kv kd, kd.1 = kv.1 ∧ (kd.2 = VBool true → kv.2 = VBool true)) m ds) as Hback.
      { eapply Forall2_impl; [exact Hrun|]. intros kv kd (s1 & s2 & Hd). revert Hd.
        unfold mbind, SE_bind, mret, SE_ret.
        destruct (deconstruct kv.2 s1) as [[d|e] s3] eqn:E; [|done]. intros [= <- <-].
        split; [done|]. by eapply deconstruct_true. }
      rewrite reconstruct_map.
      * cbn [json_view].
        change ((λ kv, (kv.1, json_view kv.2)) <$> ws) with (on_value json_view <$> ws).
        do 2 f_equal. clear - HF Hm.
        induction HF as [|kd kw ds ws [Hk Hd] HF IHF]; [done|]. rewrite !fmap_cons, IHF.
        f_equal. unfold on_value. rewrite Hk. f_equal. by apply Hd.
      * enough (map_keys ds = map_keys m) as -> by done. clear - Hback. unfold map_keys.
        induction Hback as [|kv kd m ds [Hk _] HF IH]; [done|]. by rewrite !fmap_cons, Hk, IH.
      * intros Ht. by eapply Hnp, map_get_true_back.
  - apply push_buf_walk.
  - apply read_buf_walk.
Qed.
End Binary.

(** ** Counting the buffers *)
Section Leaves.
Context `{Float64}.

(** The number of [[]byte] and [io.Reader] values inside a value. *)
Fixpoint binary_leaves (v : gval) : nat :=
  match v with
  | VBytes _ | VReader _ => 1
  | VArr l => foldr (λ e n, binary_leaves e + n)%nat 0%nat l
  | VMap m => foldr (λ kv n, binary_leaves kv.2 + n)%nat 0%nat m
  | _ => 0
  end.

Lemma hasBinary_leaves v : hasBinary v = (0 <? binary_leaves v)%nat.
Proof.
  induction v as [|b|x|s|l IH|m IH|b|r|n] using gval_rect'; try done; simpl.
  - induction IH as [|v l Hv _ IHl]; simpl; [done|]. rewrite Hv, IHl.
    destruct (binary_leaves v); simpl; done.
  - induction IH as [|v l Hv _ IHl]; simpl; [done|]. rewrite Hv, IHl.
    destruct (binary_leaves v.2); simpl; done.
Qed.

(** A walk that pushes [n] buffers and whose result holds no binary. *)
Definition pushes {A} (clean : A → bool) (n : nat) (m : SE dstate string A) : Prop :=
  ∀ st bufs d st' bufs', m (st, bufs) = (Ok d, (st', bufs')) →
  length bufs' = (length bufs + n)%nat ∧ clean d = true.

Lemma pushes_bind {A B} cA cB n1 n2 (m : SE dstate string A) (f : A → SE dstate string B) :
  pushes cA n1 m → (∀ a, cA a = true → pushes cB n2 (f a)) → pushes cB (n1 + n2) (m ≫= f).
Proof.
  intros H1 H2 st bufs d st' bufs'. unfold mbind, SE_bind.
  destruct (m (st, bufs)) as [[a|e] [st1 bufs1]] eqn:E; [|done].
  destruct (H1 _ _ _ _ _ E) as [Hl Hc]. intros Hf.
  destruct (H2 a Hc _ _ _ _ _ Hf) as [-> ?]. split; [lia|done].
Qed.

Lemma pushes_ret {A} (c : A → bool) a : c a = true → pushes c 0 (mret a).
Proof. intros Hc st bufs d st' bufs' [= <- <- <-]. split; [lia|done]. Qed.

Lemma pushes_map {A B} c (f : A → SE dstate string B) (cnt : A → nat) l :
  Forall (λ a, pushes c (cnt a) (f a)) l →
  pushes (forallb c) (foldr (λ a n, cnt a + n)%nat 0%nat l) (SE_map f l).
Proof.
  induction 1 as [|a l Ha _ IH]; simpl; [by apply pushes_ret|].
  eapply pushes_bind; [exact Ha|]. intros b Hb.
  rewrite <- (Nat.add_0_r (foldr _ _ _)). eapply pushes_bind; [exact IH|].
  intros bs Hbs. apply pushes_ret. simpl. by rewrite Hb, Hbs.
Qed.

Definition no_binary (v : gval) : bool := negb (hasBinary v).

Lemma existsb_negb {A} (f : A → bool) l : forallb (negb ∘ f) l = negb (existsb f l).
Proof. induction l as [|a l IH]; simpl; [done|]. rewrite IH. by destruct (f a). Qed.

Lemma deconstruct_pushes v : pushes no_binary (binary_leaves v) (deconstruct v).
Proof.
  induction v as [|b|x|s|l IH|m IH|b|r|n] using gval_rect';
    cbn [deconstruct binary_leaves]; try by apply pushes_ret.
  - rewrite <- (Nat.add_0_r (foldr _ _ _)). eapply pushes_bind; [by apply pushes_map|].
    intros ds Hds. apply pushes_ret. unfold no_binary. simpl. by rewrite <- existsb_negb.
  - rewrite <- (Nat.add_0_r (foldr _ _ _)).
    eapply (pushes_bind (forallb (λ kd, no_binary kd.2))).
    + apply pushes_map. eapply Forall_impl; [exact IH|]. intros kv Hv.
      rewrite <- (Nat.add_0_r (binary_leaves _)). eapply pushes_bind; [exact Hv|].
      intros d Hd. by apply pushes_ret.
    + intros ds Hds. apply pushes_ret. unfold no_binary. simpl. by rewrite <- existsb_negb.
  - intros st bufs d st' bufs' [= <- <- <-]. rewrite length_app. done.
  - intros st bufs d st' bufs'. unfold mbind, SE_bind, read_buf.
    destruct (readAll r st) as [[b|e] st1]; [|done]. intros [= <- <- <-]. by rewrite length_app.
Qed.

Lemma SE_map_ret {S E A} (f : A → SE S E A) l s :
  Forall (λ a, f a s = (Ok a, s)) l → SE_map f l s = (Ok l, s).
Proof.
  induction 1 as [|a l Ha _ IH]; simpl; [done|]. unfold mbind, SE_bind. by rewrite Ha, IH.
Qed.

(** Without binary values the walk changes nothing. *)
Lemma deconstruct_plain v s : hasBinary v = false → deconstruct v s = (Ok v, s).
Proof.
  induction v as [|b|x|t|l IH|m IH|b|r|n] using gval_rect'; simpl; try done.
  - intros Hb. unfold mbind at 1, SE_bind at 1. rewrite SE_map_ret; [done|].
    induction IH as [|v l Hv _ IHl]; constructor; apply orb_false_iff in Hb as [? ?]; auto.
  - intros Hb. unfold mbind at 1, SE_bind at 1. rewrite SE_map_ret; [done|].
    induction IH as [|[k v] m Hv _ IHm]; constructor; apply orb_false_iff in Hb as [H1 H2]; auto.
    simpl in *. unfold mbind, SE_bind. by rewrite Hv.
Qed.
End Leaves.

(** ** Properties *)

(** C29. Text round trip: a packet whose namespace starts with a slash and holds
    no comma, whose id is [-1] or an [int64], and whose payload is nil or a
    payload the parser accepts, is read back by [Decode] from what [Encode]
    writes, with the payload as JSON gives it back. *)
Theorem decode_encode_sio `{Float64} `{!JSON} (p : Packet) :
  packet_ok p →
  Decode (Encode p)
  = Ok (mkPacket (pType p) (pNsp p) (pID p) (json_view (pData p)) (pAttachments p)).
Proof. apply Decode_Encode_aux. Qed.

Definition example_event : Packet :=
  mkPacket Event "/admin" 7 (VArr [VStr "hi"; VNum (f64_of_Z 5); VMap [("k", VNil)]]) 0.

Lemma decode_encode_sio_witness : Decode (Encode example_event) = Ok example_event.
Proof.
  apply (decode_encode_sio example_event). split; simpl.
  - split; [done|]. apply (bool_decide_unpack (_ ∉ _)). by vm_compute.
  - right. by vm_compute.
  - done.
  - right. split; [done|]. split; [|done]. change json_max_depth with (S (S (pred (pred json_max_depth)))).
    generalize (pred (pred json_max_depth)). intros d. simpl. split_and!; try done.
    + by apply NoDup_singleton.
    + by destruct d.
Defined.

(** C34. What [Decode] accepts: the namespace starts with a slash and holds no
    comma, the id is [-1] or a non-negative [int64], the attachment count is a
    non-negative [int64] and zero unless the packet is binary, and the payload
    is nil or passes [validatePayload]; so an event has a name that is a
    number or an unreserved string. *)
Theorem decode_sio_sound `{Float64} `{!JSON} data :
  match Decode data with
  | Ok p => nsp_ok (pNsp p) ∧ id_ok (pID p)
            ∧ (if is_binary_type (pType p) then 0 <= pAttachments p <= int64_max
               else pAttachments p = 0)
            ∧ (pData p = VNil ∨ validatePayload (pType p) (pData p) = None)
  | Err e => data = [] → e = ErrEmptyPacket
  end.
Proof.
  destruct data as [|c rest]; [done|]. unfold Decode.
  destruct (byte_ptype c) as [t|]; [|done].
  cbn -[decode_attachments decode_nsp decode_id decode_payload].
  destruct (decode_attachments t rest) as [[n rest1]|] eqn:Ha; [|done].
  cbn -[decode_attachments decode_nsp decode_id decode_payload].
  destruct (decode_nsp rest1) as [nsp rest2] eqn:Hn.
  destruct (decode_id rest2) as [id rest3] eqn:Hi.
  destruct (decode_payload t rest3) as [v|] eqn:Hv; [|done]. simpl. split_and!.
  - by eapply decode_nsp_ok.
  - by eapply decode_id_ok.
  - by eapply decode_attachments_ok.
  - unfold decode_payload in Hv. case_decide; [left; congruence|right].
    destruct (json_unmarshal rest3) as [w|]; [|done].
    by destruct (validatePayload t w) eqn:?; simplify_eq.
Qed.

(** Acknowledgement ids at the edge of [int64]: [Decode] ignores
    [ParseInt]'s error, so a digit string gives its value capped at 2^63-1,
    and the digits are consumed either way. *)
Theorem decode_id_saturates ds rest :
  all_digits ds = true → (∀ c, head rest = Some c → isDigit c = false) →
  decode_id (ds ++ rest) = (Z.min (digits_val ds) int64_max, rest).
Proof.
  intros Hd Hr. destruct (all_digits_cons _ Hd) as (c & s & Hcs & Hc & _).
  assert (∃ s', ds ++ rest = c :: s') as [s' Hs'] by (subst; simpl; eauto).
  unfold decode_id. rewrite Hs', Hc, <- Hs'.
  rewrite scan_digits by (done || by apply all_digits_forallb). by rewrite ParseInt_digits.
Qed.

Lemma decode_id_saturates_witness :
  decode_id (bytes_of "99999999999999999999[]") = (int64_max, bytes_of "[]").
Proof.
  apply (decode_id_saturates (bytes_of "99999999999999999999") (bytes_of "[]")); [done|].
  by intros c [= <-].
Defined.

(** Binary round trip: [deconstruct] then the JSON view then [reconstruct]
    with the collected buffers gives back the payload with every reader
    replaced by the bytes it had, for data without a placeholder of its own
    and fewer than 2^53 buffers; the readers end up drained as [resolve]
    says, and it fails only when reading a reader fails. *)
Theorem deconstruct_reconstruct `{Float64} `{!Float64Laws} v st r st' bufs :
  marker_free v → Z.of_nat (length bufs) <= f64_exact →
  deconstruct v (st, []) = (r, (st', bufs)) →
  match r with
  | Ok d => ∃ w, resolve v st = (Ok w, st') ∧ reconstruct (json_view d) bufs = json_view w
  | Err e => resolve v st = (Err e, st')
  end.
Proof.
  intros Hv Hb Hd. destruct (deconstruct_walk v Hv _ _ _ _ _ Hd) as [_ Hr].
  destruct r as [d|e]; [|done]. destruct Hr as (w & Hw & Hrel). exists w. split; [done|].
  specialize (Hrel []). rewrite app_nil_r in Hrel. by apply Hrel.
Qed.

(** An event with a nested buffer and a reader used twice: the second use
    finds it drained. *)
Definition example_binary : gval :=
  VArr [VStr "up"; VMap [("f", VBytes (bytes_of "abc"))]; VReader 0; VReader 0].
Definition example_readers : readers := {[ 0%nat := Remaining (bytes_of "xyz") ]}.

Lemma deconstruct_reconstruct_witness :
  ∃ w, resolve example_binary example_readers = (Ok w, {[ 0%nat := Remaining [] ]})
    ∧ reconstruct (json_view (VArr [VStr "up"; VMap [("f", VPlaceholder 0)];
                                    VPlaceholder 1; VPlaceholder 2]))
        [bytes_of "abc"; bytes_of "xyz"; []] = json_view w.
Proof.
  apply (deconstruct_reconstruct example_binary example_readers
    (Ok (VArr [VStr "up"; VMap [("f", VPlaceholder 0)]; VPlaceholder 1; VPlaceholder 2]))).
  - simpl. split_and!; try done. by apply NoDup_singleton.
  - by vm_compute.
  - reflexivity.
Defined.

(** Attachments: [hasBinary] holds exactly when the payload has a binary
    leaf; a payload without one passes [deconstruct] unchanged; otherwise
    every leaf gives one buffer (the attachment count on the wire) and the
    result holds no binary value any more. *)
Theorem hasBinary_deconstruct `{Float64} v :
  hasBinary v = (0 <? binary_leaves v)%nat
  ∧ (∀ s, hasBinary v = false → deconstruct v s = (Ok v, s))
  ∧ (∀ st bufs d st' bufs', deconstruct v (st, bufs) = (Ok d, (st', bufs')) →
     length bufs' = (length bufs + binary_leaves v)%nat ∧ hasBinary d = false).
Proof.
  split; [apply hasBinary_leaves|]. split; [intros s; apply deconstruct_plain|].
  intros st bufs d st' bufs' Hd. destruct (deconstruct_pushes v _ _ _ _ _ Hd) as [Hl Hc].
  split; [done|]. by apply negb_true_iff in Hc.
Qed.
