(* ===== verification/AckTable.v ===== *)
(** * AckTable: pending acknowledgement callbacks

    Models [socketio/ack.go].  Every method of [ackTable] holds the mutex for
    its whole effect on the table, so a method is one function on the table;
    a callback is a reference [F] to the function the user passed (nil is
    [None]), and [invoke] gives the call to make after the unlock. *)

From S2P Require Import Prelude.
From S2P Require Import Strconv.

(** The two's complement value of [z] on 64 bits. *)
Definition wrap64 (z : Z) : Z := (z + 2 ^ 63) mod 2 ^ 64 - 2 ^ 63.

Lemma wrap64_small z : -2 ^ 63 <= z <= int64_max → wrap64 z = z.
Proof. unfold wrap64, int64_max. intros Hz. rewrite Z.mod_small; lia. Qed.

Section AckTable.
Context {F : Type}.

Record ackTable := mkAckTable { seq : Z; cbs : gmap Z (option F) }.

Definition newAckTable : ackTable := mkAckTable 0 ∅.

(** [t.seq++; return t.seq] on an [int64]. *)
Definition next (t : ackTable) : Z * ackTable :=
  let n := wrap64 (seq t + 1) in (n, mkAckTable n (cbs t)).

Definition register (id : Z) (cb : option F) (t : ackTable) : ackTable :=
  mkAckTable (seq t) (<[id := cb]> (cbs t)).

(** What [invoke] returns, and the callback it runs after unlocking. *)
Definition invoke (id : Z) (t : ackTable) : bool * option F * ackTable :=
  match cbs t !! id with
  | Some cb => (true, cb, mkAckTable (seq t) (delete id (cbs t)))
  | None => (false, None, t)
  end.

Definition remove (id : Z) (t : ackTable) : ackTable :=
  mkAckTable (seq t) (delete id (cbs t)).

Definition clear (t : ackTable) : ackTable := mkAckTable (seq t) ∅.
End AckTable.
#[global] Arguments ackTable : clear implicits.

(** ** Histories

    The methods are called from many goroutines; a history is the order in
    which they took the mutex. *)
Section History.
Context {F : Type} `{EqDecision F}.

Inductive op :=
| ONext
| ORegister (id : Z) (cb : option F)
| OInvoke (id : Z)
| ORemove (id : Z)
| OClear.

(** What a step lets out: an id, or a call of a callback. *)
Inductive event := Allocated (id : Z) | Called (id : Z) (cb : F).

Definition step (o : op) (t : ackTable F) : list event * ackTable F :=
  match o with
  | ONext => let '(id, t') := next t in ([Allocated id], t')
  | ORegister id cb => ([], register id cb t)
  | OInvoke id =>
      match invoke id t with
      | (_, Some cb, t') => ([Called id cb], t')
      | (_, None, t') => ([], t')
      end
  | ORemove id => ([], remove id t)
  | OClear => ([], clear t)
  end.

Fixpoint run (os : list op) (t : ackTable F) : list event * ackTable F :=
  match os with
  | [] => ([], t)
  | o :: os' => let '(es, t') := step o t in
                let '(es', t'') := run os' t' in (es ++ es', t'')
  end.

(** The callback pending for [id] after a history: the abstract
    specification of the table. *)
Definition pending_after (id : Z) (o : op) (p : option (option F)) : option (option F) :=
  match o with
  | ONext => p
  | ORegister id' cb => if decide (id' = id) then Some cb else p
  | OInvoke id' | ORemove id' => if decide (id' = id) then None else p
  | OClear => None
  end.

Definition pending (id : Z) (os : list op) : option (option F) :=
  foldl (λ p o, pending_after id o p) None os.

Definition is_call (id : Z) (e : event) : bool :=
  match e with Called id' _ => bool_decide (id' = id) | _ => false end.
Definition is_register (id : Z) (o : op) : bool :=
  match o with ORegister id' _ => bool_decide (id' = id) | _ => false end.
Definition count {A} (f : A → bool) (l : list A) : nat := length (filter (λ a, f a = true) l).

Definition allocated (es : list event) : list Z :=
  omap (λ e, match e with Allocated id => Some id | _ => None end) es.

Lemma count_app {A} (f : A → bool) l1 l2 : count f (l1 ++ l2) = (count f l1 + count f l2)%nat.
Proof. unfold count. by rewrite filter_app, length_app. Qed.

Lemma count_cons {A} (f : A → bool) a l :
  count f (a :: l) = ((if f a then 1 else 0) + count f l)%nat.
Proof. unfold count. rewrite filter_cons. by destruct (f a). Qed.

Lemma run_app os1 os2 t :
  run (os1 ++ os2) t
  = let '(es, t') := run os1 t in let '(es', t'') := run os2 t' in (es ++ es', t'').
Proof.
  revert t. induction os1 as [|o os1 IH]; intros t; simpl; [by destruct (run os2 t)|].
  destruct (step o t) as [es t']. rewrite IH. destruct (run os1 t') as [es1 t1].
  destruct (run os2 t1) as [es2 t2]. by rewrite app_assoc.
Qed.

Lemma step_cbs o t id :
  cbs (step o t).2 !! id = pending_after id o (cbs t !! id).
Proof.
  destruct o as [|id' cb|id'|id'|]; simpl; try done; try case_decide; subst; simpl.
  - by rewrite lookup_insert_eq.
  - by rewrite lookup_insert_ne.
  - unfold invoke. destruct (cbs t !! id) as [[?|]|] eqn:E; simpl; rewrite ?lookup_delete_eq; done.
  - unfold invoke. destruct (cbs t !! id') as [[?|]|] eqn:E; simpl; rewrite ?lookup_delete_ne; done.
  - by rewrite lookup_delete_eq.
  - by rewrite lookup_delete_ne.
Qed.

Lemma run_cbs os t id :
  cbs (run os t).2 !! id = foldl (λ p o, pending_after id o p) (cbs t !! id) os.
Proof.
  revert t. induction os as [|o os IH]; intros t; simpl; [done|].
  pose proof (step_cbs o t id) as Hs. destruct (step o t) as [es t'].
  specialize (IH t'). destruct (run os t') as [es' t'']. simpl in *. by rewrite IH, Hs.
Qed.

(** One callback may be pending. *)
Definition held (p : option (option F)) : nat := match p with Some _ => 1 | None => 0 end.

Lemma step_calls o t id :
  (count (is_call id) (step o t).1 + held (cbs (step o t).2 !! id)
   ≤ (if is_register id o then 1 else 0) + held (cbs t !! id))%nat.
Proof.
  rewrite step_cbs. destruct o as [|id' cb|id'|id'|]; simpl; try case_bool_decide; try case_decide;
    try done; simpl; try (unfold count; simpl; lia).
  - subst. unfold invoke. destruct (cbs t !! id) as [[cb|]|]; cbn [fst];
      rewrite ?count_cons; simpl; rewrite ?bool_decide_true by done; unfold count; simpl; lia.
  - unfold invoke. destruct (cbs t !! id') as [[cb|]|]; cbn [fst];
      rewrite ?count_cons; simpl; rewrite ?bool_decide_false by done; unfold count; simpl; lia.
Qed.

Lemma run_calls os t id :
  (count (is_call id) (run os t).1 ≤ count (is_register id) os + held (cbs t !! id))%nat.
Proof.
  revert t. induction os as [|o os IH]; intros t; simpl; [unfold count; simpl; lia|].
  rewrite count_cons. pose proof (step_calls o t id) as Hs.
  destruct (step o t) as [es t'] eqn:E. specialize (IH t').
  destruct (run os t') as [es' t''] eqn:E'. cbn [fst snd] in *. rewrite count_app. lia.
Qed.

Lemma step_alloc o t :
  0 <= seq t < int64_max →
  seq (step o t).2 = seq t + Z.of_nat (length (allocated (step o t).1))
  ∧ allocated (step o t).1 = seqZ (seq t + 1) (Z.of_nat (length (allocated (step o t).1))).
Proof.
  intros Hs. destruct o as [|id' cb|id'|id'|]; simpl; [|split; [lia|done]|..|split; [lia|done]|split; [lia|done]].
  - rewrite wrap64_small by lia. split; [lia|done].
  - unfold invoke. destruct (cbs t !! id') as [[cb|]|]; simpl; (split; [lia|done]).
Qed.

Lemma allocated_length_step o t : (length (allocated (step o t).1) ≤ 1)%nat.
Proof.
  destruct o as [|id' cb|id'|id'|]; simpl; try lia. unfold invoke.
  destruct (cbs t !! id') as [[cb|]|]; simpl; lia.
Qed.

Lemma run_alloc os t :
  0 <= seq t → seq t + Z.of_nat (length os) <= int64_max →
  seq (run os t).2 = seq t + Z.of_nat (length (allocated (run os t).1))
  ∧ allocated (run os t).1 = seqZ (seq t + 1) (Z.of_nat (length (allocated (run os t).1))).
Proof.
  revert t. induction os as [|o os IH]; intros t H0 Hb; [simpl; split; [lia|done]|].
  cbn [length] in Hb. destruct (step_alloc o t) as [Hs1 Hs2]; [lia|].
  pose proof (allocated_length_step o t) as Hle.
  cbn [run]. destruct (step o t) as [es t'] eqn:E. cbn [fst snd] in *.
  destruct (IH t') as [H1 H2]; [lia..|]. destruct (run os t') as [es' t''] eqn:E'. cbn [fst snd] in *.
  unfold allocated in *. rewrite omap_app, length_app, Nat2Z.inj_add. split; [lia|].
  rewrite seqZ_app by lia. rewrite <- Hs2. f_equal. rewrite H2 at 1. f_equal; lia.
Qed.

(** ** Claims *)

(** C35. The callbacks of an acknowledgement table, whatever the order in which
    concurrent calls take its mutex: [invoke id] calls a callback exactly when
    the last earlier operation that touched [id] registered it, and reports
    whether one (possibly nil) was registered; over the whole history an id is
    called at most as often as it was registered, so a callback registered
    under a fresh id runs at most once. *)
Theorem ack_at_most_once os id :
  (invoke id (run os newAckTable).2).1
  = (bool_decide (is_Some (pending id os)), mjoin (pending id os))
  ∧ (count (is_call id) (run os newAckTable).1 ≤ count (is_register id) os)%nat.
Proof.
  split.
  - pose proof (run_cbs os newAckTable id) as Hr.
    change (cbs newAckTable !! id) with (None : option (option F)) in Hr.
    unfold invoke. rewrite Hr. unfold pending.
    by destruct (foldl _ _ os) as [[cb|]|].
  - pose proof (run_calls os newAckTable id) as Hr.
    change (held (cbs newAckTable !! id)) with 0%nat in Hr. lia.
Qed.

(** [next] never gives the same id twice before the [int64] counter
    wraps, and the ids are 1, 2, 3, ... in the order of the calls: never
    negative, so an id always asks the peer for an acknowledgement. *)
Theorem ack_ids_fresh os :
  Z.of_nat (length os) <= int64_max →
  let ids := allocated (run os newAckTable).1 in
  ids = seqZ 1 (Z.of_nat (length ids)) ∧ NoDup ids ∧ Forall (λ id, 0 < id) ids.
Proof.
  intros Hl ids. destruct (run_alloc os newAckTable) as [_ Ha]; [simpl; lia..|].
  change (ids = seqZ 1 (Z.of_nat (length ids))) in Ha. split; [done|]. rewrite Ha.
  split; [apply NoDup_seqZ|]. apply Forall_seqZ. lia.
Qed.
End History.

Lemma ack_ids_fresh_witness :
  let h := [ONext; ORegister 1 (Some 7%nat); ONext; OInvoke 1; OInvoke 1] in
  allocated (run h newAckTable).1 = [1; 2] ∧ NoDup (allocated (run h newAckTable).1).
Proof. intros h. split; [reflexivity|]. apply (ack_ids_fresh h). vm_compute. discriminate. Defined.
