(* ===== verification/PacketQueue.v ===== *)
(** * PacketQueue: the unbounded FIFO of incoming packets

    Models [packetQueue] of [socketio/server.go].  Each method's effect
    happens under the queue's mutex; [pop] gives [None] while it waits on the
    condition variable, which is exactly when the loop condition
    [len(q.items) == 0 && !q.closed] holds. *)

From S2P Require Import Prelude.

Section PacketQueue.
Context {A : Type}.

Record packetQueue := mkQueue { items : list A; qclosed : bool }.

Definition newPacketQueue : packetQueue := mkQueue [] false.

Definition push (p : A) (q : packetQueue) : packetQueue :=
  if qclosed q then q else mkQueue (items q ++ [p]) (qclosed q).

(** [None]: waiting; [Some (None, _)]: returned [(nil, false)]. *)
Definition pop (q : packetQueue) : option (option A * packetQueue) :=
  match items q with
  | [] => if qclosed q then Some (None, q) else None
  | p :: rest => Some (Some p, mkQueue rest (qclosed q))
  end.

Definition close (q : packetQueue) : packetQueue := mkQueue (items q) true.

(** ** Histories of calls, in the order they took the mutex *)

Inductive qop := QPush (p : A) | QPop | QClose.

(** The packets handed out and the queue; a [pop] that would wait does not
    take part. *)
Definition qstep (s : list A * packetQueue) (o : qop) : list A * packetQueue :=
  let '(out, q) := s in
  match o with
  | QPush p => (out, push p q)
  | QPop => match pop q with
            | Some (Some p, q') => (out ++ [p], q')
            | Some (None, q') => (out, q')
            | None => (out, q)
            end
  | QClose => (out, close q)
  end.

Definition qrun (os : list qop) : list A * packetQueue := foldl qstep ([], newPacketQueue) os.

(** The packets pushed before the first close. *)
Fixpoint accepted (os : list qop) : list A :=
  match os with
  | [] => []
  | QPush p :: os' => p :: accepted os'
  | QPop :: os' => accepted os'
  | QClose :: _ => []
  end.

Definition was_closed (os : list qop) : bool :=
  existsb (λ o, match o with QClose => true | _ => false end) os.

Lemma qrun_from os out q :
  let r := foldl qstep (out, q) os in
  r.1 ++ items r.2 = out ++ items q ++ (if qclosed q then [] else accepted os)
  ∧ qclosed r.2 = qclosed q || was_closed os.
Proof.
  revert out q. induction os as [|o os IH]; intros out [its c]; simpl.
  - split; [by destruct c; rewrite app_nil_r|by destruct c].
  - destruct o as [p| |]; simpl.
    + destruct (IH out (push p (mkQueue its c))) as [H1 H2]. unfold push in *.
      destruct c; simpl in *; (split; [|done]); rewrite H1; [done|]. by rewrite <- !app_assoc.
    + destruct its as [|p its].
      * unfold pop. simpl. destruct c; simpl.
        -- destruct (IH out (mkQueue [] true)) as [H1 H2]. by split.
        -- destruct (IH out (mkQueue [] false)) as [H1 H2]. by split.
      * destruct (IH (out ++ [p]) (mkQueue its c)) as [H1 H2]. simpl in *. split; [|done].
        rewrite H1. by rewrite <- app_assoc.
    + destruct (IH out (mkQueue its true)) as [H1 H2]. unfold close. simpl in *. split.
      * rewrite H1. by destruct c.
      * rewrite H2. by destruct c.
Qed.

(** The queue is a FIFO that loses nothing accepted: for every
    interleaving of pushes, pops and closes, what was handed out followed by
    what is still queued is the sequence of packets pushed before the first
    close; a pop waits exactly when the queue is open and everything accepted
    was handed out, and answers "closed" exactly when it is closed and
    everything accepted was handed out. *)
Theorem queue_fifo os :
  let '(out, q) := qrun os in
  out ++ items q = accepted os
  ∧ (pop q = None ↔ out = accepted os ∧ was_closed os = false)
  ∧ ((∃ q', pop q = Some (None, q')) ↔ out = accepted os ∧ was_closed os = true).
Proof.
  destruct (qrun_from os [] newPacketQueue) as [H1 H2].
  unfold qrun. destruct (foldl qstep _ os) as [out [its c]]. simpl in *. subst c.
  split; [done|]. rewrite <- H1. unfold pop. simpl.
  destruct its as [|p its].
  - rewrite app_nil_r. destruct (was_closed os); naive_solver.
  - assert (out ≠ out ++ p :: its) as Hne.
    { intros Heq. apply (f_equal length) in Heq. rewrite length_app in Heq. simpl in Heq. lia. }
    naive_solver.
Qed.
End PacketQueue.
#[global] Arguments packetQueue : clear implicits.
