(* ===== verification/Adapter.v ===== *)
(** * Adapter: rooms and membership of a namespace

    Models [socketio/adapter.go].  [Adapter] is the interface of the source as
    a class, with the promises its comments make as laws over an abstract
    membership relation; [memoryAdapter] is the default implementation, and
    the instance below shows it keeps the promises.

    Go does not fix the order in which a map is ranged over: an operation that
    ranges takes an [order], a function that lists a set, of which only
    [is_order] is known. *)

From S2P Require Import Prelude.

Definition order := gset string → list string.
Definition is_order (o : order) : Prop := ∀ X, o X ≡ₚ elements X.

Lemma is_order_elements : is_order elements.
Proof. intros X. reflexivity. Qed.

(** The interface.  [Broadcast] is the snapshot of the targets it takes under
    its lock; the caller then delivers to each, outside the lock. *)
Class Adapter (A : Type) := {
  NewAdapter : string → A;
  AddSocket : string → A → A;
  RemoveSocket : order → string → A → A;
  AddToRoom : string → string → A → A;
  RemoveFromRoom : string → string → A → A;
  Broadcast : order → string → list string → A → list string;
  Sockets : order → A → list string;
  SocketsCount : A → Z;
  Close : A → A;
}.

(** What the comments of the interface promise: [ids] are the sockets the
    adapter knows, [members] the pairs (room, id). *)
Class AdapterLaws (A : Type) `{Adapter A} := {
  ids : A → gset string;
  members : A → gset (string * string);
  new_ids nsp : ids (NewAdapter nsp) = ∅;
  new_members nsp : members (NewAdapter nsp) = ∅;
  add_socket_ids id a : ids (AddSocket id a) = {[id]} ∪ ids a;
  add_socket_members id a : members (AddSocket id a) = {[(id, id)]} ∪ members a;
  remove_socket_ids o id a : is_order o → ids (RemoveSocket o id a) = ids a ∖ {[id]};
  remove_socket_members o id a : is_order o →
    members (RemoveSocket o id a) = filter (λ p, p.2 ≠ id) (members a);
  add_room_ids room id a : ids (AddToRoom room id a) = ids a;
  add_room_members room id a : members (AddToRoom room id a) = {[(room, id)]} ∪ members a;
  remove_room_ids room id a : ids (RemoveFromRoom room id a) = ids a;
  remove_room_members room id a :
    members (RemoveFromRoom room id a) = members a ∖ {[(room, id)]};
  broadcast_targets o room except a id : is_order o →
    id ∈ Broadcast o room except a
    ↔ (if decide (room = "") then id ∈ ids a else (room, id) ∈ members a) ∧ id ∉ except;
  broadcast_once o room except a : is_order o → NoDup (Broadcast o room except a);
  sockets_ids o a : is_order o → Sockets o a ≡ₚ elements (ids a);
  sockets_count a : SocketsCount a = Z.of_nat (size (ids a));
  close_ids a : ids (Close a) = ids a;
  close_members a : members (Close a) = members a;
}.

(** ** The in-memory adapter *)
Module Memory.

Record memoryAdapter := mkMemory { mids : gset string; rooms : gmap string (gset string) }.

Definition NewMemoryAdapter : memoryAdapter := mkMemory ∅ ∅.

(** [a.rooms[room] == nil], then the insertion. *)
Definition join (room id : string) (rooms : gmap string (gset string)) :
  gmap string (gset string) :=
  <[room := {[id]} ∪ default ∅ (rooms !! room)]> rooms.

Definition AddSocket (id : string) (a : memoryAdapter) : memoryAdapter :=
  mkMemory ({[id]} ∪ mids a) (join id id (rooms a)).

(** One round of the loop of [RemoveSocket]. *)
Definition leave (id room : string) (rooms : gmap string (gset string)) :
  gmap string (gset string) :=
  match rooms !! room with
  | Some m =>
      if decide (id ∈ m) then
        let m' := m ∖ {[id]} in
        if decide (size m' = 0%nat) then delete room rooms else <[room := m']> rooms
      else rooms
  | None => rooms
  end.

Definition RemoveSocket (o : order) (id : string) (a : memoryAdapter) : memoryAdapter :=
  mkMemory (mids a ∖ {[id]}) (foldl (λ r room, leave id room r) (rooms a) (o (dom (rooms a)))).

Definition AddToRoom (room id : string) (a : memoryAdapter) : memoryAdapter :=
  mkMemory (mids a) (join room id (rooms a)).

Definition RemoveFromRoom (room id : string) (a : memoryAdapter) : memoryAdapter :=
  match rooms a !! room with
  | Some m =>
      let m' := m ∖ {[id]} in
      mkMemory (mids a)
        (if decide (size m' = 0%nat) then delete room (rooms a) else <[room := m']> (rooms a))
  | None => a
  end.

Fixpoint excepted (except : list string) (id : string) : bool :=
  match except with
  | [] => false
  | e :: except' => if decide (e = id) then true else excepted except' id
  end.

Definition Broadcast (o : order) (room : string) (except : list string) (a : memoryAdapter) :
  list string :=
  filter (λ id, excepted except id = false)
    (if decide (room ≠ "") then o (default ∅ (rooms a !! room)) else o (mids a)).

Definition Sockets (o : order) (a : memoryAdapter) : list string := o (mids a).

Definition SocketsCount (a : memoryAdapter) : Z := Z.of_nat (size (mids a)).

#[global] Instance memory_adapter : Adapter memoryAdapter := {
  NewAdapter _ := NewMemoryAdapter;
  Adapter.AddSocket := AddSocket;
  Adapter.RemoveSocket := RemoveSocket;
  Adapter.AddToRoom := AddToRoom;
  Adapter.RemoveFromRoom := RemoveFromRoom;
  Adapter.Broadcast := Broadcast;
  Adapter.Sockets := Sockets;
  Adapter.SocketsCount := SocketsCount;
  Close a := a;
}.

(** ** The abstract membership relation *)

Definition relation (rooms : gmap string (gset string)) : gset (string * string) :=
  map_fold (λ room m acc, set_map (pair room) m ∪ acc) ∅ rooms.

Definition in_room (room id : string) (rooms : gmap string (gset string)) : Prop :=
  id ∈ default ∅ (rooms !! room).

Lemma elem_of_relation rooms room id : (room, id) ∈ relation rooms ↔ in_room room id rooms.
Proof.
  unfold relation, in_room.
  refine (map_fold_weak_ind
    (λ acc rooms, (room, id) ∈ acc ↔ id ∈ default ∅ (rooms !! room)) _ _ _ _ rooms).
  - rewrite lookup_empty. set_solver.
  - intros r m rooms' acc Hr IH. destruct (decide (r = room)) as [->|Hne].
    + rewrite lookup_insert_eq. rewrite Hr in IH. set_solver.
    + rewrite lookup_insert_ne by done. set_solver.
Qed.

Lemma in_room_join room id room' id' rooms :
  in_room room' id' (join room id rooms) ↔ (room' = room ∧ id' = id) ∨ in_room room' id' rooms.
Proof.
  unfold in_room, join. destruct (decide (room = room')) as [->|Hne].
  - rewrite lookup_insert_eq. simpl. set_solver.
  - rewrite lookup_insert_ne by done. set_solver.
Qed.

(** Rewriting a room with a smaller set, and dropping it when it is empty. *)
Lemma in_room_shrink room (m' : gset string) room' id' rooms :
  in_room room' id' (if decide (size m' = 0%nat) then delete room rooms else <[room := m']> rooms)
  ↔ if decide (room' = room) then id' ∈ m' else in_room room' id' rooms.
Proof.
  unfold in_room. repeat case_decide; subst.
  - rewrite lookup_delete_eq. simpl. apply size_empty_inv in H. set_solver.
  - by rewrite lookup_delete_ne.
  - by rewrite lookup_insert_eq.
  - by rewrite lookup_insert_ne.
Qed.

Lemma in_room_leave id room room' id' rooms :
  in_room room' id' (leave id room rooms)
  ↔ in_room room' id' rooms ∧ ¬ (room' = room ∧ id' = id).
Proof.
  unfold leave. destruct (rooms !! room) as [m|] eqn:Hm.
  - case_decide as Hid.
    + rewrite in_room_shrink. case_decide; subst; [|naive_solver].
      unfold in_room. rewrite Hm. simpl. set_solver.
    + split; [|tauto]. intros H. split; [done|]. intros [-> ->].
      unfold in_room in H. rewrite Hm in H. done.
  - split; [|tauto]. intros H. split; [done|]. intros [-> ->].
    unfold in_room in H. rewrite Hm in H. set_solver.
Qed.

Lemma in_room_leave_all id l room' id' rooms :
  in_room room' id' (foldl (λ r room, leave id room r) rooms l)
  ↔ in_room room' id' rooms ∧ ¬ (room' ∈ l ∧ id' = id).
Proof.
  revert rooms. induction l as [|room l IH]; intros rooms; simpl; [set_solver|].
  rewrite IH, in_room_leave. set_solver.
Qed.

Lemma elem_of_order o X x : is_order o → x ∈ o X ↔ x ∈ X.
Proof. intros Ho. rewrite (Ho X). apply elem_of_elements. Qed.

Lemma in_room_dom room id rooms : in_room room id rooms → room ∈ dom rooms.
Proof.
  unfold in_room. intros H. apply elem_of_dom. destruct (rooms !! room); [eauto|set_solver].
Qed.

Lemma excepted_elem except id : excepted except id = false ↔ id ∉ except.
Proof.
  induction except as [|e except IH]; simpl; [set_solver|].
  case_decide; subst; [set_solver|]. rewrite IH. set_solver.
Qed.

#[local] Create Rewrite HintDb rooms.
#[local] Hint Rewrite elem_of_relation in_room_join in_room_leave_all : rooms.

#[global, refine] Instance memory_adapter_laws : AdapterLaws memoryAdapter := {
  ids := mids;
  members a := relation (rooms a);
}.
Proof.
  - done.
  - intros. simpl. apply set_eq. intros [r i]. rewrite elem_of_relation. unfold in_room.
    simpl. rewrite lookup_empty. set_solver.
  - done.
  - intros id a. apply set_eq. intros [r i]. simpl. rewrite elem_of_union.
    autorewrite with rooms. set_solver.
  - done.
  - intros o id a Ho. apply set_eq. intros [r i]. simpl. rewrite elem_of_filter. simpl.
    autorewrite with rooms. rewrite elem_of_order by done.
    pose proof (in_room_dom r i (rooms a)). naive_solver.
  - done.
  - intros room id a. apply set_eq. intros [r i]. simpl. rewrite elem_of_union.
    autorewrite with rooms. set_solver.
  - intros room id a. simpl. unfold RemoveFromRoom. by case_match.
  - intros room id a. apply set_eq. intros [r i]. simpl. unfold RemoveFromRoom.
    rewrite elem_of_difference, elem_of_singleton.
    destruct (rooms a !! room) as [m|] eqn:Hm.
    + simpl. rewrite !elem_of_relation, in_room_shrink. case_decide; subst; [|naive_solver].
      unfold in_room. rewrite Hm. simpl. set_solver.
    + rewrite !elem_of_relation. split; [|tauto]. intros H. split; [done|]. intros [= -> ->].
      unfold in_room in H. rewrite Hm in H. set_solver.
  - intros o room except a id Ho. simpl. unfold Broadcast.
    rewrite list_elem_of_filter, excepted_elem. repeat case_decide; try done.
    + rewrite elem_of_order by done. rewrite elem_of_relation. unfold in_room. tauto.
    + rewrite elem_of_order by done. tauto.
  - intros o room except a Ho. simpl. unfold Broadcast. apply NoDup_filter.
    case_decide; rewrite (Ho _); apply NoDup_elements.
  - intros o a Ho. apply Ho.
  - done.
  - done.
  - done.
Defined.

(** ** No room outlives its members *)

Definition no_empty_room (a : memoryAdapter) : Prop :=
  ∀ room m, rooms a !! room = Some m → m ≠ ∅.

Inductive aop :=
| OAddSocket (id : string)
| ORemoveSocket (o : order) (id : string)
| OAddToRoom (room id : string)
| ORemoveFromRoom (room id : string).

Definition apply_op (op : aop) (a : memoryAdapter) : memoryAdapter :=
  match op with
  | OAddSocket id => AddSocket id a
  | ORemoveSocket o id => RemoveSocket o id a
  | OAddToRoom room id => AddToRoom room id a
  | ORemoveFromRoom room id => RemoveFromRoom room id a
  end.

Definition filled (rooms : gmap string (gset string)) : Prop :=
  ∀ room m, rooms !! room = Some m → m ≠ ∅.

Lemma filled_insert room m rooms : filled rooms → m ≠ ∅ → filled (<[room := m]> rooms).
Proof. intros Hf Hm r m' [[<- <-]|[_ H]]%lookup_insert_Some; [done|by eapply Hf]. Qed.

Lemma filled_delete room rooms : filled rooms → filled (delete room rooms).
Proof. intros Hf r m' [_ H]%lookup_delete_Some. by eapply Hf. Qed.

Lemma filled_shrink room (m' : gset string) rooms :
  filled rooms →
  filled (if decide (size m' = 0%nat) then delete room rooms else <[room := m']> rooms).
Proof.
  intros Hf. case_decide as Hs; [by apply filled_delete|]. apply filled_insert; [done|].
  intros ->. by rewrite size_empty in Hs.
Qed.

Lemma filled_join room id rooms : filled rooms → filled (join room id rooms).
Proof. intros Hf. apply filled_insert; [done|]. set_solver. Qed.

Lemma filled_leave id room rooms : filled rooms → filled (leave id room rooms).
Proof.
  intros Hf. unfold leave. destruct (rooms !! room); [|done]. case_decide; [|done].
  by apply filled_shrink.
Qed.

Lemma apply_op_filled op a : no_empty_room a → no_empty_room (apply_op op a).
Proof.
  intros Hf. destruct op as [id|o id|room id|room id]; simpl.
  - by apply filled_join.
  - unfold no_empty_room. simpl. generalize (o (dom (rooms a))). intros l.
    change (filled (foldl (λ r room, leave id room r) (rooms a) l)).
    assert (filled (rooms a)) as Hr by done. revert Hr. generalize (rooms a).
    induction l as [|r l IH]; intros rs Hr; simpl; [done|]. by apply IH, filled_leave.
  - by apply filled_join.
  - unfold RemoveFromRoom. destruct (rooms a !! room) as [m|]; [|done]. by apply filled_shrink.
Qed.

(** ** Refinement of the membership relation *)

(** The abstract state: the ids, and the pairs (room, id). *)
Definition membership : Type := gset string * gset (string * string).

Definition spec_op (op : aop) (s : membership) : membership :=
  let '(X, M) := s in
  match op with
  | OAddSocket id => ({[id]} ∪ X, {[(id, id)]} ∪ M)
  | ORemoveSocket _ id => (X ∖ {[id]}, filter (λ p, p.2 ≠ id) M)
  | OAddToRoom room id => (X, {[(room, id)]} ∪ M)
  | ORemoveFromRoom room id => (X, M ∖ {[(room, id)]})
  end.

Definition op_order_ok (op : aop) : Prop :=
  match op with ORemoveSocket o _ => is_order o | _ => True end.

Definition after (ops : list aop) : memoryAdapter :=
  foldl (λ a op, apply_op op a) NewMemoryAdapter ops.
Definition spec_after (ops : list aop) : membership := foldl (λ s op, spec_op op s) (∅, ∅) ops.

Lemma apply_op_refines op a :
  op_order_ok op → (ids (apply_op op a), members (apply_op op a)) = spec_op op (ids a, members a).
Proof.
  intros Ho. destruct op as [id|o id|room id|room id]; unfold spec_op; apply pair_equal_spec.
  - exact (conj (add_socket_ids id a) (add_socket_members id a)).
  - exact (conj (remove_socket_ids o id a Ho) (remove_socket_members o id a Ho)).
  - exact (conj (add_room_ids room id a) (add_room_members room id a)).
  - exact (conj (remove_room_ids room id a) (remove_room_members room id a)).
Qed.

Lemma after_refines ops a :
  Forall op_order_ok ops →
  let a' := foldl (λ a op, apply_op op a) a ops in
  (ids a', members a') = foldl (λ s op, spec_op op s) (ids a, members a) ops.
Proof.
  revert a. induction ops as [|op ops IH]; intros a Hf; [done|].
  apply Forall_cons in Hf as [Hop Hf]. cbn [foldl]. rewrite <- apply_op_refines by done.
  by apply IH.
Qed.

Lemma after_filled ops a :
  no_empty_room a → no_empty_room (foldl (λ a op, apply_op op a) a ops).
Proof.
  revert a. induction ops as [|op ops IH]; intros a Hf; [done|]. by apply IH, apply_op_filled.
Qed.

(** C32. The in-memory adapter implements the membership relation of its
    interface: after any history of operations its ids and rooms are those of
    the abstract relation replaying the history, whatever order Go ranges over
    the maps in; a broadcast then has each member of the room (each id, for
    the empty room name) that is not excepted as a target exactly once; and no
    room is kept once its last member left. *)
Theorem memory_refines ops o room except :
  Forall op_order_ok ops → is_order o →
  let a := after ops in
  (ids a, members a) = spec_after ops
  ∧ Broadcast o room except a
    ≡ₚ elements (filter (λ id, id ∉ except)
         (if decide (room = "") then (spec_after ops).1
          else set_map snd (filter (λ p, p.1 = room) (spec_after ops).2)))
  ∧ no_empty_room a.
Proof.
  intros Hops Ho a. pose proof (after_refines ops NewMemoryAdapter Hops) as Ha.
  assert (members NewMemoryAdapter = ∅) as Hm by exact (new_members (A := memoryAdapter) "").
  rewrite Hm in Ha. change (ids NewMemoryAdapter) with (∅ : gset string) in Ha.
  split; [done|]. split; [|by apply after_filled].
  change (foldl _ (∅, ∅) ops) with (spec_after ops) in Ha. rewrite <- Ha. cbn [fst snd].
  apply NoDup_Permutation; [exact (broadcast_once o room except a Ho)|apply NoDup_elements|].
  intros id. change (id ∈ Broadcast o room except a) with (id ∈ Adapter.Broadcast o room except a).
  rewrite broadcast_targets by done.
  rewrite elem_of_elements, elem_of_filter. case_decide; [tauto|].
  rewrite elem_of_map. setoid_rewrite elem_of_filter. split.
  - intros [H1 H2]. split; [done|]. by exists (room, id).
  - intros [H1 ([r i] & -> & [H2 H3])]. simpl in *. by subst.
Qed.
End Memory.

(** The history in which two sockets join a room and one leaves. *)
Definition example_history : list Memory.aop :=
  [Memory.OAddSocket "s1"; Memory.OAddSocket "s2"; Memory.OAddToRoom "r" "s1";
   Memory.OAddToRoom "r" "s2"; Memory.ORemoveSocket elements "s1"].

Lemma memory_refines_witness :
  Memory.Broadcast elements "r" [] (Memory.after example_history) = ["s2"]
  ∧ Memory.no_empty_room (Memory.after example_history).
Proof.
  split; [vm_compute; reflexivity|].
  refine (proj2 (proj2 (Memory.memory_refines example_history elements "r" [] _ is_order_elements))).
  pose proof is_order_elements. by repeat apply List.Forall_cons.
Defined.
