(* ===== verification/Emitter.v ===== *)
(** * Emitter: calling the user's event handlers by reflection

    Models [socketio/emitter.go].  A handler is a Go function value; what
    [reflect] shows of it is its parameter types and whether it is variadic.
    The types the code tells apart are [*Socket], [any], [map[string]any],
    slices, and the others ([TData]), into which an argument goes through its
    JSON text.

    [Call] and [CallSlice] panic when a value they are given is invalid or
    not assignable to its parameter; nothing recovers that panic, so it is an
    outcome of its own beside the error and the call. *)

From S2P Require Import Prelude.
From S2P Require Import Value.
From S2P Require Import Json.
From S2P Require Import FixedFloat.

#[local] Set Warnings "-register-all".

Inductive gtype :=
| TSocket
| TAny
| TMap
| TList (elem : gtype)
| TData (name : nat).

#[export] Instance gtype_eq_dec : EqDecision gtype.
Proof. solve_decision. Defined.

Section Emitter.
Context `{Float64} `{!JSON}.
(** The values of the other types, and [json.Unmarshal] into one of them:
    [None] for its error. *)
Context {data : Type} (unmarshal_into : gtype → bytes → option data).

(** A [reflect.Value]: invalid, the socket, a decoded value, a value of
    another type, the zero value of a type, and a slice built from values. *)
Inductive rvalue :=
| RInvalid
| RSocket (s : nat)
| RVal (v : gval)
| RData (t : gtype) (d : data)
| RZero (t : gtype)
| RSlice (elem : gtype) (vs : list rvalue).

(** [reflect.ValueOf] on an [any]: the zero [Value] for nil. *)
Definition ValueOf (v : gval) : rvalue := if is_nil v then RInvalid else RVal v.

Definition convertArg (v : gval) (t : gtype) : option rvalue :=
  if decide (t = TAny) then Some (ValueOf v)
  else if decide (t = TMap ∨ t = TList TAny) then Some (ValueOf v)
  else match json_marshal v with
       | None => None
       | Some b => RData t <$> unmarshal_into t b
       end.

(** [Type.AssignableTo] for the type of a value; an invalid one has none. *)
Definition assignable (r : rvalue) (t : gtype) : bool :=
  match r with
  | RInvalid => false
  | RSocket _ => bool_decide (t = TSocket ∨ t = TAny)
  | RVal v =>
      match t, v with
      | TAny, _ => true
      | TMap, VMap _ => true
      | TList TAny, VArr _ => true
      | _, _ => false
      end
  | RData t' _ | RZero t' => bool_decide (t = t' ∨ t = TAny)
  | RSlice e _ => bool_decide (t = TList e ∨ t = TAny)
  end.

Record handler := mkHandler { hin : list gtype; variadic : bool }.

Definition numIn (h : handler) : nat := length (hin h).

Definition elem_type (t : gtype) : gtype := match t with TList e => e | _ => t end.

(** [ErrHandlerMismatch], a panic, or the call with these values. *)
Inductive outcome := Mismatch | Panics | Calls (ins : list rvalue).

(** The checks of [Call] ([CallSlice] for a variadic function whose last value
    is the slice). *)
Definition fits (ins : list rvalue) (ts : list gtype) : bool :=
  bool_decide (length ins = length ts)
  && forallb (λ p, assignable p.1 p.2) (zip ins ts).

Definition Call (h : handler) (ins : list rvalue) : outcome :=
  if variadic h then
    let fixed := pred (numIn h) in
    let rest := drop fixed ins in
    let elem := elem_type (List.last (hin h) TAny) in
    if fits (take fixed ins) (take fixed (hin h)) && forallb (λ r, assignable r elem) rest
    then Calls (take fixed ins ++ [RSlice elem rest]) else Panics
  else if fits ins (hin h) then Calls ins else Panics.

Definition CallSlice (h : handler) (ins : list rvalue) : outcome :=
  if fits ins (hin h) then Calls ins else Panics.

(** The value of parameter type [t] for the argument [a], if there is one. *)
Definition param_value (a : option gval) (t : gtype) : option rvalue :=
  match a with
  | Some v => convertArg v t
  | None => Some (RZero t)
  end.

Fixpoint fill (ts : list gtype) (args : list gval) : option (list rvalue) :=
  match ts with
  | [] => Some []
  | t :: ts' =>
      v ← param_value (head args) t;
      vs ← fill ts' (tail args);
      mret (v :: vs)
  end.

Definition invokeHandler (h : handler) (s : nat) (args : list gval) : outcome :=
  match hin h with
  | [] => Call h []
  | t0 :: ts =>
      if negb (bool_decide (t0 = TSocket)) then Mismatch
      else match fill ts args with
           | None => Mismatch
           | Some vs => Call h (RSocket s :: vs)
           end
  end.

Definition invokeClientHandler (h : handler) (args : list gval) : outcome :=
  let fixed := if variadic h then pred (numIn h) else numIn h in
  match fill (take fixed (hin h)) args with
  | None => Mismatch
  | Some ins =>
      if variadic h then
        if decide (length args < fixed)%nat then Panics   (* args[fixed:] *)
        else
          let elem := elem_type (List.last (hin h) TAny) in
          match option_map_list (λ a, convertArg a elem) (drop fixed args) with
          | None => Mismatch
          | Some rest =>
              (* slice.Index(j).Set(v) panics unless v is assignable *)
              if forallb (λ r, assignable r elem) rest
              then CallSlice h (ins ++ [RSlice elem rest]) else Panics
          end
      else Call h ins
  end.

(** What a handler returns: a nil interface, a non-nil error, another
    value. *)
Inductive rout := ONil | OErr (msg : string) | OVal (v : gval).

Definition collectResults (outs : list rout) : list gval :=
  omap (λ o, match o with
             | ONil => None
             | OErr msg => Some (VStr msg)
             | OVal v => Some v
             end) outs.

(** ** Lemmas *)

(** What reaches parameter [i]: its argument converted, or the zero value. *)
Lemma fill_lookup ts args vs i t :
  fill ts args = Some vs → ts !! i = Some t →
  ∃ v, vs !! i = Some v ∧ param_value (args !! i) t = Some v.
Proof.
  revert args vs i. induction ts as [|t0 ts IH]; intros args vs i; [done|]. cbn [fill].
  destruct (param_value (head args) t0) as [v0|] eqn:Hpv; [|done]. simpl.
  destruct (fill ts (tail args)) as [vs'|] eqn:Hf; [|done]. simpl. intros [= <-].
  destruct i as [|i]; simpl.
  - intros [= <-]. exists v0. split; [done|]. by destruct args.
  - intros Hi. destruct (IH _ _ _ Hf Hi) as (v & Hv1 & Hv2). exists v. split; [done|].
    destruct args as [|a args]; [by destruct i|done].
Qed.

Lemma fill_length ts args vs : fill ts args = Some vs → length vs = length ts.
Proof.
  revert args vs. induction ts as [|t0 ts IH]; intros args vs; cbn [fill]; [by intros [= <-]|].
  destruct (param_value (head args) t0); [|done]. simpl.
  destruct (fill ts (tail args)) eqn:Hf; [|done]. simpl. intros [= <-]. simpl. by rewrite (IH _ _ Hf).
Qed.

Lemma fill_zip ts args vs :
  fill ts args = Some vs →
  forallb (λ p, assignable p.1 p.2) (zip vs ts) = true
  ↔ ∀ i t v, ts !! i = Some t → vs !! i = Some v → assignable v t = true.
Proof.
  revert args vs. induction ts as [|t0 ts IH]; intros args vs; cbn [fill].
  - intros [= <-]. simpl. by split.
  - destruct (param_value (head args) t0) as [v0|] eqn:Hpv; [|done]. simpl.
    destruct (fill ts (tail args)) as [vs'|] eqn:Hf; [|done]. simpl. intros [= <-].
    cbn [zip_with forallb]. rewrite andb_true_iff, (IH _ _ Hf). split.
    + intros [Hv1 Hv2] [|i] t v; simpl; [by intros [= <-] [= <-]|apply Hv2].
    + intros Hall. split; [by apply (Hall 0%nat)|]. intros i. apply (Hall (S i)).
Qed.

(** Which decoded values a parameter type takes without a panic. *)
Definition accepts (t : gtype) (v : gval) : bool :=
  match t with
  | TAny => negb (is_nil v)
  | TMap => match v with VMap _ => true | _ => false end
  | TList TAny => match v with VArr _ => true | _ => false end
  | _ => true
  end.

Lemma param_value_assignable a t v :
  param_value a t = Some v →
  assignable v t = match a with Some x => accepts t x | None => true end.
Proof.
  destruct a as [x|]; simpl; [|intros [= <-]; simpl; by rewrite bool_decide_true by auto].
  unfold convertArg. case_decide as Hany; [|case_decide as Hcont]; subst.
  - intros [= <-]. by destruct x.
  - intros [= <-]. destruct Hcont; subst; by destruct x.
  - destruct (json_marshal x) as [b|]; [|done]. destruct (unmarshal_into t b) as [d|]; [|done].
    intros [= <-]. simpl. rewrite bool_decide_true by auto.
    destruct t as [| | |[| | | |]|]; simpl; try done; exfalso; auto.
Qed.

(** The arguments a handler's parameters cannot take, and why: the JSON round
    trip fails, or the value goes to [Call] as it is and does not fit. *)
Definition unconvertible (ts : list gtype) (args : list gval) : Prop :=
  ∃ i t v, ts !! i = Some t ∧ args !! i = Some v ∧ convertArg v t = None.
Definition unfit (ts : list gtype) (args : list gval) : Prop :=
  ∃ i t v, ts !! i = Some t ∧ args !! i = Some v ∧ accepts t v = false.

Lemma fill_None ts args : fill ts args = None ↔ unconvertible ts args.
Proof.
  revert args. induction ts as [|t0 ts IH]; intros args; cbn [fill].
  - split; [done|]. by intros (i & t & v & Hi & _).
  - destruct (param_value (head args) t0) as [v0|] eqn:Hpv; simpl.
    + destruct (fill ts (tail args)) as [vs|] eqn:Hf; simpl.
      * split; [done|]. intros ([|i] & t & v & Hi & Ha & Hc); simpl in *.
        -- by destruct args; simplify_eq/=.
        -- assert (fill ts (tail args) = None); [|congruence]. apply IH. exists i, t, v.
           split_and!; [done| |done]. by destruct args.
      * split; [|done]. intros _. apply IH in Hf as (i & t & v & Hi & Ha & Hc).
        exists (S i), t, v. split_and!; [done| |done]. by destruct args.
    + split; [|done]. intros _. destruct args as [|a args]; [done|]. by exists 0%nat, t0, a.
Qed.

#[export] Instance unfit_dec ts args : Decision (unfit ts args).
Proof.
  refine (cast_if (decide (existsb (λ p, negb (accepts p.1 p.2)) (zip ts args) = true)));
    unfold unfit; setoid_rewrite <- negb_true_iff.
  - apply existsb_exists in e as ([t v] & Hin & Hacc). apply list_elem_of_In in Hin.
    apply list_elem_of_lookup in Hin as [i Hi].
    apply lookup_zip_with_Some in Hi as (t' & v' & [= -> ->] & Ht & Hv).
    exists i, t', v'. by split_and!.
  - intros (i & t & v & Ht & Hv & Hacc). apply n, existsb_exists. exists (t, v).
    split; [|done]. apply list_elem_of_In, list_elem_of_lookup. exists i.
    apply lookup_zip_with_Some. by exists t, v.
Defined.

Lemma fits_fill s ts args vs :
  fill ts args = Some vs →
  fits (RSocket s :: vs) (TSocket :: ts) = true ↔ ¬ unfit ts args.
Proof.
  intros Hf. unfold fits. rewrite bool_decide_true by (simpl; by rewrite (fill_length _ _ _ Hf)).
  cbn [andb zip_with forallb fst snd].
  replace (assignable (RSocket s) TSocket) with true by done. cbn [andb].
  rewrite (fill_zip _ _ _ Hf). split.
  - intros Hall (i & t & v & Hi & Ha & Hc).
    destruct (fill_lookup _ _ _ i t Hf Hi) as (r & Hr & Hp).
    pose proof (param_value_assignable _ _ _ Hp) as Has. rewrite Ha in Has.
    rewrite (Hall i t r Hi Hr) in Has. congruence.
  - intros Hn i t r Hi Hr. destruct (fill_lookup _ _ _ i t Hf Hi) as (r' & Hr' & Hp).
    simplify_eq. rewrite (param_value_assignable _ _ _ Hp).
    destruct (args !! i) as [v|] eqn:Ha; [|done].
    destruct (accepts t v) eqn:Hacc; [done|]. exfalso. apply Hn. by exists i, t, v.
Qed.

(** C36. What becomes of an event at a handler [func( *Socket, ...)] that is
    not variadic.  It is a handler mismatch exactly when some argument does
    not convert; the process panics exactly when all convert but an argument
    of a parameter of type [any], [map[string]any] or [[]any] is nil or of
    another type; otherwise the handler is called with one value per
    parameter: the socket, then each argument converted to its parameter's
    type, zero values for the parameters without argument, and nothing for
    the arguments without parameter. *)
Theorem invokeHandler_outcome h ts s args :
  variadic h = false → hin h = TSocket :: ts →
  (invokeHandler h s args = Mismatch ↔ unconvertible ts args)
  ∧ (invokeHandler h s args = Panics ↔ ¬ unconvertible ts args ∧ unfit ts args)
  ∧ (∀ ins, invokeHandler h s args = Calls ins →
       length ins = numIn h ∧ head ins = Some (RSocket s)
       ∧ ∀ i t, ts !! i = Some t →
           ∃ r, ins !! S i = Some r ∧ assignable r t = true ∧ param_value (args !! i) t = Some r).
Proof.
  intros Hv Hin. unfold invokeHandler. rewrite Hin. cbn [bool_decide negb].
  destruct (fill ts args) as [vs|] eqn:Hf; simpl.
  - pose proof (fits_fill s ts args vs Hf) as Hfit. unfold Call. rewrite Hv, Hin.
    assert (¬ unconvertible ts args) as Hu by (rewrite <- fill_None; congruence).
    destruct (fits (RSocket s :: vs) (TSocket :: ts)) eqn:E.
    + assert (¬ unfit ts args) as Hn by by apply Hfit. split_and!; [naive_solver..|].
      intros ins [= <-]. unfold numIn. rewrite Hin. cbn [length head].
      rewrite (fill_length _ _ _ Hf). split_and!; [done..|]. intros i t Hi.
      destruct (fill_lookup _ _ _ i t Hf Hi) as (r & Hr & Hp). exists r. split_and!; [done| |done].
      rewrite (param_value_assignable _ _ _ Hp). destruct (args !! i) as [v|] eqn:Ha; [|done].
      destruct (accepts t v) eqn:Hacc; [done|]. exfalso. apply Hn. by exists i, t, v.
    + split_and!; [naive_solver| |done]. split; [|done]. intros _. split; [done|].
      destruct (decide (unfit ts args)) as [Hu'|Hu']; [done|]. by apply Hfit in Hu'.
  - assert (unconvertible ts args) by by apply fill_None.
    split_and!; naive_solver.
Qed.

(** A variadic client handler with fewer arguments than fixed parameters: the
    slice expression [args[fixed:]] panics. *)
Lemma client_variadic_short h args :
  variadic h = true → (length args < pred (numIn h))%nat →
  ¬ unconvertible (take (pred (numIn h)) (hin h)) args →
  invokeClientHandler h args = Panics.
Proof.
  intros Hv Hl Hu. unfold invokeClientHandler. rewrite Hv.
  destruct (fill _ args) eqn:Hf; [by rewrite decide_True|]. by apply fill_None in Hf.
Qed.
End Emitter.

(** [func(s *Socket, v any)] registered for an event that a client sends as
    [42["ev",null]]. *)
Definition any_handler : handler := mkHandler [TSocket; TAny] false.

Lemma invokeHandler_outcome_witness :
  invokeHandler (λ _ _, None : option unit) any_handler 0 [VNil] = Panics.
Proof.
  apply (invokeHandler_outcome (λ _ _, None : option unit) any_handler [TAny] 0 [VNil]);
    [reflexivity..|].
  split.
  - intros Hu. apply fill_None in Hu. discriminate Hu.
  - exists 0%nat, TAny, VNil. repeat split.
Defined.
