(* ===== verification/Sched.v ===== *)
(** * Sched: goroutines over a shared state

    The methods of the program take a mutex for a few lines, release it and
    go on.  A method is a program: a sequence of atomic steps on the shared
    state [W], one per critical section (or per call that is atomic for its
    caller), that may start goroutines ([go f()], a timer's function) and
    goroutines that loop ([go func() { for { ... } }()], a body that says
    whether to go round again), and may call a named method.  Methods that
    call each other in a circle are names in [M], with a table of their bodies
    ([Methods]); a component without such methods takes the empty type.  A
    step that gives [None] waits.

    A configuration is the shared state with the goroutines that are running;
    [cstep] lets any of them take its next step, so that a statement about
    the reachable configurations covers every interleaving.  [exec] runs one
    goroutine alone, which is what the functional theorems about a single
    handler are stated with ([exec_reachable]: it is one of the runs);
    [run_all] runs a configuration round robin, for concrete runs. *)

From S2P Require Import Prelude.

#[local] Set Warnings "-register-all".

Section Prog.
Context {W M : Type}.

Inductive mprog (A : Type) : Type :=
| Ret (a : A)
| Step (f : W → option (W * mprog A))
| Go (p : mprog unit) (k : mprog A)
| GoLoop (body : mprog bool) (k : mprog A)
| Call (m : M) (k : mprog A).
Arguments Ret {A} a.
Arguments Step {A} f.
Arguments Go {A} p k.
Arguments GoLoop {A} body k.
Arguments Call {A} m k.

Fixpoint bind_prog {A B : Type} (p : mprog A) (k : A → mprog B) : mprog B :=
  match p with
  | Ret a => k a
  | Step f => Step (λ w, match f w with
                         | Some (w', p') => Some (w', bind_prog p' k)
                         | None => None
                         end)
  | Go q p' => Go q (bind_prog p' k)
  | GoLoop body p' => GoLoop body (bind_prog p' k)
  | Call m p' => Call m (bind_prog p' k)
  end.

#[export] Instance prog_ret : MRet mprog := λ A a, Ret a.
#[export] Instance prog_bind : MBind mprog := λ A B f p, bind_prog p f.

(** The bodies of the named methods, and how one of them runs alone. *)
Class Methods := method : M → mprog unit.

(** The operations a method is made of: an atomic update with a result, an
    atomic read, a goroutine, a call, and waiting. *)
Definition atomic {A : Type} (f : W → A * W) : mprog A :=
  Step (λ w, let '(a, w') := f w in Some (w', Ret a)).
Definition update (f : W → W) : mprog unit := atomic (λ w, (tt, f w)).
Definition gets {A : Type} (f : W → A) : mprog A := atomic (λ w, (f w, w)).
Definition await {A : Type} (f : W → option (A * W)) : mprog A :=
  Step (λ w, match f w with Some (a, w') => Some (w', Ret a) | None => None end).
Definition go (p : mprog unit) : mprog unit := Go p (Ret tt).
Definition go_loop (body : mprog bool) : mprog unit := GoLoop body (Ret tt).
Definition call (m : M) : mprog unit := Call m (Ret tt).
Definition skip : mprog unit := Ret tt.
Definition when (b : bool) (p : mprog unit) : mprog unit := if b then p else skip.

Fixpoint for_each {A : Type} (l : list A) (f : A → mprog unit) : mprog unit :=
  match l with
  | [] => Ret tt
  | a :: l' => f a ≫= λ _, for_each l' f
  end.

(** ** Goroutines *)

(** A goroutine: the rest of its program, or a loop in the middle of a
    round. *)
Inductive thread :=
| Once (p : mprog unit)
| Forever (body cur : mprog bool).

(** The next step: the state, the rest, and the goroutines it started.
    [None]: done, or waiting. *)
Definition pstep `{!Methods} {A : Type} (p : mprog A) (w : W) : option (W * mprog A * list thread) :=
  match p with
  | Ret _ => None
  | Step f => match f w with Some (w', p') => Some (w', p', []) | None => None end
  | Go q k => Some (w, k, [Once q])
  | GoLoop body k => Some (w, k, [Forever body body])
  | Call m k => Some (w, method m ≫= λ _, k, [])
  end.

Definition tstep `{!Methods} (t : thread) (w : W) : option (W * thread * list thread) :=
  match t with
  | Once p => match pstep p w with Some (w', p', ts) => Some (w', Once p', ts) | None => None end
  | Forever body (Ret true) => Some (w, Forever body body, [])
  | Forever body cur =>
      match pstep cur w with
      | Some (w', cur', ts) => Some (w', Forever body cur', ts)
      | None => None
      end
  end.

(** A goroutine that is over. *)
Definition finished (t : thread) : bool :=
  match t with Once (Ret _) | Forever _ (Ret false) => true | _ => false end.

(** Running alone to the end: the result, the state, and the goroutines
    started, in order, when [run] says what a call does.  [None]: it waits. *)
Class Runner := run : M → W → option (W * list thread).

Fixpoint exec `{!Runner} {A : Type} (p : mprog A) (w : W) : option (A * W * list thread) :=
  match p with
  | Ret a => Some (a, w, [])
  | Step f => match f w with Some (w', p') => exec p' w' | None => None end
  | Go q k =>
      match exec k w with Some (a, w', ts) => Some (a, w', Once q :: ts) | None => None end
  | GoLoop body k =>
      match exec k w with
      | Some (a, w', ts) => Some (a, w', Forever body body :: ts)
      | None => None
      end
  | Call m k =>
      match run m w with
      | Some (w1, ts1) =>
          match exec k w1 with Some (a, w', ts) => Some (a, w', ts1 ++ ts) | None => None end
      | None => None
      end
  end.

(** Calls nested at most [n] deep. *)
Fixpoint calls `{!Methods} (n : nat) : Runner :=
  match n with
  | O => λ m w, None
  | S n' => λ m w, match @exec (calls n') unit (method m) w with
                   | Some (_, w', ts) => Some (w', ts)
                   | None => None
                   end
  end.

Lemma exec_bind `{!Runner} {A B : Type} (p : mprog A) (k : A → mprog B) w :
  exec (p ≫= k) w
  = match exec p w with
    | Some (a, w', ts) =>
        match exec (k a) w' with Some (b, w'', ts') => Some (b, w'', ts ++ ts') | None => None end
    | None => None
    end.
Proof.
  change (p ≫= k) with (bind_prog p k). revert p w. fix IH 1. intros [a|f|q p|body p|m p] w; simpl.
  - by destruct (exec (k a) w) as [[[? ?] ?]|].
  - destruct (f w) as [[w' p']|]; [apply IH|done].
  - rewrite IH. destruct (exec p w) as [[[a w'] ts]|]; [|done].
    by destruct (exec (k a) w') as [[[? ?] ?]|].
  - rewrite IH. destruct (exec p w) as [[[a w'] ts]|]; [|done].
    by destruct (exec (k a) w') as [[[? ?] ?]|].
  - destruct (run m w) as [[w1 ts1]|]; [|done].
    rewrite IH. destruct (exec p w1) as [[[a w'] ts]|]; [|done].
    destruct (exec (k a) w') as [[[? ?] ?]|]; [|done]. by rewrite app_assoc.
Qed.

Lemma exec_ret `{!Runner} {A : Type} (a : A) w : exec (mret a) w = Some (a, w, []).
Proof. done. Qed.

Lemma exec_atomic `{!Runner} {A : Type} (f : W → A * W) w : exec (atomic f) w = Some ((f w).1, (f w).2, []).
Proof. simpl. by destruct (f w). Qed.

(** The steps of a run, for proofs that follow one. *)
Lemma ex_seq `{!Runner} {A B : Type} (q : mprog A) (k : A → mprog B) w a w1 ts b w2 ts' tss :
  exec q w = Some (a, w1, ts) → exec (k a) w1 = Some (b, w2, ts') → tss = ts ++ ts' →
  exec (q ≫= k) w = Some (b, w2, tss).
Proof. intros H1 H2 ->. by rewrite exec_bind, H1, H2. Qed.

(** A step that starts no goroutine first, or last. *)
Lemma ex_first `{!Runner} {A B : Type} (q : mprog A) (k : A → mprog B) w a w1 b w2 ts :
  exec q w = Some (a, w1, []) → exec (k a) w1 = Some (b, w2, ts) → exec (q ≫= k) w = Some (b, w2, ts).
Proof. intros H1 H2. by eapply ex_seq. Qed.

Lemma ex_last `{!Runner} {A B : Type} (q : mprog A) (k : A → mprog B) w a w1 b w2 ts :
  exec q w = Some (a, w1, ts) → exec (k a) w1 = Some (b, w2, []) → exec (q ≫= k) w = Some (b, w2, ts).
Proof. intros H1 H2. eapply ex_seq; [done..|]. by rewrite app_nil_r. Qed.

Lemma ex_update `{!Runner} f w : exec (update f) w = Some (tt, f w, []).
Proof. done. Qed.

Lemma ex_gets `{!Runner} {A : Type} (f : W → A) w : exec (gets f) w = Some (f w, w, []).
Proof. done. Qed.

Lemma ex_await `{!Runner} {A : Type} (f : W → option (A * W)) w a w' :
  f w = Some (a, w') → exec (await f) w = Some (a, w', []).
Proof. intros Hf. simpl. by rewrite Hf. Qed.

Lemma ex_call `{!Methods} n m w w' ts :
  @exec (calls n) unit (method m) w = Some (tt, w', ts) →
  @exec (calls (S n)) unit (call m) w = Some (tt, w', ts).
Proof. intros Hm. simpl. unfold run. simpl. by rewrite Hm, app_nil_r. Qed.

Lemma ex_go `{!Runner} (p : mprog unit) w : exec (go p) w = Some (tt, w, [Once p]).
Proof. done. Qed.

(** A loop over programs that leave a state computed by [g]. *)
Lemma exec_for_each `{!Runner} {B : Type} (l : list B) (f : B → mprog unit) (g : B → W → W) w :
  (∀ b w', b ∈ l → exec (f b) w' = Some (tt, g b w', [])) →
  exec (for_each l f) w = Some (tt, foldl (λ w b, g b w) w l, []).
Proof.
  revert w. induction l as [|b l IH]; intros w Hf; [done|]. cbn [for_each].
  rewrite exec_bind, Hf by by left. cbn [foldl]. rewrite IH; [done|].
  intros b' w' Hb. apply Hf. by right.
Qed.

(** A loop that starts a goroutine in each round. *)
Lemma exec_for_each_go `{!Runner} {B : Type} (l : list B) (f : B → mprog unit) (g : B → W → W)
    (t : B → mprog unit) w :
  (∀ b w', exec (f b) w' = Some (tt, g b w', [Once (t b)])) →
  exec (for_each l f) w = Some (tt, foldl (λ w b, g b w) w l, (λ b, Once (t b)) <$> l).
Proof.
  intros Hf. revert w. induction l as [|b l IH]; intros w; [done|]. cbn [for_each].
  rewrite exec_bind, Hf. cbn [foldl]. by rewrite IH.
Qed.

Lemma foldl_id {X Y : Type} (l : list Y) (x : X) : foldl (λ x _, x) x l = x.
Proof. by induction l. Qed.

(** A loop that does nothing else. *)
Lemma exec_spawn `{!Runner} {B : Type} (l : list B) (t : B → mprog unit) w :
  exec (for_each l (λ b, go (t b))) w = Some (tt, w, (λ b, Once (t b)) <$> l).
Proof. rewrite (exec_for_each_go l _ (λ _ w, w) t); [by rewrite foldl_id|done]. Qed.

(** ** Configurations *)

Definition config : Type := W * list thread.

Inductive cstep `{!Methods} : config → config → Prop :=
| cstep_intro w w' t t' ts1 ts2 ts :
    tstep t w = Some (w', t', ts) → cstep (w, ts1 ++ t :: ts2) (w', ts1 ++ t' :: ts2 ++ ts).

Definition reachable `{!Methods} : config → config → Prop := rtc cstep.

(** Letting goroutine [i] take a step. *)
Definition sched_step `{!Methods} (c : config) (i : nat) : option config :=
  let '(w, ts) := c in
  match ts !! i with
  | Some t => match tstep t w with
              | Some (w', t', ts') => Some (w', <[i := t']> ts ++ ts')
              | None => None
              end
  | None => None
  end.

Lemma sched_step_cstep `{!Methods} c i c' : sched_step c i = Some c' → cstep c c'.
Proof.
  destruct c as [w ts]. unfold sched_step. destruct (ts !! i) as [t|] eqn:Hi; [|done].
  destruct (tstep t w) as [[[w' t'] ts']|] eqn:Hp; [|done]. intros [= <-].
  pose proof (take_drop_middle ts i t Hi) as Hps. rewrite <- Hps at 1.
  rewrite insert_take_drop by (by eapply lookup_lt_Some).
  rewrite <- app_assoc. by apply cstep_intro.
Qed.

(** Run goroutine [i] until it is done or waits, at most [n] steps. *)
Fixpoint run_thread `{!Methods} (n : nat) (i : nat) (c : config) : config :=
  match n with
  | O => c
  | S n' => match sched_step c i with Some c' => run_thread n' i c' | None => c end
  end.

Lemma run_thread_reachable `{!Methods} n i c : reachable c (run_thread n i c).
Proof.
  revert c. induction n as [|n IH]; intros c; simpl; [apply rtc_refl|].
  destruct (sched_step c i) as [c'|] eqn:E; [|apply rtc_refl].
  eapply rtc_l; [by eapply sched_step_cstep|apply IH].
Qed.

(** Round robin over the goroutines there are, [n] rounds. *)
Fixpoint run_all `{!Methods} (n : nat) (c : config) : config :=
  match n with
  | O => c
  | S n' => run_all n' (foldl (λ c i, run_thread 100 i c) c (seq 0 (length c.2)))
  end.

Lemma run_all_reachable `{!Methods} n c : reachable c (run_all n c).
Proof.
  revert c. induction n as [|n IH]; intros c; cbn [run_all]; [apply rtc_refl|].
  etransitivity; [|apply IH]. generalize (seq 0 (length c.2)). intros turns. revert c.
  induction turns as [|i turns IHi]; intros c; cbn [foldl]; [apply rtc_refl|].
  etransitivity; [apply run_thread_reachable|apply IHi].
Qed.

(** Letting the goroutines [ns] run in that order, each until it ends or waits;
    and with a bound on the steps of each turn. *)
Definition turns `{!Methods} (ns : list nat) (c : config) : config :=
  foldl (λ c i, run_thread 100 i c) c ns.
Definition play `{!Methods} (ns : list (nat * nat)) (c : config) : config :=
  foldl (λ c im, run_thread im.2 im.1 c) c ns.

Lemma turns_reachable `{!Methods} ns c : reachable c (turns ns c).
Proof.
  revert c. induction ns as [|i ns IH]; intros c; cbn [turns foldl]; [apply rtc_refl|].
  etransitivity; [apply run_thread_reachable|apply IH].
Qed.

Lemma play_reachable `{!Methods} ns c : reachable c (play ns c).
Proof.
  revert c. induction ns as [|[i m] ns IH]; intros c; cbn [play foldl]; [apply rtc_refl|].
  etransitivity; [apply run_thread_reachable|apply IH].
Qed.

(** A method that runs to its end alone is one of the runs, from the middle
    of any goroutine and beside any others. *)
Lemma exec_reachable `{!Methods} n {A : Type} (p : mprog A) (k : A → mprog unit) w a w' ts ts1 ts2 :
  @exec (calls n) A p w = Some (a, w', ts) →
  reachable (w, ts1 ++ Once (p ≫= k) :: ts2) (w', ts1 ++ Once (k a) :: ts2 ++ ts).
Proof.
  change (p ≫= k) with (bind_prog p k).
  revert A p k w a w' ts ts2. induction n as [|n IHn]; fix IH 2;
    intros A [a0|f|q p|body p|m p] k w a w' ts ts2 E; simpl in E |- *.
  1,6: simplify_eq; rewrite app_nil_r; apply rtc_refl.
  1,5: destruct (f w) as [[w1 p1]|] eqn:Hf; [|done];
       eapply rtc_l; [apply cstep_intro; simpl; by rewrite Hf|];
       rewrite app_nil_r; by apply IH.
  1,2,4,5: destruct (exec p w) as [[[a1 w1] ts3]|] eqn:Hp; [|done]; simplify_eq;
       (eapply rtc_l; [by apply cstep_intro|]);
       (etransitivity; [by eapply IH|]); by rewrite <- app_assoc.
  - done.
  - unfold run in E. simpl in E. destruct (exec (method m) w) as [[[[] w1] ts3]|] eqn:Hm; [|done].
    destruct (exec p w1) as [[[a1 w2] ts4]|] eqn:Hp; [|done]. simplify_eq.
    eapply rtc_l; [by apply cstep_intro|]. rewrite app_nil_r.
    etransitivity; [by eapply IHn|]. etransitivity; [by eapply IH|]. by rewrite <- app_assoc.
Qed.

(** ** Running against an environment

    One goroutine runs, and whenever it waits the environment takes its next
    step (the answer of the network, say) and lets it go on. *)
Class Reactive := run_env : M → W → list (W → W) → option (W * list thread * list (W → W)).

Fixpoint exec_env `{!Reactive} {A : Type} (p : mprog A) (w : W) (es : list (W → W))
    : option (A * W * list thread * list (W → W)) :=
  match p with
  | Ret a => Some (a, w, [], es)
  | Step f =>
      match f w with
      | Some (w', p') => exec_env p' w' es
      | None =>
          match es with
          | e :: es' => match f (e w) with Some (w', p') => exec_env p' w' es' | None => None end
          | [] => None
          end
      end
  | Go q k =>
      match exec_env k w es with Some (a, w', ts, es') => Some (a, w', Once q :: ts, es') | None => None end
  | GoLoop body k =>
      match exec_env k w es with
      | Some (a, w', ts, es') => Some (a, w', Forever body body :: ts, es')
      | None => None
      end
  | Call m k =>
      match run_env m w es with
      | Some (w1, ts1, es1) =>
          match exec_env k w1 es1 with
          | Some (a, w', ts, es') => Some (a, w', ts1 ++ ts, es')
          | None => None
          end
      | None => None
      end
  end.

Fixpoint env_calls `{!Methods} (n : nat) : Reactive :=
  match n with
  | O => λ m w es, None
  | S n' => λ m w es, match @exec_env (env_calls n') unit (method m) w es with
                      | Some (_, w', ts, es') => Some (w', ts, es')
                      | None => None
                      end
  end.

Lemma exec_env_bind `{!Reactive} {A B : Type} (p : mprog A) (k : A → mprog B) w es :
  exec_env (p ≫= k) w es
  = match exec_env p w es with
    | Some (a, w', ts, es') =>
        match exec_env (k a) w' es' with
        | Some (b, w'', ts', es'') => Some (b, w'', ts ++ ts', es'')
        | None => None
        end
    | None => None
    end.
Proof.
  change (p ≫= k) with (bind_prog p k). revert p w es. fix IH 1. intros [a|f|q p|body p|m p] w es; simpl.
  - by destruct (exec_env (k a) w es) as [[[[? ?] ?] ?]|].
  - destruct (f w) as [[w' p']|]; [apply IH|]. destruct es as [|e es]; [done|].
    destruct (f (e w)) as [[w' p']|]; [apply IH|done].
  - rewrite IH. destruct (exec_env p w es) as [[[[a w'] ts] es1]|]; [|done].
    by destruct (exec_env (k a) w' es1) as [[[[? ?] ?] ?]|].
  - rewrite IH. destruct (exec_env p w es) as [[[[a w'] ts] es1]|]; [|done].
    by destruct (exec_env (k a) w' es1) as [[[[? ?] ?] ?]|].
  - destruct (run_env m w es) as [[[w1 ts1] es1]|]; [|done].
    rewrite IH. destruct (exec_env p w1 es1) as [[[[a w'] ts] es2]|]; [|done].
    destruct (exec_env (k a) w' es2) as [[[[? ?] ?] ?]|]; [|done]. by rewrite app_assoc.
Qed.

(** A run that never waits needs no environment. *)
Lemma exec_env_alone `{!Methods} n {A : Type} (p : mprog A) w a w' ts es :
  @exec (calls n) A p w = Some (a, w', ts) → @exec_env (env_calls n) A p w es = Some (a, w', ts, es).
Proof.
  revert A p w a w' ts es. induction n as [|n IHn]; fix IH 2;
    intros A [a0|f|q p|body p|m p] w a w' ts es E; simpl in E |- *.
  1,6: by simplify_eq.
  1,5: destruct (f w) as [[w1 p1]|]; [by apply IH|done].
  1,2,4,5: destruct (exec p w) as [[[a1 w1] ts3]|] eqn:Hp; [|done]; simplify_eq;
           pose proof (IH _ p w a w' ts3 es Hp) as E'; simpl in E'; by rewrite E'.
  - done.
  - unfold run in E. simpl in E. unfold run_env. simpl.
    destruct (exec (method m) w) as [[[[] w1] ts3]|] eqn:Hm; [|done].
    rewrite (IHn _ _ _ _ _ _ es Hm).
    destruct (exec p w1) as [[[a1 w2] ts4]|] eqn:Hp; [|done]. simplify_eq.
    pose proof (IH _ p w1 a w' ts4 es Hp) as E'. simpl in E'. by rewrite E'.
Qed.

Lemma ev_seq `{!Reactive} {A B : Type} (q : mprog A) (k : A → mprog B) w es a w1 ts es1 b w2 ts' es2 tss :
  exec_env q w es = Some (a, w1, ts, es1) → exec_env (k a) w1 es1 = Some (b, w2, ts', es2) →
  tss = ts ++ ts' → exec_env (q ≫= k) w es = Some (b, w2, tss, es2).
Proof. intros H1 H2 ->. by rewrite exec_env_bind, H1, H2. Qed.

Lemma ev_first `{!Reactive} {A B : Type} (q : mprog A) (k : A → mprog B) w es a w1 es1 b w2 ts es2 :
  exec_env q w es = Some (a, w1, [], es1) → exec_env (k a) w1 es1 = Some (b, w2, ts, es2) →
  exec_env (q ≫= k) w es = Some (b, w2, ts, es2).
Proof. intros H1 H2. by eapply ev_seq. Qed.

Lemma ev_wait `{!Reactive} {A : Type} (f : W → option (A * W)) w e es a w' :
  f w = None → f (e w) = Some (a, w') → exec_env (await f) w (e :: es) = Some (a, w', [], es).
Proof. intros H1 H2. simpl. by rewrite H1, H2. Qed.

Lemma ev_ready `{!Reactive} {A : Type} (f : W → option (A * W)) w es a w' :
  f w = Some (a, w') → exec_env (await f) w es = Some (a, w', [], es).
Proof. intros H1. simpl. by rewrite H1. Qed.

Lemma ev_call `{!Methods} n m w es w' ts es' :
  @exec_env (env_calls n) unit (method m) w es = Some (tt, w', ts, es') →
  @exec_env (env_calls (S n)) unit (call m) w es = Some (tt, w', ts, es').
Proof. intros Hm. simpl. unfold run_env. simpl. by rewrite Hm, app_nil_r. Qed.

(** A part of the run that does not wait. *)
Lemma ev_alone `{!Methods} {A B : Type} n (q : mprog A) (k : A → mprog B) w es a w1 ts b w2 ts' es' tss :
  @exec (calls n) A q w = Some (a, w1, ts) →
  @exec_env (env_calls n) B (k a) w1 es = Some (b, w2, ts', es') → tss = ts ++ ts' →
  @exec_env (env_calls n) B (q ≫= k) w es = Some (b, w2, tss, es').
Proof. intros H1 H2 ->. eapply ev_seq; [|exact H2|done]. by apply exec_env_alone. Qed.

Lemma ev_quiet `{!Methods} {A B : Type} n (q : mprog A) (k : A → mprog B) w es a w1 b w2 ts' es' :
  @exec (calls n) A q w = Some (a, w1, []) →
  @exec_env (env_calls n) B (k a) w1 es = Some (b, w2, ts', es') →
  @exec_env (env_calls n) B (q ≫= k) w es = Some (b, w2, ts', es').
Proof. intros H1 H2. by eapply ev_alone. Qed.

(** It is one of the runs: beside any goroutines, with one for each step of
    the environment. *)
Definition environment (es : list (W → W)) : list thread := (λ e, Once (update e)) <$> es.
Definition acted (n : nat) : list thread := replicate n (Once (Ret tt)).

Lemma environment_acts `{!Methods} e es w l n :
  reachable (w, acted n ++ environment (e :: es) ++ l) (e w, acted (S n) ++ environment es ++ l).
Proof.
  apply rtc_once. unfold acted. rewrite replicate_S_end, <- !app_assoc. simpl.
  rewrite <- (app_nil_r (environment es ++ l)) at 2. by apply cstep_intro.
Qed.

Lemma exec_env_reachable `{!Methods} n {A : Type} (p : mprog A) (k : A → mprog unit) w es a w' ts es' m ts2 :
  @exec_env (env_calls n) A p w es = Some (a, w', ts, es') →
  ∃ d, length es = (d + length es')%nat ∧
    reachable (w, acted m ++ environment es ++ Once (p ≫= k) :: ts2)
              (w', acted (d + m) ++ environment es' ++ Once (k a) :: ts2 ++ ts).
Proof.
  change (p ≫= k) with (bind_prog p k).
  revert A p k w es a w' ts es' m ts2. induction n as [|n IHn]; fix IH 2;
    intros A [a0|f|q p|body p|c p] k w es a w' ts es' m ts2 E; simpl in E |- *.
  1,6: simplify_eq; exists 0%nat; rewrite app_nil_r; split; [done|apply rtc_refl].
  1,5: destruct (f w) as [[w1 p1]|] eqn:Hf;
    [destruct (IH _ p1 k w1 es a w' ts es' m ts2 E) as (d & Hd & Hr); exists d; split; [done|];
     eapply rtc_l; [|exact Hr]; rewrite !(app_assoc (acted m));
     rewrite <- (app_nil_r ts2) at 2; apply cstep_intro; simpl; by rewrite Hf|];
    destruct es as [|e es]; [done|]; destruct (f (e w)) as [[w1 p1]|] eqn:Hf'; [|done];
    destruct (IH _ p1 k w1 es a w' ts es' (S m) ts2 E) as (d & Hd & Hr); exists (S d);
    split; [simpl; lia|]; etransitivity; [apply environment_acts|];
    replace (S d + m)%nat with (d + S m)%nat by lia;
    eapply rtc_l; [|exact Hr]; rewrite !(app_assoc (acted (S m)));
    rewrite <- (app_nil_r ts2) at 2; apply cstep_intro; simpl; by rewrite Hf'.
  1,2,4,5: destruct (exec_env p w es) as [[[[a1 w1] ts3] es1]|] eqn:Hp; [|done]; simplify_eq;
    (edestruct (IH _ p k) as (d & Hd & Hr); [exact Hp|]; exists d; split; [done|]);
    (eapply rtc_l; [rewrite (app_assoc (acted m)); by apply cstep_intro|]);
    rewrite <- (app_assoc (acted m)); (etransitivity; [exact Hr|]); by rewrite <- app_assoc.
  - done.
  - unfold run_env in E. simpl in E.
    destruct (exec_env (method c) w es) as [[[[[] w1] ts3] es1]|] eqn:Hm; [|done].
    destruct (exec_env p w1 es1) as [[[[a1 w2] ts4] es2]|] eqn:Hp; [|done]. simplify_eq.
    edestruct (IHn _ (method c) (λ _, bind_prog p k)) as (d1 & Hd1 & Hr1); [exact Hm|].
    edestruct (IH _ p k w1 es1) as (d2 & Hd2 & Hr2); [exact Hp|].
    exists (d2 + d1)%nat. split; [lia|]. eapply rtc_l.
    { rewrite (app_assoc (acted m)). by apply cstep_intro. }
    rewrite <- (app_assoc (acted m)), app_nil_r. etransitivity; [exact Hr1|].
    rewrite <- Nat.add_assoc. etransitivity; [exact Hr2|]. by rewrite <- app_assoc.
Qed.
End Prog.

#[global] Arguments mprog W M A : clear implicits.
#[global] Arguments thread W M : clear implicits.
#[global] Arguments Ret {W M A} a.
#[global] Arguments Step {W M A} f.
#[global] Arguments Go {W M A} p k.
#[global] Arguments GoLoop {W M A} body k.
#[global] Arguments Call {W M A} m k.
#[global] Arguments config W M : clear implicits.
#[global] Arguments Methods W M : clear implicits.
#[global] Arguments Runner W M : clear implicits.

(** A component whose methods do not call each other in a circle. *)
Abbreviation prog W := (mprog W Empty_set).

#[export] Instance no_methods W : Methods W Empty_set := λ m, match m with end.
#[export] Instance no_runner W : Runner W Empty_set := λ m, match m with end.
