(* ===== verification/Safety.v ===== *)
(** * Safety: invariants and ownership of interleaved goroutines

    How a property of the reachable configurations is proved one method at a
    time.  A goroutine owns a multiset of tokens (a permission to do a thing
    once, say); [I w o] is an invariant of the shared state [w] and the tokens
    [o] all goroutines own, and [R] a preorder that every step respects: what
    the state's history never undoes.

    Some tokens last: a goroutine may be over and still own them.  The class
    [Lasting] says which; every token does, unless an instance says otherwise.

    [own_n n w o p Q]: from any state that [w] may have evolved into, with
    whatever the others own, every step of [p] keeps [I], stays in [R], and
    may exchange the goroutine's own tokens only; a result satisfies [Q] when
    it is returned.  The definition counts steps, because a loop has no last
    one.  A call asks for the method's precondition [Pre] and hands over the
    tokens it needs.

    The second half is the case without tokens and without named methods. *)

From S2P Require Import Prelude.
From S2P Require Import Sched.
From stdpp Require Import gmultiset.

(** Arithmetic of the multiplicities of a token. *)
Ltac mults :=
  repeat first [rewrite multiplicity_disj_union in * | rewrite multiplicity_singleton in *
               | rewrite multiplicity_empty in *];
  repeat case_decide; simplify_eq; try lia.

(** The tokens that a goroutine may own when it is over. *)
Class Lasting (T : Type) := lasting : T → Prop.

#[export] Instance all_last (T : Type) : Lasting T | 100 := λ _, True.

(** Only such tokens are owned; and the end of a round of a loop that began
    with [ob]. *)
Definition leaves `{Countable T} `{!Lasting T} (o : gmultiset T) : Prop := ∀ t, t ∈ o → lasting t.

Definition round_ends `{Countable T} `{!Lasting T} (ob : gmultiset T) (go_on : bool) (o : gmultiset T) : Prop :=
  if go_on then ∃ r, o = ob ⊎ r ∧ leaves r else leaves o.

Lemma leaves_all `{Countable T} (o : gmultiset T) : leaves o.
Proof. done. Qed.

Lemma leaves_empty `{Countable T} `{!Lasting T} : leaves ∅.
Proof. intros t Ht. multiset_solver. Qed.

Lemma leaves_union `{Countable T} `{!Lasting T} (o1 o2 : gmultiset T) :
  leaves o1 → leaves o2 → leaves (o1 ⊎ o2).
Proof. intros H1 H2 t [Ht|Ht]%gmultiset_elem_of_disj_union; auto. Qed.

Section Own.
Context {W M T : Type} `{EqDecision T} `{!Countable T} `{!Lasting T}.
Context (I : W → gmultiset T → Prop) (R : W → W → Prop) (Pre : M → W → gmultiset T → Prop).
Context `{!PreOrder R}.
Implicit Types (o F : gmultiset T).

Fixpoint own_n {A : Type} (n : nat) (w : W) o (p : mprog W M A) (Q : A → W → gmultiset T → Prop) : Prop :=
  match n with
  | O => True
  | S n' =>
      ∀ w1 F, R w w1 → I w1 (o ⊎ F) →
        match p with
        | Ret a => Q a w1 o
        | Step f => ∀ w2 p', f w1 = Some (w2, p') →
            ∃ o', I w2 (o' ⊎ F) ∧ R w1 w2 ∧ own_n n' w2 o' p' Q
        | Go q k => ∃ o1 o2, o = o1 ⊎ o2 ∧ own_n n' w1 o1 q (λ _ _ o', leaves o') ∧ own_n n' w1 o2 k Q
        | GoLoop body k => ∃ o1 o2, o = o1 ⊎ o2
            ∧ own_n n' w1 o1 body (λ b _ o', round_ends o1 b o') ∧ own_n n' w1 o2 k Q
        | Call m k => ∃ o1 o2, o = o1 ⊎ o2 ∧ Pre m w1 o1 ∧ own_n n' w1 o2 k Q
        end
  end.

Definition own {A : Type} w o (p : mprog W M A) Q : Prop := ∀ n, own_n n w o p Q.

Lemma own_n_later {A : Type} n w w' o (p : mprog W M A) Q : R w w' → own_n n w o p Q → own_n n w' o p Q.
Proof. destruct n; [done|]. intros HR H w1 F Hw1. apply H. by transitivity w'. Qed.

Lemma own_n_less {A : Type} n m w o (p : mprog W M A) Q : (m ≤ n)%nat → own_n n w o p Q → own_n m w o p Q.
Proof.
  revert A m w o p Q. induction n as [|n IH]; intros A m w o p Q Hm H; [by replace m with 0%nat by lia|].
  destruct m as [|m]; [done|]. intros w1 F HR HI. specialize (H w1 F HR HI).
  assert (m ≤ n)%nat by lia. destruct p as [a|f|q k|body k|c k]; [done|..].
  - intros w2 p' Hf. destruct (H w2 p' Hf) as (o' & H1 & H2 & H3). exists o'. split_and!; [done..|].
    by apply IH.
  - destruct H as (o1 & o2 & -> & H1 & H2). exists o1, o2. split_and!; [done|by apply IH..].
  - destruct H as (o1 & o2 & -> & H1 & H2). exists o1, o2. split_and!; [done|by apply IH..].
  - destruct H as (o1 & o2 & -> & H1 & H2). exists o1, o2. split_and!; [done..|by apply IH].
Qed.

Lemma own_n_mono {A : Type} n w o (p : mprog W M A) (Q Q' : A → W → gmultiset T → Prop) :
  (∀ a w' o' F, R w w' → I w' (o' ⊎ F) → Q a w' o' → Q' a w' o') →
  own_n n w o p Q → own_n n w o p Q'.
Proof.
  revert A w o p Q Q'. induction n as [|n IH]; intros A w o p Q Q' HQ H; [done|].
  intros w1 F HR HI. specialize (H w1 F HR HI).
  assert (∀ w2, R w1 w2 → ∀ a w' o' F', R w2 w' → I w' (o' ⊎ F') → Q a w' o' → Q' a w' o') as HQ1.
  { intros w2 HR2 a w' o' F' HR'. eapply HQ. by do 2 (etransitivity; [done|]). }
  destruct p as [a|f|q k|body k|c k].
  - by eapply HQ.
  - intros w2 p' Hf. destruct (H w2 p' Hf) as (o' & H1 & H2 & H3). exists o'. split_and!; [done..|].
    eapply IH; [|done]. by apply HQ1.
  - destruct H as (o1 & o2 & -> & H1 & H2). exists o1, o2. split_and!; [done..|].
    eapply IH; [|done]. by apply HQ1.
  - destruct H as (o1 & o2 & -> & H1 & H2). exists o1, o2. split_and!; [done..|].
    eapply IH; [|done]. by apply HQ1.
  - destruct H as (o1 & o2 & -> & H1 & H2). exists o1, o2. split_and!; [done..|].
    eapply IH; [|done]. by apply HQ1.
Qed.

Lemma own_n_bind {A B : Type} n w o (p : mprog W M A) (k : A → mprog W M B) Q Q' :
  own_n n w o p Q →
  (∀ m a w' o' F, (m ≤ n)%nat → R w w' → I w' (o' ⊎ F) → Q a w' o' → own_n m w' o' (k a) Q') →
  own_n n w o (p ≫= k) Q'.
Proof.
  change (p ≫= k) with (bind_prog p k).
  revert w o p Q. induction n as [|n IH]; intros w o p Q H Hk; [done|].
  assert (∀ w1 w2, R w w1 → R w1 w2 → ∀ m a w' o' F, (m ≤ n)%nat → R w2 w' → I w' (o' ⊎ F) →
            Q a w' o' → own_n m w' o' (k a) Q') as Hk1.
  { intros w1 w2 HR1 HR2 m a w' o' F' Hm HR'. eapply Hk; [lia|].
    by do 2 (etransitivity; [done|]). }
  destruct p as [a|f|q p|body p|c p]; intros w1 F HR HI; pose proof (H w1 F HR HI) as H';
    cbn [bind_prog].
  - pose proof (Hk (S n) a w1 o F ltac:(lia) HR HI H') as Hs. by apply Hs.
  - intros w2 p' Hf. destruct (f w1) as [[w2' p1]|] eqn:E; [|done]. simplify_eq.
    destruct (H' _ _ E) as (o' & H1 & H2 & H3). exists o'. split_and!; [done..|].
    eapply IH; [done|]. by apply (Hk1 w1).
  - destruct H' as (o1 & o2 & -> & H1 & H2). exists o1, o2. split_and!; [done..|].
    eapply IH; [done|]. by apply (Hk1 w1).
  - destruct H' as (o1 & o2 & -> & H1 & H2). exists o1, o2. split_and!; [done..|].
    eapply IH; [done|]. by apply (Hk1 w1).
  - destruct H' as (o1 & o2 & -> & H1 & H2). exists o1, o2. split_and!; [done..|].
    eapply IH; [done|]. by apply (Hk1 w1).
Qed.

(** What else the goroutine owns stays with it. *)
Lemma own_n_frame {A : Type} n w o o1 (p : mprog W M A) Q :
  own_n n w o p Q → own_n n w (o ⊎ o1) p (λ a w' o', ∃ o2, o' = o2 ⊎ o1 ∧ Q a w' o2).
Proof.
  revert A w o p Q. induction n as [|n IH]; intros A w o p Q H; [done|].
  intros w1 F HR HI. rewrite <- (assoc_L _) in HI. specialize (H w1 (o1 ⊎ F) HR HI).
  destruct p as [a|f|q k|body k|c k].
  - by exists o.
  - intros w2 p' Hf. destruct (H w2 p' Hf) as (o' & H1 & H2 & H3). exists (o' ⊎ o1).
    rewrite <- (assoc_L _). split_and!; [done..|]. by apply IH.
  - destruct H as (o2 & o3 & -> & H1 & H2). exists o2, (o3 ⊎ o1).
    split_and!; [by rewrite (assoc_L _)|done|by apply IH].
  - destruct H as (o2 & o3 & -> & H1 & H2). exists o2, (o3 ⊎ o1).
    split_and!; [by rewrite (assoc_L _)|done|by apply IH].
  - destruct H as (o2 & o3 & -> & H1 & H2). exists o2, (o3 ⊎ o1).
    split_and!; [by rewrite (assoc_L _)|done|by apply IH].
Qed.

(** ** The rules *)

Lemma own_later {A : Type} w w' o (p : mprog W M A) Q : R w w' → own w o p Q → own w' o p Q.
Proof. intros HR H n. by apply (own_n_later n w). Qed.

Lemma own_mono {A : Type} w o (p : mprog W M A) (Q Q' : A → W → gmultiset T → Prop) :
  own w o p Q → (∀ a w' o' F, R w w' → I w' (o' ⊎ F) → Q a w' o' → Q' a w' o') → own w o p Q'.
Proof. intros H HQ n. by eapply own_n_mono. Qed.

Lemma own_weaken {A : Type} w o (p : mprog W M A) Q : own w o p Q → own w o p (λ _ _ _, True).
Proof. intros H. by eapply own_mono. Qed.

Lemma own_frame {A : Type} w o o1 (p : mprog W M A) Q :
  own w o p Q → own w (o ⊎ o1) p (λ a w' o', ∃ o2, o' = o2 ⊎ o1 ∧ Q a w' o2).
Proof. intros H n. by apply own_n_frame. Qed.

Lemma own_ret {A : Type} w o (a : A) (Q : A → W → gmultiset T → Prop) :
  (∀ w' F, R w w' → I w' (o ⊎ F) → Q a w' o) → own w o (mret a) Q.
Proof. intros H [|n]; [done|]. exact H. Qed.

Lemma own_bind {A B : Type} w o (p : mprog W M A) (k : A → mprog W M B) Q Q' :
  own w o p Q →
  (∀ a w' o' F, R w w' → I w' (o' ⊎ F) → Q a w' o' → own w' o' (k a) Q') →
  own w o (p ≫= k) Q'.
Proof.
  intros H Hk n. eapply own_n_bind; [apply H|]. intros m a w' o' F _ HR HI HQ. by eapply Hk.
Qed.

(** A step, with the tokens it exchanges. *)
Lemma own_await {A : Type} w o (f : W → option (A * W)) (Q : A → W → gmultiset T → Prop) :
  (∀ w1 F a w2, R w w1 → I w1 (o ⊎ F) → f w1 = Some (a, w2) →
     ∃ o', I w2 (o' ⊎ F) ∧ R w1 w2 ∧ (∀ w3 F', R w2 w3 → I w3 (o' ⊎ F') → Q a w3 o')) →
  own w o (await f) Q.
Proof.
  intros H [|n]; [done|]. intros w1 F HR HI w2 p' Hf.
  destruct (f w1) as [[a w2']|] eqn:E; [|done]. simplify_eq.
  destruct (H w1 F a w2 HR HI E) as (o' & H1 & H2 & H3). exists o'. split_and!; [done..|].
  by apply (own_ret w2 o' a Q H3 n).
Qed.

Lemma own_atomic {A : Type} w o (f : W → A * W) (Q : A → W → gmultiset T → Prop) :
  (∀ w1 F, R w w1 → I w1 (o ⊎ F) →
     ∃ o', I (f w1).2 (o' ⊎ F) ∧ R w1 (f w1).2
           ∧ (∀ w3 F', R (f w1).2 w3 → I w3 (o' ⊎ F') → Q (f w1).1 w3 o')) →
  own w o (atomic f) Q.
Proof.
  intros H [|n]; [done|]. intros w1 F HR HI w2 p' Hf. specialize (H w1 F HR HI).
  destruct (f w1) as [a w2']. simplify_eq/=. destruct H as (o' & H1 & H2 & H3).
  exists o'. split_and!; [done..|]. by apply (own_ret w2 o' a Q H3 n).
Qed.

Lemma own_update w o (f : W → W) (Q : unit → W → gmultiset T → Prop) :
  (∀ w1 F, R w w1 → I w1 (o ⊎ F) →
     ∃ o', I (f w1) (o' ⊎ F) ∧ R w1 (f w1) ∧ (∀ w3 F', R (f w1) w3 → I w3 (o' ⊎ F') → Q tt w3 o')) →
  own w o (update f) Q.
Proof. intros H. apply (own_atomic w o (λ w, (tt, f w)) Q). exact H. Qed.

Lemma own_gets {A : Type} w o (f : W → A) (Q : A → W → gmultiset T → Prop) :
  (∀ w1 w3 F F', R w w1 → I w1 (o ⊎ F) → R w1 w3 → I w3 (o ⊎ F') → Q (f w1) w3 o) →
  own w o (gets f) Q.
Proof.
  intros H. apply own_atomic. intros w1 F HR HI. exists o. split_and!; [done|reflexivity|].
  intros w3 F' HR' HI'. by eapply H.
Qed.

Lemma own_go w o1 o2 (p : mprog W M unit) (Q : unit → W → gmultiset T → Prop) :
  own w o1 p (λ _ _ o', leaves o') → (∀ w' F, R w w' → I w' (o2 ⊎ F) → Q tt w' o2) →
  own w (o1 ⊎ o2) (go p) Q.
Proof.
  intros Hp HQ [|n]; [done|]. intros w1 F HR HI. exists o1, o2.
  split_and!; [done|by eapply own_n_later|].
  eapply (own_ret w1 o2 tt Q). intros w' F' HR' HI'. eapply HQ; [by etransitivity|done].
Qed.

(** A loop owns at the start of a round what it owned at the first. *)
Lemma own_go_loop w o1 o2 (p : mprog W M bool) (Q : unit → W → gmultiset T → Prop) :
  own w o1 p (λ b _ o', round_ends o1 b o') → (∀ w' F, R w w' → I w' (o2 ⊎ F) → Q tt w' o2) →
  own w (o1 ⊎ o2) (go_loop p) Q.
Proof.
  intros Hp HQ [|n]; [done|]. intros w1 F HR HI. exists o1, o2.
  split_and!; [done|by eapply own_n_later|].
  eapply (own_ret w1 o2 tt Q). intros w' F' HR' HI'. eapply HQ; [by etransitivity|done].
Qed.

Lemma own_call w o1 o2 (m : M) (Q : unit → W → gmultiset T → Prop) :
  (∀ w' F, R w w' → I w' (o1 ⊎ o2 ⊎ F) → Pre m w' o1) →
  (∀ w' F, R w w' → I w' (o2 ⊎ F) → Q tt w' o2) →
  own w (o1 ⊎ o2) (call m) Q.
Proof.
  intros Hp HQ [|n]; [done|]. intros w1 F HR HI. exists o1, o2.
  split_and!; [done|by eapply Hp|].
  eapply (own_ret w1 o2 tt Q). intros w' F' HR' HI'. eapply HQ; [by etransitivity|done].
Qed.

(** ** Operations that need no token

    They give none back either, and the goroutine's other tokens are left
    alone. *)

Definition keeps {A : Type} w (p : mprog W M A) (Q : A → W → Prop) : Prop :=
  own w ∅ p (λ a w' o', o' = ∅ ∧ Q a w').

Lemma keeps_seq {A B : Type} w o (p : mprog W M A) (k : A → mprog W M B) Q Q' :
  keeps w p Q →
  (∀ a w' F, R w w' → I w' (o ⊎ F) → Q a w' → own w' o (k a) Q') →
  own w o (p ≫= k) Q'.
Proof.
  intros H Hk. eapply (own_bind w o p k (λ a w' o', o' = o ∧ Q a w')).
  { pose proof (own_frame w ∅ o p _ H) as H'. rewrite (left_id_L ∅ (⊎)) in H'.
    eapply own_mono; [exact H'|]. simpl. intros a w' o' F _ _ (o2 & -> & -> & HQ).
    by rewrite (left_id_L ∅ (⊎)). }
  intros a w' o' F HR HI (-> & HQ). by eapply Hk.
Qed.

Lemma keeps_mono {A : Type} w (p : mprog W M A) (Q Q' : A → W → Prop) :
  keeps w p Q → (∀ a w' F, R w w' → I w' F → Q a w' → Q' a w') → keeps w p Q'.
Proof.
  intros H HQ. eapply own_mono; [exact H|]. intros a w' o' F HR HI [-> Hq]. split; [done|].
  rewrite (left_id_L ∅ (⊎)) in HI. by eapply HQ.
Qed.

Lemma keeps_weaken {A : Type} w (p : mprog W M A) (Q : A → W → Prop) :
  keeps w p Q → keeps w p (λ _ _, True).
Proof. intros H. by eapply keeps_mono. Qed.

Lemma keeps_ret {A : Type} w (a : A) (Q : A → W → Prop) :
  (∀ w' F, R w w' → I w' F → Q a w') → keeps w (mret a) Q.
Proof.
  intros H. apply own_ret. intros w' F HR HI. split; [done|].
  rewrite (left_id_L ∅ (⊎)) in HI. by eapply H.
Qed.

Lemma keeps_bind {A B : Type} w (p : mprog W M A) (k : A → mprog W M B) Q Q' :
  keeps w p Q → (∀ a w' F, R w w' → I w' F → Q a w' → keeps w' (k a) Q') → keeps w (p ≫= k) Q'.
Proof.
  intros H Hk. eapply keeps_seq; [exact H|]. intros a w' F HR HI HQ.
  rewrite (left_id_L ∅ (⊎)) in HI. by eapply Hk.
Qed.

Lemma keeps_await {A : Type} w (f : W → option (A * W)) (Q : A → W → Prop) :
  (∀ w1 F a w2, R w w1 → I w1 F → f w1 = Some (a, w2) →
     I w2 F ∧ R w1 w2 ∧ (∀ w3 F', R w2 w3 → I w3 F' → Q a w3)) →
  keeps w (await f) Q.
Proof.
  intros H. apply own_await. intros w1 F a w2 HR HI Hf. rewrite (left_id_L ∅ (⊎)) in HI.
  destruct (H w1 F a w2 HR HI Hf) as (H1 & H2 & H3). exists ∅. rewrite (left_id_L ∅ (⊎)).
  split_and!; [done..|]. intros w3 F' HR' HI'. rewrite (left_id_L ∅ (⊎)) in HI'. split; [done|].
  by eapply H3.
Qed.

Lemma keeps_atomic {A : Type} w (f : W → A * W) (Q : A → W → Prop) :
  (∀ w1 F, R w w1 → I w1 F →
     I (f w1).2 F ∧ R w1 (f w1).2 ∧ (∀ w3 F', R (f w1).2 w3 → I w3 F' → Q (f w1).1 w3)) →
  keeps w (atomic f) Q.
Proof.
  intros H. apply own_atomic. intros w1 F HR HI. rewrite (left_id_L ∅ (⊎)) in HI.
  destruct (H w1 F HR HI) as (H1 & H2 & H3). exists ∅. rewrite (left_id_L ∅ (⊎)).
  split_and!; [done..|]. intros w3 F' HR' HI'. rewrite (left_id_L ∅ (⊎)) in HI'. split; [done|].
  by eapply H3.
Qed.

Lemma keeps_update w (f : W → W) (Q : unit → W → Prop) :
  (∀ w1 F, R w w1 → I w1 F →
     I (f w1) F ∧ R w1 (f w1) ∧ (∀ w3 F', R (f w1) w3 → I w3 F' → Q tt w3)) →
  keeps w (update f) Q.
Proof. intros H. apply (keeps_atomic w (λ w, (tt, f w)) Q). exact H. Qed.

Lemma keeps_gets {A : Type} w (f : W → A) (Q : A → W → Prop) :
  (∀ w1 w3 F F', R w w1 → I w1 F → R w1 w3 → I w3 F' → Q (f w1) w3) → keeps w (gets f) Q.
Proof.
  intros H. apply keeps_atomic. intros w1 F HR HI. split_and!; [done|reflexivity|].
  intros w3 F' HR' HI'. by eapply H.
Qed.

Lemma keeps_leaves {A : Type} w (p : mprog W M A) (Q : A → W → Prop) :
  keeps w p Q → own w ∅ p (λ _ _ o', leaves o').
Proof. intros H. eapply own_mono; [exact H|]. intros a w' o' F _ _ [-> _]. apply leaves_empty. Qed.

Lemma keeps_round w (p : mprog W M bool) (Q : bool → W → Prop) :
  keeps w p Q → own w ∅ p (λ b _ o', round_ends ∅ b o').
Proof.
  intros H. eapply own_mono; [exact H|]. intros [] w' o' F _ _ [-> _]; [|apply leaves_empty].
  exists ∅. split; [by rewrite (left_id_L ∅ (⊎))|apply leaves_empty].
Qed.

Lemma keeps_go w (p : mprog W M unit) (Q : unit → W → Prop) :
  keeps w p (λ _ _, True) → (∀ w' F, R w w' → I w' F → Q tt w') → keeps w (go p) Q.
Proof.
  intros Hp HQ. unfold keeps. rewrite <- (left_id_L ∅ (⊎) ∅) at 1. apply own_go.
  - by eapply keeps_leaves.
  - intros w' F HR HI. rewrite (left_id_L ∅ (⊎)) in HI. split; [done|]. by eapply HQ.
Qed.

Lemma keeps_go_loop w (p : mprog W M bool) (Q : unit → W → Prop) :
  keeps w p (λ _ _, True) → (∀ w' F, R w w' → I w' F → Q tt w') → keeps w (go_loop p) Q.
Proof.
  intros Hp HQ. unfold keeps. rewrite <- (left_id_L ∅ (⊎) ∅) at 1. apply own_go_loop.
  - by eapply keeps_round.
  - intros w' F HR HI. rewrite (left_id_L ∅ (⊎)) in HI. split; [done|]. by eapply HQ.
Qed.

Lemma keeps_call w (m : M) (Q : unit → W → Prop) :
  (∀ w' F, R w w' → I w' F → Pre m w' ∅) → (∀ w' F, R w w' → I w' F → Q tt w') →
  keeps w (call m) Q.
Proof.
  intros Hp HQ. unfold keeps. rewrite <- (left_id_L ∅ (⊎) ∅) at 1.
  apply own_call; intros w' F HR HI; rewrite !(left_id_L ∅ (⊎)) in HI; [by eapply Hp|].
  split; [done|by eapply HQ].
Qed.

Lemma keeps_when w (b : bool) (p : mprog W M unit) (Q : unit → W → Prop) :
  (b = true → keeps w p Q) → (b = false → ∀ w' F, R w w' → I w' F → Q tt w') → keeps w (when b p) Q.
Proof.
  intros Ht Hf. destruct b; [exact (Ht eq_refl)|]. apply keeps_ret. exact (Hf eq_refl).
Qed.

Lemma keeps_for_each {A : Type} w (l : list A) (f : A → mprog W M unit) :
  (∀ a w', a ∈ l → R w w' → keeps w' (f a) (λ _ _, True)) →
  keeps w (for_each l f) (λ _ _, True).
Proof.
  revert w. induction l as [|a l IH]; intros w H; [by apply (keeps_ret w tt)|].
  cbn [for_each]. eapply keeps_bind; [apply H; [left|reflexivity]|].
  intros _ w' F HR _ _. apply IH. intros a' w'' Ha HR'. apply H; [by right|by etransitivity].
Qed.

Lemma keeps_later {A : Type} w w' (p : mprog W M A) Q : R w w' → keeps w p Q → keeps w' p Q.
Proof. apply own_later. Qed.

(** ** Adequacy *)

Definition own_thread_n (n : nat) (w : W) o (t : thread W M) : Prop :=
  match t with
  | Once p => own_n n w o p (λ _ _ o', leaves o')
  | Forever body cur => ∃ ob, own_n n w o cur (λ b _ o', round_ends ob b o')
                              ∧ own_n n w ob body (λ b _ o', round_ends ob b o')
  end.

Definition own_thread (w : W) o (t : thread W M) : Prop := ∀ n, own_thread_n n w o t.

Lemma own_thread_n_later n w w' o t : R w w' → own_thread_n n w o t → own_thread_n n w' o t.
Proof.
  destruct t; [apply own_n_later|]. intros HR (ob & H1 & H2). exists ob. split; by eapply own_n_later.
Qed.

Lemma own_thread_n_less n m w o t : (m ≤ n)%nat → own_thread_n n w o t → own_thread_n m w o t.
Proof.
  intros Hm. destruct t; [by apply own_n_less|]. intros (ob & H1 & H2).
  exists ob. split; by eapply own_n_less.
Qed.

(** The next round. *)
Lemma own_n_round n w ob r (body : mprog W M bool) :
  leaves r → own_n n w ob body (λ b _ o', round_ends ob b o') →
  own_n n w (ob ⊎ r) body (λ b _ o', round_ends ob b o').
Proof.
  intros Hr H. eapply own_n_mono; [|by apply own_n_frame].
  simpl. intros [] w' o' F _ _ (o2 & -> & Hb); simpl in *; [|by apply leaves_union].
  destruct Hb as (r2 & -> & Hr2). exists (r2 ⊎ r). split; [by rewrite (assoc_L (⊎))|by apply leaves_union].
Qed.

(** A goroutine that is over. *)
Lemma own_finished w o F t : own_thread_n 1 w o t → finished t = true → I w (o ⊎ F) → leaves o.
Proof.
  destruct t as [[]|body [[]|?|?|?|?]]; try done; simpl.
  - intros H _. by apply H.
  - intros (ob & H & _) _. by apply H.
Qed.

(** Every method does what its callers count on: it uses up the tokens it is
    given. *)
Context `{!Methods W M}.
Definition methods_own : Prop :=
  ∀ m w o, Pre m w o → own w o (method m) (λ _ _ o', o' = ∅).
Context (Hmethods : methods_own).

(** After a step: the goroutine's tokens and those it gave to new
    goroutines. *)
Lemma pstep_own {A : Type} n w o F (p : mprog W M A) Q w' p' ts :
  I w (o ⊎ F) → own_n (S n) w o p Q → pstep p w = Some (w', p', ts) →
  ∃ o' os, I w' (o' ⊎ ⋃+ os ⊎ F) ∧ R w w' ∧ own_n n w' o' p' Q ∧ Forall2 (own_thread_n n w') os ts.
Proof.
  intros HI H Hp. specialize (H w F ltac:(reflexivity) HI).
  destruct p as [a|f|q k|body k|m k]; simpl in Hp; [done|..].
  - destruct (f w) as [[w1 p1]|] eqn:E; simplify_eq. destruct (H _ _ eq_refl) as (o' & H1 & H2 & H3).
    exists o', []. rewrite gmultiset_disj_union_list_nil, (right_id_L ∅ (⊎)). split_and!; auto.
  - simplify_eq. destruct H as (o1 & o2 & -> & H1 & H2). exists o2, [o1].
    rewrite gmultiset_disj_union_list_singleton, (comm_L (⊎) o2 o1).
    split_and!; [done|reflexivity|done|by repeat constructor].
  - simplify_eq. destruct H as (o1 & o2 & -> & H1 & H2). exists o2, [o1].
    rewrite gmultiset_disj_union_list_singleton, (comm_L (⊎) o2 o1).
    split_and!; [done|reflexivity|done|]. repeat constructor. by exists o1.
  - simplify_eq. destruct H as (o1 & o2 & -> & H1 & H2). exists (o1 ⊎ o2), [].
    rewrite gmultiset_disj_union_list_nil, (right_id_L ∅ (⊎)).
    split_and!; [done|reflexivity| |constructor].
    eapply own_n_bind; [apply own_n_frame, Hmethods, H1|]. simpl.
    intros i _ w2 o' F' Hi HR _ (o3 & -> & ->). rewrite (left_id_L ∅ (⊎)).
    eapply own_n_less; [done|]. by eapply own_n_later.
Qed.

Lemma tstep_own n w o F t w' t' ts :
  I w (o ⊎ F) → own_thread_n (S n) w o t → tstep t w = Some (w', t', ts) →
  ∃ o' os, I w' (o' ⊎ ⋃+ os ⊎ F) ∧ R w w' ∧ own_thread_n n w' o' t'
           ∧ Forall2 (own_thread_n n w') os ts.
Proof.
  intros HI H Ht. destruct t as [p|body cur].
  - simpl in Ht. destruct (pstep p w) as [[[w1 p1] ts1]|] eqn:E; simplify_eq.
    by apply (pstep_own n w o F p (λ _ _ o', leaves o') w' p1 ts) in E.
  - destruct H as (ob & Hc & Hb).
    assert ((w', t', ts) = (w, Forever body body, [])
        ∧ cur = Ret true
      ∨ ∃ cur', pstep cur w = Some (w', cur', ts) ∧ t' = Forever body cur') as [[Heq ->]|(cur' & E & ->)].
    { simpl in Ht. destruct cur as [[]|f|q k|bd k|m k]; simplify_eq; [by left|..];
        destruct (pstep _ w) as [[[w1 p1] ts1]|]; simplify_eq; eauto. }
    + simplify_eq. destruct (Hc w F ltac:(reflexivity) HI) as (r & -> & Hr). exists (ob ⊎ r), []. rewrite gmultiset_disj_union_list_nil, (right_id_L ∅ (⊎)).
      split_and!; [done|reflexivity| |constructor].
      exists ob. assert (own_n n w ob body (λ b _ o', round_ends ob b o')) as Hb'
        by (by eapply own_n_less; [|exact Hb]; lia).
      split; [by apply own_n_round|done].
    + destruct (pstep_own n w o F cur _ w' cur' ts HI Hc E) as (o' & os & H1 & H2 & H3 & H4).
      exists o', os. split_and!; [done..| |done]. exists ob. split; [done|]. eapply own_n_later; [done|].
      by eapply own_n_less; [|exact Hb]; lia.
Qed.

Lemma Forall2_own_thread n w w' os ts :
  R w w' → Forall2 (own_thread_n (S n) w) os ts → Forall2 (own_thread_n n w') os ts.
Proof.
  intros HR. apply Forall2_impl. intros o t Ht. eapply own_thread_n_later; [done|].
  eapply own_thread_n_less; [|done]. lia.
Qed.

Lemma nsteps_own n m c c' os :
  nsteps cstep m c c' → I c.1 (⋃+ os) → Forall2 (own_thread_n (m + n) c.1) os c.2 →
  ∃ os', I c'.1 (⋃+ os') ∧ R c.1 c'.1 ∧ Forall2 (own_thread_n n c'.1) os' c'.2.
Proof.
  intros Hr. revert os. induction Hr as [c|m c1 c2 c3 Hs Hr IH]; intros os HI Hn.
  { exists os. split_and!; [done|reflexivity|done]. }
  destruct Hs as [w w' t t' ts1 ts2 ts Ht]. simpl in *.
  apply Forall2_app_inv_r in Hn as (os1 & osr & Hn1 & Hn2 & ->).
  apply Forall2_cons_inv_r in Hn2 as (o & os2 & Hnt & Hn2 & ->).
  rewrite gmultiset_disj_union_list_app, gmultiset_disj_union_list_cons in HI.
  assert (I w (o ⊎ (⋃+ os1 ⊎ ⋃+ os2))) as HI1.
  { by rewrite (assoc_L (⊎)), (comm_L (⊎) o), <- (assoc_L (⊎)). }
  destruct (tstep_own (m + n) w o _ t w' t' ts HI1 Hnt Ht) as (o' & os3 & H1 & H2 & H3 & H4).
  destruct (IH (os1 ++ o' :: os2 ++ os3)) as (os' & J1 & J2 & J3).
  - rewrite gmultiset_disj_union_list_app, gmultiset_disj_union_list_cons,
      gmultiset_disj_union_list_app.
    by replace (⋃+ os1 ⊎ (o' ⊎ (⋃+ os2 ⊎ ⋃+ os3))) with (o' ⊎ ⋃+ os3 ⊎ (⋃+ os1 ⊎ ⋃+ os2))
      by multiset_solver.
  - apply Forall2_app; [by eapply Forall2_own_thread|]. constructor; [done|].
    apply Forall2_app; [by eapply Forall2_own_thread|done].
  - exists os'. split_and!; [done|by etransitivity|done].
Qed.

(** Every reachable state satisfies the invariant, its history is kept, and
    its goroutines are safe again for any number of steps. *)
Lemma reachable_own c c' os :
  reachable c c' → I c.1 (⋃+ os) → Forall2 (own_thread c.1) os c.2 →
  ∀ n, ∃ os', I c'.1 (⋃+ os') ∧ R c.1 c'.1 ∧ Forall2 (own_thread_n n c'.1) os' c'.2.
Proof.
  intros Hr HI Hts n. unfold reachable in Hr. apply rtc_nsteps in Hr as [m Hr].
  apply (nsteps_own n m c c' os Hr HI). revert Hts. apply Forall2_impl. intros o t Ht. apply Ht.
Qed.
(** From a state without tokens: what holds of every reachable state, and of
    any two states of one run; when every goroutine is over, only tokens that
    last are left. *)
Lemma no_tokens n : ⋃+ replicate n (∅ : gmultiset T) = ∅.
Proof. induction n as [|n IH]; [done|]. simpl. by rewrite IH, (left_id_L ∅ (⊎)). Qed.

Lemma all_finished w os ts F :
  Forall2 (own_thread_n 1 w) os ts → Forall (λ t, finished t = true) ts → I w (⋃+ os ⊎ F) → leaves (⋃+ os).
Proof.
  intros H. revert F. induction H as [|o t os ts Ho Hos IH]; intros F Hf HI; [apply leaves_empty|].
  apply Forall_cons_1 in Hf as [Hf Hfs]. rewrite gmultiset_disj_union_list_cons in HI.
  rewrite gmultiset_disj_union_list_cons. rewrite <- (assoc_L (⊎)) in HI. apply leaves_union; [by eapply own_finished|].
  apply (IH (o ⊎ F)); [done|]. by rewrite (assoc_L (⊎)), (comm_L (⊎) (⋃+ os) o), <- (assoc_L (⊎)).
Qed.

Lemma reachable_twice c c1 c2 :
  reachable c c1 → reachable c1 c2 → I c.1 ∅ → Forall (own_thread c.1 ∅) c.2 →
  (∃ o, I c1.1 o ∧ (Forall (λ t, finished t = true) c1.2 → leaves o)) ∧ R c1.1 c2.1.
Proof.
  intros Hr Hr' HI Hts.
  assert (∀ n, ∃ os, I c1.1 (⋃+ os) ∧ R c.1 c1.1 ∧ Forall2 (own_thread_n n c1.1) os c1.2) as Hall.
  { apply (reachable_own c c1 (replicate (length c.2) ∅) Hr); [by rewrite no_tokens|].
    by apply Forall2_replicate_l. }
  split.
  { destruct (Hall 1%nat) as (os & Hi & _ & Hos). exists (⋃+ os). split; [done|]. intros Hf.
    eapply (all_finished c1.1 os c1.2 ∅); [done..|]. by rewrite (right_id_L ∅ (⊎)). }
  unfold reachable in Hr'. apply rtc_nsteps in Hr' as [m Hm].
  destruct (Hall (m + 0)%nat) as (os & Hi & _ & Hos).
  by destruct (nsteps_own 0 m c1 c2 os Hm Hi Hos) as (os' & _ & Hh & _).
Qed.
End Own.

(** ** Operations that take no token and give none *)

Section Keeping.
Context {W M T : Type} `{EqDecision T} `{!Countable T} `{!Lasting T}.
Context {I : W → gmultiset T → Prop} {R : W → W → Prop} {Pre : M → W → gmultiset T → Prop}.
Context `{!PreOrder R}.

(** A step that keeps the invariant whatever is owned, and undoes nothing. *)
Definition harmless (w w' : W) : Prop := ∀ o, I w o → I w' o ∧ R w w'.

Lemma harmless_refl w : harmless w w.
Proof. intros o Hi. split; [done|reflexivity]. Qed.

Lemma harmless_trans w1 w2 w3 : harmless w1 w2 → harmless w2 w3 → harmless w1 w3.
Proof.
  intros H1 H2 o Hi. destruct (H1 o Hi) as [Hi2 Hh]. destruct (H2 o Hi2) as [Hi3 Hh'].
  split; [done|by etransitivity].
Qed.

Abbreviation P := (mprog W M).
Abbreviation kp w p Q := (keeps I R Pre w p Q).
Abbreviation sf w p := (keeps I R Pre w p (λ _ _, True)).
Abbreviation ow w o p Q := (own I R Pre w o p Q).

Lemma sf_seq {B D : Type} w (p : P B) (q : P D) Q :
  sf w p → (∀ w', R w w' → kp w' q Q) → kp w (p ≫= λ _, q) Q.
Proof. intros Hp Hq. eapply (keeps_bind I R Pre); [exact Hp|]. intros _ w' F Hh _ _. by apply Hq. Qed.

Lemma sf_then {B D : Type} w (p : P B) (q : B → P D) Q :
  sf w p → (∀ b w', R w w' → kp w' (q b) Q) → kp w (p ≫= q) Q.
Proof. intros Hp Hq. eapply (keeps_bind I R Pre); [exact Hp|]. intros b w' F Hh _ _. by apply Hq. Qed.

Lemma sf_ret {B : Type} w (b : B) : sf w (mret b).
Proof. by apply (keeps_ret I R Pre). Qed.

Lemma sf_skip w : sf w skip.
Proof. apply (sf_ret w tt). Qed.

Lemma sf_update w (f : W → W) : (∀ w1, R w w1 → harmless w1 (f w1)) → sf w (update f).
Proof.
  intros Hf. apply (keeps_update I R Pre). intros w1 F Hh Hi. destruct (Hf w1 Hh F Hi). by split_and!.
Qed.

Lemma sf_atomic {B : Type} w (f : W → B * W) :
  (∀ w1, R w w1 → harmless w1 (f w1).2) → sf w (atomic f).
Proof.
  intros Hf. apply (keeps_atomic I R Pre). intros w1 F Hh Hi. destruct (Hf w1 Hh F Hi). by split_and!.
Qed.

Lemma sf_await {B : Type} w (f : W → option (B * W)) :
  (∀ w1 b w2, R w w1 → f w1 = Some (b, w2) → harmless w1 w2) → sf w (await f).
Proof.
  intros Hf. apply (keeps_await I R Pre). intros w1 F b w2 Hh Hi Hs.
  destruct (Hf w1 b w2 Hh Hs F Hi). by split_and!.
Qed.

Lemma sf_gets {B : Type} w (f : W → B) : sf w (gets f).
Proof. by apply (keeps_gets I R Pre). Qed.

Lemma sf_call w m : (∀ w', R w w' → Pre m w' ∅) → sf w (call m).
Proof. intros Hm. apply (keeps_call I R Pre); [|done]. intros w' F Hh _. by apply Hm. Qed.

Lemma sf_go w p : sf w p → sf w (go p).
Proof. intros Hp. by apply (keeps_go I R Pre). Qed.

Lemma sf_when w (b : bool) p : (b = true → sf w p) → sf w (when b p).
Proof. intros Hp. by apply (keeps_when I R Pre). Qed.

(** Before and after operations that own tokens. *)
Lemma own_then_keeps {B : Type} w o (p : P unit) (q : P B) Q :
  ow w o p (λ _ _ o', o' = ∅) → (∀ w', R w w' → kp w' q Q) →
  ow w o (p ≫= λ _, q) (λ b w' o', o' = ∅ ∧ Q b w').
Proof.
  intros Hp Hq. eapply (own_bind I R Pre); [exact Hp|]. intros [] w' o' F Hh _ ->.
  by apply Hq.
Qed.

Lemma own_keeps_then {B D : Type} w o (p : P B) (q : B → P D) Q :
  sf w p → (∀ b w', R w w' → ow w' o (q b) Q) → ow w o (p ≫= q) Q.
Proof.
  intros Hp Hq. eapply (keeps_seq I R Pre); [exact Hp|]. intros b w' F Hh _ _. by apply Hq.
Qed.

Lemma own_any {B : Type} w o (p : P B) (Q : B → W → Prop) :
  kp w p Q → ow w o p (λ b w' _, Q b w').
Proof.
  intros Hp. rewrite <- (left_id_L ∅ (⊎) o). eapply (own_mono I R Pre); [by apply own_frame|].
  simpl. by intros b w' o' F _ _ (o2 & -> & _ & HQ).
Qed.
End Keeping.
#[global] Arguments harmless {W T _ _} I R w w'.

(** What has no step of its own. *)
Create HintDb sf.
#[export] Hint Resolve sf_skip sf_ret sf_gets sf_go sf_when : sf.

(** ** Without tokens *)

Section Safe.
Context {W : Type} (I : W → Prop) (R : W → W → Prop).
Context `{!PreOrder R}.

Abbreviation I0 := (λ w (_ : gmultiset Empty_set), I w).
Abbreviation Pre0 := (λ (m : Empty_set) (_ : W) (_ : gmultiset Empty_set), False).

Definition safe {A : Type} (w : W) (p : prog W A) (Q : A → W → Prop) : Prop :=
  keeps I0 R Pre0 w p Q.

Lemma safe_later {A : Type} w w' (p : prog W A) Q : R w w' → safe w p Q → safe w' p Q.
Proof. by apply keeps_later. Qed.

Lemma safe_mono {A : Type} w (p : prog W A) (Q Q' : A → W → Prop) :
  safe w p Q → (∀ a w', R w w' → I w' → Q a w' → Q' a w') → safe w p Q'.
Proof. intros H HQ. eapply keeps_mono; [exact _|exact H|]. auto. Qed.

Lemma safe_ret {A : Type} w (a : A) (Q : A → W → Prop) :
  (∀ w', R w w' → I w' → Q a w') → safe w (mret a) Q.
Proof. intros H. apply keeps_ret. auto. Qed.

Lemma safe_bind {A B : Type} w (p : prog W A) (k : A → prog W B) Q Q' :
  safe w p Q → (∀ a w', R w w' → I w' → Q a w' → safe w' (k a) Q') → safe w (p ≫= k) Q'.
Proof. intros H Hk. eapply keeps_bind; [exact _|exact H|]. intros a w' _. apply Hk. Qed.

Lemma safe_await {A : Type} w (f : W → option (A * W)) (Q : A → W → Prop) :
  (∀ w1 a w2, R w w1 → I w1 → f w1 = Some (a, w2) →
     I w2 ∧ R w1 w2 ∧ (∀ w3, R w2 w3 → I w3 → Q a w3)) →
  safe w (await f) Q.
Proof.
  intros H. apply keeps_await. intros w1 _ a w2 HR HI Hf.
  destruct (H w1 a w2 HR HI Hf) as (H1 & H2 & H3). split_and!; auto.
Qed.

Lemma safe_atomic {A : Type} w (f : W → A * W) (Q : A → W → Prop) :
  (∀ w1, R w w1 → I w1 →
     I (f w1).2 ∧ R w1 (f w1).2 ∧ (∀ w3, R (f w1).2 w3 → I w3 → Q (f w1).1 w3)) →
  safe w (atomic f) Q.
Proof.
  intros H. apply keeps_atomic. intros w1 _ HR HI.
  destruct (H w1 HR HI) as (H1 & H2 & H3). split_and!; auto.
Qed.

Lemma safe_update w (f : W → W) (Q : unit → W → Prop) :
  (∀ w1, R w w1 → I w1 →
     I (f w1) ∧ R w1 (f w1) ∧ (∀ w3, R (f w1) w3 → I w3 → Q tt w3)) →
  safe w (update f) Q.
Proof. intros H. apply (safe_atomic w (λ w, (tt, f w)) Q). exact H. Qed.

Lemma safe_gets {A : Type} w (f : W → A) (Q : A → W → Prop) :
  (∀ w1 w3, R w w1 → I w1 → R w1 w3 → I w3 → Q (f w1) w3) → safe w (gets f) Q.
Proof. intros H. apply keeps_gets; [exact _|]. auto. Qed.

Lemma safe_go w (p : prog W unit) (Q : unit → W → Prop) :
  safe w p (λ _ _, True) → (∀ w', R w w' → I w' → Q tt w') → safe w (go p) Q.
Proof. intros Hp HQ. apply keeps_go; [exact _|exact Hp|]. auto. Qed.

Lemma safe_go_loop w (body : prog W bool) (Q : unit → W → Prop) :
  safe w body (λ _ _, True) → (∀ w', R w w' → I w' → Q tt w') → safe w (go_loop body) Q.
Proof. intros Hp HQ. apply keeps_go_loop; [exact _|exact Hp|]. auto. Qed.

Lemma safe_when w (b : bool) (p : prog W unit) (Q : unit → W → Prop) :
  (b = true → safe w p Q) → (b = false → ∀ w', R w w' → I w' → Q tt w') → safe w (when b p) Q.
Proof. intros Ht Hf. apply keeps_when; [exact Ht|]. auto. Qed.

Lemma safe_for_each {A : Type} w (l : list A) (f : A → prog W unit) :
  (∀ a w', a ∈ l → R w w' → safe w' (f a) (λ _ _, True)) →
  safe w (for_each l f) (λ _ _, True).
Proof. apply keeps_for_each. exact _. Qed.

Definition safe_thread (w : W) (t : thread W Empty_set) : Prop := own_thread I0 R Pre0 w ∅ t.

Lemma safe_once w (p : prog W unit) : safe w p (λ _ _, True) → safe_thread w (Once p).
Proof. intros Hp n. by apply (keeps_leaves I0 R Pre0 w p _ Hp). Qed.

Lemma no_token (o : gmultiset Empty_set) : o = ∅.
Proof. apply gmultiset_eq. intros []. Qed.

(** A program run alone keeps the invariant. *)
Lemma exec_safe {A : Type} (p : prog W A) (Q : A → W → Prop) w a w' ts :
  safe w p Q → I w → exec p w = Some (a, w', ts) → I w' ∧ R w w' ∧ Q a w'.
Proof.
  intros H. assert (∀ n, own_n I0 R Pre0 n w ∅ p (λ a w' o', o' = ∅ ∧ Q a w')) as Hn by exact H. clear H.
  revert p w ts Hn. fix IH 1. intros [a0|f|q k|body k|[]] w ts Hn HI He; simpl in He.
  - simplify_eq. destruct (Hn 1%nat w' ∅ (reflexivity w')) as [_ HQ]; [done|].
    split_and!; [done|reflexivity|done].
  - destruct (f w) as [[w1 p']|] eqn:Hf; [|done].
    destruct (Hn 1%nat w ∅ (reflexivity w) HI w1 p' Hf) as (_ & HI1 & HR1 & _).
    destruct (IH p' w1 ts) as (H1 & H2 & H3); [|done..|].
    { intros n. destruct (Hn (S n) w ∅ (reflexivity w) HI w1 p' Hf) as (o' & _ & _ & Hp).
      by rewrite (no_token o') in Hp. }
    split_and!; [done|by etransitivity|done].
  - destruct (exec k w) as [[[a1 w1] ts1]|] eqn:Hk; [|done]. simplify_eq.
    apply (IH k w ts1); [|done..]. intros n. destruct (Hn (S n) w ∅ (reflexivity w) HI) as (o1 & o2 & _ & _ & Hp).
    by rewrite (no_token o2) in Hp.
  - destruct (exec k w) as [[[a1 w1] ts1]|] eqn:Hk; [|done]. simplify_eq.
    apply (IH k w ts1); [|done..]. intros n. destruct (Hn (S n) w ∅ (reflexivity w) HI) as (o1 & o2 & _ & _ & Hp).
    by rewrite (no_token o2) in Hp.
Qed.

(** Every reachable state satisfies the invariant, and its goroutines are
    safe again. *)
Lemma reachable_safe c c' :
  reachable c c' → I c.1 → Forall (safe_thread c.1) c.2 →
  I c'.1 ∧ R c.1 c'.1 ∧ Forall (safe_thread c'.1) c'.2.
Proof.
  intros Hr HI Hts.
  assert (∀ n, ∃ os, I c'.1 ∧ R c.1 c'.1 ∧ Forall2 (own_thread_n I0 R Pre0 n c'.1) os c'.2) as Hall.
  { apply (reachable_own I0 R Pre0) with (os := replicate (length c.2) ∅); [by intros []|done..|].
    apply Forall2_replicate_l; [done|exact Hts]. }
  destruct (Hall 0%nat) as (os & H1 & H2 & _). split_and!; [done..|].
  apply Forall_lookup. intros i t Hi n. destruct (Hall n) as (os' & _ & _ & H3).
  destruct (Forall2_lookup_r _ _ _ _ _ H3 Hi) as (o & _ & Ho). by rewrite (no_token o) in Ho.
Qed.
End Safe.
