(* ===== verification/SioServer.v ===== *)
(** * SioServer: the Socket.IO server

    Models [socketio/server.go], [namespace.go] and [socket.go]: namespaces
    and their handlers, the sockets connected to them, the engine connections
    that carry them, and the processing of incoming packets.

    The shared state is [world].  Pointers to sockets and engine connections
    are their index in the list of those allocated; a namespace is its name
    (the server never replaces one).  A function value the user registers is a
    name [fn]; what it does is a parameter of the model ([user]), a program
    over the same state, so that a handler may call the API from its own
    goroutine.  Every method is a program whose atomic steps are the code's
    critical sections, in its order.

    The Engine.IO layer below is the interface it gives: [SendMessage] appends
    to the log [sent] of frames handed over, in the order of the calls. *)

From S2P Require Import Prelude.
From S2P Require Import Base64.
From S2P Require Import Value.
From S2P Require Import SioPacket.
From S2P Require Import AckTable.
From S2P Require Import PacketQueue.
From S2P Require Import Adapter.
From S2P Require Import Emitter.
From S2P Require Import Sched.
From S2P Require Import Safety.

Abbreviation fn := nat.
Abbreviation sockp := nat.
Abbreviation connp := nat.
Abbreviation engp := nat.

Definition ErrNotConnected : string := "socketio: socket is not connected".
Definition ErrInvalidNamespace : string := "socketio: invalid namespace".

(** ** State *)
Section State.
Context `{Float64} {A : Type} {U : Type}.

(** [Socket]; [sk_nsp] and [sk_ec] are its pointers to namespace and engine
    connection. *)
Record socket := mkSocket {
  sk_id : string; sk_nsp : string; sk_ec : connp;
  connected : bool; acks : ackTable fn
}.

(** [namespace]; [unknownAck] is empty when the code's slice is nil, which it
    also is after [SetUnknownEventAck] of an empty slice. *)
Record namespace := mkNamespace {
  ns_sockets : gmap string sockp;
  adapter : A;
  middlewares : list fn;
  on_connect : list fn;
  on_disconnect : list fn;
  on_error : list fn;
  on_any : list fn;
  events : gmap string (list fn);
  unknownAck : list gval
}.

Record engineConn := mkConn {
  ec_es : engp;
  ec_sockets : gmap string sockp;
  recon : option (Packet * list bytes);
  inq : packetQueue (bytes * bool);
  started : bool
}.

(** A frame handed to [es.SendMessage]: the connection, the data, [binary]. *)
Abbreviation frame := (engp * bytes * bool)%type.

(** The wait group and the shared [results] of one event: handlers still
    running, and the results so far. *)
Record cell := mkCell { pending : nat; results : list gval }.

(** [rnd] counts the socket ids drawn, [tick] the iterations over maps;
    [app] is the user's own state, [crashed] is set by a panic nothing
    recovers. *)
Record world := mkWorld {
  nsps : gmap string namespace;
  engines : gmap engp connp;
  adapterFactory : option (string → A);
  adapterLocked : bool;
  conns : list engineConn;
  socks : list socket;
  cells : list cell;
  sent : list frame;
  store : readers;
  rnd : nat;
  tick : nat;
  crashed : bool;
  app : U
}.

(** Field updates. *)
Definition set_nsps f w := mkWorld (f (nsps w)) (engines w) (adapterFactory w) (adapterLocked w)
  (conns w) (socks w) (cells w) (sent w) (store w) (rnd w) (tick w) (crashed w) (app w).
Definition set_engines f w := mkWorld (nsps w) (f (engines w)) (adapterFactory w) (adapterLocked w)
  (conns w) (socks w) (cells w) (sent w) (store w) (rnd w) (tick w) (crashed w) (app w).
Definition set_factory f w := mkWorld (nsps w) (engines w) f (adapterLocked w)
  (conns w) (socks w) (cells w) (sent w) (store w) (rnd w) (tick w) (crashed w) (app w).
Definition set_conns f w := mkWorld (nsps w) (engines w) (adapterFactory w) (adapterLocked w)
  (f (conns w)) (socks w) (cells w) (sent w) (store w) (rnd w) (tick w) (crashed w) (app w).
Definition set_socks f w := mkWorld (nsps w) (engines w) (adapterFactory w) (adapterLocked w)
  (conns w) (f (socks w)) (cells w) (sent w) (store w) (rnd w) (tick w) (crashed w) (app w).
Definition set_cells f w := mkWorld (nsps w) (engines w) (adapterFactory w) (adapterLocked w)
  (conns w) (socks w) (f (cells w)) (sent w) (store w) (rnd w) (tick w) (crashed w) (app w).
Definition set_sent f w := mkWorld (nsps w) (engines w) (adapterFactory w) (adapterLocked w)
  (conns w) (socks w) (cells w) (f (sent w)) (store w) (rnd w) (tick w) (crashed w) (app w).
Definition set_store st w := mkWorld (nsps w) (engines w) (adapterFactory w) (adapterLocked w)
  (conns w) (socks w) (cells w) (sent w) st (rnd w) (tick w) (crashed w) (app w).
Definition set_rnd n w := mkWorld (nsps w) (engines w) (adapterFactory w) (adapterLocked w)
  (conns w) (socks w) (cells w) (sent w) (store w) n (tick w) (crashed w) (app w).
Definition set_tick n w := mkWorld (nsps w) (engines w) (adapterFactory w) (adapterLocked w)
  (conns w) (socks w) (cells w) (sent w) (store w) (rnd w) n (crashed w) (app w).
Definition set_crashed b w := mkWorld (nsps w) (engines w) (adapterFactory w) (adapterLocked w)
  (conns w) (socks w) (cells w) (sent w) (store w) (rnd w) (tick w) b (app w).
Definition set_app f w := mkWorld (nsps w) (engines w) (adapterFactory w) (adapterLocked w)
  (conns w) (socks w) (cells w) (sent w) (store w) (rnd w) (tick w) (crashed w) (f (app w)).

(** The namespace [nsp], a socket, a connection, updated in place. *)
Definition upd_ns (nsp : string) (f : namespace → namespace) : world → world :=
  set_nsps (alter f nsp).
Definition upd_sock (s : sockp) (f : socket → socket) : world → world := set_socks (alter f s).
Definition upd_conn (c : connp) (f : engineConn → engineConn) : world → world :=
  set_conns (alter f c).
Definition upd_cell (c : nat) (f : cell → cell) : world → world := set_cells (alter f c).

Definition set_ns_sockets f ns := mkNamespace (f (ns_sockets ns)) (adapter ns) (middlewares ns)
  (on_connect ns) (on_disconnect ns) (on_error ns) (on_any ns) (events ns) (unknownAck ns).
Definition set_adapter f ns := mkNamespace (ns_sockets ns) (f (adapter ns)) (middlewares ns)
  (on_connect ns) (on_disconnect ns) (on_error ns) (on_any ns) (events ns) (unknownAck ns).
Definition set_middlewares f ns := mkNamespace (ns_sockets ns) (adapter ns) (f (middlewares ns))
  (on_connect ns) (on_disconnect ns) (on_error ns) (on_any ns) (events ns) (unknownAck ns).
Definition set_on_connect f ns := mkNamespace (ns_sockets ns) (adapter ns) (middlewares ns)
  (f (on_connect ns)) (on_disconnect ns) (on_error ns) (on_any ns) (events ns) (unknownAck ns).
Definition set_on_disconnect f ns := mkNamespace (ns_sockets ns) (adapter ns) (middlewares ns)
  (on_connect ns) (f (on_disconnect ns)) (on_error ns) (on_any ns) (events ns) (unknownAck ns).
Definition set_on_error f ns := mkNamespace (ns_sockets ns) (adapter ns) (middlewares ns)
  (on_connect ns) (on_disconnect ns) (f (on_error ns)) (on_any ns) (events ns) (unknownAck ns).
Definition set_on_any f ns := mkNamespace (ns_sockets ns) (adapter ns) (middlewares ns)
  (on_connect ns) (on_disconnect ns) (on_error ns) (f (on_any ns)) (events ns) (unknownAck ns).
Definition set_events f ns := mkNamespace (ns_sockets ns) (adapter ns) (middlewares ns)
  (on_connect ns) (on_disconnect ns) (on_error ns) (on_any ns) (f (events ns)) (unknownAck ns).
Definition set_unknownAck d ns := mkNamespace (ns_sockets ns) (adapter ns) (middlewares ns)
  (on_connect ns) (on_disconnect ns) (on_error ns) (on_any ns) (events ns) d.

Definition set_connected b s := mkSocket (sk_id s) (sk_nsp s) (sk_ec s) b (acks s).
Definition set_acks f s := mkSocket (sk_id s) (sk_nsp s) (sk_ec s) (connected s) (f (acks s)).

Definition set_ec_sockets f c := mkConn (ec_es c) (f (ec_sockets c)) (recon c) (inq c) (started c).
Definition set_recon r c := mkConn (ec_es c) (ec_sockets c) r (inq c) (started c).
Definition set_inq f c := mkConn (ec_es c) (ec_sockets c) (recon c) (f (inq c)) (started c).
Definition set_started c := mkConn (ec_es c) (ec_sockets c) (recon c) (inq c) true.

(** What the user's functions do.  A handler of an event is seen through
    [reflect] ([sig]) before it is called with the values prepared for it. *)
Record user {data : Type} := mkUser {
  u_middleware : fn → sockp → gval → prog world (option string);
  u_connect : fn → sockp → prog world (option string);
  u_disconnect : fn → sockp → string → prog world unit;
  u_error : fn → sockp → string → prog world unit;
  u_any : fn → sockp → string → list gval → prog world unit;
  u_sig : fn → handler;
  u_event : fn → list (rvalue (data := data)) → prog world (list rout);
  u_ack : fn → list gval → prog world unit
}.
End State.
#[global] Arguments world {_} A U.
#[global] Arguments namespace {_} A.
#[global] Arguments user {_} A U data.

(** ** Operations *)
Section Server.
Context `{Float64} `{!JSON} {A : Type} `{!Adapter A} {U data : Type}.
(** Bytes drawn from [crypto/rand], the order of the n-th iteration over a
    map, JSON decoding into the other types of handler parameters, and the
    user's functions. *)
Context (rand : nat → bytes) (ord : nat → order).
Context (unmarshal_into : gtype → bytes → option data).
Context (usr : user A U data).

Abbreviation W := (world A U).
Abbreviation P := (prog W).

(** The next order of an iteration. *)
Definition with_order {B} (f : order → W → B * W) : P B :=
  atomic (λ w, f (ord (tick w)) (set_tick (S (tick w)) w)).

(** *** Namespaces *)

Definition newNamespace (f : option (string → A)) (name : string) : namespace A :=
  mkNamespace ∅ (match f with Some f => f name | None => NewAdapter name end)
    [] [] [] [] [] ∅ [].

Definition ns_name (name : string) : string := if decide (name = "") then defaultNamespace else name.

Definition namespaceLookup (name : string) : P (option string) :=
  let name := ns_name name in
  gets (λ w, if decide (is_Some (nsps w !! name)) then Some name else None).

(** The read lock, then the write lock and a second look. *)
Definition namespaceFor (name : string) : P string :=
  let name := ns_name name in
  found ← gets (λ w, bool_decide (is_Some (nsps w !! name)));
  (if (found : bool) then mret name
   else atomic (λ w,
     match nsps w !! name with
     | Some _ => (name, w)
     | None => (name, set_nsps <[name := newNamespace (adapterFactory w) name]> w)
     end)).

Definition Namespace (nsp : string) : P string :=
  namespaceFor (if decide (nsp = "") then defaultNamespace else nsp).

Definition RegisterNamespace (nsp : string) : P (option string) :=
  if decide (head (bytes_of nsp) ≠ Some slash ∨ (length (bytes_of nsp) ≤ 1)%nat)
  then mret (Some "socketio: invalid namespace")
  else _ ← namespaceFor nsp; mret None.

Definition SetAdapterFactory (f : option (string → A)) : P unit :=
  update (λ w, if adapterLocked w then w else set_factory f w).

(** The registrations: each finds or creates the namespace, then appends
    under its lock. *)
Definition on_namespace (nsp : string) (f : namespace A → namespace A) : P unit :=
  name ← namespaceFor nsp; update (upd_ns name f).

(** What the namespace's methods do under its lock. *)
Definition ns_OnConnect (f : fn) : namespace A → namespace A := set_on_connect (λ l, l ++ [f]).
Definition ns_OnDisconnect (f : fn) : namespace A → namespace A := set_on_disconnect (λ l, l ++ [f]).
Definition ns_OnError (f : fn) : namespace A → namespace A := set_on_error (λ l, l ++ [f]).
Definition ns_OnAny (f : fn) : namespace A → namespace A := set_on_any (λ l, l ++ [f]).
Definition ns_OnEvent (event : string) (f : fn) : namespace A → namespace A :=
  set_events (λ m, <[event := default [] (m !! event) ++ [f]]> m).
Definition ns_SetUnknownEventAck (data : list gval) : namespace A → namespace A :=
  set_unknownAck data.
Definition ns_Use (m : fn) : namespace A → namespace A := set_middlewares (λ l, l ++ [m]).

Definition OnConnect (nsp : string) (f : fn) := on_namespace nsp (ns_OnConnect f).
Definition OnDisconnect (nsp : string) (f : fn) := on_namespace nsp (ns_OnDisconnect f).
Definition OnError (nsp : string) (f : fn) := on_namespace nsp (ns_OnError f).
Definition OnAny (nsp : string) (f : fn) := on_namespace nsp (ns_OnAny f).
Definition OnEvent (nsp event : string) (f : fn) := on_namespace nsp (ns_OnEvent event f).
Definition SetUnknownEventAck (nsp : string) (data : list gval) :=
  on_namespace nsp (ns_SetUnknownEventAck data).
Definition Use (nsp : string) (m : fn) := on_namespace nsp (ns_Use m).

(** A field of a namespace, read under its lock. *)
Definition ns_get {B} (nsp : string) (d : B) (f : namespace A → B) : P B :=
  gets (λ w, match nsps w !! nsp with Some ns => f ns | None => d end).

Definition handlersFor (nsp event : string) : P (list fn) :=
  ns_get nsp [] (λ ns, default [] (events ns !! event)).
Definition unknownEventAck (nsp : string) : P (list gval) := ns_get nsp [] unknownAck.

(** [n.sockets] first, then the adapter, each under its own lock. *)
Definition addSocket (nsp id : string) (s : sockp) : P unit :=
  update (upd_ns nsp (set_ns_sockets <[id := s]>)) ≫= λ _,
  update (upd_ns nsp (set_adapter (AddSocket id))).

Definition adapterRemove (nsp id : string) : P unit :=
  with_order (λ o w, (tt, upd_ns nsp (set_adapter (RemoveSocket o id)) w)).

Definition removeSocket (nsp id : string) : P unit :=
  update (upd_ns nsp (set_ns_sockets (delete id))) ≫= λ _, adapterRemove nsp id.

Definition ns_Sockets (nsp : string) : P (list string) :=
  with_order (λ o w, (match nsps w !! nsp with Some ns => Sockets o (adapter ns) | None => [] end, w)).
Definition ns_SocketsCount (nsp : string) : P Z := ns_get nsp 0 (λ ns, SocketsCount (adapter ns)).

(** *** Sockets *)

(** A field of a socket; [sockp]s in use are always allocated. *)
Definition sock_get {B} (s : sockp) (d : B) (f : socket → B) : P B :=
  gets (λ w, match socks w !! s with Some k => f k | None => d end).

Definition Connected (s : sockp) : P bool := sock_get s false connected.
Definition setConnected (s : sockp) (v : bool) : P unit := update (upd_sock s (set_connected v)).

Definition addToRoom (s : sockp) (room : string) : P unit :=
  update (λ w, match socks w !! s with
               | Some k => upd_ns (sk_nsp k) (set_adapter (AddToRoom room (sk_id k))) w
               | None => w
               end).
Definition removeFromRoom (s : sockp) (room : string) : P unit :=
  update (λ w, match socks w !! s with
               | Some k => upd_ns (sk_nsp k) (set_adapter (RemoveFromRoom room (sk_id k))) w
               | None => w
               end).
Definition JoinRoom := addToRoom.
Definition LeaveRoom := removeFromRoom.

(** *** Sending *)

Definition SendMessage (c : connp) (data : bytes) (binary : bool) : P unit :=
  update (λ w, match conns w !! c with
               | Some ec => set_sent (λ l, l ++ [(ec_es ec, data, binary)]) w
               | None => w
               end).

Definition plainToBinary (t : PacketType) : PacketType :=
  match t with Event => BinaryEvent | Ack => BinaryAck | _ => t end.

(** Reading the readers of the payload happens before the first frame is
    handed over; each frame is a call of its own. *)
Definition sendPacket (c : connp) (pkt : Packet) : P unit :=
  if negb (is_nil (pData pkt)) && hasBinary (pData pkt) then
    r ← atomic (λ w, let '(r, (st, bufs)) := deconstruct (pData pkt) (store w, []) in
                     ((r, bufs), set_store st w));
    let '(r, bufs) := r in
    match r with
    | Err _ => skip
    | Ok d =>
        let pkt' := mkPacket (plainToBinary (pType pkt)) (pNsp pkt) (pID pkt) d
                      (Z.of_nat (length bufs)) in
        SendMessage c (Encode pkt') false ≫= λ _, for_each bufs (λ b, SendMessage c b true)
    end
  else SendMessage c (Encode pkt) false.

Definition send (s : sockp) (pkt : Packet) : P unit :=
  c ← sock_get s None (λ k, Some (sk_ec k));
  match c with Some c => sendPacket c pkt | None => skip end.

Definition event_packet (nsp : string) (id : Z) (event : string) (args : list gval) : Packet :=
  mkPacket Event nsp id (VArr (VStr event :: args)) 0.

Definition emitEvent (s : sockp) (id : Z) (event : string) (args : list gval) : P unit :=
  nsp ← sock_get s defaultNamespace sk_nsp;
  send s (event_packet nsp id event args).

(** The error, if any. *)
Definition Emit (s : sockp) (event : string) (args : list gval) : P (option string) :=
  ok ← Connected s;
  (if negb ok then mret (Some ErrNotConnected)
   else emitEvent s (-1) event args ≫= λ _, mret None).

Definition EmitWithAck (s : sockp) (event : string) (cb : option fn) (args : list gval) :
  P (Z * option string) :=
  ok ← Connected s;
  (if negb ok then mret (-1, Some ErrNotConnected)
   else match cb with
        | None => emitEvent s (-1) event args ≫= λ _, mret (-1, None)
        | Some f =>
            id ← atomic (λ w, match socks w !! s with
                              | Some k => let '(id, t) := next (acks k) in
                                          (id, upd_sock s (set_acks (λ _, t)) w)
                              | None => (-1, w)
                              end);
            update (upd_sock s (set_acks (register id (Some f)))) ≫= λ _,
            emitEvent s id event args ≫= λ _, mret (id, None)
        end).

(** *** Broadcasting *)

Definition deliver (nsp event : string) (args : list gval) (id : string) : P unit :=
  s ← ns_get nsp None (λ ns, ns_sockets ns !! id);
  match s with
  | Some s => Emit s event args ≫= λ _, skip
  | None => skip
  end.

Definition broadcast (nsp room : string) (except : list string) (event : string)
  (args : list gval) : P unit :=
  targets ← with_order (λ o w, (match nsps w !! nsp with
                                | Some ns => Broadcast o room except (adapter ns)
                                | None => []
                                end, w));
  for_each targets (deliver nsp event args).

(** [BroadcastOperator]. *)
Record operator := mkOperator { op_nsp : string; op_room : string; op_except : list string }.

Definition op_Emit (b : operator) := broadcast (op_nsp b) (op_room b) (op_except b).
Definition op_Except (b : operator) (ids : list string) : operator :=
  mkOperator (op_nsp b) (op_room b) (op_except b ++ ids).
Definition ns_To (nsp room : string) : operator := mkOperator nsp room [].
Definition ns_Emit (nsp : string) := broadcast nsp "" [].

Definition sock_To (s : sockp) (room : string) : P operator :=
  sock_get s (ns_To "" room) (λ k, mkOperator (sk_nsp k) room [sk_id k]).
Definition sock_ToExcept (s : sockp) (room : string) (except : list string) : P operator :=
  sock_get s (ns_To "" room) (λ k, mkOperator (sk_nsp k) room ([sk_id k] ++ except)).
Definition sock_BroadcastToRoom (s : sockp) (room event : string) (args : list gval) : P unit :=
  b ← sock_To s room; op_Emit b event args.
Definition sock_Broadcast (s : sockp) (event : string) (args : list gval) : P unit :=
  b ← sock_To s ""; op_Emit b event args.

Definition BroadcastToRoom (nsp room event : string) (args : list gval) : P unit :=
  ns ← namespaceLookup nsp;
  match ns with Some name => broadcast name room [] event args | None => skip end.
Definition BroadcastToNamespace (nsp event : string) (args : list gval) : P unit :=
  BroadcastToRoom nsp "" event args.
Definition ToExcept (nsp room : string) (except : list string) (event : string)
  (args : list gval) : P (option string) :=
  ns ← namespaceLookup nsp;
  match ns with
  | Some name => broadcast name room except event args ≫= λ _, mret None
  | None => mret (Some ErrInvalidNamespace)
  end.

(** *** Disconnecting *)

Definition detachEngineSocket (c : connp) (nsp : string) : P unit :=
  update (upd_conn c (set_ec_sockets (delete nsp))).

Definition disconnect_packet (nsp : string) : Packet := mkPacket Disconnect nsp (-1) VNil 0.

Definition server_disconnect : string := "server namespace disconnect".
Definition client_disconnect : string := "client namespace disconnect".

(** The guard and the removal from [n.sockets] are one critical section: it
    says whether to go on, and with which handlers. *)
Definition take_socket (nsp id : string) (w : W) : option (list fn) * W :=
  match nsps w !! nsp with
  | Some ns =>
      match ns_sockets ns !! id with
      | Some _ => (Some (on_disconnect ns), upd_ns nsp (set_ns_sockets (delete id)) w)
      | None => (None, w)
      end
  | None => (None, w)
  end.

Definition disconnectSocket (s : sockp) (reason : string) : P unit :=
  k ← sock_get s None Some;
  match k with
  | None => skip
  | Some k =>
      let nsp := sk_nsp k in
      disc ← atomic (take_socket nsp (sk_id k));
      match disc with
      | None => skip
      | Some disc =>
          adapterRemove nsp (sk_id k) ≫= λ _,
          setConnected s false ≫= λ _,
          update (upd_sock s (set_acks clear)) ≫= λ _,
          when (bool_decide (reason = server_disconnect)) (send s (disconnect_packet nsp)) ≫= λ _,
          for_each disc (λ h, u_disconnect usr h s reason) ≫= λ _,
          detachEngineSocket (sk_ec k) nsp
      end
  end.

(** [Socket.Disconnect]. *)
Definition sock_Disconnect (s : sockp) : P unit := disconnectSocket s server_disconnect.

Definition mapDisconnectReason (reason : string) : string :=
  if decide (reason = "client close" ∨ reason = "transport close") then "transport close"
  else if decide (reason = "transport error") then "transport error"
  else if decide (reason = "ping timeout") then "ping timeout"
  else if decide (reason = "") then "transport close"
  else reason.

(** *** Engine connections *)

Definition new_conn (es : engp) : engineConn := mkConn es ∅ None newPacketQueue false.

(** The connection of [es], created when there is none: one critical section
    in both functions. *)
Definition find_conn (es : engp) (w : W) : connp * W :=
  match engines w !! es with
  | Some c => (c, w)
  | None => (length (conns w),
             set_engines <[es := length (conns w)]> (set_conns (λ l, l ++ [new_conn es]) w))
  end.

Definition onEngineConnect (es : engp) : P unit := update (λ w, (find_conn es w).2).
Definition connFor (es : engp) : P connp := atomic (find_conn es).

Definition conn_get {B} (c : connp) (d : B) (f : engineConn → B) : P B :=
  gets (λ w, match conns w !! c with Some ec => f ec | None => d end).

Definition conn_socket (c : connp) (nsp : string) : P (option sockp) :=
  conn_get c None (λ ec, ec_sockets ec !! nsp).

Definition sendConnectError (c : connp) (nsp msg : string) : P unit :=
  sendPacket c (mkPacket ConnectError nsp (-1) (VMap [("message", VStr msg)]) 0).

(** *** CONNECT *)

Definition connectData (v : gval) : gval := match v with VMap _ => v | _ => VNil end.

(** [nextSocketID] and [newSocket]: a fresh id, a socket not yet connected. *)
Definition socket_id (n : nat) : string := string_of (raw_url_encode (rand n)).

Definition newSocket (nsp : string) (c : connp) : P sockp :=
  atomic (λ w, (length (socks w),
    set_rnd (S (rnd w))
      (set_socks (λ l, l ++ [mkSocket (socket_id (rnd w)) nsp c false newAckTable]) w))).

(** The first error stops the chain. *)
Fixpoint first_error {B} (l : list B) (f : B → P (option string)) : P (option string) :=
  match l with
  | [] => mret None
  | b :: l' => e ← f b; match e with Some _ => mret e | None => first_error l' f end
  end.

Definition runMiddlewares (nsp : string) (s : sockp) (data : gval) : P (option string) :=
  ms ← ns_get nsp [] middlewares; first_error ms (λ m, u_middleware usr m s data).
Definition runConnect (nsp : string) (s : sockp) : P (option string) :=
  hs ← ns_get nsp [] on_connect; first_error hs (λ h, u_connect usr h s).

Definition rejectConnect (c : connp) (s : sockp) (nsp id msg : string) : P unit :=
  removeSocket nsp id ≫= λ _,
  update (upd_conn c (set_ec_sockets (delete nsp))) ≫= λ _,
  setConnected s false ≫= λ _,
  sendConnectError c nsp msg.

Definition connect_packet (nsp id : string) : Packet :=
  mkPacket Connect nsp (-1) (VMap [("sid", VStr id)]) 0.

(** [handleConnect] once the middlewares agree. *)
Definition welcome (c : connp) (nsp name : string) (s : sockp) (id : string) : P unit :=
  addSocket name id s ≫= λ _,
  update (upd_conn c (set_ec_sockets <[nsp := s]>)) ≫= λ _,
  setConnected s true ≫= λ _,
  err ← runConnect name s;
  match err with
  | Some msg => rejectConnect c s name id msg
  | None => sendPacket c (connect_packet nsp id)
  end.

Definition handleConnect (c : connp) (pkt : Packet) : P unit :=
  let nsp := pNsp pkt in
  ns ← namespaceLookup nsp;
  match ns with
  | None => sendConnectError c nsp "Invalid namespace"
  | Some name =>
      s ← newSocket name c;
      id ← sock_get s "" sk_id;
      err ← runMiddlewares name s (connectData (pData pkt));
      match err with
      | Some msg => rejectConnect c s name id msg
      | None => welcome c nsp name s id
      end
  end.

Definition handleDisconnect (c : connp) (pkt : Packet) : P unit :=
  s ← conn_socket c (pNsp pkt);
  match s with Some s => disconnectSocket s client_disconnect | None => skip end.

(** *** EVENT and ACK *)

Definition fireOnError (nsp : string) (s : sockp) (err : string) : P unit :=
  hs ← ns_get nsp [] on_error; for_each hs (λ h, go (u_error usr h s err)).

Definition fireOnAny (nsp : string) (s : sockp) (name : string) (args : list gval) : P unit :=
  hs ← ns_get nsp [] on_any; for_each hs (λ h, go (u_any usr h s name args)).

Definition ErrHandlerMismatch : string := "socketio: handler signature mismatch".

(** A panic in a goroutine ends the process. *)
Definition crash : P unit := update (set_crashed true) ≫= λ _, await (λ _, None).

Definition wg_Add (c : nat) : P unit := update (upd_cell c (λ k, mkCell (S (pending k)) (results k))).
Definition wg_Done (c : nat) : P unit :=
  update (upd_cell c (λ k, mkCell (pred (pending k)) (results k))).
Definition wg_Wait (c : nat) : P unit :=
  await (λ w, match cells w !! c with
              | Some k => if decide (pending k = 0%nat) then Some (tt, w) else None
              | None => None
              end).

(** The goroutine of one handler. *)
Definition run_handler (cl : nat) (nsp : string) (s : sockp) (args : list gval) (h : fn) : P unit :=
  match invokeHandler unmarshal_into (u_sig usr h) s args with
  | Mismatch => fireOnError nsp s ErrHandlerMismatch ≫= λ _, wg_Done cl
  | Panics => crash
  | Calls ins =>
      outs ← u_event usr h ins;
      update (upd_cell cl (λ k, mkCell (pending k) (results k ++ collectResults outs))) ≫= λ _,
      wg_Done cl
  end.

(** The goroutine that waits for the handlers and acknowledges. *)
Definition ack_packet (nsp : string) (id : Z) (results : list gval) : Packet :=
  mkPacket Ack nsp id (VArr results) 0.

Definition send_results (cl : nat) (nsp : string) (s : sockp) (pkt : Packet) : P unit :=
  wg_Wait cl ≫= λ _,
  rs ← gets (λ w, match cells w !! cl with Some k => results k | None => [] end);
  rs ← (if decide (rs = []) then unknownEventAck nsp else mret rs);
  send s (ack_packet (pNsp pkt) (pID pkt) rs).

Definition handleEvent (c : connp) (pkt : Packet) : P unit :=
  s ← conn_socket c (pNsp pkt);
  match s, pData pkt with
  | Some s, VArr (VStr name :: args) =>
      nsp ← sock_get s defaultNamespace sk_nsp;
      fireOnAny nsp s name args ≫= λ _,
      cl ← atomic (λ w, (length (cells w), set_cells (λ l, l ++ [mkCell 0 []]) w));
      hs ← handlersFor nsp name;
      for_each hs (λ h, wg_Add cl ≫= λ _, go (run_handler cl nsp s args h)) ≫= λ _,
      when (0 <=? pID pkt) (go (send_results cl nsp s pkt))
  | _, _ => skip
  end.

(** [ackTable.invoke]: the removal, then the callback outside the lock. *)
Definition invoke_ack (s : sockp) (id : Z) (args : list gval) : P unit :=
  cb ← atomic (λ w, match socks w !! s with
                    | Some k => let '(_, cb, t) := invoke id (acks k) in
                                (cb, upd_sock s (set_acks (λ _, t)) w)
                    | None => (None, w)
                    end);
  match cb with Some f => u_ack usr f args | None => skip end.

Definition handleAck (c : connp) (pkt : Packet) : P unit :=
  s ← conn_socket c (pNsp pkt);
  match s with
  | Some s => go (invoke_ack s (pID pkt) (match pData pkt with VArr l => l | _ => [] end))
  | None => skip
  end.

(** *** Incoming messages *)

Definition binaryToPlain (t : PacketType) : PacketType :=
  match t with BinaryEvent => Event | BinaryAck => Ack | _ => t end.

Definition process (c : connp) (pkt : Packet) : P unit :=
  match pType pkt with
  | Connect => handleConnect c pkt
  | Disconnect => handleDisconnect c pkt
  | Event => handleEvent c pkt
  | Ack => handleAck c pkt
  | _ => skip
  end.

Definition with_type (t : PacketType) (d : gval) (p : Packet) : Packet :=
  mkPacket t (pNsp p) (pID p) d (pAttachments p).

(** The reconstructor is used by the processing goroutine only: its steps are
    on the field alone. *)
Definition receive_binary (b : bytes) (r : option (Packet * list bytes)) :
  option Packet * option (Packet * list bytes) :=
  match r with
  | None => (None, None)
  | Some (p, bufs) =>
      let bufs := bufs ++ [b] in
      if decide (Z.of_nat (length bufs) = pAttachments p)
      then (Some (with_type (binaryToPlain (pType p)) (reconstruct (pData p) bufs) p), None)
      else (None, Some (p, bufs))
  end.

Definition receive_text (b : bytes) (r : option (Packet * list bytes)) :
  option Packet * option (Packet * list bytes) :=
  match Decode b with
  | Err _ => (None, r)
  | Ok p =>
      if is_binary_type (pType p) then
        if decide (pAttachments p = 0)
        then (Some (with_type (binaryToPlain (pType p)) (pData p) p), r)
        else (None, Some (p, []))
      else (Some p, r)
  end.

Definition receive (data : bytes) (binary : bool) :=
  if binary then receive_binary data else receive_text data.

Definition handleIn (c : connp) (data : bytes) (binary : bool) : P unit :=
  pkt ← atomic (λ w,
    match conns w !! c with
    | Some ec => let '(p, r) := receive data binary (recon ec) in (p, upd_conn c (set_recon r) w)
    | None => (None, w)
    end);
  match pkt with Some p => process c p | None => skip end.

Definition process_round (c : connp) : P bool :=
  m ← await (λ w,
    match conns w !! c with
    | Some ec =>
        match pop (inq ec) with
        | Some (p, q) => Some (p, upd_conn c (set_inq (λ _, q)) w)
        | None => None
        end
    | None => None
    end);
  match m with
  | Some (data, binary) => handleIn c data binary ≫= λ _, mret true
  | None => mret false
  end.

(** [ec.started.Do(func() { go ec.processLoop() })]. *)
Definition start (c : connp) : P unit :=
  first ← atomic (λ w, (match conns w !! c with Some ec => negb (started ec) | None => false end,
                        upd_conn c set_started w));
  when first (go_loop (process_round c)).

Definition onEngineData (es : engp) (data : bytes) (binary : bool) : P unit :=
  c ← connFor es;
  start c ≫= λ _,
  update (upd_conn c (set_inq (push (data, binary)))).

Definition onEngineClose (es : engp) (reason : string) : P unit :=
  c ← atomic (λ w, (engines w !! es, set_engines (delete es) w));
  match c with
  | None => skip
  | Some c =>
      update (upd_conn c (set_inq close)) ≫= λ _,
      sockets ← with_order (λ o w,
        match conns w !! c with
        | Some ec => (omap (λ nsp, ec_sockets ec !! nsp) (o (dom (ec_sockets ec))),
                      upd_conn c (set_ec_sockets (λ _, ∅)) w)
        | None => ([], w)
        end);
      for_each sockets (λ s, disconnectSocket s (mapDisconnectReason reason))
  end.

(** [Server.Close]: every namespace's adapter; the engine's [Close] is the
    layer below. *)
Definition Server_Close : P unit :=
  names ← with_order (λ o w, (o (dom (nsps w)), w));
  for_each names (λ nsp, update (upd_ns nsp (set_adapter Close))).

(** [NewServerWithConfig]: the state a server starts in. *)
Definition NewServer (f : option (string → A)) (u : U) : W :=
  mkWorld {[defaultNamespace := newNamespace f defaultNamespace]} ∅ f
    (match f with Some _ => true | None => false end) [] [] [] [] ∅ 0 0 false u.
End Server.
