(* ===== verification/SioWire.v ===== *)
(** * SioWire: what one side sends is what the other side processes

    [sendPacket] against [handleIn]: the frames a packet becomes on the
    Engine.IO connection, put back together by the receiver.  The receiver
    side is [receive] of SioServer, which the client's [handleIn] shares. *)

From S2P Require Import Prelude.
From S2P Require Import Strconv.
From S2P Require Import Utf8.
From S2P Require Import Value.
From S2P Require Import Json.
From S2P Require Import FixedFloat.
From S2P Require Import SioPacket.
From S2P Require Import Adapter.
From S2P Require Import Sched.
From S2P Require Import Safety.
From S2P Require Import SioServer.

#[local] Opaque json_max_depth.

Section Payloads.
Context `{FL : Float64}.

(** A payload with each binary leaf replaced by a placeholder: what of it
    has to be JSON. *)
Fixpoint strip (v : gval) : gval :=
  match v with
  | VBytes _ | VReader _ => VPlaceholder 0
  | VArr l => VArr (strip <$> l)
  | VMap m => VMap ((λ kv, (kv.1, strip kv.2)) <$> m)
  | _ => v
  end.

(** Payloads an application may send: an event with an unreserved name, or the
    arguments of an acknowledgement; strings and numbers JSON carries; no map
    that looks like a placeholder. *)
Definition args_ok (t : PacketType) (v : gval) : Prop :=
  match t with
  | Event => ∃ name args, v = VArr (VStr name :: args) ∧ isReservedEvent name = false
  | Ack => ∃ l, v = VArr l
  | _ => False
  end.

Record sendable (p : Packet) : Prop := {
  sd_nsp : nsp_ok (pNsp p);
  sd_id : id_ok (pID p);
  sd_attachments : pAttachments p = 0;
  sd_args : args_ok (pType p) (pData p);
  sd_json : json_ok json_max_depth (strip (pData p));
  sd_marker : marker_free (pData p);
  sd_leaves : Z.of_nat (binary_leaves (pData p)) <= f64_exact;
}.

Lemma json_ok_arr n l :
  json_ok n (VArr l) ↔ ∃ n', n = S n' ∧ Forall (json_ok n') l.
Proof.
  destruct n as [|n]; simpl; [by split; [|intros (? & ? & _)]|]. split.
  - intros H. exists n. split; [done|]. induction l as [|v l IH]; [constructor|].
    destruct H. constructor; auto.
  - intros (n' & [= <-] & H). induction H; simpl; auto.
Qed.

Lemma json_ok_map n m :
  json_ok n (VMap m) ↔ ∃ n', n = S n' ∧ NoDup (map_keys m)
    ∧ Forall (λ kv, utf8_valid (bytes_of kv.1) = true ∧ json_ok n' kv.2) m.
Proof.
  destruct n as [|n]; simpl; [by split; [|intros (? & ? & _)]|]. split.
  - intros [Hnd H]. exists n. split_and!; [done..|]. clear Hnd. induction m as [|kv m IH]; [constructor|].
    destruct H. constructor; auto.
  - intros (n' & [= <-] & Hnd & H). split; [done|]. clear Hnd. induction H; simpl; auto.
Qed.

(** What a walk over an array or a map gives, element by element. *)
Lemma map_keys_fmap (f : gval → gval) (m : list (string * gval)) :
  map_keys ((λ kv, (kv.1, f kv.2)) <$> m) = map_keys m.
Proof. apply (on_value_keys f m). Qed.

Lemma resolve_strip v : ∀ st w st', resolve v st = (Ok w, st') → strip w = strip v.
Proof.
  induction v as [|b|x|s|l IH|m IH|b|r|n] using gval_rect'; intros st w st'; cbn [resolve];
    try (by intros [= <- <-]).
  - unfold mbind, SE_bind, mret, SE_ret. destruct (SE_map resolve l st) as [[ws|] st1] eqn:E; [|done].
    intros [= <- <-]. cbn [strip]. f_equal. apply SE_map_Forall2 in E.
    induction E as [|v w l ws (s1 & s2 & Hs) _ IHE]; [done|]. apply Forall_cons in IH as [Hv IH].
    rewrite !fmap_cons. f_equal; [by eapply Hv|by apply IHE].
  - unfold mbind, SE_bind, mret, SE_ret.
    destruct (SE_map _ m st) as [[ws|] st1] eqn:E; [|done]. intros [= <- <-]. cbn [strip]. f_equal.
    apply SE_map_Forall2 in E.
    induction E as [|kv kw m ws (s1 & s2 & Hs) _ IHE]; [done|]. apply Forall_cons in IH as [Hv IH].
    rewrite !fmap_cons. f_equal; [|by apply IHE].
    destruct (resolve kv.2 s1) as [[d|] s3] eqn:Hd; [|done]. simplify_eq/=. f_equal. by eapply Hv.
  - unfold resolve_reader. destruct (readAll r st) as [[b|] st1]; [|done]. by intros [= <- <-].
Qed.

(** [deconstruct] gives a value JSON carries when the rest of the payload is
    one: the placeholders' numbers are exact. *)
Definition json_shape (d w : gval) (bufs : list bytes) : Prop :=
  Z.of_nat (length bufs) <= f64_exact → ∀ n, json_ok n (strip w) → json_ok n d.

Lemma json_shape_grows : grows json_shape.
Proof.
  intros d w bufs bs H Hl. apply H. rewrite length_app in Hl. lia.
Qed.

Lemma deconstruct_shape v : walk (deconstruct v) (resolve v) json_shape.
Proof.
  induction v as [|b|x|s|l IH|m IH|b|r|n] using gval_rect'; cbn [deconstruct resolve];
    try (apply walk_ret; intros bufs Hl k Hk; exact Hk).
  - eapply (walk_bind _ _ _ _ _ _ (λ ds ws bufs bs H, Forall2_impl _ _ _ _ H (λ d w, json_shape_grows d w bufs bs))).
    + by apply walk_map; [apply json_shape_grows|].
    + intros ds ws. apply walk_ret. intros bufs HF Hl n. cbn [strip].
      rewrite !json_ok_arr. intros (n' & -> & Hall). exists n'. split; [done|].
      induction HF as [|d w ds ws Hd HF IHF]; [constructor|]. rewrite fmap_cons in Hall.
      apply Forall_cons in Hall as [H1 H2]. constructor; [by apply Hd|by apply IHF].
  - eapply (walk_bind _ _ (λ ds ws bufs, Forall2 (λ kd kw, kd.1 = kw.1 ∧ json_shape kd.2 kw.2 bufs) ds ws)).
    + intros ds ws bufs bs HF. eapply Forall2_impl; [exact HF|].
      intros kd kw [? ?]. split; [done|]. by apply json_shape_grows.
    + apply walk_map.
      { intros kd kw bufs bs [? ?]. split; [done|]. by apply json_shape_grows. }
      eapply Forall_impl; [exact IH|]. intros kv Hv.
      eapply walk_bind; [apply json_shape_grows|exact Hv|]. intros d w. by apply walk_ret.
    + intros ds ws. apply walk_ret. intros bufs HF Hl n. cbn [strip].
      rewrite !json_ok_map. intros (n' & -> & Hnd & Hall). exists n'. split; [done|].
      rewrite map_keys_fmap in Hnd. split.
      * enough (map_keys ds = map_keys ws) as -> by done. clear - HF. unfold map_keys.
        induction HF as [|kd kw ds ws [Hk _] HF IH]; [done|]. by rewrite !fmap_cons, Hk, IH.
      * clear Hnd. induction HF as [|kd kw ds ws [Hk Hd] HF IHF]; [constructor|].
        rewrite fmap_cons in Hall. apply Forall_cons in Hall as [[H1 H2] H3].
        constructor; [|by apply IHF]. rewrite Hk. split; [done|]. by apply Hd.
  - intros st bufs r st' bufs' [= <- <- <-]. split; [by eexists|]. eexists. split; [done|].
    intros Hl [|n] Hj; [done|]. rewrite length_app in Hl. simpl in *. lia.
  - intros st bufs d st' bufs'. unfold mbind, SE_bind, read_buf, resolve_reader.
    destruct (readAll r st) as [[b|e] st1]; simpl; intros [= <- <- <-].
    + split; [by eexists|]. eexists. split; [done|].
      intros Hl [|n] Hj; [done|]. rewrite length_app in Hl. simpl in *. lia.
    + by split; [exists []; rewrite app_nil_r|].
Qed.
End Payloads.

(** ** Sending alone *)
Section Sending.
Context `{FL : Float64} `{!Float64Laws} `{!JSON} {A : Type} {U : Type}.
Abbreviation W := (world A U).

Lemma exec_SendMessage c b bin (w : W) :
  exec (SendMessage c b bin) w
  = Some (tt, match conns w !! c with
              | Some ec => set_sent (λ l, l ++ [(ec_es ec, b, bin)]) w
              | None => w
              end, []).
Proof. apply exec_atomic. Qed.

Lemma set_sent_app fs1 fs2 (w : W) :
  set_sent (λ l, l ++ fs2) (set_sent (λ l, l ++ fs1) w) = set_sent (λ l, l ++ fs1 ++ fs2) w.
Proof. unfold set_sent. simpl. by rewrite <- app_assoc. Qed.

Lemma set_sent_nil (w : W) : set_sent (λ l, l ++ []) w = w.
Proof. unfold set_sent. rewrite app_nil_r. by destruct w. Qed.

(** The frames of one connection. *)
Definition to_conn (es : engp) (fs : list (bytes * bool)) : list (engp * bytes * bool) :=
  (λ f, (es, f.1, f.2)) <$> fs.

Lemma exec_send_buffers c ec bufs (w : W) :
  conns w !! c = Some ec →
  exec (for_each bufs (λ b, SendMessage c b true)) w
  = Some (tt, set_sent (λ l, l ++ to_conn (ec_es ec) ((λ b, (b, true)) <$> bufs)) w, []).
Proof.
  revert w. induction bufs as [|b bufs IH]; intros w Hc; cbn [for_each].
  - by rewrite set_sent_nil.
  - rewrite exec_bind, exec_SendMessage, Hc, IH by done.
    rewrite set_sent_app. done.
Qed.

(** [sendPacket] as a function on the readers: the frames, and the readers
    after. *)
Definition frames (p : Packet) (st : readers) : list (bytes * bool) * readers :=
  if negb (is_nil (pData p)) && hasBinary (pData p) then
    let '(r, (st', bufs)) := deconstruct (pData p) (st, []) in
    match r with
    | Err _ => ([], st')
    | Ok d =>
        ((Encode (mkPacket (plainToBinary (pType p)) (pNsp p) (pID p) d (Z.of_nat (length bufs))),
          false) :: ((λ b, (b, true)) <$> bufs), st')
    end
  else ([(Encode p, false)], st).

Lemma exec_sendPacket c ec p (w : W) :
  conns w !! c = Some ec →
  exec (sendPacket c p) w
  = let '(fs, st) := frames p (store w) in
    Some (tt, set_sent (λ l, l ++ to_conn (ec_es ec) fs) (set_store st w), []).
Proof.
  intros Hc. unfold sendPacket, frames. destruct (negb _ && _).
  - rewrite exec_bind, exec_atomic.
    destruct (deconstruct (pData p) (store w, [])) as [[d|e] [st bufs]]; cbn [fst snd].
    + rewrite exec_bind, exec_SendMessage. change (conns (set_store st w)) with (conns w).
      rewrite Hc. rewrite (exec_send_buffers c ec) by done.
      rewrite set_sent_app. done.
    + by rewrite set_sent_nil.
  - rewrite exec_SendMessage, Hc. by destruct w.
Qed.

(** ** Receiving *)

(** The packets a receiver hands to [process] for a sequence of frames. *)
Fixpoint receive_all (fs : list (bytes * bool)) (r : option (Packet * list bytes)) :
  list Packet * option (Packet * list bytes) :=
  match fs with
  | [] => ([], r)
  | (b, bin) :: fs' =>
      let '(p, r1) := receive b bin r in
      let '(ps, r2) := receive_all fs' r1 in
      (option_list p ++ ps, r2)
  end.

Lemma receive_all_app fs1 fs2 r :
  receive_all (fs1 ++ fs2) r
  = let '(ps1, r1) := receive_all fs1 r in
    let '(ps2, r2) := receive_all fs2 r1 in (ps1 ++ ps2, r2).
Proof.
  revert r. induction fs1 as [|[b bin] fs1 IH]; intros r; simpl; [by destruct (receive_all fs2 r)|].
  destruct (receive b bin r) as [p r1]. rewrite IH. destruct (receive_all fs1 r1) as [ps1 r2].
  destruct (receive_all fs2 r2) as [ps2 r3]. by rewrite app_assoc.
Qed.

(** A receiver with no packet in hand processes [q] on the last of these
    frames, and nothing before. *)
Definition arrives (fs : list (bytes * bool)) (q : Packet) : Prop :=
  ∃ fs1 b bin r,
    fs = fs1 ++ [(b, bin)] ∧ receive_all fs1 None = ([], r) ∧ receive b bin r = (Some q, None).

Lemma arrives_all fs q : arrives fs q → receive_all fs None = ([q], None).
Proof.
  intros (fs1 & b & bin & r & -> & H1 & H2). rewrite receive_all_app, H1. cbn [receive_all]. by rewrite H2.
Qed.

Lemma receive_buffers p bufs more :
  bufs ≠ [] → Z.of_nat (length (more ++ bufs)) = pAttachments p →
  ∃ fs1 b r, (λ b, (b, true)) <$> bufs = fs1 ++ [(b, true)] ∧
    receive_all fs1 (Some (p, more)) = ([], r) ∧
    receive_binary b r = (Some (with_type (binaryToPlain (pType p)) (reconstruct (pData p) (more ++ bufs)) p), None).
Proof.
  revert more. induction bufs as [|b bufs IH]; intros more Hne Hl; [done|].
  destruct (decide (bufs = [])) as [->|Hb].
  - exists [], b, (Some (p, more)). split_and!; [done..|]. cbn [receive_binary]. by rewrite decide_True.
  - destruct (IH (more ++ [b])) as (fs1 & b' & r & E & H1 & H2); [done|by rewrite <- app_assoc|].
    exists ((b, true) :: fs1), b', r. rewrite fmap_cons, E. rewrite <- app_assoc in H2.
    split_and!; [done| |done]. cbn [receive_all receive receive_binary]. rewrite decide_False; [by rewrite H1|].
    rewrite length_app in Hl |- *. simpl in *. destruct bufs; [done|]. simpl in *. lia.
Qed.

(** ** The round trip *)

Lemma resolve_plain v st : hasBinary v = false → resolve v st = (Ok v, st).
Proof.
  revert st. induction v as [|b|x|t|l IH|m IH|b|r|n] using gval_rect'; intros st; simpl; try done.
  - intros Hb. unfold mbind, SE_bind. rewrite SE_map_ret; [done|].
    induction IH as [|v l Hv _ IHl]; constructor; apply orb_false_iff in Hb as [? ?]; auto.
  - intros Hb. unfold mbind at 1, SE_bind at 1. rewrite SE_map_ret; [done|].
    induction IH as [|[k v] m Hv _ IHm]; constructor; apply orb_false_iff in Hb as [H1 H2]; auto.
    simpl in *. unfold mbind, SE_bind. by rewrite Hv.
Qed.

Lemma strip_plain v : hasBinary v = false → strip v = v.
Proof.
  induction v as [|b|x|t|l IH|m IH|b|r|n] using gval_rect'; simpl; try done; intros Hb; f_equal.
  - induction IH as [|v l Hv _ IHl]; [done|]. apply orb_false_iff in Hb as [? ?].
    rewrite fmap_cons. f_equal; auto.
  - induction IH as [|[k v] m Hv _ IHm]; [done|]. apply orb_false_iff in Hb as [? ?].
    rewrite fmap_cons. simpl in *. f_equal; [f_equal|]; auto.
Qed.

Lemma args_ok_payload t v st d st' bufs :
  args_ok t v → deconstruct v (st, []) = (Ok d, (st', bufs)) →
  is_nil d = false ∧ validatePayload t (json_view d) = None
  ∧ validatePayload (plainToBinary t) (json_view d) = None.
Proof.
  intros Ht Hd. destruct t; try done.
  - destruct Ht as (name & args & -> & Hr). simpl in Hd. unfold mbind, SE_bind, mret, SE_ret in Hd.
    destruct (SE_map deconstruct args (st, [])) as [[ds|] s]; [|done]. simplify_eq. simpl.
    by rewrite Hr.
  - destruct Ht as (l & ->). simpl in Hd. unfold mbind, SE_bind, mret, SE_ret in Hd.
    destruct (SE_map deconstruct l (st, [])) as [[ds|] s]; [|done]. by simplify_eq.
Qed.

Lemma args_ok_nil t v : args_ok t v → is_nil v = false.
Proof. destruct t; try done; [by intros (? & ? & -> & _)|by intros (? & ->)]. Qed.

Lemma args_ok_types t v :
  args_ok t v → is_binary_type t = false ∧ binaryToPlain (plainToBinary t) = t
                ∧ is_binary_type (plainToBinary t) = true.
Proof. by destruct t. Qed.

(** What [sendPacket] encodes can be decoded: the packet itself, or its
    deconstructed form. *)
Lemma plain_ok p : sendable p → hasBinary (pData p) = false → packet_ok p.
Proof.
  intros [Hn Hi Ha Ht Hj Hm Hl] Hb. destruct (args_ok_types _ _ Ht) as (Hbt & _).
  destruct (args_ok_payload _ _ _ _ _ _ Ht (deconstruct_plain (pData p) (∅, []) Hb)) as (Hnil & Hv & _).
  split; [done|done|by rewrite Hbt|]. right. rewrite strip_plain in Hj by done. by split_and!.
Qed.

Lemma deconstructed_ok p st d st' bufs :
  sendable p → deconstruct (pData p) (st, []) = (Ok d, (st', bufs)) →
  packet_ok (mkPacket (plainToBinary (pType p)) (pNsp p) (pID p) d (Z.of_nat (length bufs)))
  ∧ length bufs = binary_leaves (pData p).
Proof.
  intros [Hn Hi Ha Ht Hj Hm Hl] Hd. destruct (args_ok_types _ _ Ht) as (_ & _ & Hbt).
  destruct (deconstruct_pushes _ _ _ _ _ _ Hd) as [Hlen _]. simpl in Hlen.
  destruct (deconstruct_shape _ _ _ _ _ _ Hd) as [_ (w & Hw & Hs)].
  destruct (args_ok_payload _ _ _ _ _ _ Ht Hd) as (Hnil & _ & Hv).
  split; [split; simpl|done]; [done|done| |].
  - rewrite Hbt. unfold f64_exact, int64_max in *. lia.
  - right. split_and!; [done| |done]. apply Hs; [by rewrite Hlen|]. by rewrite (resolve_strip _ _ _ _ Hw).
Qed.

Lemma frames_received p st :
  sendable p →
  match resolve (pData p) st with
  | (Ok v, st') =>
      ∃ fs, frames p st = (fs, st')
      ∧ arrives fs (mkPacket (pType p) (pNsp p) (pID p) (json_view v)
                      (Z.of_nat (binary_leaves (pData p))))
  | (Err _, st') => frames p st = ([], st')
  end.
Proof.
  intros Hs. pose proof Hs as [_ _ Ha Ht _ Hm Hl]. destruct (args_ok_types _ _ Ht) as (Hbt & Hback & Hbt').
  unfold frames. rewrite (args_ok_nil _ _ Ht). simpl. destruct (hasBinary (pData p)) eqn:Hb.
  - destruct (deconstruct (pData p) (st, [])) as [r [st' bufs]] eqn:Hd.
    destruct (deconstruct_walk _ Hm _ _ _ _ _ Hd) as [_ Hw].
    destruct r as [d|e]; [|by rewrite Hw]. destruct Hw as (w & Hw & Hrel). rewrite Hw.
    eexists. split; [done|].
    destruct (deconstructed_ok p st d st' bufs Hs Hd) as [Hok Hlen].
    set (q := mkPacket (plainToBinary (pType p)) (pNsp p) (pID p) d (Z.of_nat (length bufs))) in *.
    rewrite hasBinary_leaves in Hb. apply Nat.ltb_lt in Hb.
    destruct (receive_buffers (with_type (pType q) (json_view d) q) bufs [])
      as (fs1 & b & r & E & H1 & H2); [by intros ->; simpl in *; lia|done|].
    assert (receive_text (Encode q) None = (None, Some (with_type (pType q) (json_view d) q, []))) as Ht0.
    { unfold receive_text. rewrite Decode_Encode_aux by done.
      unfold q. cbn [pType pAttachments pNsp pID pData]. rewrite Hbt'. by rewrite decide_False by lia. }
    exists ((Encode q, false) :: fs1), b, true, r. split; [by rewrite E|]. split.
    + cbn [receive_all receive]. rewrite Ht0. by rewrite H1.
    + cbn [receive]. rewrite H2. simpl. rewrite Hback.
      unfold with_type. simpl. rewrite Hlen. do 3 f_equal. specialize (Hrel []).
      rewrite app_nil_r in Hrel. apply Hrel. by rewrite Hlen.
  - rewrite (resolve_plain _ st Hb). eexists. split; [done|]. eexists [], _, _, _. split; [done|]. split; [done|].
    cbn [receive]. unfold receive_text. rewrite Decode_Encode_aux by by apply plain_ok.
    cbn [pType]. rewrite Hbt. rewrite hasBinary_leaves in Hb. apply Nat.ltb_ge in Hb.
    replace (binary_leaves (pData p)) with 0%nat by lia. by rewrite Ha.
Qed.

(** What arrives of a sequence of packets, and the readers after: the reader
    of a failing packet drops that packet only. *)
Fixpoint delivered (ps : list Packet) (st : readers) : list Packet * readers :=
  match ps with
  | [] => ([], st)
  | p :: ps' =>
      match resolve (pData p) st with
      | (Ok v, st') =>
          let '(l, st'') := delivered ps' st' in
          (mkPacket (pType p) (pNsp p) (pID p) (json_view v)
             (Z.of_nat (binary_leaves (pData p))) :: l, st'')
      | (Err _, st') => delivered ps' st'
      end
  end.

Lemma set_sent_store fs st (w : W) :
  set_store st (set_sent (λ l, l ++ fs) w) = set_sent (λ l, l ++ fs) (set_store st w).
Proof. done. Qed.

(** The frames of a sequence of packets. *)
Fixpoint frames_all (ps : list Packet) (st : readers) : list (bytes * bool) * readers :=
  match ps with
  | [] => ([], st)
  | p :: ps' =>
      let '(fs, st1) := frames p st in
      let '(fs', st2) := frames_all ps' st1 in (fs ++ fs', st2)
  end.

Lemma exec_send_all c ec ps (w : W) :
  conns w !! c = Some ec →
  exec (for_each ps (sendPacket c)) w
  = Some (tt, set_sent (λ l, l ++ to_conn (ec_es ec) (frames_all ps (store w)).1)
                (set_store (frames_all ps (store w)).2 w), []).
Proof.
  revert w. induction ps as [|p ps IH]; intros w Hc; cbn [for_each frames_all].
  - by rewrite set_sent_nil; destruct w.
  - rewrite exec_bind, (exec_sendPacket c ec p w Hc). destruct (frames p (store w)) as [fs st].
    rewrite IH by done. change (store (set_sent _ (set_store st w))) with st.
    destruct (frames_all ps st) as [fs' st']. cbn [fst snd]. unfold to_conn. rewrite fmap_app. by rewrite <- set_sent_app.
Qed.

Lemma frames_all_received ps st :
  Forall sendable ps →
  receive_all (frames_all ps st).1 None = ((delivered ps st).1, None) ∧
  (frames_all ps st).2 = (delivered ps st).2.
Proof.
  intros Hps. revert st. induction Hps as [|p ps Hp _ IH]; intros st; [done|]. cbn [delivered frames_all].
  pose proof (frames_received p st Hp) as Hf. destruct (resolve (pData p) st) as [[v|e] st'].
  - destruct Hf as (fs & -> & Hr%arrives_all). destruct (IH st') as [H1 H2].
    destruct (frames_all ps st') as [fs' st2], (delivered ps st') as [l st3]. simpl in *.
    by rewrite receive_all_app, Hr, H1.
  - rewrite Hf. destruct (IH st') as [H1 H2]. by destruct (frames_all ps st').
Qed.

(** C5. Events and acknowledgements sent one after the other on a connection
    arrive: the frames [sendPacket] hands to the connection, given to the
    receiver in that order, make it process exactly the packets sent, in
    order and with their attachments, each payload being the JSON view of the
    payload with every reader replaced by its bytes (a packet whose reader
    fails is dropped); the sender's other state is unchanged but for the
    readers, which are drained. *)
Theorem wire_round_trip c ec ps (w : W) :
  Forall sendable ps → conns w !! c = Some ec →
  ∃ fs,
    exec (for_each ps (sendPacket c)) w
    = Some (tt, set_sent (λ l, l ++ to_conn (ec_es ec) fs)
                  (set_store (delivered ps (store w)).2 w), [])
    ∧ receive_all fs None = ((delivered ps (store w)).1, None).
Proof.
  intros Hps Hc. destruct (frames_all_received ps (store w) Hps) as [Hr Hst].
  exists (frames_all ps (store w)).1. split; [|done]. by rewrite (exec_send_all c ec), Hst.
Qed.
End Sending.

(** *** Two goroutines on one connection

    The frames of a binary packet are separate calls of [SendMessage], and
    nothing keeps the calls of two goroutines apart. *)
Definition buffer_event (name b : string) : Packet :=
  mkPacket Event "/" (-1) (VArr [VStr name; VBytes (bytes_of b)]) 0.

Definition one_conn : world Memory.memoryAdapter unit :=
  set_conns (λ _, [new_conn 0]) (NewServer None tt).

Lemma sendable_buffer_event name b :
  isReservedEvent name = false → utf8_valid (bytes_of name) = true →
  sendable (buffer_event name b).
Proof.
  intros Hr Hu. split; simpl.
  - split; [done|]. apply (bool_decide_unpack (_ ∉ _)). by vm_compute.
  - by left.
  - done.
  - by exists name, [VBytes (bytes_of b)].
  - apply json_ok_arr. exists (pred json_max_depth). split; [by vm_compute|].
    replace (pred json_max_depth) with (S (pred (pred json_max_depth))) by by vm_compute.
    repeat (apply List.Forall_cons); [done| |constructor]. simpl. unfold f64_exact. lia.
  - done.
  - by vm_compute.
Qed.

Lemma wire_round_trip_witness :
  ∃ fs,
    exec (for_each [buffer_event "a" "x"; buffer_event "b" "y"] (sendPacket 0)) one_conn
    = Some (tt, set_sent (λ l, l ++ to_conn 0 fs) one_conn, [])
    ∧ (receive_all fs None).1
      = [mkPacket Event "/" (-1) (VArr [VStr "a"; VBytes (bytes_of "x")]) 1;
         mkPacket Event "/" (-1) (VArr [VStr "b"; VBytes (bytes_of "y")]) 1].
Proof.
  destruct (wire_round_trip 0 (new_conn 0) [buffer_event "a" "x"; buffer_event "b" "y"] one_conn)
    as (fs & H1 & H2).
  - repeat (apply List.Forall_cons); [apply sendable_buffer_event; reflexivity..|constructor].
  - reflexivity.
  - exists fs. split; [exact H1|]. rewrite H2. reflexivity.
Defined.

(** Binary packets sent by two goroutines on one connection can mix: there
    is an interleaving after which both [sendPacket] calls are over and the
    peer, which reads the frames in the order they were handed over, never
    sees the first event and sees the second one with the first one's bytes. *)
Theorem attachments_mix :
  ∃ w ts,
    reachable (one_conn, [Once (sendPacket 0 (buffer_event "a" "x"));
                          Once (sendPacket 0 (buffer_event "b" "y"))]) (w, ts)
    ∧ forallb finished ts = true
    ∧ receive_all ((λ f, (f.1.2, f.2)) <$> sent w) None
      = ([mkPacket Event "/" (-1) (VArr [VStr "b"; VBytes (bytes_of "x")]) 1], None).
Proof.
  set (start := (one_conn, [Once (sendPacket 0 (buffer_event "a" "x"));
                            Once (sendPacket 0 (buffer_event "b" "y"))])).
  set (c := run_thread 9 1 (run_thread 9 0 (run_thread 2 1 (run_thread 2 0 start)))).
  exists c.1, c.2. split_and!.
  - rewrite <- surjective_pairing. unfold c. do 3 (etransitivity; [|apply run_thread_reachable]).
    apply run_thread_reachable.
  - vm_compute. reflexivity.
  - vm_cast_no_check (eq_refl ([mkPacket Event "/" (-1) (VArr [VStr "b"; VBytes (bytes_of "x")]) 1],
      None : option (Packet * list bytes))).
Qed.
