(* ===== verification/SioInvariant.v ===== *)
(** * SioInvariant: what every interleaving of the server keeps

    The invariant of the server's state and the part of it that is never
    undone, and that every operation of SioServer respects them whatever runs
    beside it: engine events, API calls and user handlers. *)

From S2P Require Import Prelude.
From S2P Require Import Base64.
From S2P Require Import Value.
From S2P Require Import Json.
From S2P Require Import FixedFloat.
From S2P Require Import SioPacket.
From S2P Require Import AckTable.
From S2P Require Import PacketQueue.
From S2P Require Import Adapter.
From S2P Require Import Emitter.
From S2P Require Import Sched.
From S2P Require Import Safety.
From S2P Require Import SioServer.

Section Invariant.
Context `{FL : Float64} `{JS : !JSON} {A : Type} `{AO : !Adapter A} `{AL : !AdapterLaws A} {U data : Type}.
Context (rand : nat → bytes) (ord : nat → order).
Context (unmarshal_into : gtype → bytes → option data).
Context (usr : user A U data).
Context (Hord : ∀ n, is_order (ord n)).

Abbreviation W := (world A U).
Abbreviation P := (prog W).
Implicit Types (w : W) (k : socket) (ec : engineConn) (ns : namespace A).

(** Socket [s] is the socket [id] of namespace [nsp] on connection [c]. *)
Definition has_sock w (s : sockp) (nsp : string) (c : connp) : Prop :=
  ∃ k, socks w !! s = Some k ∧ sk_id k = socket_id rand s ∧ sk_nsp k = nsp ∧ sk_ec k = c.

Definition has_conn w (c : connp) (es : engp) : Prop :=
  ∃ ec, conns w !! c = Some ec ∧ ec_es ec = es.

Definition has_ns w (nsp : string) : Prop := is_Some (nsps w !! nsp).

(** An id that some socket of the namespace has. *)
Definition id_of w (nsp id : string) : Prop :=
  ∃ s c, has_sock w s nsp c ∧ id = socket_id rand s.

Definition factory_ok (f : option (string → A)) : Prop :=
  ∀ g, f = Some g → ∀ n, ids (g n) = ∅ ∧ members (g n) = ∅.

Record ns_inv w (nsp : string) ns : Prop := {
  ni_sockets id s : ns_sockets ns !! id = Some s →
    id = socket_id rand s ∧ ∃ c, has_sock w s nsp c;
  ni_ids id : id ∈ ids (adapter ns) → id_of w nsp id;
  ni_rooms room id : (room, id) ∈ members (adapter ns) → id_of w nsp id;
}.

Record inv w : Prop := {
  inv_ns nsp ns : nsps w !! nsp = Some ns → ns_inv w nsp ns;
  inv_default : has_ns w defaultNamespace;
  inv_sock s k : socks w !! s = Some k →
    sk_id k = socket_id rand s ∧ has_ns w (sk_nsp k) ∧ ∃ es, has_conn w (sk_ec k) es;
  inv_conn c ec nsp s : conns w !! c = Some ec → ec_sockets ec !! nsp = Some s →
    has_sock w s (ns_name nsp) c;
  inv_engine es c : engines w !! es = Some c → has_conn w c es;
  inv_rnd : rnd w = length (socks w);
  inv_factory : factory_ok (adapterFactory w);
}.

(** What is never undone. *)
Record hist w w' : Prop := {
  hist_ns nsp : has_ns w nsp → has_ns w' nsp;
  hist_sock s nsp c : has_sock w s nsp c → has_sock w' s nsp c;
  hist_conn c es : has_conn w c es → has_conn w' c es;
  hist_sent : sent w `prefix_of` sent w';
}.

#[export] Instance hist_preorder : PreOrder hist.
Proof.
  split.
  - intros w. by split.
  - intros w1 w2 w3 [] []. split; eauto. by etransitivity.
Qed.

Lemma id_of_hist w w' nsp id : hist w w' → id_of w nsp id → id_of w' nsp id.
Proof. intros Hh (s & c & Hs & ->). exists s, c. split; [by eapply hist_sock|done]. Qed.

Lemma ns_inv_hist w w' nsp ns : hist w w' → ns_inv w nsp ns → ns_inv w' nsp ns.
Proof.
  intros Hh [H1 H2 H3]. split.
  - intros id s Hs. destruct (H1 id s Hs) as (-> & c & Hk). split; [done|]. exists c. by eapply hist_sock.
  - intros id Hid. eapply id_of_hist; [done|by apply H2].
  - intros room id Hid. eapply id_of_hist; [done|by eapply H3].
Qed.

(** A step that keeps the invariant and the history. *)
Definition good w w' : Prop := inv w → inv w' ∧ hist w w'.

Lemma good_refl w : good w w.
Proof. intros Hi. split; [done|reflexivity]. Qed.

Lemma good_trans w1 w2 w3 : good w1 w2 → (inv w2 → good w2 w3) → good w1 w3.
Proof.
  intros H1 H2 Hi. destruct (H1 Hi) as [Hi2 Hh]. destruct (H2 Hi2 Hi2) as [Hi3 Hh'].
  split; [done|by etransitivity].
Qed.

(** Fields the invariant does not look at. *)
Lemma good_same w w' :
  nsps w' = nsps w → engines w' = engines w → adapterFactory w' = adapterFactory w →
  conns w' = conns w → socks w' = socks w → rnd w' = rnd w → sent w `prefix_of` sent w' →
  good w w'.
Proof.
  intros E1 E2 E3 E4 E5 E6 E7 Hi.
  assert (hist w w') as Hh.
  { split; unfold has_ns, has_sock, has_conn; by rewrite ?E1, ?E4, ?E5. }
  split; [|done]. destruct Hi as [I1 I2 I3 I4 I5 I6 I7]. split.
  - intros nsp ns. rewrite E1. intros Hn. eapply ns_inv_hist; [done|by apply I1].
  - unfold has_ns. by rewrite E1.
  - intros s k. rewrite E5. unfold has_ns, has_conn. rewrite E1, E4. apply I3.
  - intros c ec nsp s. rewrite E4. unfold has_sock. rewrite E5. apply I4.
  - intros es c. rewrite E2. unfold has_conn. rewrite E4. apply I5.
  - by rewrite E6, E5.
  - by rewrite E3.
Qed.

(** ** Updates in place *)

Lemma has_ns_upd nsp f w nsp' : has_ns (upd_ns nsp f w) nsp' ↔ has_ns w nsp'.
Proof.
  unfold has_ns, upd_ns. simpl. destruct (decide (nsp = nsp')) as [->|Hne].
  - rewrite lookup_alter_eq. by rewrite fmap_is_Some.
  - by rewrite lookup_alter_ne.
Qed.

Lemma good_upd_ns nsp f w :
  (∀ ns, nsps w !! nsp = Some ns → ns_inv w nsp ns → ns_inv w nsp (f ns)) →
  good w (upd_ns nsp f w).
Proof.
  intros Hf Hi.
  assert (hist w (upd_ns nsp f w)) as Hh.
  { split; [intros n; apply has_ns_upd|done..]. }
  split; [|done]. destruct Hi as [I1 I2 I3 I4 I5 I6 I7]. split; try done.
  - intros n ns. unfold upd_ns at 1. simpl. rewrite lookup_alter_Some.
    intros [(<- & ns0 & Hn & ->)|(_ & Hn)]; (eapply ns_inv_hist; [done|]); auto.
  - by apply has_ns_upd.
  - intros s k Hs. destruct (I3 s k Hs) as (H1 & H2 & H3). split_and!; [done|by apply has_ns_upd|done].
Qed.

(** Handlers are registered at any time. *)
Lemma ns_inv_same w nsp ns ns' :
  ns_sockets ns' = ns_sockets ns → adapter ns' = adapter ns → ns_inv w nsp ns → ns_inv w nsp ns'.
Proof. intros E1 E2 [H1 H2 H3]. split; rewrite ?E1, ?E2; done. Qed.

Lemma hist_upd_sock s f w :
  (∀ k, sk_id (f k) = sk_id k ∧ sk_nsp (f k) = sk_nsp k ∧ sk_ec (f k) = sk_ec k) →
  hist w (upd_sock s f w).
Proof.
  intros Hf. split; try done. intros s' nsp c (k & Hk & E1 & E2 & E3).
  unfold has_sock, upd_sock. simpl. destruct (decide (s = s')) as [->|Hne].
  - rewrite list_lookup_alter_eq, Hk. destruct (Hf k) as (F1 & F2 & F3).
    exists (f k). split_and!; [done|congruence..].
  - rewrite list_lookup_alter_ne by done. by exists k.
Qed.

Lemma good_upd_sock s f w :
  (∀ k, sk_id (f k) = sk_id k ∧ sk_nsp (f k) = sk_nsp k ∧ sk_ec (f k) = sk_ec k) →
  good w (upd_sock s f w).
Proof.
  intros Hf Hi. pose proof (hist_upd_sock s f w Hf) as Hh. split; [|done].
  destruct Hi as [I1 I2 I3 I4 I5 I6 I7]. split; try done.
  - intros n ns Hn. eapply ns_inv_hist; [done|by apply I1].
  - intros s' k. unfold upd_sock at 1. simpl. destruct (decide (s = s')) as [->|Hne].
    + rewrite list_lookup_alter_eq. destruct (socks w !! s') as [k0|] eqn:Hk; [|done]. simpl.
      intros [= <-]. destruct (Hf k0) as (-> & -> & ->). by apply I3.
    + rewrite list_lookup_alter_ne by done. apply I3.
  - intros c ec nsp s' Hc Hs. eapply hist_sock; [done|by eapply I4].
  - unfold upd_sock. simpl. by rewrite length_alter.
Qed.

Lemma good_upd_conn c f w :
  (∀ ec, conns w !! c = Some ec → ec_es (f ec) = ec_es ec ∧
     ∀ nsp s, ec_sockets (f ec) !! nsp = Some s →
       ec_sockets ec !! nsp = Some s ∨ has_sock w s (ns_name nsp) c) →
  good w (upd_conn c f w).
Proof.
  intros Hf Hi.
  assert (hist w (upd_conn c f w)) as Hh.
  { split; try done. intros c' es (ec & Hc & <-). unfold has_conn, upd_conn. simpl.
    destruct (decide (c = c')) as [->|Hne].
    - rewrite list_lookup_alter_eq, Hc. destruct (Hf ec Hc) as [Hes _]. by exists (f ec).
    - rewrite list_lookup_alter_ne by done. by exists ec. }
  split; [|done]. destruct Hi as [I1 I2 I3 I4 I5 I6 I7]. split; try done.
  - intros n ns Hn. eapply ns_inv_hist; [done|by apply I1].
  - intros s k Hs. destruct (I3 s k Hs) as (H1 & H2 & es & H3). split_and!; [done..|].
    exists es. by eapply hist_conn.
  - intros c' ec nsp s. unfold upd_conn at 1. simpl. destruct (decide (c = c')) as [->|Hne].
    + rewrite list_lookup_alter_eq. destruct (conns w !! c') as [ec0|] eqn:Hc; [|done]. simpl.
      intros [= <-] Hs. destruct (Hf ec0 eq_refl) as [_ Hs']. destruct (Hs' nsp s Hs); [|done].
      by eapply I4.
    + rewrite list_lookup_alter_ne by done. apply I4.
  - intros es c' He. eapply hist_conn; [done|by apply I5].
Qed.

(** ** Allocation *)

Lemma good_find_conn es w :
  inv w → inv (find_conn es w).2 ∧ hist w (find_conn es w).2
          ∧ has_conn (find_conn es w).2 (find_conn es w).1 es.
Proof.
  intros Hi. unfold find_conn. destruct (engines w !! es) as [c|] eqn:He; simpl.
  { split_and!; [done|reflexivity|by apply (inv_engine w Hi)]. }
  set (w' := set_engines _ _).
  assert (hist w w') as Hh.
  { split; try done. intros c es' (ec & Hc & <-). exists ec. split; [|done].
    by apply lookup_app_l_Some. }
  assert (has_conn w' (length (conns w)) es) as Hc.
  { exists (new_conn es). split; [|done]. simpl. by apply list_lookup_middle. }
  split_and!; [|done|done]. destruct Hi as [I1 I2 I3 I4 I5 I6 I7]. split; try done.
  - intros n ns Hn. eapply ns_inv_hist; [done|by apply I1].
  - intros s k Hs. destruct (I3 s k Hs) as (H1 & H2 & es' & H3). split_and!; [done..|].
    exists es'. by eapply hist_conn.
  - intros c ec nsp s. simpl. intros [Hl|[_ Hl]]%lookup_app_Some; [by apply I4|].
    destruct (c - length (conns w))%nat; [|done]. simplify_eq/=. set_solver.
  - intros es' c. simpl. intros [[<- <-]|[_ Hl]]%lookup_insert_Some; [done|].
    eapply hist_conn; [done|by apply I5].
Qed.

Lemma good_newSocket nsp c es w :
  has_ns w nsp → has_conn w c es → inv w →
  let w' := set_rnd (S (rnd w))
    (set_socks (λ l, l ++ [mkSocket (socket_id rand (rnd w)) nsp c false newAckTable]) w) in
  inv w' ∧ hist w w' ∧ has_sock w' (length (socks w)) nsp c.
Proof.
  intros Hn Hc Hi w'.
  assert (hist w w') as Hh.
  { split; try done. intros s n c' (k & Hk & ?). exists k. split; [|done]. by apply lookup_app_l_Some. }
  split_and!; [|done|].
  - destruct Hi as [I1 I2 I3 I4 I5 I6 I7]. split; try done.
    + intros n ns Hns. eapply ns_inv_hist; [done|by apply I1].
    + intros s k. simpl. intros [Hl|[Hge Hl]]%lookup_app_Some; [by apply I3|].
      destruct (s - length (socks w))%nat eqn:Hd; [|done]. simplify_eq/=.
      rewrite I6. replace s with (length (socks w)) by lia. split_and!; [done..|by exists es].
    + intros c' ec n s Hc' Hs. eapply hist_sock; [done|by eapply I4].
    + simpl. rewrite I6, length_app. simpl. lia.
  - eexists. split; [simpl; by apply list_lookup_middle|]. simpl. by rewrite (inv_rnd w Hi).
Qed.

Lemma good_add_ns name w :
  inv w → nsps w !! name = None →
  let w' := set_nsps <[name := newNamespace (adapterFactory w) name]> w in
  inv w' ∧ hist w w' ∧ has_ns w' name.
Proof.
  intros Hi Hnone w'.
  assert (hist w w') as Hh.
  { split; try done. intros n [ns Hn]. unfold has_ns. simpl.
    rewrite lookup_insert_ne; [by exists ns|]. congruence. }
  split_and!; [|done|by unfold has_ns; simpl; rewrite lookup_insert_eq].
  pose proof Hi as [I1 I2 I3 I4 I5 I6 I7]. split; try done.
  - intros n ns. simpl. intros [[<- <-]|[_ Hn]]%lookup_insert_Some.
    + assert (ids (adapter (newNamespace (adapterFactory w) name)) = ∅
              ∧ members (adapter (newNamespace (adapterFactory w) name)) = ∅) as [E1 E2].
      { unfold newNamespace. simpl. destruct (adapterFactory w) as [g|] eqn:Hg; [by apply I7|].
        split; [apply new_ids|apply new_members]. }
      split; [done|rewrite E1; set_solver|rewrite E2; set_solver].
    + eapply ns_inv_hist; [done|by apply I1].
  - by eapply hist_ns.
  - intros s k Hs. destruct (I3 s k Hs) as (H1 & H2 & H3). split_and!; [done|by eapply hist_ns|done].
Qed.

(** ** Safety of the operations *)

Abbreviation sf w p := (safe inv hist w p (λ _ _, True)).

Lemma safe_weaken {B} w (p : P B) Q : safe inv hist w p Q → sf w p.
Proof. intros Hp. eapply (safe_mono inv hist); [exact Hp|done]. Qed.

Lemma safe_seq {B C} w (p : P B) (q : P C) Q :
  sf w p → (∀ w', hist w w' → inv w' → safe inv hist w' q Q) → safe inv hist w (p ≫= λ _, q) Q.
Proof. intros Hp Hq. eapply (safe_bind inv hist); [exact Hp|]. intros _ w' Hh Hi _. by apply Hq. Qed.

Lemma safe_then {B C} w (p : P B) (q : B → P C) Q :
  sf w p → (∀ b w', hist w w' → inv w' → safe inv hist w' (q b) Q) →
  safe inv hist w (p ≫= q) Q.
Proof. intros Hp Hq. eapply (safe_bind inv hist); [exact Hp|]. intros b w' Hh Hi _. by apply Hq. Qed.

Lemma safe_done {B} w (b : B) : sf w (mret b).
Proof. by apply (safe_ret inv hist). Qed.

Lemma safe_skip w : sf w skip.
Proof. apply (safe_done w tt). Qed.

Lemma safe_good w (f : W → W) : (∀ w1, hist w w1 → good w1 (f w1)) → sf w (update f).
Proof.
  intros Hf. apply (safe_update inv hist). intros w1 Hh Hi. destruct (Hf w1 Hh Hi). by split_and!.
Qed.

Lemma safe_good_atomic {B} w (f : W → B * W) :
  (∀ w1, hist w w1 → good w1 (f w1).2) → sf w (atomic f).
Proof.
  intros Hf. apply (safe_atomic inv hist). intros w1 Hh Hi. destruct (Hf w1 Hh Hi). by split_and!.
Qed.

Lemma safe_get {B} w (f : W → B) : sf w (gets f).
Proof. by apply (safe_gets inv hist). Qed.

Lemma safe_order {B} w (f : order → W → B * W) :
  (∀ o w1, is_order o → hist w w1 → good w1 (f o (set_tick (S (tick w1)) w1)).2) →
  sf w (with_order ord f).
Proof. intros Hf. apply safe_good_atomic. intros w1 Hh. by apply Hf. Qed.

Lemma good_tick n w : good w (set_tick n w).
Proof. by apply good_same. Qed.

Lemma safe_namespaceFor name w :
  safe inv hist w (namespaceFor name) (λ n w', n = ns_name name ∧ has_ns w' n).
Proof.
  unfold namespaceFor. eapply (safe_bind inv hist).
  { apply (safe_gets inv hist w _ (λ b w', b = true → has_ns w' (ns_name name))).
    intros w1 w3 H1 Hi1 H2 Hi2 Hb. apply bool_decide_eq_true in Hb. by eapply hist_ns. }
  intros [] w' Hh Hi Hb.
  - apply (safe_ret inv hist). intros w2 Hh2 Hi2. split; [done|]. eapply hist_ns; [done|by apply Hb].
  - apply (safe_atomic inv hist). intros w1 Hh1 Hi1.
    destruct (nsps w1 !! ns_name name) as [ns|] eqn:Hn; simpl.
    + split_and!; [done|reflexivity|]. intros w3 Hh3 Hi3. split; [done|]. eapply hist_ns; [done|].
      by exists ns.
    + destruct (good_add_ns _ _ Hi1 Hn) as (G1 & G2 & G3). split_and!; [done..|].
      intros w3 Hh3 Hi3. split; [done|]. by eapply hist_ns.
Qed.

Lemma safe_on_namespace nsp f w :
  (∀ ns, ns_sockets (f ns) = ns_sockets ns ∧ adapter (f ns) = adapter ns) →
  sf w (on_namespace nsp f).
Proof.
  intros Hf. eapply safe_then; [apply (safe_weaken w _ _ (safe_namespaceFor nsp w))|].
  intros name w' Hh Hi. apply safe_good. intros w1 Hh1. apply good_upd_ns.
  intros ns _. destruct (Hf ns) as [E1 E2]. by apply ns_inv_same.
Qed.

Lemma safe_RegisterNamespace nsp w : sf w (RegisterNamespace nsp).
Proof.
  unfold RegisterNamespace. case_decide; [apply safe_done|].
  eapply safe_then; [apply (safe_weaken w _ _ (safe_namespaceFor nsp w))|]. intros. apply safe_done.
Qed.

Lemma safe_namespaceLookup name w :
  safe inv hist w (namespaceLookup name)
    (λ r w', ∀ n, r = Some n → n = ns_name name ∧ has_ns w' n).
Proof.
  apply (safe_gets inv hist). intros w1 w3 H1 Hi1 H2 Hi2 n. case_decide as Hn; [|done]. intros [= <-].
  split; [done|]. by eapply hist_ns.
Qed.

(** *** Sending *)

Lemma safe_SendMessage c b bin w : sf w (SendMessage c b bin).
Proof.
  apply safe_good. intros w1 _. destruct (conns w1 !! c); [|apply good_refl].
  apply good_same; try done. by apply prefix_app_r.
Qed.

Lemma safe_sendPacket c p w : sf w (sendPacket c p).
Proof.
  unfold sendPacket. destruct (negb _ && _); [|apply safe_SendMessage].
  eapply safe_then.
  { apply safe_good_atomic. intros w1 _. destruct (deconstruct _ _) as [r [st bufs]]. simpl.
    by apply good_same. }
  intros [r bufs] w1 _ _. destruct r as [d|e]; [|apply safe_skip].
  eapply safe_seq; [apply safe_SendMessage|]. intros w2 _ _.
  apply (safe_for_each inv hist). intros b w3 _ _. apply safe_SendMessage.
Qed.

Lemma safe_send s p w : sf w (send s p).
Proof.
  eapply safe_then; [apply safe_get|]. intros [c|] w1 _ _; [apply safe_sendPacket|apply safe_skip].
Qed.

Lemma safe_emitEvent s id e args w : sf w (emitEvent s id e args).
Proof. eapply safe_then; [apply safe_get|]. intros nsp w1 _ _. apply safe_send. Qed.

Lemma safe_Emit s e args w : sf w (Emit s e args).
Proof.
  eapply safe_then; [apply safe_get|]. intros [] w1 _ _; [|apply safe_done].
  eapply safe_seq; [apply safe_emitEvent|]. intros w2 _ _. apply safe_done.
Qed.

Lemma good_set_acks s f w : good w (upd_sock s (set_acks f) w).
Proof. by apply good_upd_sock. Qed.

Lemma safe_EmitWithAck s e cb args w : sf w (EmitWithAck s e cb args).
Proof.
  eapply safe_then; [apply safe_get|]. intros [] w1 _ _; [|apply safe_done].
  destruct cb as [f|].
  - eapply safe_then.
    { apply safe_good_atomic. intros w2 _. destruct (socks w2 !! s); [|apply good_refl].
      apply good_set_acks. }
    intros id w2 _ _. eapply safe_seq; [apply safe_good; intros; apply good_set_acks|].
    intros w3 _ _. eapply safe_seq; [apply safe_emitEvent|]. intros w4 _ _. apply safe_done.
  - eapply safe_seq; [apply safe_emitEvent|]. intros w2 _ _. apply safe_done.
Qed.

Lemma safe_setConnected s b w : sf w (setConnected s b).
Proof. apply safe_good. intros w1 _. by apply good_upd_sock. Qed.

(** *** Rooms *)

Lemma id_of_has w s nsp c : has_sock w s nsp c → id_of w nsp (socket_id rand s).
Proof. intros Hs. by exists s, c. Qed.

(** An adapter operation that brings in no id but one of the namespace's. *)
Lemma good_set_adapter nsp (f : A → A) w :
  (∀ a, (∀ id, id ∈ ids (f a) → id ∈ ids a ∨ id_of w nsp id)
        ∧ (∀ room id, (room, id) ∈ members (f a) → (room, id) ∈ members a ∨ id_of w nsp id)) →
  good w (upd_ns nsp (set_adapter f) w).
Proof.
  intros Hf. apply good_upd_ns. intros ns Hn [H1 H2 H3]. destruct (Hf (adapter ns)) as [F1 F2].
  split; simpl; [done|..].
  - intros id Hid. destruct (F1 id Hid); auto.
  - intros room id Hid. destruct (F2 room id Hid); eauto.
Qed.

Lemma safe_room s room w : sf w (JoinRoom s room) ∧ sf w (LeaveRoom s room).
Proof.
  split; apply safe_good; intros w1 _;
    (destruct (socks w1 !! s) as [k|] eqn:Hs; [|apply good_refl]); intros Hi;
    destruct (inv_sock w1 Hi s k Hs) as (Hid & _ & _);
    assert (has_sock w1 s (sk_nsp k) (sk_ec k)) as Hk by (by exists k);
    (apply good_set_adapter; [|done]); intros a; rewrite Hid;
    rewrite ?add_room_ids, ?add_room_members, ?remove_room_ids, ?remove_room_members;
    (split; [by left|]); intros r id.
  - intros [[= -> ->]%elem_of_singleton|]%elem_of_union; [right; by eapply id_of_has|by left].
  - intros []%elem_of_difference. by left.
Qed.

Lemma safe_adapterRemove nsp id w : sf w (adapterRemove ord nsp id).
Proof.
  apply safe_order. intros o w1 Ho _. eapply good_trans; [apply (good_tick (S (tick w1)))|]. intros _.
  apply good_set_adapter. intros a.
  rewrite remove_socket_ids, remove_socket_members by done. set_solver.
Qed.

Lemma safe_removeSocket nsp id w : sf w (removeSocket ord nsp id).
Proof.
  eapply safe_seq; [|intros; apply safe_adapterRemove]. apply safe_good. intros w1 _.
  apply good_upd_ns. intros ns _ [H1 H2 H3]. split; simpl; [|done..].
  intros id' s [_ Hl]%lookup_delete_Some. by apply H1.
Qed.

Lemma safe_addSocket nsp s c w :
  has_sock w s nsp c → sf w (addSocket nsp (socket_id rand s) s).
Proof.
  intros Hs. eapply safe_seq.
  - apply safe_good. intros w1 Hh. apply good_upd_ns. intros ns _ [H1 H2 H3]. split; simpl; [|done..].
    intros id s' [[<- <-]|[_ Hl]]%lookup_insert_Some; [|by apply H1].
    split; [done|]. exists c. by eapply hist_sock.
  - intros w' Hh _. apply safe_good. intros w1 Hh1. apply good_set_adapter. intros a.
    assert (id_of w1 nsp (socket_id rand s)) as Hid.
    { eapply id_of_has. eapply hist_sock; [|done]. by etransitivity. }
    rewrite add_socket_ids, add_socket_members. set_solver.
Qed.

(** *** Broadcasting *)

Lemma safe_deliver nsp e args id w : sf w (deliver nsp e args id).
Proof.
  eapply safe_then; [apply safe_get|]. intros [s|] w1 _ _; [|apply safe_skip].
  eapply safe_seq; [apply safe_Emit|]. intros w2 _ _. apply safe_skip.
Qed.

Lemma safe_broadcast nsp room except e args w : sf w (broadcast ord nsp room except e args).
Proof.
  eapply safe_then.
  { apply safe_order. intros o w1 _ _. simpl. apply good_tick. }
  intros targets w1 _ _. apply (safe_for_each inv hist).
  intros id w2 _ _. apply safe_deliver.
Qed.

(** *** Programs that run user code *)

(** User functions keep the invariant: they reach the server through its API
    (see [api_safe]) and may change their own state. *)
Record safe_user : Prop := {
  su_middleware f s d w : sf w (u_middleware usr f s d);
  su_connect f s w : sf w (u_connect usr f s);
  su_disconnect f s r w : sf w (u_disconnect usr f s r);
  su_error f s e w : sf w (u_error usr f s e);
  su_any f s n args w : sf w (u_any usr f s n args);
  su_event f ins w : sf w (u_event usr f ins);
  su_ack f args w : sf w (u_ack usr f args);
}.
Context (Husr : safe_user).

Lemma good_delete_ec c nsp w : good w (upd_conn c (set_ec_sockets (delete nsp)) w).
Proof.
  apply good_upd_conn. intros ec _. split; [done|]. intros n s. simpl.
  intros [_ Hl]%lookup_delete_Some. by left.
Qed.

Lemma safe_disconnectSocket s reason w : sf w (disconnectSocket ord usr s reason).
Proof.
  eapply safe_then; [apply safe_get|]. intros [k|] w1 _ _; [|apply safe_skip].
  eapply safe_then.
  { apply safe_good_atomic. intros w2 _. unfold take_socket.
    destruct (nsps w2 !! sk_nsp k) as [ns|]; [|apply good_refl].
    destruct (ns_sockets ns !! sk_id k); [|apply good_refl]. simpl. apply good_upd_ns.
    intros ns' _ [H1 H2 H3]. split; simpl; [|done..]. intros id s' [_ Hl]%lookup_delete_Some. by apply H1. }
  intros [disc|] w2 _ _; [|apply safe_skip].
  eapply safe_seq; [apply safe_adapterRemove|]. intros w3 _ _.
  eapply safe_seq; [apply safe_setConnected|]. intros w4 _ _.
  eapply safe_seq; [apply safe_good; intros; apply good_set_acks|]. intros w5 _ _.
  eapply safe_seq; [destruct (bool_decide _); [apply safe_send|apply safe_skip]|]. intros w6 _ _.
  eapply safe_seq.
  { apply (safe_for_each inv hist). intros h w7 _ _. apply (su_disconnect Husr). }
  intros w7 _ _. apply safe_good. intros w8 _. apply good_delete_ec.
Qed.

Lemma safe_sendConnectError c nsp msg w : sf w (sendConnectError c nsp msg).
Proof. apply safe_sendPacket. Qed.

Lemma safe_rejectConnect c s nsp id msg w : sf w (rejectConnect ord c s nsp id msg).
Proof.
  eapply safe_seq; [apply safe_removeSocket|]. intros w1 _ _.
  eapply safe_seq; [apply safe_good; intros; apply good_delete_ec|]. intros w2 _ _.
  eapply safe_seq; [apply safe_setConnected|]. intros w3 _ _. apply safe_sendConnectError.
Qed.

Lemma safe_first_error {B} (l : list B) (f : B → P (option string)) w :
  (∀ b w', sf w' (f b)) → sf w (first_error l f).
Proof.
  intros Hf. revert w. induction l as [|b l IH]; intros w; [apply safe_done|].
  eapply safe_then; [apply Hf|]. intros [e|] w1 _ _; [apply safe_done|apply IH].
Qed.

Lemma safe_runMiddlewares nsp s d w : sf w (runMiddlewares usr nsp s d).
Proof.
  eapply safe_then; [apply safe_get|]. intros ms w1 _ _. apply safe_first_error.
  intros m w2. apply (su_middleware Husr).
Qed.

Lemma safe_runConnect nsp s w : sf w (runConnect usr nsp s).
Proof.
  eapply safe_then; [apply safe_get|]. intros hs w1 _ _. apply safe_first_error.
  intros m w2. apply (su_connect Husr).
Qed.

Lemma safe_handleConnect c es pkt w : has_conn w c es → sf w (handleConnect rand ord usr c pkt).
Proof.
  intros Hc. unfold handleConnect. eapply (safe_bind inv hist); [apply safe_namespaceLookup|].
  intros [name|] w1 Hh1 Hi1 Hn; [|apply safe_sendConnectError].
  destruct (Hn name eq_refl) as [-> Hns]. clear Hn.
  eapply (safe_bind inv hist).
  { apply (safe_atomic inv hist _ _ (λ s w', has_sock w' s (ns_name (pNsp pkt)) c)).
    intros w2 Hh2 Hi2.
    destruct (good_newSocket (ns_name (pNsp pkt)) c es w2) as (G1 & G2 & G3);
      [by eapply hist_ns| |done|].
    { eapply hist_conn; [|done]. by etransitivity. }
    split_and!; [done..|]. intros w3 Hh3 _. by eapply hist_sock. }
  intros s w2 Hh2 Hi2 Hs.
  eapply (safe_bind inv hist).
  { apply (safe_gets inv hist _ _ (λ id _, id = socket_id rand s)).
    intros w3 w4 Hh3 Hi3 Hh4 Hi4. destruct (hist_sock _ _ Hh3 _ _ _ Hs) as (k & -> & Hk & _). done. }
  intros id w3 Hh3 Hi3 ->.
  eapply safe_then; [apply safe_runMiddlewares|]. intros [msg|] w4 Hh4 Hi4; [apply safe_rejectConnect|].
  unfold welcome.
  assert (has_sock w4 s (ns_name (pNsp pkt)) c) as Hs4.
  { eapply hist_sock; [|exact Hs]. by transitivity w3. }
  eapply safe_seq; [by apply (safe_addSocket _ _ c)|]. intros w5 Hh5 Hi5.
  eapply safe_seq.
  { apply safe_good. intros w6 Hh6. apply good_upd_conn. intros ec _. split; [done|].
    intros n s'. simpl. intros [[<- <-]|[_ Hl]]%lookup_insert_Some; [right|by left].
    eapply hist_sock; [|exact Hs4]. by transitivity w5. }
  intros w6 Hh6 Hi6. eapply safe_seq; [apply safe_setConnected|]. intros w7 Hh7 Hi7.
  eapply safe_then; [apply safe_runConnect|]. intros [msg|] w8 Hh8 Hi8;
    [apply safe_rejectConnect|apply safe_sendPacket].
Qed.

Lemma safe_handleDisconnect c pkt w : sf w (handleDisconnect ord usr c pkt).
Proof.
  eapply safe_then; [apply safe_get|]. intros [s|] w1 _ _;
    [apply safe_disconnectSocket|apply safe_skip].
Qed.

Lemma safe_fork w (p : P unit) : sf w p → sf w (go p).
Proof. intros Hp. by apply (safe_go inv hist). Qed.

Lemma safe_each {B} (l : list B) (f : B → P unit) w : (∀ b w', sf w' (f b)) → sf w (for_each l f).
Proof. intros Hf. apply (safe_for_each inv hist). intros b w' _ _. apply Hf. Qed.

Lemma safe_fireOnError nsp s e w : sf w (fireOnError usr nsp s e).
Proof.
  eapply safe_then; [apply safe_get|]. intros hs w1 _ _. apply safe_each. intros h w2.
  apply safe_fork, (su_error Husr).
Qed.

Lemma safe_fireOnAny nsp s n args w : sf w (fireOnAny usr nsp s n args).
Proof.
  eapply safe_then; [apply safe_get|]. intros hs w1 _ _. apply safe_each. intros h w2.
  apply safe_fork, (su_any Husr).
Qed.

Lemma safe_upd_cell cl f w : sf w (update (upd_cell cl f)).
Proof. apply safe_good. intros w1 _. by apply good_same. Qed.

Lemma safe_wait {B} w (f : W → option B) : sf w (await (λ w, match f w with Some b => Some (b, w) | None => None end)).
Proof.
  apply (safe_await inv hist). intros w1 a w2 _ Hi. destruct (f w1); [|done]. intros [= <- <-].
  by split_and!.
Qed.

Lemma safe_run_handler cl nsp s args h w : sf w (run_handler unmarshal_into usr cl nsp s args h).
Proof.
  unfold run_handler. destruct (invokeHandler _ _ _ _) as [| |ins].
  - eapply safe_seq; [apply safe_fireOnError|]. intros w1 _ _. apply safe_upd_cell.
  - eapply safe_seq; [apply safe_good; intros; by apply good_same|]. intros w1 _ _.
    apply (safe_wait w1 (λ _, None : option unit)).
  - eapply safe_then; [apply (su_event Husr)|]. intros outs w1 _ _.
    eapply safe_seq; [apply safe_upd_cell|]. intros w2 _ _. apply safe_upd_cell.
Qed.

Lemma safe_send_results cl nsp s pkt w : sf w (send_results cl nsp s pkt).
Proof.
  eapply safe_seq.
  { apply (safe_await inv hist). intros w1 a w2 _ Hi. destruct (cells w1 !! cl); [|done].
    case_decide; [|done]. intros [= <- <-]. by split_and!. }
  intros w1 _ _. eapply safe_then; [apply safe_get|]. intros rs w2 _ _.
  eapply safe_then; [|intros; apply safe_send]. case_decide; [apply safe_get|apply safe_done].
Qed.

Lemma safe_handleEvent c pkt w : sf w (handleEvent unmarshal_into usr c pkt).
Proof.
  eapply safe_then; [apply safe_get|]. intros [s|] w1 _ _; [|apply safe_skip].
  destruct (pData pkt) as [| | | |[|[| | |name| | | | |] args]| | | |]; try apply safe_skip.
  eapply safe_then; [apply safe_get|]. intros nsp w2 _ _.
  eapply safe_seq; [apply safe_fireOnAny|]. intros w3 _ _.
  eapply safe_then; [apply safe_good_atomic; intros w4 _; simpl; by apply good_same|]. intros cl w4 _ _.
  eapply safe_then; [apply safe_get|]. intros hs w5 _ _.
  eapply safe_seq.
  { apply safe_each. intros h w6. eapply safe_seq; [apply safe_upd_cell|]. intros w7 _ _.
    apply safe_fork, safe_run_handler. }
  intros w6 _ _. destruct (0 <=? pID pkt); [apply safe_fork, safe_send_results|apply safe_skip].
Qed.

Lemma safe_invoke_ack s id args w : sf w (invoke_ack usr s id args).
Proof.
  eapply safe_then.
  { apply safe_good_atomic. intros w1 _. destruct (socks w1 !! s) as [k|]; [|apply good_refl].
    destruct (invoke id (acks k)) as [[b cb] t]. simpl. apply good_set_acks. }
  intros [f|] w1 _ _; [apply (su_ack Husr)|apply safe_skip].
Qed.

Lemma safe_handleAck c pkt w : sf w (handleAck usr c pkt).
Proof.
  eapply safe_then; [apply safe_get|]. intros [s|] w1 _ _; [|apply safe_skip].
  apply safe_fork, safe_invoke_ack.
Qed.

Lemma safe_process c es pkt w :
  has_conn w c es → sf w (process rand ord unmarshal_into usr c pkt).
Proof.
  intros Hc. unfold process. destruct (pType pkt); try apply safe_skip.
  - by eapply safe_handleConnect.
  - apply safe_handleDisconnect.
  - apply safe_handleEvent.
  - apply safe_handleAck.
Qed.

Lemma safe_handleIn c es b bin w :
  has_conn w c es → sf w (handleIn rand ord unmarshal_into usr c b bin).
Proof.
  intros Hc. unfold handleIn. eapply safe_then.
  { apply safe_good_atomic. intros w1 _. destruct (conns w1 !! c) as [ec|]; [|apply good_refl].
    destruct (receive b bin (recon ec)) as [p r]. simpl. apply good_upd_conn. intros ec' _.
    split; [done|]. by left. }
  intros [p|] w1 Hh _; [|apply safe_skip]. eapply safe_process. by eapply hist_conn.
Qed.

Lemma safe_process_round c es w :
  has_conn w c es → sf w (process_round rand ord unmarshal_into usr c).
Proof.
  intros Hc. unfold process_round. eapply safe_then.
  { apply (safe_await inv hist). intros w1 m w2 _ Hi. destruct (conns w1 !! c) as [ec|]; [|done].
    destruct (pop (inq ec)) as [[p q]|]; [|done]. intros [= <- <-].
    destruct (good_upd_conn c (set_inq (λ _, q)) w1) as [G1 G2]; [|done|by split_and!].
    intros ec' _. split; [done|]. by left. }
  intros [[b bin]|] w1 Hh _; [|apply safe_done].
  eapply safe_seq; [eapply safe_handleIn; by eapply hist_conn|]. intros w2 _ _. apply safe_done.
Qed.

Lemma safe_start c es w : has_conn w c es → sf w (start rand ord unmarshal_into usr c).
Proof.
  intros Hc. unfold start. eapply safe_then.
  { apply safe_good_atomic. intros w1 _. apply good_upd_conn. intros ec _. split; [done|]. by left. }
  intros [] w1 Hh _; [|apply safe_skip]. apply (safe_go_loop inv hist); [|done].
  eapply safe_process_round. by eapply hist_conn.
Qed.

Lemma safe_onEngineConnect es w : sf w (onEngineConnect es).
Proof.
  apply safe_good. intros w1 _ Hi. destruct (good_find_conn es w1 Hi) as (G1 & G2 & _). done.
Qed.

Lemma safe_onEngineData es b bin w : sf w (onEngineData rand ord unmarshal_into usr es b bin).
Proof.
  unfold onEngineData. eapply (safe_bind inv hist).
  { apply (safe_atomic inv hist _ _ (λ c w', has_conn w' c es)). intros w1 _ Hi.
    destruct (good_find_conn es w1 Hi) as (G1 & G2 & G3). split_and!; [done..|].
    intros w3 Hh _. eapply hist_conn; [exact Hh|exact G3]. }
  intros c w1 Hh _ Hc. eapply safe_seq; [eapply safe_start; exact Hc|]. intros w2 _ _.
  apply safe_good. intros w3 _. apply good_upd_conn. intros ec _. split; [done|]. by left.
Qed.

Lemma safe_onEngineClose es reason w : sf w (onEngineClose ord usr es reason).
Proof.
  eapply safe_then.
  { apply safe_good_atomic. intros w1 _ Hi. simpl. split; [|by split].
    destruct Hi as [I1 I2 I3 I4 I5 I6 I7]. split; try done.
    - intros n ns Hn. destruct (I1 n ns Hn). by split.
    - intros es' c. simpl. intros [_ Hl]%lookup_delete_Some. by apply I5. }
  intros [c|] w1 _ _; [|apply safe_skip].
  eapply safe_seq.
  { apply safe_good. intros w2 _. apply good_upd_conn. intros ec _. split; [done|]. by left. }
  intros w2 _ _. eapply safe_then.
  { apply safe_order. intros o w3 _ _. eapply good_trans; [apply (good_tick (S (tick w3)))|]. intros _.
    simpl. destruct (conns w3 !! c) as [ec|]; [|apply good_refl]. simpl. apply good_upd_conn.
    intros ec' _. split; [done|]. intros n s. simpl. by rewrite lookup_empty. }
  intros ss w3 _ _. apply safe_each. intros s w4. apply safe_disconnectSocket.
Qed.

Lemma safe_Server_Close w : sf w (Server_Close ord).
Proof.
  eapply safe_then; [apply safe_order; intros; apply good_tick|]. intros names w1 _ _.
  apply safe_each. intros n w2. apply safe_good. intros w3 _. apply good_set_adapter.
  intros a. rewrite close_ids, close_members. auto.
Qed.

(** ** Everything that enters the server *)

(** The calls that start a goroutine's work on the server: the engine's
    callbacks, and the API that an application may use at any time, also from
    its handlers. *)
Inductive entry : P unit → Prop :=
| entry_connect es : entry (onEngineConnect es)
| entry_data es b bin : entry (onEngineData rand ord unmarshal_into usr es b bin)
| entry_close es reason : entry (onEngineClose ord usr es reason)
| entry_handlers nsp f :
    (∀ ns, ns_sockets (f ns) = ns_sockets ns ∧ adapter (f ns) = adapter ns) →
    entry (on_namespace nsp f)
| entry_register nsp : entry (RegisterNamespace nsp ≫= λ _, skip)
| entry_factory f : factory_ok f → entry (SetAdapterFactory f)
| entry_emit s e args : entry (Emit s e args ≫= λ _, skip)
| entry_emit_ack s e cb args : entry (EmitWithAck s e cb args ≫= λ _, skip)
| entry_join s room : entry (JoinRoom s room)
| entry_leave s room : entry (LeaveRoom s room)
| entry_broadcast nsp room e args : entry (BroadcastToRoom ord nsp room e args)
| entry_except nsp room l e args : entry (ToExcept ord nsp room l e args ≫= λ _, skip)
| entry_disconnect s : entry (sock_Disconnect ord usr s)
| entry_server_close : entry (Server_Close ord)
| entry_skip : entry skip
| entry_seq p q : entry p → entry q → entry (p ≫= λ _, q).

Lemma safe_entry p w : entry p → sf w p.
Proof.
  intros Hp. revert w. induction Hp; intros w.
  - apply safe_onEngineConnect.
  - apply safe_onEngineData.
  - apply safe_onEngineClose.
  - by apply safe_on_namespace.
  - eapply safe_then; [apply safe_RegisterNamespace|intros; apply safe_skip].
  - apply safe_good. intros w1 _. destruct (adapterLocked w1); [apply good_refl|].
    intros [I1 I2 I3 I4 I5 I6 I7]. split; [|by split]. split; try done.
    intros n ns Hn. destruct (I1 n ns Hn). by split.
  - eapply safe_then; [apply safe_Emit|]. intros. apply safe_skip.
  - eapply safe_then; [apply safe_EmitWithAck|]. intros. apply safe_skip.
  - apply safe_room.
  - apply safe_room.
  - eapply safe_then; [apply (safe_weaken w _ _ (safe_namespaceLookup nsp w))|].
    intros [n|] w1 _ _; [apply safe_broadcast|apply safe_skip].
  - eapply safe_then; [|intros; apply safe_skip].
    eapply safe_then; [apply (safe_weaken w _ _ (safe_namespaceLookup nsp w))|].
    intros [n|] w1 _ _; [|apply safe_done].
    eapply safe_seq; [apply safe_broadcast|]. intros. apply safe_done.
  - apply safe_disconnectSocket.
  - apply safe_Server_Close.
  - apply safe_skip.
  - eapply safe_seq; [apply IHHp1|]. intros. apply IHHp2.
Qed.

Lemma inv_NewServer f u : factory_ok f → inv (NewServer f u).
Proof.
  intros Hf. split; try done.
  - intros n ns. simpl. intros [<- <-]%lookup_singleton_Some.
    assert (ids (adapter (newNamespace f defaultNamespace)) = ∅
            ∧ members (adapter (newNamespace f defaultNamespace)) = ∅) as [E1 E2].
    { unfold newNamespace. simpl. destruct f as [g|]; [by apply Hf|].
      split; [apply new_ids|apply new_members]. }
    split; [done|rewrite E1; set_solver|rewrite E2; set_solver].
  - unfold has_ns. simpl. by rewrite lookup_singleton_eq.
Qed.

(** The server with work going on: any number of goroutines, each about to
    make one of the calls. *)
Definition running (f : option (string → A)) (u : U) (ps : list (P unit)) : config W Empty_set :=
  (NewServer f u, Once <$> ps).

Lemma running_safe f u ps c :
  factory_ok f → Forall entry ps → reachable (running f u ps) c →
  inv c.1 ∧ hist (NewServer f u) c.1 ∧ Forall (safe_thread inv hist c.1) c.2.
Proof.
  intros Hf Hps Hr. apply (reachable_safe inv hist) in Hr; [done|by apply inv_NewServer|].
  simpl. apply Forall_fmap. eapply Forall_impl; [exact Hps|]. intros p Hp.
  by apply (safe_once inv hist), safe_entry.
Qed.
End Invariant.

(** ** Consequences *)

Lemma socket_id_inj (rand : nat → bytes) i j :
  (∀ n, length (rand n) = 18%nat) → socket_id rand i = socket_id rand j → rand i = rand j.
Proof.
  intros Hl Hij. unfold socket_id in Hij. apply (f_equal bytes_of) in Hij.
  rewrite !bytes_of_string_of in Hij. apply raw_url_encode_inj in Hij; [done|by rewrite Hl..].
Qed.

Section Claims.
Context `{FL : Float64} `{JS : !JSON} {A : Type} `{AO : !Adapter A} `{AL : !AdapterLaws A}.
Context {U data : Type}.
Context (rand : nat → bytes) (ord : nat → order).
Context (unmarshal_into : gtype → bytes → option data) (usr : user A U data).

(** C1. Whatever goroutines run on the server (engine callbacks for any
    connections, API calls, the user's handlers), and however they interleave,
    in every state reached: a namespace resolves an id only to the socket that
    has it, and that socket is connected to this namespace; a broadcast in a
    namespace, to any room, has only ids of its own sockets as targets; the
    socket an engine connection holds for a namespace was made for that
    namespace on that connection; ids of sockets are pairwise distinct as
    long as the random bytes drawn are; and the frames handed to the
    connections are only ever added to. *)
Theorem server_invariant f u ps w ts :
  (∀ n, is_order (ord n)) → (∀ n, length (rand n) = 18%nat) →
  safe_user rand usr → factory_ok f → Forall (entry rand ord unmarshal_into usr) ps →
  reachable (running f u ps) (w, ts) →
  (∀ nsp ns id s, nsps w !! nsp = Some ns → ns_sockets ns !! id = Some s →
     ∃ k, socks w !! s = Some k ∧ sk_id k = id ∧ sk_nsp k = nsp)
  ∧ (∀ nsp ns o room except id, nsps w !! nsp = Some ns → is_order o →
       id ∈ Broadcast o room except (adapter ns) →
       ∃ s k, socks w !! s = Some k ∧ sk_id k = id ∧ sk_nsp k = nsp)
  ∧ (∀ c ec nsp s, conns w !! c = Some ec → ec_sockets ec !! nsp = Some s →
       ∃ k, socks w !! s = Some k ∧ sk_nsp k = ns_name nsp ∧ sk_ec k = c)
  ∧ (∀ s1 s2 k1 k2, socks w !! s1 = Some k1 → socks w !! s2 = Some k2 → sk_id k1 = sk_id k2 →
       (∀ i j, (i < rnd w)%nat → (j < rnd w)%nat → rand i = rand j → i = j) → s1 = s2)
  ∧ (∀ w' ts', reachable (running f u ps) (w', ts') → reachable (w', ts') (w, ts) →
       sent w' `prefix_of` sent w).
Proof.
  intros Hord Hlen Husr Hf Hps Hr.
  destruct (running_safe rand ord unmarshal_into usr Hord Husr f u ps _ Hf Hps Hr) as (Hi & _).
  simpl in Hi. split_and!.
  - intros nsp ns id s Hn Hs. destruct (inv_ns _ _ Hi nsp ns Hn) as [H1 _ _].
    destruct (H1 id s Hs) as (-> & c & k & Hk & E1 & E2 & _). by exists k.
  - intros nsp ns o room except id Hn Ho Hid. apply broadcast_targets in Hid as [Hid _]; [|done].
    destruct (inv_ns _ _ Hi nsp ns Hn) as [_ H2 H3].
    assert (id_of rand w nsp id) as (s & c & (k & Hk & E1 & E2 & _) & ->).
    { case_decide; eauto. }
    by exists s, k.
  - intros c ec nsp s Hc Hs. destruct (inv_conn _ _ Hi c ec nsp s Hc Hs) as (k & Hk & _ & E2 & E3).
    by exists k.
  - intros s1 s2 k1 k2 H1 H2 Heq Hinj.
    destruct (inv_sock _ _ Hi s1 k1 H1) as (E1 & _). destruct (inv_sock _ _ Hi s2 k2 H2) as (E2 & _).
    rewrite E1, E2 in Heq. apply socket_id_inj in Heq; [|done].
    rewrite (inv_rnd _ _ Hi) in Hinj. apply Hinj; [by eapply lookup_lt_Some..|done].
  - intros w' ts' Hr1 Hr2.
    destruct (running_safe rand ord unmarshal_into usr Hord Husr f u ps _ Hf Hps Hr1) as (Hi1 & _ & Ht).
    destruct (reachable_safe (inv rand) (hist rand) _ _ Hr2 Hi1 Ht) as (_ & Hh & _).
    by apply (hist_sent rand).
Qed.
End Claims.

(** ** A server that runs

    An application whose connect handler joins the socket to a room and whose
    event handler answers with an event, then acknowledges; it counts the
    disconnections. *)
Module Demo.
Definition rand (n : nat) : bytes := repeat Byte.x00 17 ++ [byte_of_val (Z.of_nat n)].
Definition unmarshal (t : gtype) (b : bytes) : option unit := Some tt.
Abbreviation world := (world Memory.memoryAdapter nat).

Definition app : user Memory.memoryAdapter nat unit := {|
  u_middleware _ _ _ := mret None;
  u_connect _ s := JoinRoom s "lobby" ≫= λ _, mret None;
  u_disconnect _ _ _ := update (set_app S);
  u_error _ _ _ := skip;
  u_any _ _ _ _ := skip;
  u_sig _ := mkHandler [TSocket] false;
  u_event _ ins := match ins with
                   | RSocket s :: _ => Emit s "pong" [] ≫= λ _, mret [OVal (VStr "ok")]
                   | _ => mret []
                   end;
  u_ack _ _ := skip
|}.

Definition connect_text : bytes := Encode (mkPacket Connect "/" (-1) VNil 0).
Definition ping_text : bytes := Encode (event_packet "/" 5 "ping" []).

Definition ord (_ : nat) : order := elements.

Definition calls : list (prog world unit) :=
  [ (OnConnect "/" 0%nat ≫= λ _, OnEvent "/" "ping" 1%nat);
    onEngineConnect 9;
    (onEngineData rand ord unmarshal app 9 connect_text false ≫= λ _,
     onEngineData rand ord unmarshal app 9 ping_text false) ].

Definition state : config world Empty_set := run_all 4 (running None 0%nat calls).

Definition sid : string := socket_id rand 0.

(** The client is told its id, gets the event the handler emits, then the
    acknowledgement with what the handler returned. *)
Example conversation :
  sent state.1
  = [(9%nat, Encode (connect_packet "/" sid), false);
     (9%nat, Encode (event_packet "/" (-1) "pong" []), false);
     (9%nat, Encode (ack_packet "/" 5 [VStr "ok"]), false)].
Proof. vm_cast_no_check (eq_refl (sent state.1)). Qed.

Lemma app_safe : safe_user rand app.
Proof.
  split; cbn [app u_middleware u_connect u_disconnect u_error u_any u_event u_ack].
  - intros f s d w. apply safe_done.
  - intros f s w. eapply safe_seq; [apply safe_room|]. intros w' _ _. apply safe_done.
  - intros f s r w. apply safe_good. intros w' _. by apply good_same.
  - intros f s e w. apply safe_skip.
  - intros f s n args w. apply safe_skip.
  - intros f ins w. destruct ins as [|[| | | | |] ins]; try apply safe_done.
    eapply safe_then; [apply safe_Emit|]. intros e w' _ _. apply safe_done.
  - intros f args w. apply safe_skip.
Qed.

Lemma calls_entry : Forall (entry rand ord unmarshal app) calls.
Proof.
  repeat (apply List.Forall_cons); [| | |constructor];
    repeat first [apply entry_seq|apply entry_connect|apply entry_data|by apply entry_handlers].
Qed.

Lemma running_reachable : reachable (running None 0%nat calls) state.
Proof. apply run_all_reachable. Qed.
End Demo.

(** At that point the broadcast to the room reaches the socket, which is in
    the namespace. *)
Lemma server_invariant_witness :
  ∃ ns, nsps Demo.state.1 !! "/" = Some ns
    ∧ Broadcast elements "lobby" [] (adapter ns) = [Demo.sid]
    ∧ ∃ s k, socks Demo.state.1 !! s = Some k ∧ sk_id k = Demo.sid ∧ sk_nsp k = "/".
Proof.
  destruct (nsps Demo.state.1 !! "/") as [ns|] eqn:Hns.
  - assert (Broadcast elements "lobby" [] (adapter ns) = [Demo.sid]) as Hb.
    { enough ((λ ns, Broadcast elements "lobby" [] (adapter ns)) <$> nsps Demo.state.1 !! "/"
              = Some [Demo.sid]) as Hm by (rewrite Hns in Hm; by injection Hm).
      vm_compute. reflexivity. }
    exists ns. split; [reflexivity|]. split; [exact Hb|].
    assert (Demo.state = (Demo.state.1, Demo.state.2)) as Hst by apply surjective_pairing.
    pose proof Demo.running_reachable as Hr. rewrite Hst in Hr.
    destruct (server_invariant Demo.rand Demo.ord Demo.unmarshal Demo.app None 0%nat Demo.calls
      Demo.state.1 Demo.state.2 (λ _, is_order_elements) (λ _, eq_refl) Demo.app_safe
      (λ g Hg, match Hg with end) Demo.calls_entry Hr) as (_ & Hbr & _).
    apply (Hbr "/" ns elements "lobby" [] Demo.sid Hns is_order_elements).
    rewrite Hb. apply list_elem_of_singleton. reflexivity.
  - exfalso. enough (is_Some (nsps Demo.state.1 !! "/")) as [? Hs] by congruence.
    apply (bool_decide_unpack (is_Some _)). vm_compute. exact I.
Defined.
