(* ===== verification/SioHandlers.v ===== *)
(** * SioHandlers: what each server operation does

    Functional theorems about the operations of SioServer run alone ([exec]):
    the state they leave, the frames they hand to the connections, and the
    goroutines they start. *)

From S2P Require Import Prelude.
From S2P Require Import Strconv.
From S2P Require Import Value.
From S2P Require Import Json.
From S2P Require Import FixedFloat.
From S2P Require Import SioPacket.
From S2P Require Import AckTable.
From S2P Require Import PacketQueue.
From S2P Require Import Adapter.
From S2P Require Import Emitter.
From S2P Require Import Sched.
From S2P Require Import Safety.
From S2P Require Import SioServer.
From S2P Require Import SioWire.
From S2P Require Import SioInvariant.

#[local] Opaque json_max_depth.

#[local] Hint Rewrite @exec_bind @exec_atomic @ex_update @ex_gets @ex_go
  : gosio_simp.

Section Handlers.
Context `{FL : Float64} `{JS : !JSON} {A : Type} `{AO : !Adapter A} `{AL : !AdapterLaws A}.
Context {U data : Type}.
Context (rand : nat → bytes) (ord : nat → order) (Hord : ∀ n, is_order (ord n)).
Context (unmarshal_into : gtype → bytes → option data) (usr : user A U data).
Abbreviation W := (world A U).
Implicit Types (w : W) (k : socket) (ec : engineConn) (ns : namespace A).

Lemma exec_sock_get {B : Type} s (d : B) f w :
  exec (sock_get s d f) w = Some (match socks w !! s with Some k => f k | None => d end, w, []).
Proof. apply ex_gets. Qed.
Lemma exec_ns_get {B : Type} nsp (d : B) f w :
  exec (ns_get nsp d f) w = Some (match nsps w !! nsp with Some ns => f ns | None => d end, w, []).
Proof. apply ex_gets. Qed.
Lemma exec_conn_get {B : Type} c (d : B) f w :
  exec (conn_get c d f) w = Some (match conns w !! c with Some ec => f ec | None => d end, w, []).
Proof. apply ex_gets. Qed.

(** ** Emitting *)

(** A frame without attachments, for a socket that is connected. *)
Lemma exec_Emit_plain s k ec e args w :
  socks w !! s = Some k → conns w !! sk_ec k = Some ec → hasBinary (VArr (VStr e :: args)) = false →
  exec (Emit s e args) w
  = if connected k
    then Some (None, set_sent (λ l, l ++ [(ec_es ec, Encode (event_packet (sk_nsp k) (-1) e args), false)]) w, [])
    else Some (Some ErrNotConnected, w, []).
Proof.
  intros Hk Hc Hb. unfold Emit, Connected. rewrite exec_bind, exec_sock_get, Hk.
  destruct (connected k); [|done]. cbn [negb].
  rewrite exec_bind. unfold emitEvent. rewrite exec_bind, exec_sock_get, Hk.
  unfold send. rewrite exec_bind, exec_sock_get, Hk.
  rewrite (exec_sendPacket _ ec) by done. unfold frames. cbn [pData event_packet]. rewrite Hb.
  rewrite andb_false_r. cbn [to_conn fmap list_fmap]. by destruct w.
Qed.

(** ** Broadcasting *)

(** The frame a broadcast hands over for one target. *)
Definition target_frame w ns (frame : bytes) (id : string) : option (engp * bytes * bool) :=
  s ← ns_sockets ns !! id;
  k ← socks w !! s;
  ec ← conns w !! sk_ec k;
  if connected k then Some (ec_es ec, frame, false) else None.

Lemma exec_deliver nsp ns e args id w :
  inv rand w → nsps w !! nsp = Some ns → hasBinary (VArr (VStr e :: args)) = false →
  exec (deliver nsp e args id) w
  = Some (tt, set_sent (λ l, l ++ option_list (target_frame w ns (Encode (event_packet nsp (-1) e args)) id)) w, []).
Proof.
  intros Hi Hn Hb. unfold deliver, target_frame. rewrite exec_bind, exec_ns_get, Hn.
  destruct (ns_sockets ns !! id) as [s|] eqn:Hs; cbn [mbind option_bind].
  - destruct (inv_ns _ _ Hi nsp ns Hn) as [H1 _ _].
    destruct (H1 id s Hs) as (_ & c & k & Hk & _ & Hnsp & _).
    destruct (inv_sock _ _ Hi s k Hk) as (_ & _ & es & ec & Hc & _).
    rewrite Hk. cbn [mbind option_bind]. rewrite Hc. cbn [mbind option_bind].
    rewrite exec_bind, (exec_Emit_plain s k ec e args w Hk Hc Hb). rewrite Hnsp.
    destruct (connected k); cbn; [done|]. by rewrite set_sent_nil.
  - by rewrite set_sent_nil.
Qed.

Lemma exec_broadcast nsp ns room except e args w :
  inv rand w → nsps w !! nsp = Some ns → hasBinary (VArr (VStr e :: args)) = false →
  exec (broadcast ord nsp room except e args) w
  = Some (tt, set_sent (λ l, l ++ omap (target_frame w ns (Encode (event_packet nsp (-1) e args)))
                                    (Broadcast (ord (tick w)) room except (adapter ns)))
                (set_tick (S (tick w)) w), []).
Proof.
  intros Hi Hn Hb. set (targets := Broadcast _ _ _ _).
  unfold broadcast, with_order. rewrite exec_bind, exec_atomic. cbn [fst snd].
  change (nsps (set_tick (S (tick w)) w)) with (nsps w). rewrite Hn. fold targets.
  assert (inv rand (set_tick (S (tick w)) w)) as Hi' by (by apply (good_tick rand (S (tick w)) w)).
  revert Hi'. set (w1 := set_tick (S (tick w)) w).
  change (target_frame w) with (target_frame w1).
  assert (nsps w1 !! nsp = Some ns) as Hn1 by done. clearbody w1. clear - Hn1 Hb.
  induction targets as [|id l IH] in w1, Hn1 |- *; intros Hi1; cbn [for_each omap list_omap].
  - by rewrite set_sent_nil.
  - rewrite exec_bind, (exec_deliver _ ns) by done.
    set (fr := option_list _). set (w2 := set_sent (λ l, l ++ fr) w1).
    assert (inv rand w2) as Hi2.
    { apply (good_same rand w1 w2); try done. by apply prefix_app_r. }
    rewrite (IH w2) by done. unfold w2. rewrite set_sent_app.
    change (target_frame (set_sent _ w1)) with (target_frame w1).
    unfold fr. by destruct (target_frame w1 ns _ id).
Qed.

(** C28. A broadcast of a payload without attachments, alone: each target of the
    adapter that is connected to the namespace gets the same frame once, in
    the adapter's order, and nothing else changes.  The targets are the
    members of the room (every id of the namespace, for the empty room) that
    are not excepted, each once. *)
Theorem broadcast_delivers nsp ns room except e args w :
  inv rand w → nsps w !! nsp = Some ns → hasBinary (VArr (VStr e :: args)) = false →
  let targets := Broadcast (ord (tick w)) room except (adapter ns) in
  exec (broadcast ord nsp room except e args) w
  = Some (tt, set_sent (λ l, l ++ omap (target_frame w ns (Encode (event_packet nsp (-1) e args))) targets)
                (set_tick (S (tick w)) w), [])
  ∧ NoDup targets
  ∧ ∀ id, id ∈ targets ↔
      (if decide (room = "") then id ∈ ids (adapter ns) else (room, id) ∈ members (adapter ns))
      ∧ id ∉ except.
Proof.
  intros Hi Hn Hb targets. split; [by apply exec_broadcast|].
  split; [by apply broadcast_once|intros id; by apply broadcast_targets].
Qed.

(** ** Events *)

(** Starting the goroutines of [hs]: the wait group counts them. *)
Lemma foldl_wg cl (hs : list fn) w cs (x : cell) :
  cells w = cs ++ [x] → cl = length cs →
  foldl (λ w (_ : fn), upd_cell cl (λ x, mkCell (S (SioServer.pending x)) (results x)) w) w hs
  = set_cells (λ _, cs ++ [mkCell (SioServer.pending x + length hs) (results x)]) w.
Proof.
  intros Hc ->. revert w x Hc. induction hs as [|h hs IH]; intros w x Hc; cbn [foldl length].
  - unfold set_cells. rewrite Nat.add_0_r. destruct x, w. simpl in *. by subst.
  - rewrite (IH _ (mkCell (S (SioServer.pending x)) (results x))).
    + simpl. replace (SioServer.pending x + S (length hs))%nat with (S (SioServer.pending x) + length hs)%nat by lia.
      done.
    + unfold upd_cell, set_cells. simpl. rewrite Hc. rewrite list.alter_app_r_alt by done. by rewrite Nat.sub_diag.
Qed.

(** The goroutines of an event: the OnAny handlers, the handlers of its name,
    and the one that acknowledges when the event asks for it. *)
Definition event_goroutines ns nsp s (name : string) (args : list gval) (pkt : Packet) (cl : nat) :
  list (thread W Empty_set) :=
  ((λ h, Once (u_any usr h s name args)) <$> on_any ns)
  ++ ((λ h, Once (run_handler unmarshal_into usr cl nsp s args h)) <$> default [] (events ns !! name))
  ++ (if 0 <=? pID pkt then [Once (send_results cl nsp s pkt)] else []).

(** An event for a connected namespace starts, in this order, one goroutine
    per OnAny handler, one per handler registered for its name, and, exactly
    when it carries an id, one that waits for the handlers and acknowledges;
    nothing is sent meanwhile, and the wait group starts at the number of
    handlers.  An event for a namespace the connection is not in, or whose
    payload is not an array that starts with a string, does nothing. *)
Theorem handleEvent_dispatch c ec pkt w :
  conns w !! c = Some ec →
  (∀ s k ns name args,
     ec_sockets ec !! pNsp pkt = Some s → socks w !! s = Some k → nsps w !! sk_nsp k = Some ns →
     pData pkt = VArr (VStr name :: args) →
     exec (handleEvent unmarshal_into usr c pkt) w
     = Some (tt, set_cells (λ l, l ++ [mkCell (length (default [] (events ns !! name))) []]) w,
             event_goroutines ns (sk_nsp k) s name args pkt (length (cells w))))
  ∧ (ec_sockets ec !! pNsp pkt = None ∨ (∀ name args, pData pkt ≠ VArr (VStr name :: args)) →
     exec (handleEvent unmarshal_into usr c pkt) w = Some (tt, w, [])).
Proof.
  intros Hc. unfold handleEvent, conn_socket. split.
  - intros s k ns name args Hs Hk Hns Hd.
    rewrite exec_bind, exec_conn_get, Hc, Hs, Hd. rewrite exec_bind, exec_sock_get, Hk.
    unfold fireOnAny. rewrite !exec_bind, exec_ns_get, Hns.
    rewrite (exec_for_each_go _ _ (λ _ w, w) (λ h, u_any usr h s name args)) by done.
    rewrite foldl_id. rewrite exec_bind, exec_atomic. cbn [fst snd].
    unfold handlersFor. rewrite exec_bind, exec_ns_get.
    change (nsps (set_cells _ w)) with (nsps w). rewrite Hns.
    set (hs := default [] (events ns !! name)). set (cl := length (cells w)). rewrite exec_bind.
    rewrite (exec_for_each_go _ _
      (λ (_ : fn) w, upd_cell cl (λ x, mkCell (S (SioServer.pending x)) (results x)) w)
      (λ h, run_handler unmarshal_into usr cl (sk_nsp k) s args h)).
    2:{ intros h w'. unfold wg_Add. by rewrite exec_bind, ex_update, ex_go. }
    rewrite (foldl_wg cl hs _ (cells w) (mkCell 0 [])) by done.
    unfold event_goroutines, when. by destruct (0 <=? pID pkt).
  - intros Hor. rewrite exec_bind, exec_conn_get, Hc.
    destruct (ec_sockets ec !! pNsp pkt) as [s|]; [|done]. destruct Hor as [?|Hd]; [done|].
    destruct (pData pkt) as [| | | |[|[| | |name| | | | |] args]| | | |]; try done. by destruct (Hd name args).
Qed.

(** ** Disconnecting *)

(** User functions that only change the application's state. *)
Definition quiet_disconnect (d : fn → sockp → string → U → U) : Prop :=
  ∀ f s r w, exec (u_disconnect usr f s r) w = Some (tt, set_app (d f s r) w, []).

Lemma exec_handlers d hs s r w :
  quiet_disconnect d →
  exec (for_each hs (λ h, u_disconnect usr h s r)) w
  = Some (tt, set_app (λ u, foldl (λ u h, d h s r u) u hs) w, []).
Proof.
  intros Hq. revert w. induction hs as [|h hs IH]; intros w; cbn [for_each foldl].
  - by destruct w.
  - rewrite exec_bind, Hq, IH. done.
Qed.

(** What a disconnection leaves, as a function: nothing changes unless the
    namespace still has the socket. *)
Definition do_disconnect (d : fn → sockp → string → U → U) (reason : string) (s : sockp) w : W :=
  match socks w !! s with
  | None => w
  | Some k =>
      match take_socket (sk_nsp k) (sk_id k) w with
      | (None, _) => w
      | (Some disc, w1) =>
          let fr := match conns w !! sk_ec k with
                    | Some ec => if bool_decide (reason = server_disconnect)
                                 then [(ec_es ec, Encode (disconnect_packet (sk_nsp k)), false)] else []
                    | None => []
                    end in
          upd_conn (sk_ec k) (set_ec_sockets (delete (sk_nsp k)))
            (set_app (λ u, foldl (λ u h, d h s reason u) u disc)
              (set_sent (λ l, l ++ fr)
                (upd_sock s (set_acks clear)
                  (upd_sock s (set_connected false)
                    (upd_ns (sk_nsp k) (set_adapter (RemoveSocket (ord (tick w)) (sk_id k)))
                      (set_tick (S (tick w)) w1))))))
      end
  end.

Lemma take_socket_frame nsp id w r w1 :
  take_socket nsp id w = (r, w1) →
  tick w1 = tick w ∧ socks w1 = socks w ∧ conns w1 = conns w ∧ sent w1 = sent w.
Proof.
  unfold take_socket. destruct (nsps w !! nsp) as [ns|]; [|by intros [= <- <-]].
  destruct (ns_sockets ns !! id); by intros [= <- <-].
Qed.

Lemma exec_disconnectSocket d s reason w :
  quiet_disconnect d →
  exec (disconnectSocket ord usr s reason) w = Some (tt, do_disconnect d reason s w, []).
Proof.
  intros Hq. unfold disconnectSocket, do_disconnect. rewrite exec_bind, exec_sock_get.
  destruct (socks w !! s) as [k|] eqn:Hk; [|done].
  rewrite exec_bind, exec_atomic. destruct (take_socket _ _ w) as [[disc|] w1] eqn:Ht; cbn [fst snd].
  2:{ unfold take_socket in Ht. destruct (nsps w !! sk_nsp k) as [ns|]; simplify_eq; [|done].
      destruct (ns_sockets ns !! sk_id k); by simplify_eq. }
  destruct (take_socket_frame _ _ _ _ _ Ht) as (E1 & E2 & E3 & E4).
  unfold adapterRemove, with_order. rewrite exec_bind, exec_atomic. cbn [fst snd].
  unfold setConnected. rewrite exec_bind, ex_update, exec_bind, ex_update, E1.
  set (w2 := upd_sock s (set_acks clear) _).
  assert (∃ k2, socks w2 !! s = Some k2 ∧ sk_ec k2 = sk_ec k) as (k2 & Hk2 & Hec2).
  { unfold w2, upd_sock. simpl. rewrite !list_lookup_alter_eq, E2, Hk. simpl. by eexists. }
  assert (conns w2 = conns w) as Hc2 by (by unfold w2).
  assert (exec (when (bool_decide (reason = server_disconnect)) (send s (disconnect_packet (sk_nsp k)))) w2
    = Some (tt, set_sent (λ l, l ++ match conns w !! sk_ec k with
                    | Some ec => if bool_decide (reason = server_disconnect)
                                 then [(ec_es ec, Encode (disconnect_packet (sk_nsp k)), false)] else []
                    | None => []
                    end) w2, [])) as Hsend.
  { destruct (bool_decide _); cbn [when].
    - unfold send. rewrite exec_bind, exec_sock_get, Hk2, Hec2.
      change (sendPacket (sk_ec k) (disconnect_packet (sk_nsp k)))
        with (SendMessage (A := A) (U := U) (sk_ec k) (Encode (disconnect_packet (sk_nsp k))) false).
      rewrite exec_SendMessage, Hc2. destruct (conns w !! sk_ec k); [done|]. by rewrite set_sent_nil.
    - destruct (conns w !! sk_ec k); by rewrite set_sent_nil. }
  rewrite exec_bind, Hsend, exec_bind, (exec_handlers d) by done.
  unfold detachEngineSocket. rewrite ex_update. done.
Qed.

(** The namespace has the socket, under its id, and so has the adapter. *)
Definition registered w (s : sockp) : Prop :=
  ∃ k ns, socks w !! s = Some k ∧ nsps w !! sk_nsp k = Some ns ∧ ns_sockets ns !! sk_id k = Some s.

(** Nothing of the socket is left: its namespace does not resolve its id, its
    adapter has it neither as an id nor in a room, it is not connected and
    waits for no acknowledgement. *)
Definition gone w (s : sockp) : Prop :=
  ∃ k ns, socks w !! s = Some k ∧ nsps w !! sk_nsp k = Some ns
    ∧ ns_sockets ns !! sk_id k = None ∧ (sk_id k ∉ ids (adapter ns))
    ∧ (∀ room, (room, sk_id k) ∉ members (adapter ns))
    ∧ connected k = false ∧ cbs (acks k) = ∅.

Definition distinct_ids w : Prop :=
  ∀ s1 s2 k1 k2, socks w !! s1 = Some k1 → socks w !! s2 = Some k2 → sk_id k1 = sk_id k2 → s1 = s2.

(** The three parts of the state a disconnection changes, and how. *)
Lemma do_disconnect_registered d reason s w k ns :
  socks w !! s = Some k → nsps w !! sk_nsp k = Some ns → ns_sockets ns !! sk_id k = Some s →
  let w' := do_disconnect d reason s w in
  nsps w' = <[sk_nsp k := (set_adapter (RemoveSocket (ord (tick w)) (sk_id k))
                (set_ns_sockets (delete (sk_id k)) ns))]> (nsps w)
  ∧ socks w' = <[s := (set_acks clear (set_connected false k))]> (socks w)
  ∧ conns w' = (alter (set_ec_sockets (delete (sk_nsp k))) (sk_ec k) (conns w))
  ∧ app w' = foldl (λ u h, d h s reason u) (app w) (on_disconnect ns)
  ∧ engines w' = engines w.
Proof.
  intros Hk Hn Hs w'. unfold w', do_disconnect, take_socket. rewrite Hk, Hn, Hs. simpl. split_and!.
  - apply map_eq. intros n. destruct (decide (sk_nsp k = n)) as [<-|Hne].
    + by rewrite !lookup_alter_eq, Hn, lookup_insert_eq.
    + by rewrite !lookup_alter_ne, lookup_insert_ne.
  - apply list_eq. intros i. destruct (decide (s = i)) as [<-|Hne].
    + rewrite !list_lookup_alter_eq, Hk, list_lookup_insert_eq; [done|by eapply lookup_lt_Some].
    + by rewrite !list_lookup_alter_ne, list_lookup_insert_ne.
  - done.
  - done.
  - done.
Qed.

Lemma do_disconnect_unregistered d reason s w :
  ¬ (∃ k ns s', socks w !! s = Some k ∧ nsps w !! sk_nsp k = Some ns ∧ ns_sockets ns !! sk_id k = Some s') →
  do_disconnect d reason s w = w.
Proof.
  intros Hn. unfold do_disconnect, take_socket. destruct (socks w !! s) as [k|] eqn:Hk; [|done].
  destruct (nsps w !! sk_nsp k) as [ns|] eqn:Hns; [|done].
  destruct (ns_sockets ns !! sk_id k) eqn:Hs; [|done]. exfalso. eauto 10.
Qed.

Lemma do_disconnect_gone d reason s w : registered w s → gone (do_disconnect d reason s w) s.
Proof.
  clear rand. intros (k & ns & Hk & Hn & Hs).
  destruct (do_disconnect_registered d reason s w k ns Hk Hn Hs) as (E1 & E2 & _).
  eexists _, _. rewrite E1, E2.
  rewrite list_lookup_insert_eq by (by eapply lookup_lt_Some). split; [done|]. simpl.
  rewrite lookup_insert_eq. split; [done|]. simpl.
  rewrite lookup_delete_eq, remove_socket_ids, remove_socket_members by done.
  split_and!; [done|set_solver| |done|done]. intros room. rewrite elem_of_filter. naive_solver.
Qed.

Lemma gone_disconnect d reason s w : gone w s → do_disconnect d reason s w = w.
Proof.
  intros (k & ns & Hk & Hn & Hs & _). apply do_disconnect_unregistered.
  intros (k' & ns' & s' & Hk' & Hn' & Hs'). simplify_eq.
Qed.

(** C25. Disconnecting a socket its namespace has: the socket is gone, the
    disconnect handlers registered at that time each run once, in order, with
    the reason, the client is told only when the server takes the initiative,
    the connection no longer holds the socket, no other namespace and no other
    socket changes; disconnecting it again, for whatever reason, does nothing
    at all. *)
Theorem disconnect_once d s k ns ec reason w :
  quiet_disconnect d → socks w !! s = Some k → nsps w !! sk_nsp k = Some ns →
  ns_sockets ns !! sk_id k = Some s → conns w !! sk_ec k = Some ec →
  ∃ w', exec (disconnectSocket ord usr s reason) w = Some (tt, w', [])
    ∧ gone w' s
    ∧ app w' = foldl (λ u h, d h s reason u) (app w) (on_disconnect ns)
    ∧ sent w' = sent w ++ (if decide (reason = server_disconnect)
                           then [(ec_es ec, Encode (disconnect_packet (sk_nsp k)), false)] else [])
    ∧ (∃ ec', conns w' !! sk_ec k = Some ec' ∧ ec_sockets ec' = delete (sk_nsp k) (ec_sockets ec))
    ∧ (∀ nsp, nsp ≠ sk_nsp k → nsps w' !! nsp = nsps w !! nsp)
    ∧ (∀ s', s' ≠ s → socks w' !! s' = socks w !! s')
    ∧ ∀ reason', exec (disconnectSocket ord usr s reason') w' = Some (tt, w', []).
Proof.
  intros Hq Hk Hn Hs Hc. exists (do_disconnect d reason s w).
  destruct (do_disconnect_registered d reason s w k ns Hk Hn Hs) as (E1 & E2 & E3 & E4 & _).
  assert (gone (do_disconnect d reason s w) s) as Hg.
  { apply do_disconnect_gone. by exists k, ns. }
  split_and!.
  - by apply exec_disconnectSocket.
  - done.
  - done.
  - unfold do_disconnect, take_socket. rewrite Hk, Hn, Hs, Hc. simpl.
    destruct (decide (reason = server_disconnect)) as [->|Hne]; [done|]. by rewrite bool_decide_false.
  - rewrite E3, list_lookup_alter_eq, Hc. by eexists.
  - intros nsp Hne. by rewrite E1, lookup_insert_ne.
  - intros s' Hne. by rewrite E2, list_lookup_insert_ne.
  - intros reason'. rewrite (exec_disconnectSocket d) by done. by rewrite gone_disconnect.
Qed.

(** ** The end of an engine connection *)

(** Disconnecting a registered socket leaves the others as they were. *)
Lemma do_disconnect_other d reason s s' w :
  registered w s → s ≠ s' → distinct_ids w →
  distinct_ids (do_disconnect d reason s w)
  ∧ socks (do_disconnect d reason s w) !! s' = socks w !! s'
  ∧ (registered w s' → registered (do_disconnect d reason s w) s')
  ∧ (gone w s' → gone (do_disconnect d reason s w) s').
Proof.
  clear rand. intros (k & ns & Hk & Hn & Hs) Hne Hd.
  destruct (do_disconnect_registered d reason s w k ns Hk Hn Hs) as (E1 & E2 & _).
  set (w' := do_disconnect d reason s w) in *.
  assert (∀ i k', socks w' !! i = Some k' → ∃ k0, socks w !! i = Some k0 ∧ sk_id k' = sk_id k0) as Hback.
  { intros i k'. rewrite E2. intros [(-> & <- & _)|[_ Hi]]%list_lookup_insert_Some; [by exists k|by exists k']. }
  assert (socks w' !! s' = socks w !! s') as Hs' by (by rewrite E2, list_lookup_insert_ne).
  split_and!.
  - intros s1 s2 k1 k2 H1 H2 Heq. destruct (Hback _ _ H1) as (k1' & G1 & F1).
    destruct (Hback _ _ H2) as (k2' & G2 & F2). apply (Hd s1 s2 k1' k2' G1 G2). congruence.
  - done.
  - intros (k' & ns' & Hk' & Hn' & Hreg). unfold registered. rewrite Hs', E1.
    destruct (decide (sk_nsp k' = sk_nsp k)) as [Heq|Hns].
    + rewrite Heq in *. simplify_eq. eexists k', _. rewrite Heq, lookup_insert_eq.
      split_and!; [done..|]. simpl. rewrite lookup_delete_ne; [done|]. intros Hid.
      by apply Hne, (Hd s s' k k').
    + exists k', ns'. by rewrite lookup_insert_ne.
  - intros (k' & ns' & Hk' & Hn' & G1 & G2 & G3 & G4). unfold gone. rewrite Hs', E1.
    destruct (decide (sk_nsp k' = sk_nsp k)) as [Heq|Hns].
    + rewrite Heq in *. simplify_eq. eexists k', _. rewrite Heq, lookup_insert_eq.
      split_and!; [done|done| | | |by destruct G4..]; simpl.
      * apply lookup_delete_None. by right.
      * rewrite remove_socket_ids by done. set_solver.
      * intros room. rewrite remove_socket_members by done. rewrite elem_of_filter. naive_solver.
    + exists k', ns'. by rewrite lookup_insert_ne.
Qed.

Lemma disconnect_all d reason ss w :
  distinct_ids w → (∀ s, s ∈ ss → registered w s ∨ gone w s) →
  let w' := foldl (λ w s, do_disconnect d reason s w) w ss in
  (∀ s, s ∈ ss → gone w' s)
  ∧ ∀ s, s ∉ ss → socks w' !! s = socks w !! s ∧ (registered w s → registered w' s)
                  ∧ (gone w s → gone w' s).
Proof.
  revert w. induction ss as [|s ss IH]; intros w Hd Hss; cbn [foldl].
  { split; [set_solver|done]. }
  destruct (Hss s) as [Hr|Hg]; [by left|..].
  - assert (∀ s', s ≠ s' → _) as Hother by (intros s' Hne; exact (do_disconnect_other d reason s s' w Hr Hne Hd)).
    assert (distinct_ids (do_disconnect d reason s w)) as Hd' by (by apply (Hother (S s)); lia).
    pose proof (do_disconnect_gone d reason s w Hr) as Hg.
    destruct (IH (do_disconnect d reason s w) Hd') as [I1 I2].
    { intros s' Hs'. destruct (decide (s = s')) as [->|Hne]; [by right|].
      destruct (Hother s' Hne) as (_ & _ & F1 & F2). destruct (Hss s'); [by right|auto..]. }
    split.
    + intros s' [->|Hin]%elem_of_cons; [|by apply I1].
      destruct (decide (s ∈ ss)); [by apply I1|]. by apply I2.
    + intros s' [Hne Hnin]%not_elem_of_cons. destruct (I2 s' Hnin) as (J1 & J2 & J3).
      destruct (Hother s') as (_ & F0 & F1 & F2); [done|]. rewrite J1. auto.
  - rewrite gone_disconnect by done. destruct (IH w Hd) as [I1 I2].
    { intros s' Hs'. apply Hss. by right. }
    split.
    + intros s' [->|Hin]%elem_of_cons; [|by apply I1].
      destruct (decide (s ∈ ss)); [by apply I1|]. by apply I2.
    + intros s' [Hne Hnin]%not_elem_of_cons. by apply I2.
Qed.

Lemma exec_disconnect_each d reason ss w :
  quiet_disconnect d →
  exec (for_each ss (λ s, disconnectSocket ord usr s reason)) w
  = Some (tt, foldl (λ w s, do_disconnect d reason s w) w ss, []).
Proof.
  intros Hq. apply (exec_for_each ss _ (λ s w, do_disconnect d reason s w)).
  intros s w' _. by apply exec_disconnectSocket.
Qed.

Lemma disconnect_each_conns d reason ss w c ec :
  conns w !! c = Some ec →
  let w' := foldl (λ w s, do_disconnect d reason s w) w ss in
  engines w' = engines w
  ∧ ∃ ec', conns w' !! c = Some ec' ∧ ec_sockets ec' ⊆ ec_sockets ec ∧ inq ec' = inq ec.
Proof.
  revert w ec. induction ss as [|s ss IH]; intros w ec Hc; cbn [foldl]; [by eauto|].
  assert (engines (do_disconnect d reason s w) = engines w
    ∧ ∃ ec', conns (do_disconnect d reason s w) !! c = Some ec'
        ∧ ec_sockets ec' ⊆ ec_sockets ec ∧ inq ec' = inq ec) as (E1 & ec1 & Hc1 & S1 & Q1).
  { unfold do_disconnect. destruct (socks w !! s) as [k|]; [|by eauto].
    unfold take_socket. destruct (nsps w !! sk_nsp k) as [ns|]; [|by eauto].
    destruct (ns_sockets ns !! sk_id k); [|by eauto]. split; [done|]. simpl.
    destruct (decide (sk_ec k = c)) as [->|Hne].
    - rewrite list_lookup_alter_eq, Hc. eexists. split; [done|]. split; [apply delete_subseteq|done].
    - rewrite list_lookup_alter_ne by done. eauto. }
  destruct (IH _ ec1 Hc1) as (E2 & ec2 & Hc2 & S2 & Q2).
  split; [congruence|]. exists ec2. split_and!; [done|by etransitivity|congruence].
Qed.

(** C27. When the engine reports a connection closed, every namespace socket the
    connection holds is gone afterwards, with the mapped reason; the server
    forgets the connection, whose queue takes no more packets; the sockets of
    other connections stay registered as they were. *)
Theorem engine_close_disconnects d es c ec reason w :
  quiet_disconnect d → distinct_ids w →
  engines w !! es = Some c → conns w !! c = Some ec →
  (∀ nsp s, ec_sockets ec !! nsp = Some s → registered w s) →
  ∃ w', exec (onEngineClose ord usr es reason) w = Some (tt, w', [])
    ∧ engines w' !! es = None
    ∧ (∃ ec', conns w' !! c = Some ec' ∧ ec_sockets ec' = ∅ ∧ qclosed (inq ec') = true)
    ∧ (∀ nsp s, ec_sockets ec !! nsp = Some s → gone w' s)
    ∧ (∀ s, (∀ nsp, ec_sockets ec !! nsp ≠ Some s) →
         socks w' !! s = socks w !! s ∧ (registered w s → registered w' s)).
Proof.
  intros Hq Hd He Hc Hreg. unfold onEngineClose. rewrite exec_bind, exec_atomic. cbn [fst snd].
  rewrite He, exec_bind, ex_update. unfold with_order. rewrite exec_bind, exec_atomic. cbn [fst snd].
  set (w1 := set_tick _ _).
  assert (conns w1 !! c = Some (set_inq close ec)) as Hc1.
  { unfold w1, upd_conn. simpl. by rewrite list_lookup_alter_eq, Hc. }
  rewrite Hc1. cbn [fst snd]. set (o := ord _). set (ss := omap _ _).
  set (w2 := upd_conn c (set_ec_sockets (λ _, ∅)) w1).
  assert (∀ s, s ∈ ss ↔ ∃ nsp, ec_sockets ec !! nsp = Some s) as Hss.
  { intros s. unfold ss. rewrite list_elem_of_omap. simpl. split.
    - intros (nsp & _ & Hs). by exists nsp.
    - intros (nsp & Hs). exists nsp. split; [|done]. unfold o. rewrite (Hord _ _), elem_of_elements.
      apply elem_of_dom. by exists s. }
  rewrite exec_disconnect_each with (d := d) by done. rewrite ?app_nil_r.
  eexists. split; [done|].
  assert (conns w2 !! c = Some (set_ec_sockets (λ _, ∅) (set_inq close ec))) as Hc2.
  { unfold w2, upd_conn. simpl. change (conns w1) with (alter (set_inq close) c (conns w)) in *.
    by rewrite list_lookup_alter_eq, Hc1. }
  destruct (disconnect_each_conns d (mapDisconnectReason reason) ss w2 _ _ Hc2) as (E1 & ec' & Hc' & S1 & Q1).
  destruct (disconnect_all d (mapDisconnectReason reason) ss w2) as [D1 D2].
  { exact Hd. }
  { intros s [nsp Hs]%Hss. left. exact (Hreg nsp s Hs). }
  split_and!.
  - rewrite E1. unfold w2. simpl. apply lookup_delete_eq.
  - exists ec'. split_and!; [done| |by rewrite Q1]. simpl in S1. apply map_empty. intros n. destruct (ec_sockets ec' !! n) eqn:Hn; [|done]. by apply (lookup_weaken _ ∅) in Hn.
  - intros nsp s Hs. apply D1, Hss. by exists nsp.
  - intros s Hs. destruct (D2 s) as (F1 & F2 & _); [by rewrite Hss; intros [nsp Hn]; apply (Hs nsp)|].
    split; [exact F1|exact F2].
Qed.

(** ** Acknowledgements *)

Lemma upd_conn_recon_id c ec w :
  conns w !! c = Some ec → upd_conn c (set_recon (recon ec)) w = w.
Proof.
  intros Hc. unfold upd_conn, set_conns. destruct w. simpl in *. f_equal.
  apply list_eq. intros i. destruct (decide (c = i)) as [<-|Hne].
  - rewrite list_lookup_alter_eq, Hc. simpl. by destruct ec.
  - by rewrite list_lookup_alter_ne.
Qed.

(** The acknowledgement a peer sends for [id], as text. *)
Definition ack_text (nsp : string) (id : Z) (res : list gval) : bytes := Encode (ack_packet nsp id res).

Lemma exec_handleIn_ack c ec s nsp id res w :
  conns w !! c = Some ec → ec_sockets ec !! nsp = Some s →
  nsp_ok nsp → 0 <= id <= int64_max → json_ok json_max_depth (VArr res) →
  exec (handleIn rand ord unmarshal_into usr c (ack_text nsp id res) false) w
  = Some (tt, w, [Once (invoke_ack usr s id (json_view <$> res))]).
Proof.
  intros Hc Hs Hn Hid Hj. unfold handleIn. rewrite exec_bind, exec_atomic, Hc.
  cbn [receive]. unfold receive_text, ack_text. rewrite Decode_Encode_aux.
  - cbn [pType ack_packet is_binary_type fst snd]. rewrite (upd_conn_recon_id c ec) by done.
    unfold process, handleAck, conn_socket. cbn [pType]. rewrite exec_bind, exec_conn_get, Hc.
    cbn [pNsp ack_packet]. rewrite Hs. done.
  - split; simpl; [done|by right|done|]. right. by split_and!.
Qed.

(** The state after a callback was taken out of a socket's table. *)
Definition taken s id w : W :=
  match socks w !! s with
  | Some k => upd_sock s (set_acks (λ _, (invoke id (acks k)).2)) w
  | None => w
  end.

Lemma socks_upd_sock s f w : socks (upd_sock s f w) = alter f s (socks w).
Proof. done. Qed.

Lemma exec_invoke_ack s k id args f w :
  socks w !! s = Some k → cbs (acks k) !! id = Some (Some f) →
  exec (invoke_ack usr s id args) w = exec (u_ack usr f args) (taken s id w).
Proof.
  intros Hk Hf. unfold invoke_ack, taken. rewrite exec_bind, exec_atomic, Hk.
  unfold invoke. rewrite Hf. cbn [fst snd].
  by destruct (exec (u_ack usr f args) _) as [[[? ?] ?]|].
Qed.

Lemma exec_invoke_ack_none s k id args w :
  socks w !! s = Some k → cbs (acks k) !! id = None →
  exec (invoke_ack usr s id args) w = Some (tt, upd_sock s (set_acks (λ _, acks k)) w, []).
Proof.
  intros Hk Hf. unfold invoke_ack. rewrite exec_bind, exec_atomic, Hk.
  unfold invoke. rewrite Hf. done.
Qed.

(** An event that asks for an acknowledgement: [EmitWithAck] allocates the
    next id, registers the callback before the event is handed over, and sends
    the event with that id; the peer's acknowledgement of that id then starts
    exactly one goroutine, which removes the callback and runs it with the
    arguments the peer gave; a second acknowledgement of the same id calls
    nothing. *)
Theorem ack_round_trip s k ec e args f w :
  socks w !! s = Some k → connected k = true → conns w !! sk_ec k = Some ec →
  ec_sockets ec !! sk_nsp k = Some s → hasBinary (VArr (VStr e :: args)) = false →
  nsp_ok (sk_nsp k) → 0 <= seq (acks k) < int64_max →
  let id := seq (acks k) + 1 in
  ∃ w1, exec (EmitWithAck s e (Some f) args) w = Some ((id, None), w1, [])
    ∧ sent w1 = sent w ++ [(ec_es ec, Encode (event_packet (sk_nsp k) id e args), false)]
    ∧ ∀ res, json_ok json_max_depth (VArr res) →
        ∃ t, exec (handleIn rand ord unmarshal_into usr (sk_ec k) (ack_text (sk_nsp k) id res) false) w1
             = Some (tt, w1, [Once t])
        ∧ exec t w1 = exec (u_ack usr f (json_view <$> res)) (taken s id w1)
        ∧ exec t (taken s id w1) = Some (tt, taken s id w1, []).
Proof.
  intros Hk Hcon Hc Hs Hb Hn Hseq id.
  unfold EmitWithAck, Connected. rewrite exec_bind, exec_sock_get, Hk, Hcon. cbn [negb].
  rewrite exec_bind, exec_atomic, Hk. unfold next. cbn [fst snd].
  rewrite wrap64_small by lia. fold id.
  set (w0 := upd_sock s (set_acks (λ _, _)) w).
  rewrite exec_bind, ex_update. set (w1 := upd_sock s (set_acks (register id (Some f))) w0).
  set (k1 := mkSocket (sk_id k) (sk_nsp k) (sk_ec k) (connected k)
               (mkAckTable id (<[id := Some f]> (cbs (acks k))))).
  assert (socks w1 !! s = Some k1) as Hk1.
  { unfold w1, w0, upd_sock. simpl. by rewrite !list_lookup_alter_eq, Hk. }
  rewrite exec_bind. unfold emitEvent. rewrite exec_bind, exec_sock_get, Hk1.
  unfold send. rewrite exec_bind, exec_sock_get, Hk1.
  rewrite (exec_sendPacket _ ec) by done. unfold frames. cbn [pData event_packet]. rewrite Hb.
  rewrite andb_false_r. eexists. split; [done|]. split; [done|]. intros res Hres.
  set (w2 := set_sent _ _). assert (socks w2 !! s = Some k1) as Hk2 by done.
  assert (conns w2 !! sk_ec k = Some ec) as Hc2 by done.
  eexists. split; [apply (exec_handleIn_ack _ ec s); [done..| |done]; unfold id; lia|]. split.
  - apply (exec_invoke_ack s k1 id _ f w2 Hk2). simpl. by rewrite lookup_insert_eq.
  - assert (socks (taken s id w2) !! s = Some (set_acks (λ _, (invoke id (acks k1)).2) k1)) as Hk3.
    { unfold taken. rewrite Hk2, socks_upd_sock. by rewrite list_lookup_alter_eq, Hk2. }
    rewrite (exec_invoke_ack_none _ _ _ _ _ Hk3).
    + f_equal. f_equal. f_equal. unfold upd_sock, set_socks. destruct (taken s id w2) as [? ? ? ? ? ss] eqn:Et.
      simpl in *. f_equal. apply list_eq. intros i. destruct (decide (s = i)) as [<-|Hne].
      * rewrite list_lookup_alter_eq, Hk3. done.
      * by rewrite list_lookup_alter_ne.
    + unfold invoke. cbn [acks k1 cbs]. rewrite lookup_insert_eq. simpl. apply lookup_delete_eq.
Qed.

(** ** CONNECT *)

(** Middlewares and connect handlers that decide without touching the
    server. *)
Definition decides (f : fn → sockp → gval → option string) (g : fn → sockp → option string) : Prop :=
  (∀ h s v w, exec (u_middleware usr h s v) w = Some (f h s v, w, []))
  ∧ (∀ h s w, exec (u_connect usr h s) w = Some (g h s, w, [])).

Fixpoint first_some {X Y : Type} (f : X → option Y) (l : list X) : option Y :=
  match l with
  | [] => None
  | x :: l' => match f x with Some y => Some y | None => first_some f l' end
  end.

Lemma exec_first_error {B : Type} (l : list B) f (g : B → option string) w :
  (∀ b w, exec (f b) w = Some (g b, w, [])) →
  exec (first_error l f) w = Some (first_some g l, w, []).
Proof.
  intros Hf. induction l as [|b l IH]; [done|]. cbn [first_error first_some].
  rewrite exec_bind, Hf. destruct (g b); [done|]. by rewrite IH.
Qed.

Definition connect_error (nsp msg : string) : Packet :=
  mkPacket ConnectError nsp (-1) (VMap [("message", VStr msg)]) 0.

Lemma exec_send_plain c ec p w :
  conns w !! c = Some ec → hasBinary (pData p) = false →
  exec (sendPacket c p) w = Some (tt, set_sent (λ l, l ++ [(ec_es ec, Encode p, false)]) w, []).
Proof.
  intros Hc Hb. unfold sendPacket. rewrite Hb, andb_false_r. by rewrite exec_SendMessage, Hc.
Qed.

(** The part of the state a CONNECT changes: the frame sent, the socket made,
    what the namespace, its adapter and the connection hold afterwards. *)
Record connect_result w w' (c : connp) ec (nsp : string) (k : socket) (fr : bytes)
    (ns_socks : gmap string sockp) (I : gset string) (M : gset (string * string))
    (ec_socks : gmap string sockp) : Prop := {
  cr_sent : sent w' = sent w ++ [(ec_es ec, fr, false)];
  cr_socks : socks w' = socks w ++ [k];
  cr_others n : n ≠ nsp → nsps w' !! n = nsps w !! n;
  cr_ns : ∃ ns', nsps w' !! nsp = Some ns' ∧ ns_sockets ns' = ns_socks
            ∧ ids (adapter ns') = I ∧ members (adapter ns') = M;
  cr_conn : ∃ ec', conns w' !! c = Some ec' ∧ ec_sockets ec' = ec_socks;
}.

(** What the middlewares, then the connect handlers, say. *)
Definition verdict (f : fn → sockp → gval → option string) (g : fn → sockp → option string)
    ns (s : sockp) (data : gval) : option string :=
  match first_some (λ m, f m s (connectData data)) (middlewares ns) with
  | Some msg => Some msg
  | None => first_some (λ h, g h s) (on_connect ns)
  end.

Lemma alter_last {X : Type} (f : X → X) l x i : i = length l → alter f i (l ++ [x]) = l ++ [f x].
Proof. intros ->. rewrite list.alter_app_r_alt by done. by rewrite Nat.sub_diag. Qed.

(** Rejecting the socket [s] made last, from the state [w1] reached since
    [w]. *)
Lemma exec_rejectConnect w c ec nsp s id msg w1 ns1 ec1 k :
  conns w1 !! c = Some ec1 → nsps w1 !! nsp = Some ns1 → socks w1 = socks w ++ [k] →
  s = length (socks w) → sent w1 = sent w → (∀ n, n ≠ nsp → nsps w1 !! n = nsps w !! n) →
  ec_es ec1 = ec_es ec →
  ∃ w', exec (rejectConnect ord c s nsp id msg) w1 = Some (tt, w', [])
    ∧ connect_result w w' c ec nsp (set_connected false k) (Encode (connect_error nsp msg))
        (delete id (ns_sockets ns1)) (ids (adapter ns1) ∖ {[id]})
        (filter (λ p, p.2 ≠ id) (members (adapter ns1))) (delete nsp (ec_sockets ec1)).
Proof.
  intros Hc Hn Hk Hs Hsent Ho Hes.
  unfold rejectConnect, removeSocket, adapterRemove, with_order, setConnected, sendConnectError.
  rewrite !exec_bind, ex_update, exec_atomic. cbn [fst snd].
  rewrite exec_bind, ex_update, exec_bind, ex_update. set (w2 := upd_sock s _ _).
  assert (conns w2 !! c = Some (set_ec_sockets (delete nsp) ec1)) as Hc2.
  { unfold w2, upd_sock, upd_conn. simpl. by rewrite list_lookup_alter_eq, Hc. }
  rewrite (exec_send_plain _ _ _ _ Hc2) by done. eexists. split; [done|]. split.
  - simpl. by rewrite Hsent, Hes.
  - simpl. rewrite Hk. by rewrite alter_last.
  - intros n Hne. simpl. rewrite !lookup_alter_ne by done. by apply Ho.
  - simpl. rewrite !lookup_alter_eq, Hn. eexists. split; [done|]. simpl.
    by rewrite remove_socket_ids, remove_socket_members by done.
  - eexists. split; [exact Hc2|]. done.
Qed.

(** Accepting the socket [s] made last, or not, as the connect handlers say. *)
Lemma exec_welcome f g w c ec nsp id w1 ns :
  decides f g → conns w !! c = Some ec → nsps w !! nsp = Some ns →
  conns w1 = conns w → nsps w1 = nsps w → sent w1 = sent w →
  let s := length (socks w) in
  let sock b := mkSocket id nsp c b newAckTable in
  socks w1 = socks w ++ [sock false] →
  ∃ w', exec (welcome ord usr c nsp nsp s id) w1 = Some (tt, w', []) ∧
    match first_some (λ h, g h s) (on_connect ns) with
    | Some msg =>
        connect_result w w' c ec nsp (sock false) (Encode (connect_error nsp msg))
          (delete id (ns_sockets ns)) (({[id]} ∪ ids (adapter ns)) ∖ {[id]})
          (filter (λ p, p.2 ≠ id) ({[(id, id)]} ∪ members (adapter ns))) (delete nsp (ec_sockets ec))
    | None =>
        connect_result w w' c ec nsp (sock true) (Encode (connect_packet nsp id))
          (<[id := s]> (ns_sockets ns)) ({[id]} ∪ ids (adapter ns)) ({[(id, id)]} ∪ members (adapter ns))
          (<[nsp := s]> (ec_sockets ec))
    end.
Proof.
  intros [_ Hg] Hc Hns Ec En Es s sock Hk. unfold welcome, addSocket.
  rewrite !exec_bind, ex_update, ex_update.
  rewrite exec_bind, ex_update. unfold setConnected. rewrite exec_bind, ex_update.
  set (w2 := upd_sock s _ _).
  assert (nsps w2 !! nsp = Some (set_adapter (AddSocket id) (set_ns_sockets <[id := s]> ns))) as Hns2.
  { unfold w2. simpl. by rewrite !lookup_alter_eq, En, Hns. }
  assert (conns w2 !! c = Some (set_ec_sockets <[nsp := s]> ec)) as Hc2.
  { unfold w2. simpl. by rewrite list_lookup_alter_eq, Ec, Hc. }
  assert (socks w2 = socks w ++ [sock true]) as Hs2.
  { unfold w2. simpl. rewrite Hk. by rewrite alter_last. }
  assert (sent w2 = sent w) as Hsent2 by done.
  assert (∀ n, n ≠ nsp → nsps w2 !! n = nsps w !! n) as Ho2.
  { intros n Hn. unfold w2. simpl. by rewrite !lookup_alter_ne, En. }
  clearbody w2. unfold runConnect. rewrite exec_bind, exec_bind, exec_ns_get, Hns2.
  cbn [on_connect set_adapter set_ns_sockets].
  rewrite (exec_first_error _ _ (λ h, g h s)) by done.
  destruct (first_some _ (on_connect ns)) as [msg|].
  - destruct (exec_rejectConnect w c ec nsp s id msg w2 _ _ (sock true) Hc2 Hns2 Hs2 eq_refl Hsent2 Ho2 eq_refl)
      as (w' & He & Hr).
    rewrite He. eexists. split; [done|]. simpl in Hr.
    by rewrite add_socket_ids, add_socket_members, delete_insert_eq, delete_insert_eq in Hr.
  - rewrite (exec_send_plain _ _ _ _ Hc2) by done. eexists. split; [done|].
    split; [simpl; by rewrite Hsent2|done|done| |by eexists].
    eexists. split; [exact Hns2|]. simpl. by rewrite add_socket_ids, add_socket_members.
Qed.

Lemma filter_fresh (M : gset (string * string)) id :
  (∀ room, (room, id) ∉ M) → filter (λ p, p.2 ≠ id) M = M.
Proof.
  intros Hf. apply set_eq. intros [r i]. rewrite elem_of_filter. simpl. naive_solver.
Qed.

Lemma filter_joined (M : gset (string * string)) id :
  (∀ room, (room, id) ∉ M) → filter (λ p, p.2 ≠ id) ({[(id, id)]} ∪ M) = M.
Proof.
  intros Hf. apply set_eq. intros [r i]. rewrite elem_of_filter, elem_of_union, elem_of_singleton.
  simpl. naive_solver.
Qed.

(** CONNECT for a namespace the server does not have, and for one it has. *)
Lemma exec_connect_unknown c ec pkt w :
  conns w !! c = Some ec → pNsp pkt ≠ "" → nsps w !! pNsp pkt = None →
  exec (handleConnect rand ord usr c pkt) w
  = Some (tt, set_sent (λ l, l ++ [(ec_es ec, Encode (connect_error (pNsp pkt) "Invalid namespace"), false)]) w, []).
Proof.
  intros Hc Hne Hns. unfold handleConnect, namespaceLookup.
  assert (ns_name (pNsp pkt) = pNsp pkt) as Hname by (unfold ns_name; by rewrite decide_False).
  rewrite exec_bind, ex_gets, Hname, Hns. rewrite decide_False by apply is_Some_None. unfold sendConnectError.
  by rewrite (exec_send_plain _ ec) by done.
Qed.

Lemma exec_connect_known f g c ec pkt w ns :
  decides f g → conns w !! c = Some ec → pNsp pkt ≠ "" → nsps w !! pNsp pkt = Some ns →
  let nsp := pNsp pkt in
  let s := length (socks w) in
  let id := socket_id rand (rnd w) in
  let sock b := mkSocket id nsp c b newAckTable in
  ns_sockets ns !! id = None → (id ∉ ids (adapter ns)) → (∀ room, (room, id) ∉ members (adapter ns)) →
  ∃ w', exec (handleConnect rand ord usr c pkt) w = Some (tt, w', []) ∧
  match verdict f g ns s (pData pkt) with
  | Some msg =>
      connect_result w w' c ec nsp (sock false) (Encode (connect_error nsp msg))
        (ns_sockets ns) (ids (adapter ns)) (members (adapter ns)) (delete nsp (ec_sockets ec))
  | None =>
      connect_result w w' c ec nsp (sock true) (Encode (connect_packet nsp id))
        (<[id := s]> (ns_sockets ns)) ({[id]} ∪ ids (adapter ns)) ({[(id, id)]} ∪ members (adapter ns))
        (<[nsp := s]> (ec_sockets ec))
  end.
Proof.
  intros Hfg Hc Hne Hns nsp s id sock Hid Hadm Hroom. unfold handleConnect, namespaceLookup.
  assert (ns_name (pNsp pkt) = pNsp pkt) as Hname by (unfold ns_name; by rewrite decide_False).
  rewrite exec_bind, ex_gets, Hname, Hns. rewrite decide_True by done.
  fold nsp in Hns |- *.
  rewrite exec_bind. unfold newSocket. rewrite exec_atomic. cbn [fst snd]. set (w1 := set_rnd _ _).
  assert (socks w1 !! length (socks w) = Some (mkSocket id nsp c false newAckTable)) as Hk1
    by (by apply list_lookup_middle).
  rewrite exec_bind, exec_sock_get, Hk1. unfold runMiddlewares. destruct Hfg as [Hm Hg].
  rewrite exec_bind, exec_bind, exec_ns_get. change (nsps w1) with (nsps w). rewrite Hns.
  rewrite (exec_first_error _ _ (λ m, f m (length (socks w)) (connectData (pData pkt)))) by done.
  unfold verdict. destruct (first_some _ (middlewares ns)) as [msg|].
  - destruct (exec_rejectConnect w c ec nsp (length (socks w)) id msg w1 ns ec _ Hc Hns eq_refl eq_refl
      eq_refl ltac:(done) eq_refl) as (w' & He & Hr).
    cbn [sk_id]. rewrite He. eexists. split; [done|].
    rewrite delete_id, filter_fresh in Hr by done.
    by replace (ids (adapter ns) ∖ {[id]}) with (ids (adapter ns)) in Hr by set_solver.
  - destruct (exec_welcome f g w c ec nsp id w1 ns (conj Hm Hg) Hc Hns eq_refl eq_refl eq_refl eq_refl)
      as (w' & He & Hr).
    cbn [sk_id]. rewrite He. eexists. split; [done|].
    destruct (first_some _ (on_connect ns)); [|done].
    rewrite delete_id, filter_joined in Hr by done.
    by replace (({[id]} ∪ ids (adapter ns)) ∖ {[id]}) with (ids (adapter ns)) in Hr by set_solver.
Qed.
(** C26. CONNECT, alone.  For an unknown namespace the client is told and
    nothing else changes.  Otherwise a socket is made with the next random
    id; when a middleware or then a connect handler objects, its message goes
    to the client in a CONNECT_ERROR, and the namespace and its adapter are
    left as they were; when none does, the socket is connected, resolvable by
    its id, a member of the room of its own id, held by the connection, and
    the client gets the id.  A rejection removes whatever socket the
    connection held for that namespace. *)
Theorem handleConnect_outcome f g c ec pkt w :
  decides f g → conns w !! c = Some ec → pNsp pkt ≠ "" →
  match nsps w !! pNsp pkt with
  | None =>
      exec (handleConnect rand ord usr c pkt) w
      = Some (tt, set_sent (λ l, l ++ [(ec_es ec, Encode (connect_error (pNsp pkt) "Invalid namespace"), false)]) w, [])
  | Some ns =>
      let nsp := pNsp pkt in
      let s := length (socks w) in
      let id := socket_id rand (rnd w) in
      let sock b := mkSocket id nsp c b newAckTable in
      ns_sockets ns !! id = None → (id ∉ ids (adapter ns)) → (∀ room, (room, id) ∉ members (adapter ns)) →
      ∃ w', exec (handleConnect rand ord usr c pkt) w = Some (tt, w', []) ∧
      match verdict f g ns s (pData pkt) with
      | Some msg =>
          connect_result w w' c ec nsp (sock false) (Encode (connect_error nsp msg))
            (ns_sockets ns) (ids (adapter ns)) (members (adapter ns)) (delete nsp (ec_sockets ec))
      | None =>
          connect_result w w' c ec nsp (sock true) (Encode (connect_packet nsp id))
            (<[id := s]> (ns_sockets ns)) ({[id]} ∪ ids (adapter ns)) ({[(id, id)]} ∪ members (adapter ns))
            (<[nsp := s]> (ec_sockets ec))
      end
  end.
Proof.
  intros Hfg Hc Hne. destruct (nsps w !! pNsp pkt) as [ns|] eqn:Hns.
  - intros nsp s id sock. by apply exec_connect_known.
  - by apply exec_connect_unknown.
Qed.
End Handlers.

(** ** Concrete runs *)

(** One socket of the default namespace on one connection, with an event
    handler and a disconnect handler. *)
Definition one_socket : Demo.world :=
  mkWorld
    {["/" := mkNamespace {[Demo.sid := 0%nat]} (AddSocket Demo.sid Memory.NewMemoryAdapter)
               [] [] [0%nat] [] [] {["ping" := [1%nat]]} []]}
    {[9%nat := 0%nat]} None false
    [mkConn 9 {["/" := 0%nat]} None newPacketQueue true]
    [mkSocket Demo.sid "/" 0 true newAckTable] [] [] ∅ 1 0 false 0%nat.

Definition the_namespace : namespace Memory.memoryAdapter :=
  default (newNamespace None "/") (nsps one_socket !! "/").
Definition the_conn : engineConn := mkConn 9 {["/" := 0%nat]} None newPacketQueue true.
Definition the_socket : socket := mkSocket Demo.sid "/" 0 true newAckTable.

Lemma demo_quiet : quiet_disconnect Demo.app (λ _ _ _ n, S n).
Proof. intros f s r w. reflexivity. Qed.

Lemma demo_order n : is_order (Demo.ord n).
Proof. apply is_order_elements. Qed.

Lemma one_socket_only s k : socks one_socket !! s = Some k → s = 0%nat ∧ k = the_socket.
Proof. destruct s as [|[|s]]; simpl; [by intros [= <-]|done..]. Qed.

Lemma one_socket_inv : inv Demo.rand one_socket.
Proof.
  assert (has_sock Demo.rand one_socket 0 "/" 0) as Hs by by exists the_socket.
  assert (id_of Demo.rand one_socket "/" Demo.sid) as Hid by by exists 0%nat, 0%nat.
  split.
  - intros n ns. simpl. intros [<- <-]%lookup_singleton_Some. split; simpl.
    + intros id s [<- <-]%lookup_singleton_Some. split; [done|]. by exists 0%nat.
    + intros id [->%elem_of_singleton|]%elem_of_union; [done|set_solver].
    + intros room id Hin.
      change ((room, id) ∈ members (AddSocket Demo.sid (NewAdapter (A := Memory.memoryAdapter) ""))) in Hin.
      rewrite add_socket_members, new_members in Hin.
      apply elem_of_union in Hin as [[= -> ->]%elem_of_singleton|]; [done|set_solver].
  - by eexists.
  - intros s k [-> ->]%one_socket_only. split_and!; [done|by eexists|]. by exists 9%nat, the_conn.
  - intros [|c] ec n s; simpl; [|done]. intros [= <-]. simpl. by intros [<- <-]%lookup_singleton_Some.
  - intros es c. simpl. intros [<- <-]%lookup_singleton_Some. by exists the_conn.
  - done.
  - done.
Qed.

Lemma broadcast_delivers_witness :
  exec (broadcast Demo.ord "/" "" [] "news" []) one_socket
  = Some (tt, set_sent (λ l, l ++ [(9%nat, Encode (event_packet "/" (-1) "news" []), false)])
                (set_tick 1 one_socket), []).
Proof.
  refine (proj1 (broadcast_delivers Demo.rand Demo.ord demo_order "/" the_namespace "" [] "news" []
    one_socket one_socket_inv _ _)); reflexivity.
Defined.

Lemma handleEvent_dispatch_witness :
  exec (handleEvent Demo.unmarshal Demo.app 0 (event_packet "/" 5 "ping" [])) one_socket
  = Some (tt, set_cells (λ l, l ++ [mkCell 1 []]) one_socket,
          [Once (run_handler Demo.unmarshal Demo.app 0 "/" 0 [] 1);
           Once (send_results 0 "/" 0 (event_packet "/" 5 "ping" []))]).
Proof.
  exact (proj1 (handleEvent_dispatch Demo.unmarshal Demo.app 0 the_conn (event_packet "/" 5 "ping" [])
    one_socket eq_refl) 0%nat the_socket the_namespace "ping" [] eq_refl eq_refl eq_refl eq_refl).
Defined.

Lemma disconnect_once_witness :
  ∃ w', exec (disconnectSocket Demo.ord Demo.app 0 "ping timeout") one_socket = Some (tt, w', [])
    ∧ gone w' 0 ∧ app w' = 1%nat.
Proof.
  destruct (disconnect_once Demo.ord demo_order Demo.app (λ _ _ _ n, S n) 0 the_socket the_namespace
    the_conn "ping timeout" one_socket demo_quiet) as (w' & H1 & H2 & H3 & _); [reflexivity..|].
  exists w'. split; [exact H1|]. split; [exact H2|]. rewrite H3. reflexivity.
Defined.

Lemma engine_close_disconnects_witness :
  ∃ w', exec (onEngineClose Demo.ord Demo.app 9 "transport error") one_socket = Some (tt, w', [])
    ∧ gone w' 0.
Proof.
  destruct (engine_close_disconnects Demo.ord demo_order Demo.app (λ _ _ _ n, S n) 9 0 the_conn
    "transport error" one_socket demo_quiet) as (w' & H1 & _ & _ & H2 & _).
  - intros s1 s2 k1 k2 [-> _]%one_socket_only [-> _]%one_socket_only _. reflexivity.
  - reflexivity.
  - reflexivity.
  - intros nsp s. simpl. intros [<- <-]%lookup_singleton_Some. exists the_socket, the_namespace.
    repeat split.
  - exists w'. split; [exact H1|]. apply (H2 "/"). reflexivity.
Defined.

Lemma ack_round_trip_witness :
  ∃ w1, exec (EmitWithAck 0 "ask" (Some 3%nat) []) one_socket = Some ((1, None), w1, [])
    ∧ sent w1 = [(9%nat, Encode (event_packet "/" 1 "ask" []), false)].
Proof.
  destruct (ack_round_trip Demo.rand Demo.ord Demo.unmarshal Demo.app 0 the_socket the_conn "ask" [] 3
    one_socket) as (w1 & H1 & H2 & _); try reflexivity.
  - split; [reflexivity|]. apply (bool_decide_unpack (_ ∉ _)). vm_compute. exact I.
  - vm_compute. split; [discriminate|reflexivity].
  - exists w1. split; [exact H1|exact H2].
Defined.

(** An application whose middleware refuses: a second CONNECT to the same
    namespace on the same connection is turned down. *)
Definition refuser : user Memory.memoryAdapter nat unit := {|
  u_middleware _ _ _ := mret (Some "no");
  u_connect _ _ := mret None;
  u_disconnect _ _ _ := skip;
  u_error _ _ _ := skip;
  u_any _ _ _ _ := skip;
  u_sig _ := mkHandler [TSocket] false;
  u_event _ _ := mret [];
  u_ack _ _ := skip
|}.

Definition guarded : Demo.world := upd_ns "/" (set_middlewares (λ _, [0%nat])) one_socket.
Definition connect_again : Packet := mkPacket Connect "/" (-1) VNil 0.

Lemma refuser_decides : decides refuser (λ _ _ _, Some "no") (λ _ _, None).
Proof. split; reflexivity. Qed.

Lemma handleConnect_outcome_witness :
  ∃ w', exec (handleConnect Demo.rand Demo.ord refuser 0 connect_again) guarded = Some (tt, w', [])
    ∧ sent w' = [(9%nat, Encode (connect_error "/" "no"), false)].
Proof.
  destruct (handleConnect_outcome Demo.rand Demo.ord demo_order refuser (λ _ _ _, Some "no") (λ _ _, None)
    0 the_conn connect_again guarded refuser_decides eq_refl ltac:(discriminate)) as (w' & H1 & H2).
  - reflexivity.
  - apply (bool_decide_unpack (_ ∉ _)). vm_compute. exact I.
  - intros room Hin.
    change ((room, socket_id Demo.rand 1)
      ∈ members (AddSocket Demo.sid (NewAdapter (A := Memory.memoryAdapter) ""))) in Hin.
    rewrite add_socket_members, new_members in Hin. revert Hin.
    intros [Heq|Hin]%elem_of_union; [|by apply elem_of_empty in Hin].
    apply elem_of_singleton in Heq. apply (f_equal snd) in Heq. vm_compute in Heq. discriminate Heq.
  - exists w'. split; [exact H1|]. exact (cr_sent _ _ _ _ _ _ _ _ _ _ _ H2).
Defined.

(** The state a program run alone leaves, for running examples. *)
Definition final (p : prog Demo.world unit) (w : Demo.world) : Demo.world :=
  match exec p w with Some (_, w', _) => w' | None => w end.

Lemma exec_final p w :
  match exec p w with Some (_, _, []) => true | _ => false end = true →
  exec p w = Some (tt, final p w, []).
Proof. unfold final. by destruct (exec p w) as [[[[] w'] [|]]|]. Qed.

Lemma registered_lookup (w : Demo.world) s :
  (k ← socks w !! s; ns ← nsps w !! sk_nsp k; ns_sockets ns !! sk_id k) = Some s → registered w s.
Proof.
  destruct (socks w !! s) as [k|] eqn:Hk; [|done]. simpl.
  destruct (nsps w !! sk_nsp k) as [ns|] eqn:Hn; [|done]. simpl. intros Hs. by exists k, ns.
Qed.

(** The rejection removes the connection's entry for the namespace, which is
    that of the first socket: it stays registered and connected, but the
    connection no longer leads to it, so that what its client sends is dropped
    from then on. *)
Lemma rejected_connect_strands :
  let p := handleConnect Demo.rand Demo.ord refuser 0 connect_again in
  let w' := final p guarded in
  exec p guarded = Some (tt, w', [])
  ∧ registered w' 0 ∧ connected <$> socks w' !! 0%nat = Some true
  ∧ ec_sockets <$> conns w' !! 0%nat = Some ∅.
Proof.
  intros p w'. split_and!.
  - apply exec_final. vm_compute. reflexivity.
  - apply registered_lookup. vm_compute. reflexivity.
  - vm_compute. reflexivity.
  - vm_compute. reflexivity.
Qed.

(** A second CONNECT that is accepted replaces the first socket in the
    connection's table: the end of the connection disconnects the second one
    only, and the first stays registered and connected for good. *)
Lemma second_connect_leaks :
  let p := handleConnect Demo.rand Demo.ord Demo.app 0 connect_again ≫= λ _,
           onEngineClose Demo.ord Demo.app 9 "transport close" in
  let w' := final p one_socket in
  exec p one_socket = Some (tt, w', [])
  ∧ registered w' 0 ∧ connected <$> socks w' !! 0%nat = Some true
  ∧ connected <$> socks w' !! 1%nat = Some false ∧ engines w' = ∅.
Proof.
  intros p w'. split_and!.
  - apply exec_final. vm_compute. reflexivity.
  - apply registered_lookup. vm_compute. reflexivity.
  - vm_compute. reflexivity.
  - vm_compute. reflexivity.
  - vm_compute. reflexivity.
Qed.

(** A CONNECT still in the queue when the engine reports the connection closed
    is processed afterwards, and makes a socket nothing will disconnect. *)
Lemma connect_after_close_leaks :
  let p := onEngineClose Demo.ord Demo.app 9 "transport close" ≫= λ _,
           handleConnect Demo.rand Demo.ord Demo.app 0 connect_again in
  let w' := final p one_socket in
  exec p one_socket = Some (tt, w', [])
  ∧ registered w' 1 ∧ connected <$> socks w' !! 1%nat = Some true ∧ engines w' = ∅.
Proof.
  intros p w'. split_and!.
  - apply exec_final. vm_compute. reflexivity.
  - apply registered_lookup. vm_compute. reflexivity.
  - vm_compute. reflexivity.
  - vm_compute. reflexivity.
Qed.

(** A handler that returns nothing: the acknowledgement is the one configured
    for events without a handler. *)
Definition silent_world : Demo.world :=
  upd_ns "/" (set_unknownAck [VStr "unknown event"]) (set_cells (λ _, [mkCell 0 []]) one_socket).

Lemma silent_handler_unknown_ack :
  let p := send_results 0 "/" 0 (event_packet "/" 5 "ping" []) in
  exec p silent_world = Some (tt, final p silent_world, [])
  ∧ events the_namespace !! "ping" = Some [1%nat]
  ∧ sent (final p silent_world)
    = [(9%nat, Encode (ack_packet "/" 5 [VStr "unknown event"]), false)].
Proof.
  intros p. split_and!.
  - apply exec_final. vm_compute. reflexivity.
  - vm_compute. reflexivity.
  - vm_compute. reflexivity.
Qed.

(** Broadcasting a reader: the first target's frames carry its bytes, every
    later one an empty buffer. *)
Definition two_sockets : Demo.world :=
  mkWorld
    {["/" := mkNamespace {[Demo.sid := 0%nat; socket_id Demo.rand 1 := 1%nat]}
               (AddSocket (socket_id Demo.rand 1) (AddSocket Demo.sid Memory.NewMemoryAdapter))
               [] [] [] [] [] ∅ []]}
    {[9%nat := 0%nat; 10%nat := 1%nat]} None false
    [the_conn; mkConn 10 {["/" := 1%nat]} None newPacketQueue true]
    [the_socket; mkSocket (socket_id Demo.rand 1) "/" 1 true newAckTable]
    [] [] {[0%nat := Remaining (bytes_of "data")]} 2 0 false 0%nat.

Lemma broadcast_reader_drained :
  let p := broadcast Demo.ord "/" "" [] "file" [VReader 0] in
  exec p two_sockets = Some (tt, final p two_sockets, [])
  ∧ (λ f, (f.1.2, f.2)) <$> filter (λ f, f.2 = true) (sent (final p two_sockets))
    = [(bytes_of "data", true); ([], true)].
Proof.
  intros p. split.
  - apply exec_final. vm_compute. reflexivity.
  - vm_compute. reflexivity.
Qed.
