(* ===== verification/EngineTypes.v ===== *)
(** * EngineTypes: the shared state of the Engine.IO server

    The structs of [engineio/socket.go], [server.go], [transport/polling.go]
    and [transport/websocket.go], and what they use of the runtime: timers
    ([time.AfterFunc], [Stop]), channels that are only closed, HTTP exchanges
    (a request with its [ResponseWriter]) and WebSocket connections.

    Pointers are indices into the list of the things allocated.  The
    coder/websocket connection is third-party: its state [C] and its
    operations are a parameter ([WebsocketConn]), as is the user's state [U].
    Time is not modelled: an armed timer may fire at any moment, and its
    duration is kept as data. *)

From S2P Require Import Prelude.
From S2P Require Import EnginePacket.
From S2P Require Import Sched.

Abbreviation fn := nat.
Abbreviation sockp := nat.
Abbreviation exchp := nat.
Abbreviation chanp := nat.
Abbreviation timerp := nat.
Abbreviation connp := nat.

(** ** Data *)

(** [transport.Transport], by the type that implements it. *)
Inductive tport := TPolling (p : nat) | TWebsocket (p : nat).

#[export] Instance tport_eq_dec : EqDecision tport.
Proof. solve_decision. Defined.

(** [Name]. *)
Definition transport_Name (t : tport) : string :=
  match t with TPolling _ => "polling" | TWebsocket _ => "websocket" end.

(** [transport.Handler]: the socket's [transportBinding], or the
    [upgradeHandler] of a candidate transport with what its closures capture:
    the session, the candidate, the upgrade timer and [stopCheck]. *)
Inductive handler :=
| HBinding (s : sockp) (t : tport)
| HUpgrade (s : sockp) (t : tport) (upgradeTimeout : timerp) (stopCheck : chanp).

#[export] Instance handler_eq_dec : EqDecision handler.
Proof. solve_decision. Defined.

(** The errors a transport reports. *)
Inductive terror :=
| ErrRequestOverlap
| ErrDataRequestActive
| ErrPollClosed
| ErrContentType
| ErrBody (msg : string)
| ErrCodec (e : codec_error)
| ErrConn (msg : string).

#[export] Instance terror_eq_dec : EqDecision terror.
Proof. solve_decision. Defined.

(** The error a session is closed with: [ErrHeartbeatTimeout], or a
    transport's, rewrapped as [engineio.ErrInvalidPacket] or not. *)
Inductive cerror := ErrHeartbeatTimeout | WrapInvalidPacket (e : terror) | TransportError (e : terror).

#[export] Instance cerror_eq_dec : EqDecision cerror.
Proof. solve_decision. Defined.

Inductive readyState := stateOpening | stateOpen | stateClosing | stateClosed.

#[export] Instance readyState_eq_dec : EqDecision readyState.
Proof. solve_decision. Defined.

(** An HTTP request, as far as the handlers look at it: the query as
    [url.Values.Get] reads it, the body, and the error its reader fails with
    after these bytes. *)
Record request := mkRequest {
  rq_method : string;
  rq_query : list (string * string);
  rq_content_type : string;
  rq_body : bytes;
  rq_fails : option string;
  rq_addr : string
}.

(** [url.Values.Get]. *)
Definition query_get (q : list (string * string)) (k : string) : string :=
  default "" (snd <$> (list_find (λ kv, kv.1 = k) q ≫= λ iv, Some iv.2)).

(** A request being served, with its [ResponseWriter]: the headers set, the
    status sent (the first [WriteHeader] wins), the body written.  [x_gone]:
    the request's context is done.  [x_over]: [ServeHTTP] has returned.
    [x_misused] records a response begun after that, or begun twice. *)
Record exchange := mkExchange {
  x_req : request;
  x_header : list (string * string);
  x_status : option Z;
  x_body : bytes;
  x_gone : bool;
  x_over : bool;
  x_misused : bool
}.

(** A [time.Timer] of [AfterFunc]. *)
Inductive timer_state := Armed | Fired | Stopped.
Record timer := mkTimer { tm_dur : Z; tm_state : timer_state }.

#[export] Instance timer_state_eq_dec : EqDecision timer_state.
Proof. solve_decision. Defined.

(** A channel that is only ever closed, and which [make] made it: the
    [pollDone] of a poll, or the [stopCheck] of an upgrade. *)
Inductive chan_use := PollDone (x : exchp) | StopCheck.
Record chan := mkChan { ch_use : chan_use; ch_closed : bool }.

(** [transport.Polling] *)
Record polling := mkPolling {
  p_handler : option handler;
  p_req : option exchp;
  p_res : option exchp;
  p_pollDone : option chanp;
  p_dataReq : option exchp;
  p_writable : bool;
  p_sendBuffer : list Packet;
  p_discarded : bool;
  p_closed : bool;
  p_pendingClose : bool;
  p_closeTimer : option timerp;
  p_maxBufferSize : Z
}.

(** [transport.Websocket]; [ws_cancelled]: its context is cancelled;
    [ws_reading]: [readOnce] is done. *)
Record websocket := mkWebsocket {
  ws_conn : connp;
  ws_handler : option handler;
  ws_writable : bool;
  ws_discarded : bool;
  ws_closed : bool;
  ws_cancelled : bool;
  ws_reading : bool
}.

(** [engineio.Socket]; the session's options are the server's. *)
Record esocket := mkESocket {
  es_id : string;
  es_remoteAddr : string;
  es_readyState : readyState;
  es_transport : option tport;
  es_pollingTport : option tport;
  es_binding : option handler;
  es_writeBuffer : list Packet;
  es_upgrading : bool;
  es_upgraded : bool;
  es_sending : bool;
  es_pingIntervalTimer : option timerp;
  es_pingTimeoutTimer : option timerp;
  es_onData : option fn
}.

(** [engineio.Options]; durations in nanoseconds. *)
Record options := mkOptions {
  PingInterval : Z;
  PingTimeout : Z;
  UpgradeTimeout : Z;
  MaxHTTPBufferSize : Z;
  Transports : list string;
  AllowUpgrades : bool;
  AllowRequest : option (request → option string);
  GenerateID : option (request → string)
}.

(** The calls of the layer above: the callbacks of [Server]. *)
Inductive up_event :=
| UpConnect (s : sockp)
| UpData (s : sockp) (data : bytes) (binary : bool)
| UpClose (s : sockp) (reason : string) (err : option cerror).

(** The methods that call each other in a circle, through the interfaces
    [Transport] and [Handler], or through the timer they arm. *)
Inductive method_name :=
| MSend (t : tport) (pkts : list Packet)
| MClose (t : tport)
| MOnPacket (h : handler) (p : Packet)
| MOnError (h : handler) (e : terror)
| MOnClose (h : handler)
| MOnReady (h : handler)
| MFlush (s : sockp)
| MPing (s : sockp).

(** Field updates of the structs. *)
Definition set_p_handler v (x : polling) : polling :=
  mkPolling v (p_req x) (p_res x) (p_pollDone x) (p_dataReq x) (p_writable x) (p_sendBuffer x)
    (p_discarded x) (p_closed x) (p_pendingClose x) (p_closeTimer x) (p_maxBufferSize x).
Definition set_p_req v (x : polling) : polling :=
  mkPolling (p_handler x) v (p_res x) (p_pollDone x) (p_dataReq x) (p_writable x)
    (p_sendBuffer x) (p_discarded x) (p_closed x) (p_pendingClose x) (p_closeTimer x)
    (p_maxBufferSize x).
Definition set_p_res v (x : polling) : polling :=
  mkPolling (p_handler x) (p_req x) v (p_pollDone x) (p_dataReq x) (p_writable x)
    (p_sendBuffer x) (p_discarded x) (p_closed x) (p_pendingClose x) (p_closeTimer x)
    (p_maxBufferSize x).
Definition set_p_pollDone v (x : polling) : polling :=
  mkPolling (p_handler x) (p_req x) (p_res x) v (p_dataReq x) (p_writable x) (p_sendBuffer x)
    (p_discarded x) (p_closed x) (p_pendingClose x) (p_closeTimer x) (p_maxBufferSize x).
Definition set_p_dataReq v (x : polling) : polling :=
  mkPolling (p_handler x) (p_req x) (p_res x) (p_pollDone x) v (p_writable x) (p_sendBuffer x)
    (p_discarded x) (p_closed x) (p_pendingClose x) (p_closeTimer x) (p_maxBufferSize x).
Definition set_p_writable v (x : polling) : polling :=
  mkPolling (p_handler x) (p_req x) (p_res x) (p_pollDone x) (p_dataReq x) v (p_sendBuffer x)
    (p_discarded x) (p_closed x) (p_pendingClose x) (p_closeTimer x) (p_maxBufferSize x).
Definition set_p_sendBuffer v (x : polling) : polling :=
  mkPolling (p_handler x) (p_req x) (p_res x) (p_pollDone x) (p_dataReq x) (p_writable x) v
    (p_discarded x) (p_closed x) (p_pendingClose x) (p_closeTimer x) (p_maxBufferSize x).
Definition set_p_discarded v (x : polling) : polling :=
  mkPolling (p_handler x) (p_req x) (p_res x) (p_pollDone x) (p_dataReq x) (p_writable x)
    (p_sendBuffer x) v (p_closed x) (p_pendingClose x) (p_closeTimer x) (p_maxBufferSize x).
Definition set_p_closed v (x : polling) : polling :=
  mkPolling (p_handler x) (p_req x) (p_res x) (p_pollDone x) (p_dataReq x) (p_writable x)
    (p_sendBuffer x) (p_discarded x) v (p_pendingClose x) (p_closeTimer x) (p_maxBufferSize x).
Definition set_p_pendingClose v (x : polling) : polling :=
  mkPolling (p_handler x) (p_req x) (p_res x) (p_pollDone x) (p_dataReq x) (p_writable x)
    (p_sendBuffer x) (p_discarded x) (p_closed x) v (p_closeTimer x) (p_maxBufferSize x).
Definition set_p_closeTimer v (x : polling) : polling :=
  mkPolling (p_handler x) (p_req x) (p_res x) (p_pollDone x) (p_dataReq x) (p_writable x)
    (p_sendBuffer x) (p_discarded x) (p_closed x) (p_pendingClose x) v (p_maxBufferSize x).
Definition set_p_maxBufferSize v (x : polling) : polling :=
  mkPolling (p_handler x) (p_req x) (p_res x) (p_pollDone x) (p_dataReq x) (p_writable x)
    (p_sendBuffer x) (p_discarded x) (p_closed x) (p_pendingClose x) (p_closeTimer x) v.
Definition set_ws_handler v (x : websocket) : websocket :=
  mkWebsocket (ws_conn x) v (ws_writable x) (ws_discarded x) (ws_closed x) (ws_cancelled x)
    (ws_reading x).
Definition set_ws_writable v (x : websocket) : websocket :=
  mkWebsocket (ws_conn x) (ws_handler x) v (ws_discarded x) (ws_closed x) (ws_cancelled x)
    (ws_reading x).
Definition set_ws_discarded v (x : websocket) : websocket :=
  mkWebsocket (ws_conn x) (ws_handler x) (ws_writable x) v (ws_closed x) (ws_cancelled x)
    (ws_reading x).
Definition set_ws_closed v (x : websocket) : websocket :=
  mkWebsocket (ws_conn x) (ws_handler x) (ws_writable x) (ws_discarded x) v (ws_cancelled x)
    (ws_reading x).
Definition set_ws_cancelled v (x : websocket) : websocket :=
  mkWebsocket (ws_conn x) (ws_handler x) (ws_writable x) (ws_discarded x) (ws_closed x) v
    (ws_reading x).
Definition set_ws_reading v (x : websocket) : websocket :=
  mkWebsocket (ws_conn x) (ws_handler x) (ws_writable x) (ws_discarded x) (ws_closed x)
    (ws_cancelled x) v.
Definition set_es_readyState v (x : esocket) : esocket :=
  mkESocket (es_id x) (es_remoteAddr x) v (es_transport x) (es_pollingTport x) (es_binding x)
    (es_writeBuffer x) (es_upgrading x) (es_upgraded x) (es_sending x) (es_pingIntervalTimer x)
    (es_pingTimeoutTimer x) (es_onData x).
Definition set_es_transport v (x : esocket) : esocket :=
  mkESocket (es_id x) (es_remoteAddr x) (es_readyState x) v (es_pollingTport x) (es_binding x)
    (es_writeBuffer x) (es_upgrading x) (es_upgraded x) (es_sending x) (es_pingIntervalTimer x)
    (es_pingTimeoutTimer x) (es_onData x).
Definition set_es_pollingTport v (x : esocket) : esocket :=
  mkESocket (es_id x) (es_remoteAddr x) (es_readyState x) (es_transport x) v (es_binding x)
    (es_writeBuffer x) (es_upgrading x) (es_upgraded x) (es_sending x) (es_pingIntervalTimer x)
    (es_pingTimeoutTimer x) (es_onData x).
Definition set_es_binding v (x : esocket) : esocket :=
  mkESocket (es_id x) (es_remoteAddr x) (es_readyState x) (es_transport x) (es_pollingTport x) v
    (es_writeBuffer x) (es_upgrading x) (es_upgraded x) (es_sending x) (es_pingIntervalTimer x)
    (es_pingTimeoutTimer x) (es_onData x).
Definition set_es_writeBuffer v (x : esocket) : esocket :=
  mkESocket (es_id x) (es_remoteAddr x) (es_readyState x) (es_transport x) (es_pollingTport x)
    (es_binding x) v (es_upgrading x) (es_upgraded x) (es_sending x) (es_pingIntervalTimer x)
    (es_pingTimeoutTimer x) (es_onData x).
Definition set_es_upgrading v (x : esocket) : esocket :=
  mkESocket (es_id x) (es_remoteAddr x) (es_readyState x) (es_transport x) (es_pollingTport x)
    (es_binding x) (es_writeBuffer x) v (es_upgraded x) (es_sending x) (es_pingIntervalTimer x)
    (es_pingTimeoutTimer x) (es_onData x).
Definition set_es_upgraded v (x : esocket) : esocket :=
  mkESocket (es_id x) (es_remoteAddr x) (es_readyState x) (es_transport x) (es_pollingTport x)
    (es_binding x) (es_writeBuffer x) (es_upgrading x) v (es_sending x) (es_pingIntervalTimer x)
    (es_pingTimeoutTimer x) (es_onData x).
Definition set_es_sending v (x : esocket) : esocket :=
  mkESocket (es_id x) (es_remoteAddr x) (es_readyState x) (es_transport x) (es_pollingTport x)
    (es_binding x) (es_writeBuffer x) (es_upgrading x) (es_upgraded x) v (es_pingIntervalTimer x)
    (es_pingTimeoutTimer x) (es_onData x).
Definition set_es_pingIntervalTimer v (x : esocket) : esocket :=
  mkESocket (es_id x) (es_remoteAddr x) (es_readyState x) (es_transport x) (es_pollingTport x)
    (es_binding x) (es_writeBuffer x) (es_upgrading x) (es_upgraded x) (es_sending x) v
    (es_pingTimeoutTimer x) (es_onData x).
Definition set_es_pingTimeoutTimer v (x : esocket) : esocket :=
  mkESocket (es_id x) (es_remoteAddr x) (es_readyState x) (es_transport x) (es_pollingTport x)
    (es_binding x) (es_writeBuffer x) (es_upgrading x) (es_upgraded x) (es_sending x)
    (es_pingIntervalTimer x) v (es_onData x).
Definition set_x_header v (x : exchange) : exchange :=
  mkExchange (x_req x) v (x_status x) (x_body x) (x_gone x) (x_over x) (x_misused x).
Definition set_x_status v (x : exchange) : exchange :=
  mkExchange (x_req x) (x_header x) v (x_body x) (x_gone x) (x_over x) (x_misused x).
Definition set_x_body v (x : exchange) : exchange :=
  mkExchange (x_req x) (x_header x) (x_status x) v (x_gone x) (x_over x) (x_misused x).
Definition set_x_gone v (x : exchange) : exchange :=
  mkExchange (x_req x) (x_header x) (x_status x) (x_body x) v (x_over x) (x_misused x).
Definition set_x_over v (x : exchange) : exchange :=
  mkExchange (x_req x) (x_header x) (x_status x) (x_body x) (x_gone x) v (x_misused x).
Definition set_x_misused v (x : exchange) : exchange :=
  mkExchange (x_req x) (x_header x) (x_status x) (x_body x) (x_gone x) (x_over x) v.

(** ** The WebSocket library *)

(** [websocket.Conn]: [Read] and [Write] with a context that is cancelled or
    not, [None] while they wait; [Read] gives an error or a message with its
    type; [Close] and [CloseNow].  [Accept] takes over the connection of a request, or fails
    and answers it itself with a status and a body. *)
Class WebsocketConn (C : Type) := {
  ws_accept : request → result (Z * bytes) C;
  ws_read : C → bool → option (option (bool * bytes) * C);
  ws_write : C → bool → bool → bytes → option (option string * C);
  ws_close : C → C;
  ws_closeNow : C → C
}.

(** The frame a packet is sent as over a connection; the connection [c] takes
    the frames and becomes [c']. *)
Definition frame_of (pk : Packet) : bool * bytes :=
  (IsBinary pk, if IsBinary pk then Data pk else EncodePacket pk true).

Fixpoint accepts {C : Type} `{!WebsocketConn C} (c : C) (fs : list (bool * bytes)) (c' : C) : Prop :=
  match fs with
  | [] => c' = c
  | (b, data) :: fs' => ∃ c1, ws_write c false b data = Some (None, c1) ∧ accepts c1 fs' c'
  end.

Section State.
Context {C U : Type}.

(** [Server] and everything allocated by it; [rnd] counts the random ids
    drawn and [tick] the choices of [select]; [panicked] is a panic nothing
    recovers. *)
Record world := mkWorld {
  opts : options;
  clients : gmap string sockp;
  srv_onConnect : option fn;
  srv_onData : option fn;
  srv_onClose : option fn;
  sks : list esocket;
  polls : list polling;
  wss : list websocket;
  wconns : list C;
  exchs : list exchange;
  chans : list chan;
  timers : list timer;
  uplog : list up_event;
  rnd : nat;
  tick : nat;
  panicked : bool;
  app : U
}.

(** Field updates. *)
Definition set_clients f w := mkWorld (opts w) (f (clients w)) (srv_onConnect w) (srv_onData w)
  (srv_onClose w) (sks w) (polls w) (wss w) (wconns w) (exchs w) (chans w) (timers w) (uplog w)
  (rnd w) (tick w) (panicked w) (app w).
Definition set_callbacks f g h w := mkWorld (opts w) (clients w) (f (srv_onConnect w))
  (g (srv_onData w)) (h (srv_onClose w)) (sks w) (polls w) (wss w) (wconns w) (exchs w) (chans w)
  (timers w) (uplog w) (rnd w) (tick w) (panicked w) (app w).
Definition set_sks f w := mkWorld (opts w) (clients w) (srv_onConnect w) (srv_onData w)
  (srv_onClose w) (f (sks w)) (polls w) (wss w) (wconns w) (exchs w) (chans w) (timers w) (uplog w)
  (rnd w) (tick w) (panicked w) (app w).
Definition set_polls f w := mkWorld (opts w) (clients w) (srv_onConnect w) (srv_onData w)
  (srv_onClose w) (sks w) (f (polls w)) (wss w) (wconns w) (exchs w) (chans w) (timers w) (uplog w)
  (rnd w) (tick w) (panicked w) (app w).
Definition set_wss f w := mkWorld (opts w) (clients w) (srv_onConnect w) (srv_onData w)
  (srv_onClose w) (sks w) (polls w) (f (wss w)) (wconns w) (exchs w) (chans w) (timers w) (uplog w)
  (rnd w) (tick w) (panicked w) (app w).
Definition set_wconns f w := mkWorld (opts w) (clients w) (srv_onConnect w) (srv_onData w)
  (srv_onClose w) (sks w) (polls w) (wss w) (f (wconns w)) (exchs w) (chans w) (timers w) (uplog w)
  (rnd w) (tick w) (panicked w) (app w).
Definition set_exchs f w := mkWorld (opts w) (clients w) (srv_onConnect w) (srv_onData w)
  (srv_onClose w) (sks w) (polls w) (wss w) (wconns w) (f (exchs w)) (chans w) (timers w) (uplog w)
  (rnd w) (tick w) (panicked w) (app w).
Definition set_chans f w := mkWorld (opts w) (clients w) (srv_onConnect w) (srv_onData w)
  (srv_onClose w) (sks w) (polls w) (wss w) (wconns w) (exchs w) (f (chans w)) (timers w) (uplog w)
  (rnd w) (tick w) (panicked w) (app w).
Definition set_timers f w := mkWorld (opts w) (clients w) (srv_onConnect w) (srv_onData w)
  (srv_onClose w) (sks w) (polls w) (wss w) (wconns w) (exchs w) (chans w) (f (timers w)) (uplog w)
  (rnd w) (tick w) (panicked w) (app w).
Definition set_uplog f w := mkWorld (opts w) (clients w) (srv_onConnect w) (srv_onData w)
  (srv_onClose w) (sks w) (polls w) (wss w) (wconns w) (exchs w) (chans w) (timers w) (f (uplog w))
  (rnd w) (tick w) (panicked w) (app w).
Definition set_rnd n w := mkWorld (opts w) (clients w) (srv_onConnect w) (srv_onData w)
  (srv_onClose w) (sks w) (polls w) (wss w) (wconns w) (exchs w) (chans w) (timers w) (uplog w)
  n (tick w) (panicked w) (app w).
Definition set_tick n w := mkWorld (opts w) (clients w) (srv_onConnect w) (srv_onData w)
  (srv_onClose w) (sks w) (polls w) (wss w) (wconns w) (exchs w) (chans w) (timers w) (uplog w)
  (rnd w) n (panicked w) (app w).
Definition set_panicked b w := mkWorld (opts w) (clients w) (srv_onConnect w) (srv_onData w)
  (srv_onClose w) (sks w) (polls w) (wss w) (wconns w) (exchs w) (chans w) (timers w) (uplog w)
  (rnd w) (tick w) b (app w).
Definition set_app f w := mkWorld (opts w) (clients w) (srv_onConnect w) (srv_onData w)
  (srv_onClose w) (sks w) (polls w) (wss w) (wconns w) (exchs w) (chans w) (timers w) (uplog w)
  (rnd w) (tick w) (panicked w) (f (app w)).

(** An object updated in place. *)
Definition upd_sk (s : sockp) (f : esocket → esocket) : world → world := set_sks (alter f s).
Definition upd_poll (p : nat) (f : polling → polling) : world → world := set_polls (alter f p).
Definition upd_ws (p : nat) (f : websocket → websocket) : world → world := set_wss (alter f p).
Definition upd_exch (x : exchp) (f : exchange → exchange) : world → world := set_exchs (alter f x).

(** ** The runtime *)

(** [make(chan struct{})], and [close], which panics on a closed channel. *)
Definition add_chan (u : chan_use) (w : world) : chanp * world :=
  (length (chans w), set_chans (λ l, l ++ [mkChan u false]) w).
Definition close_chan (d : chanp) (w : world) : world :=
  match chans w !! d with
  | Some (mkChan u false) => set_chans <[d := mkChan u true]> w
  | _ => set_panicked true w
  end.
Definition is_closed (d : chanp) (w : world) : bool :=
  match chans w !! d with Some c => ch_closed c | None => true end.

(** [time.AfterFunc] and [Stop]: a stopped timer never runs its function, and
    stopping one that fired does nothing. *)
Definition add_timer (d : Z) (w : world) : timerp * world :=
  (length (timers w), set_timers (λ l, l ++ [mkTimer d Armed]) w).
Definition stop_timer (tm : timerp) : world → world :=
  set_timers (alter (λ t, mkTimer (tm_dur t)
    match tm_state t with Armed => Stopped | st => st end) tm).
Definition stop_opt (tm : option timerp) (w : world) : world :=
  match tm with Some tm => stop_timer tm w | None => w end.
Definition fire (tm : timerp) (w : world) : option (unit * world) :=
  match timers w !! tm with
  | Some (mkTimer d Armed) => Some (tt, set_timers <[tm := mkTimer d Fired]> w)
  | _ => None
  end.

(** The [ResponseWriter]: [Header().Set], [WriteHeader], [Write]. *)
Definition use_writer (f : exchange → exchange) (x : exchange) : exchange :=
  set_x_misused (x_misused x || x_over x || bool_decide (is_Some (x_status x))) (f x).
Definition header_set (k v : string) (x : exchange) : exchange :=
  set_x_header (filter (λ kv, kv.1 ≠ k) (x_header x) ++ [(k, v)]) x.
Definition write_header (status : Z) (x : exchange) : exchange :=
  match x_status x with None => set_x_status (Some status) x | Some _ => x end.
Definition write_body (b : bytes) (x : exchange) : exchange :=
  set_x_body (x_body x ++ b) (write_header 200 x).

Abbreviation P := (mprog world method_name).

Definition respond (x : exchp) (f : exchange → exchange) : P unit :=
  update (upd_exch x (use_writer f)).

(** Reading an object's field. *)
Definition sk_get {B} (s : sockp) (d : B) (f : esocket → B) : P B :=
  gets (λ w, match sks w !! s with Some k => f k | None => d end).
Definition poll_get {B} (p : nat) (d : B) (f : polling → B) : P B :=
  gets (λ w, match polls w !! p with Some k => f k | None => d end).
Definition ws_get {B} (p : nat) (d : B) (f : websocket → B) : P B :=
  gets (λ w, match wss w !! p with Some k => f k | None => d end).
End State.

#[global] Arguments world C U : clear implicits.
