(* ===== verification/EngineOptions.v ===== *)
(** * EngineOptions: options, protocol errors and the handshake data

    Models [engineio/options.go], [errors.go], the pure parts of [server.go]
    ([errorMessages], [errorCode], [upgradesFor]) and the JSON of
    [openPacketData]. *)

From S2P Require Import Prelude.
From S2P Require Import Strconv.
From S2P Require Import Json.
From S2P Require Import EnginePacket.
From S2P Require Import EngineTypes.

Definition Second : Z := 10 ^ 9.

(** [containsString] *)
Fixpoint containsString (list : list string) (s : string) : bool :=
  match list with
  | [] => false
  | v :: list' => if decide (v = s) then true else containsString list' s
  end.

Definition if_zero (z d : Z) : Z := if decide (z = 0) then d else z.

(** [withDefaults] *)
Definition withDefaults (o : options) : options :=
  let transports := if decide (length (Transports o) = 0%nat) then ["polling"; "websocket"]
                    else Transports o in
  mkOptions
    (if_zero (PingInterval o) (25 * Second))
    (if_zero (PingTimeout o) (20 * Second))
    (if_zero (UpgradeTimeout o) (10 * Second))
    (if_zero (MaxHTTPBufferSize o) (2 ^ 20))
    transports
    (AllowUpgrades o || containsString transports "websocket")
    (AllowRequest o) (GenerateID o).

(** [transportsEnabled], and indexing the map. *)
Definition transportsEnabled (o : options) : gmap string bool :=
  foldl (λ m t, <[t := true]> m) ∅ (Transports o).
Definition enabled (o : options) (t : string) : bool := default false (transportsEnabled o !! t).

(** [upgradesFor] *)
Definition upgradesFor (o : options) (transportName : string) : list string :=
  if negb (AllowUpgrades o) then []
  else if bool_decide (transportName = "polling") && enabled o "websocket" then ["websocket"]
  else [].

(** The sentinels [verify] returns. *)
Inductive verify_error :=
| ErrUnsupportedProtocol | ErrUnknownTransport | ErrBadHandshakeMethod
| ErrBadRequest | ErrForbidden | ErrUnknownSID.

#[export] Instance verify_error_eq_dec : EqDecision verify_error.
Proof. solve_decision. Defined.

(** The protocol error codes. *)
Definition ErrCodeUnknownTransport : Z := 0.
Definition ErrCodeUnknownSID : Z := 1.
Definition ErrCodeBadHandshakeMethod : Z := 2.
Definition ErrCodeBadRequest : Z := 3.
Definition ErrCodeForbidden : Z := 4.
Definition ErrCodeUnsupportedProtocolVersion : Z := 5.

(** [errorCode] *)
Definition errorCode (e : verify_error) : Z :=
  match e with
  | ErrUnsupportedProtocol => ErrCodeUnsupportedProtocolVersion
  | ErrUnknownTransport => ErrCodeUnknownTransport
  | ErrUnknownSID => ErrCodeUnknownSID
  | ErrBadHandshakeMethod => ErrCodeBadHandshakeMethod
  | ErrForbidden => ErrCodeForbidden
  | ErrBadRequest => ErrCodeBadRequest
  end.

(** [errorMessages] *)
Definition errorMessages (code : Z) : string :=
  default "" (snd <$> (list_find (λ cm, cm.1 = code)
    [(ErrCodeUnknownTransport, "Transport unknown");
     (ErrCodeUnknownSID, "Session ID unknown");
     (ErrCodeBadHandshakeMethod, "Bad handshake method");
     (ErrCodeBadRequest, "Bad request");
     (ErrCodeForbidden, "Forbidden");
     (ErrCodeUnsupportedProtocolVersion, "Unsupported protocol version")]
    ≫= λ im, Some im.2)).

(** [wrapInvalidPacket]: [errors.Is] sees the sentinel a codec error wraps. *)
Definition wrapInvalidPacket (e : terror) : cerror :=
  match e with ErrCodec ErrInvalidPacket => WrapInvalidPacket e | _ => TransportError e end.

(** [Duration.Milliseconds] *)
Definition milliseconds (d : Z) : Z := Z.quot d 1000000.

(** The JSON of [openPacketData]'s struct. *)
Definition handshake_json (sid : string) (upgrades : list string) (o : options) : bytes :=
  object_text
    [("sid", quoted (bytes_of sid));
     ("upgrades", array_text ((λ u, quoted (bytes_of u)) <$> upgrades));
     ("pingInterval", FormatInt (milliseconds (PingInterval o)));
     ("pingTimeout", FormatInt (milliseconds (PingTimeout o)));
     ("maxPayload", FormatInt (MaxHTTPBufferSize o))].

(** The answer of [abortRequest]; [json.Encoder] ends it with a newline. *)
Definition abort_status (code : Z) : Z := if decide (code = ErrCodeForbidden) then 403 else 400.
Definition abort_body (code : Z) (msg : string) : bytes :=
  object_text [("code", FormatInt code); ("message", quoted (bytes_of msg))] ++ ["010"%byte].
Definition abort_response (code : Z) (ctx : option string) (x : exchange) : exchange :=
  write_body (abort_body code (default (errorMessages code) ctx))
    (write_header (abort_status code) (header_set "Content-Type" "application/json" x)).

Lemma containsString_spec l s : containsString l s = true ↔ s ∈ l.
Proof.
  induction l as [|v l IH]; simpl; [set_solver|]. rewrite elem_of_cons.
  destruct (decide (v = s)) as [->|]; naive_solver.
Qed.

(** [withDefaults] fills exactly the fields left at zero: the durations,
    the limit and the transports are set afterwards, those given are kept, and
    applying it again changes nothing.  [AllowUpgrades] is kept as false only
    when WebSocket is not among the transports: a server that offers WebSocket
    cannot be told not to upgrade. *)
Theorem withDefaults_spec o :
  let o' := withDefaults o in
  (PingInterval o' ≠ 0 ∧ PingTimeout o' ≠ 0 ∧ UpgradeTimeout o' ≠ 0 ∧ MaxHTTPBufferSize o' ≠ 0
   ∧ Transports o' ≠ []) ∧
  ((PingInterval o ≠ 0 → PingInterval o' = PingInterval o) ∧
   (PingTimeout o ≠ 0 → PingTimeout o' = PingTimeout o) ∧
   (UpgradeTimeout o ≠ 0 → UpgradeTimeout o' = UpgradeTimeout o) ∧
   (MaxHTTPBufferSize o ≠ 0 → MaxHTTPBufferSize o' = MaxHTTPBufferSize o) ∧
   (Transports o ≠ [] → Transports o' = Transports o)) ∧
  withDefaults o' = o' ∧
  (AllowUpgrades o' = false ↔ AllowUpgrades o = false ∧ "websocket" ∉ Transports o').
Proof.
  destruct o as [i t u m l a r g].
  assert (∀ z d, d ≠ 0 → if_zero z d ≠ 0 ∧ (z ≠ 0 → if_zero z d = z)
            ∧ if_zero (if_zero z d) d = if_zero z d) as Hz.
  { intros z d Hd. unfold if_zero. repeat case_decide; naive_solver. }
  unfold withDefaults. simpl.
  set (l' := if decide (length l = 0%nat) then ["polling"; "websocket"] else l).
  assert (l' ≠ [] ∧ (l ≠ [] → l' = l)) as [Hne Hl] by (unfold l'; destruct l; naive_solver).
  split_and!; try (by apply Hz); [exact Hne|exact Hl| |].
  - rewrite decide_False by (by destruct l'). f_equal; try (by apply Hz).
    rewrite <- orb_assoc. by rewrite orb_diag.
  - rewrite orb_false_iff, <- (containsString_spec _ "websocket"). destruct (containsString _ _); naive_solver.
Qed.
