(* ===== verification/OpenPacket.v ===== *)
(** * OpenPacket: the handshake data, read by the client

    The server writes the data of the open packet as a struct
    ([EngineOptions.handshake_json]); [handleOpen] of [engineio/client.go]
    reads it with [json.Unmarshal] into a struct.  [decode_open] models the
    latter: members are matched to fields by exact name, else by the folded
    name, later members replace earlier ones, [null] leaves a field alone,
    unknown members are skipped, and a value of another type is an error.
    Numbers are kept as their literals, which [int64] fields parse. *)

From S2P Require Import Prelude.
From S2P Require Import Strconv.
From S2P Require Import Utf8.
From S2P Require Import Value.
From S2P Require Import Json.
From S2P Require Import EnginePacket.
From S2P Require Import EngineTypes.
From S2P Require Import EngineOptions.

(** ** Numbers as literals *)

#[local] Instance literal : Float64 := {|
  f64 := bytes;
  f64_of_Z := FormatInt;
  f64_to_Z := λ b, (ParseInt b).1;
  f64_format := λ b, if decide (number_literal b) then Some b else None;
  f64_parse := Some
|}.

#[local] Instance literal_laws : Float64Laws.
Proof.
  split; simpl.
  - intros n Hn. rewrite ParseInt_FormatInt; [done|]. unfold f64_exact, int64_max in *. lia.
  - intros n Hn. rewrite decide_True; [done|]. apply FormatInt_literal.
    unfold f64_exact, int64_max in *. lia.
  - intros x s. destruct (decide (number_literal x)); [|done]. by intros [= <-].
Qed.

(** ** Reading the members of an object in their order *)

Definition parse_member (fuel depth : nat) (s : bytes) : option (bytes * gval * bytes) :=
  match skip_ws s with
  | q :: r =>
      if decide (q = quote) then
        match unquote (length r) r with
        | Some (k, r1) =>
            match skip_ws r1 with
            | c :: r2 =>
                if decide (c = colon) then
                  (λ vr, (k, vr.1, vr.2)) <$> parse_value fuel depth r2
                else None
            | [] => None
            end
        | None => None
        end
      else None
  | [] => None
  end.

Fixpoint raw_members (fuel depth : nat) (s : bytes) : option (list (bytes * gval) * bytes) :=
  match fuel with
  | O => None
  | S fuel' =>
      match parse_member fuel' depth s with
      | Some (k, v, r) =>
          match skip_ws r with
          | c :: r' =>
              if decide (c = jcomma) then
                (λ msr, ((k, v) :: msr.1, msr.2)) <$> raw_members fuel' depth r'
              else if decide (c = "}"%byte) then Some ([(k, v)], r') else None
          | [] => None
          end
      | None => None
      end
  end.

(** ** The struct *)

Record open_packet := mkOpen {
  o_sid : string;
  o_upgrades : list string;
  o_pingInterval : Z;
  o_pingTimeout : Z;
  o_maxPayload : Z
}.
Definition zero_open : open_packet := mkOpen "" [] 0 0 0.

Inductive open_field := FSid | FUpgrades | FPingInterval | FPingTimeout | FMaxPayload.

Definition field_names : list (bytes * open_field) :=
  [(bytes_of "sid", FSid); (bytes_of "upgrades", FUpgrades);
   (bytes_of "pingInterval", FPingInterval); (bytes_of "pingTimeout", FPingTimeout);
   (bytes_of "maxPayload", FMaxPayload)].

(** [foldName]: ASCII letters, and the two runes that fold to one, in upper
    case. *)
Definition upper (c : Byte.byte) : Byte.byte :=
  if in_range 97 122 c then byte_of_val (byte_val c - 32) else c.
Fixpoint fold_name (s : bytes) : bytes :=
  match s with
  | xc5 :: xbf :: s' => "S"%byte :: fold_name s'
  | xe2 :: x84 :: xaa :: s' => "K"%byte :: fold_name s'
  | c :: s' => upper c :: fold_name s'
  | [] => []
  end.

Definition field_of (k : bytes) : option open_field :=
  match list_find (λ nf, nf.1 = k) field_names with
  | Some (_, nf) => Some nf.2
  | None => (λ inf, inf.2.2) <$> list_find (λ nf, fold_name nf.1 = fold_name k) field_names
  end.

(** The value of an [int64] field; [None]: a type error. *)
Definition int_value (old : Z) (v : gval) : option Z :=
  match v with
  | VNil => Some old
  | VNum lit => match ParseInt lit with (n, None) => Some n | _ => None end
  | _ => None
  end.
Definition string_value (old : string) (v : gval) : option string :=
  match v with VNil => Some old | VStr s => Some s | _ => None end.

Definition set_field (f : open_field) (v : gval) (o : open_packet) : option open_packet :=
  match f with
  | FSid => (λ s, mkOpen s (o_upgrades o) (o_pingInterval o) (o_pingTimeout o) (o_maxPayload o))
            <$> string_value (o_sid o) v
  | FUpgrades =>
      (λ l, mkOpen (o_sid o) l (o_pingInterval o) (o_pingTimeout o) (o_maxPayload o))
      <$> match v with
          | VNil => Some []
          | VArr l => option_map_list (string_value "") l
          | _ => None
          end
  | FPingInterval => (λ n, mkOpen (o_sid o) (o_upgrades o) n (o_pingTimeout o) (o_maxPayload o))
                     <$> int_value (o_pingInterval o) v
  | FPingTimeout => (λ n, mkOpen (o_sid o) (o_upgrades o) (o_pingInterval o) n (o_maxPayload o))
                    <$> int_value (o_pingTimeout o) v
  | FMaxPayload => (λ n, mkOpen (o_sid o) (o_upgrades o) (o_pingInterval o) (o_pingTimeout o) n)
                   <$> int_value (o_maxPayload o) v
  end.

Fixpoint set_fields (ms : list (bytes * gval)) (o : open_packet) : option open_packet :=
  match ms with
  | [] => Some o
  | (k, v) :: ms' =>
      match field_of k with
      | Some f => set_field f v o ≫= set_fields ms'
      | None => set_fields ms' o
      end
  end.

(** [json.Unmarshal(data, &o)]; [None]: it returns an error. *)
Definition decode_open (data : bytes) : option open_packet :=
  match skip_ws data with
  | c :: r =>
      if decide (c = "{"%byte) then
        match skip_ws r with
        | c' :: r' =>
            if decide (c' = "}"%byte) then
              if decide (skip_ws r' = []) then Some zero_open else None
            else
              match raw_members (2 * length r) (pred json_max_depth) r with
              | Some (ms, rest) =>
                  if decide (skip_ws rest = []) then set_fields ms zero_open else None
              | None => None
              end
        | [] => None
        end
      else match unmarshal data with Some VNil => Some zero_open | _ => None end
  | [] => None
  end.

(** ** The handshake data reads back *)

(** A member: its key, the value read, and its text. *)
Abbreviation entry := (string * (gval * bytes))%type.

Lemma parse_member_ok depth (t : entry) tl fuel :
  reads depth t.2.1 t.2.2 → utf8_valid (bytes_of t.1) = true →
  (2 * length t.2.2 ≤ fuel)%nat → ends_number tl →
  parse_member fuel depth (entry_text t ++ tl) = Some (bytes_of t.1, json_view t.2.1, tl).
Proof.
  destruct t as [k [v j]]. cbn [fst snd]. intros Hr Hk Hf Htl. unfold entry_text, member_text. cbn [fst snd].
  rewrite <- app_assoc. destruct (unquote_quoted (bytes_of k) ((colon :: j) ++ tl) Hk) as (body & -> & Hu).
  unfold parse_member. rewrite skip_ws_id by done. rewrite decide_True, Hu by done.
  change ((colon :: j) ++ tl) with (colon :: j ++ tl). rewrite skip_ws_id by done. rewrite decide_True by done. by rewrite Hr.
Qed.

Lemma raw_members_ok depth (T : list entry) :
  Forall (λ t, reads depth t.2.1 t.2.2 ∧ utf8_valid (bytes_of t.1) = true) T → T ≠ [] →
  ∀ fuel rest, (2 * length (join_with jcomma (entry_text <$> T) ++ ["}"%byte]) ≤ fuel)%nat →
  raw_members fuel depth (join_with jcomma (entry_text <$> T) ++ "}"%byte :: rest)
  = Some ((λ t, (bytes_of t.1, json_view t.2.1)) <$> T, rest).
Proof.
  induction 1 as [|t T [Hr Hk] HF IH]; [done|]. intros _ fuel rest Hf.
  assert (length t.2.2 < length (entry_text t))%nat as Hlen.
  { unfold entry_text, member_text. rewrite length_app. simpl. lia. }
  rewrite length_app in Hf. cbn [length] in Hf.
  destruct fuel as [|fuel]; [lia|]. cbn [raw_members].
  destruct (decide (T = [])) as [->|HT].
  - cbn [fmap list_fmap join_with] in *. rewrite parse_member_ok; [|done..|lia|by apply ends_number_byte].
    cbn beta iota. rewrite skip_ws_id by done. by rewrite decide_False, decide_True.
  - rewrite fmap_cons in *. rewrite join_with_cons in * by (by destruct T).
    rewrite length_app in Hf. cbn [length] in Hf. rewrite <- app_assoc. cbn [Datatypes.app].
    rewrite parse_member_ok; [|done..|lia|by apply ends_number_byte].
    cbn beta iota. rewrite skip_ws_id by done. rewrite decide_True by done.
    rewrite IH; [done|done|]. rewrite length_app. simpl. lia.
Qed.

(** The values of the handshake data. *)
Lemma reads_string_ok depth (s : string) :
  utf8_valid (bytes_of s) = true → reads depth (VStr s) (quoted (bytes_of s)).
Proof. apply reads_string. Qed.

Definition num (n : Z) : gval := @VNum literal (FormatInt n).

Lemma reads_int depth n : 0 <= n <= int64_max → reads depth (num n) (FormatInt n).
Proof.
  intros Hn. apply reads_number. cbn [f64_format literal]. by rewrite decide_True by by apply FormatInt_literal.
Qed.

Lemma reads_strings depth (l : list string) :
  Forall (λ s, utf8_valid (bytes_of s) = true) l →
  reads (S depth) (VArr (VStr <$> l)) (array_text ((λ s, quoted (bytes_of s)) <$> l)).
Proof.
  intros Hl. apply reads_array. induction Hl as [|s l Hs _ IH]; [constructor|].
  constructor; [|done]. split; [by apply reads_string|done].
Qed.

Lemma string_values (l : list string) :
  option_map_list (string_value "") (json_view <$> (VStr <$> l)) = Some l.
Proof.
  induction l as [|s l IH]; [done|]. rewrite !fmap_cons. cbn [option_map_list json_view string_value].
  by rewrite IH.
Qed.

Lemma int_value_FormatInt old n :
  0 <= n <= int64_max → int_value old (num n) = Some n.
Proof. intros Hn. simpl. by rewrite ParseInt_FormatInt. Qed.

(** The client reads what the server wrote: decoding the handshake data of
    a session gives its id, the upgrades offered, the heartbeat's two
    durations in milliseconds and the limit, for an id that is valid UTF-8 and
    numbers that are not negative. *)
Theorem decode_handshake sid upgrades o :
  utf8_valid (bytes_of sid) = true → Forall (λ u, utf8_valid (bytes_of u) = true) upgrades →
  0 <= milliseconds (PingInterval o) <= int64_max →
  0 <= milliseconds (PingTimeout o) <= int64_max →
  0 <= MaxHTTPBufferSize o <= int64_max →
  decode_open (handshake_json sid upgrades o)
  = Some (mkOpen sid upgrades (milliseconds (PingInterval o)) (milliseconds (PingTimeout o))
            (MaxHTTPBufferSize o)).
Proof.
  intros Hsid Hup H1 H2 H3.
  set (T := [("sid", (VStr sid, quoted (bytes_of sid)));
             ("upgrades", (VArr (VStr <$> upgrades), array_text ((λ u, quoted (bytes_of u)) <$> upgrades)));
             ("pingInterval", (num (milliseconds (PingInterval o)),
                               FormatInt (milliseconds (PingInterval o))));
             ("pingTimeout", (num (milliseconds (PingTimeout o)),
                              FormatInt (milliseconds (PingTimeout o))));
             ("maxPayload", (num (MaxHTTPBufferSize o), FormatInt (MaxHTTPBufferSize o)))] : list entry).
  assert (handshake_json sid upgrades o = "{"%byte :: join_with jcomma (entry_text <$> T) ++ ["}"%byte]) as -> by done.
  assert (Forall (λ t : entry, reads (pred json_max_depth) t.2.1 t.2.2 ∧ utf8_valid (bytes_of t.1) = true) T) as HT.
  { change (pred json_max_depth) with (S (pred (pred json_max_depth))).
    repeat constructor; cbn [fst snd]; try done; [by apply reads_string|by apply reads_strings|by apply reads_int..]. }
  unfold decode_open. rewrite skip_ws_id, decide_True by done.
  destruct (join_entry_head T ["}"%byte]) as [s Hs]; [done|].
  rewrite Hs at 1. rewrite skip_ws_id, decide_False by done.
  rewrite (raw_members_ok _ T HT) by (done || lia). rewrite decide_True by done.
  change ((λ t : entry, (bytes_of t.1, json_view t.2.1)) <$> T) with
    [(bytes_of "sid", VStr sid : gval);
     (bytes_of "upgrades", VArr (json_view <$> (VStr <$> upgrades)));
     (bytes_of "pingInterval", num (milliseconds (PingInterval o)));
     (bytes_of "pingTimeout", num (milliseconds (PingTimeout o)));
     (bytes_of "maxPayload", num (MaxHTTPBufferSize o))].
  cbn [set_fields].
  change (field_of (bytes_of "sid")) with (Some FSid).
  change (field_of (bytes_of "upgrades")) with (Some FUpgrades).
  change (field_of (bytes_of "pingInterval")) with (Some FPingInterval).
  change (field_of (bytes_of "pingTimeout")) with (Some FPingTimeout).
  change (field_of (bytes_of "maxPayload")) with (Some FMaxPayload).
  cbn [set_field string_value fmap option_fmap option_map mbind option_bind].
  rewrite string_values. cbn [fmap option_fmap option_map mbind option_bind set_fields set_field].
  do 3 (rewrite int_value_FormatInt by done;
        cbn [fmap option_fmap option_map mbind option_bind set_fields set_field]).
  done.
Qed.

Definition default_options : options := withDefaults (mkOptions 0 0 0 0 [] false None None).

Lemma decode_handshake_witness :
  decode_open (handshake_json "abc" ["websocket"] default_options)
  = Some (mkOpen "abc" ["websocket"] 25000 20000 1048576).
Proof.
  apply (decode_handshake "abc" ["websocket"] default_options);
    [vm_compute; done|by repeat constructor|vm_compute; split; done..].
Defined.

(** Names are folded, unknown members are skipped, [null] changes nothing;
    a number that is not an integer is an error. *)
Example decode_open_folded :
  decode_open (object_text [("SID", quoted (bytes_of "x")); ("extra", bytes_of "[1, {}]");
                            ("upgrades", bytes_of " null "); ("PingInterval", bytes_of "7");
                            ("sid", lit_null)])
  = Some (mkOpen "x" [] 7 0 0).
Proof. vm_compute. reflexivity. Qed.

Example decode_open_float : decode_open (object_text [("pingTimeout", bytes_of "1.5")]) = None.
Proof. vm_compute. reflexivity. Qed.
