(* ===== verification/Polling.v ===== *)
(** * Polling: the HTTP long-polling transport

    Models [engineio/transport/polling.go].  A poll ([GET]) parks its response
    in the transport and waits on a channel; [Send] takes the response out,
    writes the payload and closes the channel; a [POST] is read, decoded and
    handed to the handler packet by packet.  [closeLocked] runs under the
    caller's lock, so it is a function on the state; the other methods are
    programs with one step per critical section. *)

From S2P Require Import Prelude.
From S2P Require Import EnginePacket.
From S2P Require Import AckTable.
From S2P Require Import Sched.
From S2P Require Import EngineTypes.

Definition pollingCloseTimeout : Z := 30 * 10 ^ 9.

(** [io.ReadAll(io.LimitReader(r.Body, maxBufferSize+1))]: the limit is an
    int64, and the reader's own error is seen only when it comes first. *)
Definition read_limited (maxBufferSize : Z) (r : request) : result string bytes :=
  let n := wrap64 (maxBufferSize + 1) in
  if n <=? blen (rq_body r) then Ok (take (Z.to_nat n) (rq_body r))
  else match rq_fails r with
       | Some e => Err e
       | None => Ok (rq_body r)
       end.

(** [strings.HasPrefix(r.Header.Get("Content-Type"), "application/octet-stream")] *)
Definition is_octet_stream (r : request) : bool :=
  String.prefix "application/octet-stream" (rq_content_type r).

(** [http.Error] *)
Definition http_Error (msg : string) (status : Z) (x : exchange) : exchange :=
  write_body (bytes_of msg ++ ["010"%byte])
    (write_header status
      (header_set "X-Content-Type-Options" "nosniff"
        (header_set "Content-Type" "text/plain; charset=utf-8" x))).

(** What [Send] and [onDataRequest] answer with. *)
Definition poll_response (payload : bytes) (x : exchange) : exchange :=
  write_body payload
    (write_header 200
      (header_set "Cache-Control" "no-store"
        (header_set "Content-Type" "text/plain; charset=UTF-8" x))).
Definition post_response (x : exchange) : exchange :=
  write_body (bytes_of "ok")
    (write_header 200
      (header_set "Cache-Control" "no-store" (header_set "Content-Type" "text/html" x))).

Definition new_polling : polling :=
  mkPolling None None None None None false [] false false false None (2 ^ 20).

Section Polling.
Context {C U : Type} (choose : nat → bool).
Abbreviation W := (world C U).
Abbreviation P := (mprog W method_name).
Implicit Types (w : W) (p : nat) (x : exchp).

(** [NewPolling] *)
Definition NewPolling : P nat :=
  atomic (λ w, (length (polls w), set_polls (λ l, l ++ [new_polling]) w)).
Definition poll_SetMaxBufferSize p (n : Z) : P unit := update (upd_poll p (set_p_maxBufferSize n)).
Definition poll_Writable p : P bool := poll_get p false p_writable.
Definition poll_SetWritable p (v : bool) : P unit := update (upd_poll p (set_p_writable v)).
Definition poll_SetHandler p (h : handler) : P unit := update (upd_poll p (set_p_handler (Some h))).
Definition poll_Discard p : P unit := update (upd_poll p (set_p_discarded true)).

(** [DrainBuffered] *)
Definition DrainBuffered p : P (list Packet) :=
  atomic (λ w, (match polls w !! p with Some k => p_sendBuffer k | None => [] end,
                upd_poll p (set_p_sendBuffer []) w)).

(** A call of the handler, when there is one. *)
Definition on_handler (h : option handler) (m : handler → method_name) : P unit :=
  match h with Some h => call (m h) | None => skip end.

(** [notifyError] *)
Definition poll_notifyError p (e : terror) : P unit :=
  poll_get p None p_handler ≫= λ h, on_handler h (λ h, MOnError h e).

(** [closeLocked] *)
Definition closed_poll (k : polling) : polling :=
  mkPolling (p_handler k) None None None None false [] (p_discarded k) true false None
    (p_maxBufferSize k).
Definition closeLocked p (w : W) : option handler * W :=
  match polls w !! p with
  | Some k =>
      if p_closed k then (None, w)
      else
        let w1 := stop_opt (p_closeTimer k) (upd_poll p closed_poll w) in
        let w2 := match p_pollDone k with Some d => close_chan d w1 | None => w1 end in
        (p_handler k, w2)
  | None => (None, w)
  end.

(** [notifyClose] *)
Definition poll_notifyClose p : P unit :=
  atomic (closeLocked p) ≫= λ h, on_handler h MOnClose.

(** The critical section of [Send]: nothing when closed; with no poll pending
    the packets are kept; otherwise the poll's response is taken out, to be
    written after the lock is released. *)
Record sending := mkSending {
  sg_res : exchp; sg_done : option chanp; sg_pendingClose : bool; sg_encoded : bytes
}.

Definition take_poll (k : polling) : polling :=
  set_p_pollDone None (set_p_res None (set_p_req None (set_p_writable false k))).

Definition send_locked p (pkts : list Packet) (w : W) : option sending * W :=
  match polls w !! p with
  | Some k =>
      if p_closed k then (None, w)
      else
        let pkts := if p_pendingClose k then pkts ++ [mkPacket Close [] false] else pkts in
        match p_res k with
        | None => (None, upd_poll p (λ k, set_p_sendBuffer (p_sendBuffer k ++ pkts)
                                            (set_p_writable false k)) w)
        | Some x => (Some (mkSending x (p_pollDone k) (p_pendingClose k) (EncodePayload pkts)),
                     upd_poll p take_poll w)
        end
  | None => (None, w)
  end.

(** [Send]; the handler's [OnDrain] does nothing. *)
Definition poll_Send p (pkts : list Packet) : P unit :=
  atomic (send_locked p pkts) ≫= λ sg,
  match sg with
  | None => skip
  | Some sg =>
      respond (sg_res sg) (poll_response (sg_encoded sg)) ≫= λ _,
      match sg_done sg with Some d => update (close_chan d) | None => skip end ≫= λ _,
      when (sg_pendingClose sg) (poll_notifyClose p)
  end.

(** [Close]: the action the critical section decides on. *)
Inductive close_action := CloseNothing | CloseNow | CloseSend | CloseLater (tm : option timerp).

Definition close_locked p (w : W) : close_action * W :=
  match polls w !! p with
  | Some k =>
      if p_closed k then (CloseNothing, w)
      else if p_discarded k then (CloseNow, w)
      else if p_writable k then (CloseSend, w)
      else match p_closeTimer k with
           | Some _ => (CloseLater None, upd_poll p (set_p_pendingClose true) w)
           | None =>
               let '(tm, w1) := add_timer pollingCloseTimeout w in
               (CloseLater (Some tm),
                upd_poll p (λ k, set_p_closeTimer (Some tm) (set_p_pendingClose true k)) w1)
           end
  | None => (CloseNothing, w)
  end.

Definition poll_Close p : P unit :=
  atomic (close_locked p) ≫= λ a,
  match a with
  | CloseNothing | CloseLater None => skip
  | CloseNow => poll_notifyClose p
  | CloseSend => poll_Send p [mkPacket Close [] false] ≫= λ _, poll_notifyClose p
  | CloseLater (Some tm) => go (await (fire tm) ≫= λ _, poll_notifyClose p)
  end.

(** Waiting on [done]. *)
Definition wait_chan (d : chanp) : P unit :=
  await (λ w, if is_closed d w then Some (tt, w) else None).

(** The goroutine of [onPollRequest]: its [select] picks either case when
    both are ready. *)
Definition request_gone x (w : W) : bool :=
  match exchs w !! x with Some e => x_gone e || x_over e | None => true end.

Definition poll_select x (d : chanp) (w : W) : option (bool * W) :=
  let over := is_closed d w in
  let w' := set_tick (S (tick w)) w in
  if request_gone x w && (negb over || choose (tick w)) then Some (true, w')
  else if over then Some (false, w') else None.

Definition abandon_poll p x (w : W) : bool * W :=
  match polls w !! p with
  | Some k => if decide (p_req k = Some x) then (true, upd_poll p take_poll w) else (false, w)
  | None => (false, w)
  end.

Definition watch_poll p x (d : chanp) (h : option handler) : P unit :=
  await (poll_select x d) ≫= λ gone : bool,
  if gone
  then atomic (abandon_poll p x) ≫= λ mine,
       when mine (update (close_chan d) ≫= λ _, on_handler h (λ h, MOnError h ErrPollClosed))
  else skip.

(** [onPollRequest] *)
Definition park_poll p x (w : W) : option (chanp * option handler * list Packet) * W :=
  match polls w !! p with
  | Some k =>
      match p_req k with
      | Some _ => (None, w)
      | None =>
          let '(d, w1) := add_chan (PollDone x) w in
          let buffered := if p_closed k then [] else p_sendBuffer k in
          (Some (d, p_handler k, buffered),
           upd_poll p (λ k, set_p_sendBuffer (if p_closed k then p_sendBuffer k else [])
             (set_p_pollDone (Some d) (set_p_writable true
               (set_p_res (Some x) (set_p_req (Some x) k))))) w1)
      end
  | None => (None, w)
  end.

Definition onPollRequest p x : P unit :=
  atomic (park_poll p x) ≫= λ r,
  match r with
  | None =>
      poll_notifyError p ErrRequestOverlap ≫= λ _, respond x (write_header 400)
  | Some (d, h, buffered) =>
      go (watch_poll p x d h) ≫= λ _,
      on_handler h MOnReady ≫= λ _,
      if decide (buffered = []) then
        poll_get p false (λ k, p_pendingClose k && negb (p_closed k)) ≫= λ pending,
        when pending (poll_Send p [mkPacket Noop [] false]) ≫= λ _,
        wait_chan d
      else poll_Send p buffered ≫= λ _, wait_chan d
  end.

(** [onDataRequest] *)
Definition data_locked p x (w : W) : option (Z * option handler) * W :=
  match polls w !! p with
  | Some k =>
      match p_dataReq k with
      | Some _ => (None, w)
      | None => (Some (p_maxBufferSize k, p_handler k), upd_poll p (set_p_dataReq (Some x)) w)
      end
  | None => (None, w)
  end.

Definition data_body p x (maxBufferSize : Z) (h : option handler) (r : request) : P unit :=
  if is_octet_stream r
  then poll_notifyError p ErrContentType ≫= λ _, respond x (write_header 400)
  else
    match read_limited maxBufferSize r with
    | Err e => poll_notifyError p (ErrBody e) ≫= λ _, respond x (write_header 400)
    | Ok body =>
        if maxBufferSize <? blen body then respond x (write_header 413)
        else
          match DecodePayloadWithLimit body maxBufferSize with
          | (_, Some e) =>
              on_handler h (λ h, MOnError h (ErrCodec e)) ≫= λ _, respond x (write_header 400)
          | (pkts, None) =>
              for_each pkts (λ pk, on_handler h (λ h, MOnPacket h pk)) ≫= λ _,
              respond x post_response
          end
    end.

Definition onDataRequest p x (r : request) : P unit :=
  atomic (data_locked p x) ≫= λ d,
  match d with
  | None => poll_notifyError p ErrDataRequestActive ≫= λ _, respond x (write_header 400)
  | Some (maxBufferSize, h) =>
      data_body p x maxBufferSize h r ≫= λ _, update (upd_poll p (set_p_dataReq None))
  end.

(** [ServeHTTP] *)
Definition poll_ServeHTTP p x (r : request) : P unit :=
  if decide (rq_method r = "GET") then onPollRequest p x
  else if decide (rq_method r = "POST") then onDataRequest p x r
  else respond x (http_Error "method not allowed" 500).
End Polling.
