(* ===== verification/Websocket.v ===== *)
(** * Websocket: the WebSocket transport

    Models [engineio/transport/websocket.go], over a connection of the
    coder/websocket library ([WebsocketConn]).  One packet is one frame; the
    goroutine [readLoop], started by the first [SetHandler], reads frames and
    hands packets to the handler of the moment. *)

From S2P Require Import Prelude.
From S2P Require Import EnginePacket.
From S2P Require Import Sched.
From S2P Require Import EngineTypes.
From S2P Require Import Polling.

Section Websocket.
Context {C U : Type} `{WS : !WebsocketConn C}.
Abbreviation W := (world C U).
Abbreviation P := (mprog W method_name).
Implicit Types (w : W) (t : nat).

(** [NewWebsocket] *)
Definition NewWebsocket (c : connp) : P nat :=
  atomic (λ w, (length (wss w), set_wss (λ l, l ++ [mkWebsocket c None true false false false false]) w)).
Definition ws_Writable t : P bool := ws_get t false ws_writable.
Definition ws_SetWritable t (v : bool) : P unit := update (upd_ws t (set_ws_writable v)).
Definition ws_Discard t : P unit := update (upd_ws t (set_ws_discarded true)).

(** [notifyError], and the other places that read the handler. *)
Definition ws_notify t (m : handler → method_name) : P unit :=
  ws_get t None ws_handler ≫= λ h, on_handler h m.

(** [w.conn.Read(w.ctx)] and [w.conn.Write(w.ctx, ...)]. *)
Definition conn_Read t : P (option (bool * bytes)) :=
  await (λ w,
    match wss w !! t with
    | Some k =>
        match wconns w !! ws_conn k with
        | Some c =>
            match ws_read c (ws_cancelled k) with
            | Some (r, c') => Some (r, set_wconns <[ws_conn k := c']> w)
            | None => None
            end
        | None => Some (None, w)
        end
    | None => Some (None, w)
    end).

Definition conn_Write t (binary : bool) (data : bytes) : P (option string) :=
  await (λ w,
    match wss w !! t with
    | Some k =>
        match wconns w !! ws_conn k with
        | Some c =>
            match ws_write c (ws_cancelled k) binary data with
            | Some (e, c') => Some (e, set_wconns <[ws_conn k := c']> w)
            | None => None
            end
        | None => Some (None, w)
        end
    | None => Some (None, w)
    end).

(** One round of [readLoop]; the deferred [OnClose] runs when the loop
    ends. *)
Definition read_round t : P bool :=
  conn_Read t ≫= λ r,
  match r with
  | None => ws_notify t MOnClose ≫= λ _, mret false
  | Some (true, data) =>
      ws_notify t (λ h, MOnPacket h (mkPacket Message data true)) ≫= λ _, mret true
  | Some (false, data) =>
      match DecodePacket data false with
      | Err e => ws_notify t (λ h, MOnError h (ErrCodec e)) ≫= λ _, mret true
      | Ok p => ws_notify t (λ h, MOnPacket h p) ≫= λ _, mret true
      end
  end.

(** [SetHandler]; [readOnce] starts the loop once. *)
Definition ws_SetHandler t (h : handler) : P unit :=
  update (upd_ws t (set_ws_handler (Some h))) ≫= λ _,
  atomic (λ w, (match wss w !! t with Some k => negb (ws_reading k) | None => false end,
                upd_ws t (set_ws_reading true) w)) ≫= λ first,
  when first (go_loop (read_round t)).

(** [Send] *)
Fixpoint send_frames t (pkts : list Packet) : P bool :=
  match pkts with
  | [] => mret true
  | p :: pkts' =>
      conn_Write t (IsBinary p) (if IsBinary p then Data p else EncodePacket p true) ≫= λ e,
      match e with
      | Some msg => ws_notify t (λ h, MOnError h (ErrConn msg)) ≫= λ _, mret false
      | None => send_frames t pkts'
      end
  end.

Definition ws_Send t (pkts : list Packet) : P unit :=
  match pkts with
  | [] => skip
  | _ =>
      send_frames t pkts ≫= λ ok,
      when ok
        (atomic (λ w, (match wss w !! t with Some k => ws_handler k | None => None end,
                       upd_ws t (set_ws_writable true) w)) ≫= λ h,
         on_handler h MOnReady)
  end.

(** [Close] *)
Definition ws_Close t : P unit :=
  atomic (λ w, (match wss w !! t with Some k => negb (ws_closed k) | None => false end,
                upd_ws t (set_ws_closed true) w)) ≫= λ first,
  when first
    (atomic (λ w, (tt, match wss w !! t with
                       | Some k => set_wconns (alter ws_close (ws_conn k)) w
                       | None => w
                       end)) ≫= λ _,
     update (upd_ws t (set_ws_cancelled true))).
End Websocket.
