(* ===== verification/EngineSocket.v ===== *)
(** * EngineSocket: a session of the Engine.IO server

    Models [engineio/socket.go]: the buffer of packets to send and [flush],
    the reaction to packets, errors and closes of the transport, the
    heartbeat, closing, and the upgrade from polling to WebSocket with its
    probe.  [MaybeUpgrade]'s closures are the functions [onProbe],
    [onUpgrade] and [onAbort] of what they capture. *)

From S2P Require Import Prelude.
From S2P Require Import EnginePacket.
From S2P Require Import Sched.
From S2P Require Import EngineTypes.
From S2P Require Import EngineOptions.
From S2P Require Import Polling.
From S2P Require Import Websocket.

(** [ReadyState] *)
Definition ReadyState (st : readyState) : string :=
  match st with
  | stateOpening => "opening" | stateOpen => "open" | stateClosing => "closing"
  | stateClosed => "closed"
  end.

Section Socket.
Context {C U : Type} `{WS : !WebsocketConn C} (choose : nat → bool).
Abbreviation W := (world C U).
Abbreviation P := (mprog W method_name).
Implicit Types (w : W) (s : sockp) (t : tport) (k : esocket).

(** What the layer above does in the server's callbacks. *)
Record user := mkUser {
  u_connect : fn → sockp → P unit;
  u_data : fn → sockp → bytes → bool → P unit;
  u_close : fn → sockp → string → option cerror → P unit
}.
Context (usr : user).

(** ** The transport interface *)

Definition tport_writable t (w : W) : bool :=
  match t with
  | TPolling p => match polls w !! p with Some k => p_writable k | None => false end
  | TWebsocket p => match wss w !! p with Some k => ws_writable k | None => false end
  end.
Definition t_Writable t : P bool := gets (tport_writable t).
Definition t_Discard t : P unit :=
  match t with TPolling p => poll_Discard p | TWebsocket p => ws_Discard p end.
Definition t_SetHandler t (h : handler) : P unit :=
  match t with TPolling p => poll_SetHandler p h | TWebsocket p => ws_SetHandler p h end.
Definition t_Send t (pkts : list Packet) : P unit := call (MSend t pkts).
Definition t_Close t : P unit := call (MClose t).

(** ** Sending *)

(** [flush]: the critical section takes the buffer, unless there is nothing
    to do. *)
Definition flush_locked s (w : W) : option (tport * list Packet) * W :=
  match sks w !! s with
  | Some k =>
      if bool_decide (es_readyState k = stateClosed) || es_sending k || es_upgrading k
      then (None, w)
      else match es_transport k with
           | Some t =>
               if bool_decide (es_writeBuffer k = []) || negb (tport_writable t w) then (None, w)
               else (Some (t, es_writeBuffer k),
                     upd_sk s (λ k, set_es_sending true (set_es_writeBuffer [] k)) w)
           | None => (None, w)
           end
  | None => (None, w)
  end.

Definition reflush_locked s (w : W) : bool * W :=
  (match sks w !! s with
   | Some k =>
       negb (bool_decide (es_readyState k = stateClosed))
       && negb (bool_decide (es_writeBuffer k = []))
       && match es_transport k with Some t => tport_writable t w | None => false end
   | None => false
   end, upd_sk s (set_es_sending false) w).

Definition flush s : P unit :=
  atomic (flush_locked s) ≫= λ b,
  match b with
  | None => skip
  | Some (t, buf) =>
      t_Send t buf ≫= λ _,
      atomic (reflush_locked s) ≫= λ reflush,
      when reflush (call (MFlush s))
  end.

(** [sendPacket] *)
Definition push_locked s (p : Packet) (w : W) : option tport * W :=
  match sks w !! s with
  | Some k =>
      if bool_decide (es_readyState k = stateClosing) || bool_decide (es_readyState k = stateClosed)
      then (None, w)
      else (es_transport k, upd_sk s (set_es_writeBuffer (es_writeBuffer k ++ [p])) w)
  | None => (None, w)
  end.

Definition sendPacket s (ty : Type_) (data : bytes) (binary : bool) : P unit :=
  atomic (push_locked s (mkPacket ty data binary)) ≫= λ o,
  match o with
  | None => skip
  | Some t => t_Writable t ≫= λ b, when b (call (MFlush s))
  end.

(** [SendMessage] *)
Definition SendMessage s (data : bytes) (binary : bool) : P unit := sendPacket s Message data binary.

(** ** Closing *)

(** [createSocket]'s [onClose]: the session is forgotten, then the server's
    callback runs. *)
Definition sock_onClose s (reason : string) (err : option cerror) : P unit :=
  atomic (λ w, (tt, match sks w !! s with
                    | Some k => set_clients (delete (es_id k)) w
                    | None => w
                    end)) ≫= λ _,
  gets srv_onClose ≫= λ f,
  match f with
  | Some f => update (set_uplog (λ l, l ++ [UpClose s reason err])) ≫= λ _, u_close usr f s reason err
  | None => skip
  end.

(** [closeWithReason]: the first one to close the session goes on. *)
Definition close_session s (w : W) : bool * option tport * W :=
  match sks w !! s with
  | Some k =>
      if decide (es_readyState k = stateClosed) then (false, None, w)
      else (true, es_transport k,
            stop_opt (es_pingTimeoutTimer k)
              (stop_opt (es_pingIntervalTimer k) (upd_sk s (set_es_readyState stateClosed) w)))
  | None => (false, None, w)
  end.

Definition closeWithReason s (reason : string) (err : option cerror) : P unit :=
  atomic (close_session s) ≫= λ r,
  when r.1
    (match r.2 with Some t => t_Discard t ≫= λ _, t_Close t | None => skip end ≫= λ _,
     sock_onClose s reason err).

(** [closeTransport] and [Close] *)
Definition closeTransport s : P unit :=
  sk_get s None es_transport ≫= λ o,
  match o with Some t => t_Close t | None => skip end.

Definition Socket_Close s : P unit :=
  atomic (λ w, match sks w !! s with
               | Some k => if decide (es_readyState k = stateOpen)
                           then (true, upd_sk s (set_es_readyState stateClosing) w) else (false, w)
               | None => (false, w)
               end) ≫= λ b,
  when b (call (MFlush s) ≫= λ _, closeTransport s).

(** ** The heartbeat *)

(** [time.AfterFunc(s.opts.PingInterval, s.pingHandler)], kept in
    [pingIntervalTimer]; the timer's goroutine is started by [run_timer]. *)
Definition arm_ping s (w : W) : timerp * W :=
  let '(tm, w1) := add_timer (PingInterval (opts w)) w in
  (tm, upd_sk s (set_es_pingIntervalTimer (Some tm)) w1).
Definition run_timer (tm : timerp) (p : P unit) : P unit := go (await (fire tm) ≫= λ _, p).

(** [schedulePing] *)
Definition schedulePing s : P unit :=
  atomic (arm_ping s) ≫= λ tm, run_timer tm (call (MPing s)).

(** [pingTimeoutHandler] *)
Definition pingTimeoutHandler s : P unit :=
  sk_get s true (λ k, bool_decide (es_readyState k = stateClosed)) ≫= λ closed,
  when (negb closed) (closeWithReason s "ping timeout" (Some ErrHeartbeatTimeout)).

(** [pingHandler] *)
Inductive ping_action := PingNothing | PingLater (tm : timerp) | PingSend.

Definition ping_locked s (w : W) : ping_action * W :=
  match sks w !! s with
  | Some k =>
      if decide (es_readyState k = stateClosed) then (PingNothing, w)
      else if es_upgrading k then let '(tm, w1) := arm_ping s w in (PingLater tm, w1)
      else (PingSend, w)
  | None => (PingNothing, w)
  end.

Definition arm_timeout s (w : W) : timerp * W :=
  let '(tm, w1) := add_timer (PingTimeout (opts w)) w in
  (tm, upd_sk s (set_es_pingTimeoutTimer (Some tm)) w1).

Definition pingHandler s : P unit :=
  atomic (ping_locked s) ≫= λ a,
  match a with
  | PingNothing => skip
  | PingLater tm => run_timer tm (call (MPing s))
  | PingSend =>
      sendPacket s Ping [] false ≫= λ _,
      atomic (arm_timeout s) ≫= λ tm, run_timer tm (pingTimeoutHandler s)
  end.

(** ** Events of the transport *)

(** [onPacket]: what its critical section decides. *)
Inductive packet_action :=
| PktNothing | PktPong (tm : timerp) | PktData (f : option fn) | PktClose (reason : string).

Definition packet_locked s (ty : Type_) (w : W) : packet_action * W :=
  match sks w !! s with
  | Some k =>
      if decide (es_readyState k = stateOpen) then
        match ty with
        | Pong =>
            let w1 := stop_opt (es_pingIntervalTimer k) (stop_opt (es_pingTimeoutTimer k) w) in
            let '(tm, w2) := arm_ping s w1 in (PktPong tm, w2)
        | Ping => (PktClose "invalid heartbeat direction", w)
        | Message => (PktData (es_onData k), w)
        | Close => (PktClose "client close", w)
        | _ => (PktNothing, w)
        end
      else (PktNothing, w)
  | None => (PktNothing, w)
  end.

Definition onPacket s (p : Packet) : P unit :=
  atomic (packet_locked s (Type_of p)) ≫= λ a,
  match a with
  | PktNothing => skip
  | PktPong tm => run_timer tm (call (MPing s))
  | PktData None => skip
  | PktData (Some f) =>
      update (set_uplog (λ l, l ++ [UpData s (Data p) (IsBinary p)])) ≫= λ _,
      u_data usr f s (Data p) (IsBinary p)
  | PktClose reason => closeWithReason s reason None
  end.

(** The test [onErrorFrom] and [onCloseFrom] start with. *)
Definition is_active s t : P bool :=
  sk_get s false (λ k, bool_decide (es_transport k = Some t) && negb (es_upgrading k)).

(** [onErrorFrom] *)
Definition onErrorFrom s t (e : terror) : P unit :=
  is_active s t ≫= λ b,
  when b (closeWithReason s "transport error" (Some (wrapInvalidPacket e))).

(** [onCloseFrom] *)
Definition onCloseFrom s t : P unit :=
  is_active s t ≫= λ b, when b (closeWithReason s "transport close" None).

(** ** Opening *)

(** [openPacketData]: [transportName] reads the session's transport. *)
Definition openPacketData s : P bytes :=
  sk_get s "" (λ k, match es_transport k with Some t => transport_Name t | None => "" end) ≫= λ name,
  gets (λ w, handshake_json (match sks w !! s with Some k => es_id k | None => "" end)
               (upgradesFor (opts w) name) (opts w)).

(** [attach] *)
Definition attach s t : P unit :=
  update (upd_sk s (λ k, set_es_binding (Some (HBinding s t))
    (set_es_pollingTport (match t with TPolling _ => Some t | TWebsocket _ => es_pollingTport k end)
      (set_es_transport (Some t) k)))) ≫= λ _,
  t_SetHandler t (HBinding s t).

(** [open] *)
Definition open s : P unit :=
  update (upd_sk s (set_es_readyState stateOpen)) ≫= λ _,
  openPacketData s ≫= λ data,
  sendPacket s Open data false ≫= λ _,
  schedulePing s.

(** ** The upgrade *)

(** [pollingWritable] and [pollingNoop] *)
Definition pollingWritable s : P bool :=
  gets (λ w, match sks w !! s with
             | Some k =>
                 negb (es_upgraded k) &&
                 match es_transport k with
                 | Some (TPolling p) => tport_writable (TPolling p) w
                 | _ => false
                 end
             | None => false
             end).
Definition pollingNoop s : P unit :=
  sk_get s None es_transport ≫= λ o,
  match o with Some t => t_Send t [mkPacket Noop [] false] | None => skip end.

(** [stopCheckFn]: [checkOnce] closes [stopCheck] the first time only. *)
Definition stopCheckFn (stop : chanp) : P unit :=
  update (λ w, if is_closed stop w then w else close_chan stop w).

(** One round of the ticker's goroutine.  The ticker may tick at any time;
    when [stopCheck] is closed as well, [select] picks either. *)
Definition probe_round s (stop : chanp) : P bool :=
  atomic (λ w, (negb (is_closed stop w && choose (tick w)), set_tick (S (tick w)) w)) ≫= λ ticked : bool,
  if ticked
  then pollingWritable s ≫= λ b, when b (pollingNoop s) ≫= λ _, mret true
  else mret false.

(** [onProbe] *)
Definition onProbe s t (stop : chanp) : P unit :=
  t_Send t [mkPacket Pong (bytes_of "probe") false] ≫= λ _, go_loop (probe_round s stop).

(** [onUpgrade] *)
Definition switch_locked s t (w : W) : option (option tport) * W :=
  match sks w !! s with
  | Some k =>
      if decide (es_readyState k = stateClosed) then (None, w)
      else (Some (es_transport k),
            upd_sk s (λ k, set_es_transport (Some t) (set_es_upgraded true (set_es_upgrading false k))) w)
  | None => (None, w)
  end.

Definition not_sending s : P unit :=
  await (λ w, match sks w !! s with
              | Some k => if es_sending k then None else Some (tt, w)
              | None => Some (tt, w)
              end).

Definition retire_transport s (old : tport) : P unit :=
  match old with
  | TPolling p =>
      not_sending s ≫= λ _,
      DrainBuffered p ≫= λ drained,
      when (negb (bool_decide (drained = [])))
        (update (upd_sk s (λ k, set_es_writeBuffer (drained ++ es_writeBuffer k) k)))
  | TWebsocket _ => skip
  end ≫= λ _,
  t_Discard old ≫= λ _, t_Close old.

(** The interval timer after an upgrade that was confirmed or aborted. *)
Definition rearm_if_open s (w : W) : option timerp * W :=
  match sks w !! s with
  | Some k => if decide (es_readyState k = stateOpen)
              then let '(tm, w1) := arm_ping s w in (Some tm, w1) else (None, w)
  | None => (None, w)
  end.
Definition run_rearmed s (tm : option timerp) : P unit :=
  match tm with Some tm => run_timer tm (call (MPing s)) | None => skip end.

Definition onUpgrade s t (upgradeTimeout : timerp) (stop : chanp) : P unit :=
  update (stop_timer upgradeTimeout) ≫= λ _,
  stopCheckFn stop ≫= λ _,
  atomic (switch_locked s t) ≫= λ old,
  match old with
  | None => t_Close t
  | Some old =>
      match old with Some old => retire_transport s old | None => skip end ≫= λ _,
      update (upd_sk s (set_es_binding (Some (HBinding s t)))) ≫= λ _,
      t_SetHandler t (HBinding s t) ≫= λ _,
      call (MFlush s) ≫= λ _,
      atomic (rearm_if_open s) ≫= λ tm, run_rearmed s tm
  end.

(** [onAbort] *)
Definition onAbort s t (upgradeTimeout : timerp) (stop : chanp) : P unit :=
  update (stop_timer upgradeTimeout) ≫= λ _,
  stopCheckFn stop ≫= λ _,
  t_Close t ≫= λ _,
  atomic (λ w, rearm_if_open s (upd_sk s (set_es_upgrading false) w)) ≫= λ tm,
  run_rearmed s tm ≫= λ _,
  call (MFlush s).

(** [upgradeHandler.OnPacket] *)
Definition up_OnPacket s t (tm : timerp) (stop : chanp) (p : Packet) : P unit :=
  if bool_decide (Type_of p = Ping) && bool_decide (Data p = bytes_of "probe") then onProbe s t stop
  else if decide (Type_of p = Upgrade) then onUpgrade s t tm stop
  else onAbort s t tm stop.

(** [MaybeUpgrade] *)
Definition begin_upgrade s (w : W) : bool * W :=
  match sks w !! s with
  | Some k =>
      if es_upgrading k || es_upgraded k || negb (bool_decide (es_readyState k = stateOpen))
      then (false, w)
      else (true,
            upd_sk s (λ k, set_es_pingTimeoutTimer None
                             (set_es_pingIntervalTimer None (set_es_upgrading true k)))
              (stop_opt (es_pingTimeoutTimer k) (stop_opt (es_pingIntervalTimer k) w)))
  | None => (false, w)
  end.

Definition MaybeUpgrade s t : P unit :=
  atomic (begin_upgrade s) ≫= λ b : bool,
  if b then
    atomic (λ w, add_timer (UpgradeTimeout (opts w)) w) ≫= λ tm,
    run_timer tm (t_Close t) ≫= λ _,
    atomic (add_chan StopCheck) ≫= λ stop,
    t_SetHandler t (HUpgrade s t tm stop)
  else t_Close t.

(** ** The methods behind the interfaces *)
#[export] Instance engine_methods : Methods W method_name := λ m,
  match m with
  | MSend (TPolling p) pkts => poll_Send p pkts
  | MSend (TWebsocket p) pkts => ws_Send p pkts
  | MClose (TPolling p) => poll_Close p
  | MClose (TWebsocket p) => ws_Close p
  | MOnPacket (HBinding s _) pk => onPacket s pk
  | MOnPacket (HUpgrade s t tm stop) pk => up_OnPacket s t tm stop pk
  | MOnError (HBinding s t) e => onErrorFrom s t e
  | MOnError (HUpgrade s t tm stop) _ => onAbort s t tm stop
  | MOnClose (HBinding s t) => onCloseFrom s t
  | MOnClose (HUpgrade s t tm stop) => onAbort s t tm stop
  | MOnReady (HBinding s _) => flush s
  | MOnReady (HUpgrade _ _ _ _) => skip
  | MFlush s => flush s
  | MPing s => pingHandler s
  end.
End Socket.
