(* ===== verification/EngineServer.v ===== *)
(** * EngineServer: the Engine.IO server

    Models [engineio/server.go]: the HTTP entry with the verification of
    requests, the handshake, the routing of polls and upgrades to sessions,
    and the table of sessions. *)

From S2P Require Import Prelude.
From S2P Require Import Base64.
From S2P Require Import EnginePacket.
From S2P Require Import Sched.
From S2P Require Import EngineTypes.
From S2P Require Import EngineOptions.
From S2P Require Import Polling.
From S2P Require Import Websocket.
From S2P Require Import EngineSocket.

(** What [verify] finds.  [NilTransport]: the session is registered but has no
    transport yet, and [sock.Transport().Name()] panics; net/http recovers
    the panic of a handler and drops the request. *)
Inductive verdict := Accept | Reject (e : verify_error) | NilTransport.

#[export] Instance verdict_eq_dec : EqDecision verdict.
Proof. solve_decision. Defined.

Section Server.
Context {C U : Type} `{WS : !WebsocketConn C} (choose : nat → bool).
Context (rand : nat → bytes) (cord : nat → gmap string sockp → list sockp).
Abbreviation W := (world C U).
Abbreviation P := (mprog W method_name).
Context (usr : user (C := C) (U := U)).
Implicit Types (w : W) (s : sockp) (x : exchp) (r : request).

(** [NewServer]; [None] for nil options. *)
Definition zero_options : options := mkOptions 0 0 0 0 [] false None None.
Definition NewServer (o : option options) (u : U) : W :=
  mkWorld (withDefaults (default zero_options o)) ∅ None None None [] [] [] [] [] [] [] [] 0 0 false u.

(** [OnConnect], [OnData], [OnClose], [ClientsCount] *)
Definition OnConnect (f : fn) : P unit := update (set_callbacks (λ _, Some f) id id).
Definition OnData (f : fn) : P unit := update (set_callbacks id (λ _, Some f) id).
Definition OnClose (f : fn) : P unit := update (set_callbacks id id (λ _, Some f)).
Definition ClientsCount : P Z := gets (λ w, Z.of_nat (size (clients w))).

(** [Close], in whatever order the table is ranged over. *)
Definition Server_Close : P unit :=
  atomic (λ w, (cord (tick w) (clients w), set_tick (S (tick w)) w)) ≫= λ sockets,
  for_each sockets (λ s, Socket_Close s).

(** [verify] *)
Definition find_client (sid : string) : P (option sockp) := gets (λ w, clients w !! sid).

Definition verify r (q : list (string * string)) (upgrade : bool) : P verdict :=
  let transportName := query_get q "transport" in
  gets opts ≫= λ o,
  if negb (bool_decide (query_get q "EIO" = "4")) then mret (Reject ErrUnsupportedProtocol)
  else if negb (enabled o transportName) then mret (Reject ErrUnknownTransport)
  else if negb (bool_decide (query_get q "sid" = "")) then
    find_client (query_get q "sid") ≫= λ c,
    match c with
    | None => mret (Reject ErrUnknownSID)
    | Some s =>
        sk_get s None es_transport ≫= λ o,
        mret (match o with
              | None => NilTransport
              | Some t => if negb upgrade && negb (bool_decide (transport_Name t = transportName))
                          then Reject ErrBadRequest else Accept
              end)
    end
  else if negb (bool_decide (rq_method r = "GET")) then mret (Reject ErrBadHandshakeMethod)
  else if bool_decide (transportName = "websocket") && negb upgrade then mret (Reject ErrBadRequest)
  else mret (match AllowRequest o with
             | Some f => match f r with Some _ => Reject ErrForbidden | None => Accept end
             | None => Accept
             end).

(** [abortRequest]; [abortUpgrade] is the same without a context. *)
Definition abortRequest x (code : Z) (ctx : option string) : P unit :=
  respond x (abort_response code ctx).
Definition abortUpgrade x (code : Z) : P unit := abortRequest x code None.

(** [generateID]: the user's function, or 18 random bytes in base64. *)
Definition raw_std_encode (b : bytes) : bytes := filter (λ c, c ≠ b64_pad) (base64_encode b).
Definition session_id (o : options) r (n : nat) : string :=
  match GenerateID o with
  | Some f => f r
  | None => string_of (raw_std_encode (rand n))
  end.
Definition generateID r : P string :=
  atomic (λ w, (session_id (opts w) r (rnd w), set_rnd (S (rnd w)) w)).

(** [createSocket] *)
Definition new_socket (id addr : string) (onData : option fn) : esocket :=
  mkESocket id addr stateOpening None None None [] false false false None None onData.

Definition createSocket r (t : tport) : P sockp :=
  generateID r ≫= λ id,
  atomic (λ w, (length (sks w), set_sks (λ l, l ++ [new_socket id (rq_addr r) (srv_onData w)]) w)) ≫= λ s,
  update (set_clients <[id := s]>) ≫= λ _,
  attach s t ≫= λ _,
  open s ≫= λ _,
  gets srv_onConnect ≫= λ f,
  match f with
  | Some f => update (set_uplog (λ l, l ++ [UpConnect s])) ≫= λ _, u_connect usr f s
  | None => skip
  end ≫= λ _,
  mret s.

(** [handshake] and [handshakeWebsocket] *)
Definition handshake x r : P unit :=
  NewPolling ≫= λ p,
  gets opts ≫= λ o,
  poll_SetMaxBufferSize p (MaxHTTPBufferSize o) ≫= λ _,
  createSocket r (TPolling p) ≫= λ _,
  poll_ServeHTTP choose p x r.
Definition handshakeWebsocket r (t : nat) : P unit :=
  createSocket r (TWebsocket t) ≫= λ _, skip.

(** [handlePolling] *)
Definition serve_session x r s : P unit :=
  sk_get s None es_transport ≫= λ active,
  match active with
  | Some (TPolling p) => poll_ServeHTTP choose p x r
  | _ =>
      sk_get s None es_pollingTport ≫= λ retained,
      match retained with
      | Some (TPolling p) => poll_ServeHTTP choose p x r
      | _ => abortRequest x ErrCodeBadRequest None
      end
  end.

Definition handlePolling x r (q : list (string * string)) : P unit :=
  verify r q false ≫= λ v,
  match v with
  | Reject e => abortRequest x (errorCode e) None
  | NilTransport => skip
  | Accept =>
      if bool_decide (query_get q "sid" = "") then handshake x r
      else
        find_client (query_get q "sid") ≫= λ c,
        match c with
        | None => abortRequest x ErrCodeUnknownSID None
        | Some s => serve_session x r s
        end
  end.

(** [websocket.Accept] and [NewWebsocket]: the connection, or the refusal the
    library has written. *)
Definition accept_websocket x r : P (option nat) :=
  match ws_accept r with
  | Ok c =>
      atomic (λ w, (length (wconns w), set_wconns (λ l, l ++ [c]) w)) ≫= λ i,
      NewWebsocket i ≫= λ t, mret (Some t)
  | Err (status, body) =>
      respond x (λ e, write_body body (write_header status e)) ≫= λ _, mret None
  end.

(** [handleWebsocket] *)
Definition handleWebsocket x r (q : list (string * string)) : P unit :=
  verify r q true ≫= λ v,
  match v with
  | Reject e => abortUpgrade x (errorCode e)
  | NilTransport => skip
  | Accept =>
      if bool_decide (query_get q "sid" = "") then
        accept_websocket x r ≫= λ a,
        match a with Some t => handshakeWebsocket r t | None => skip end
      else
        find_client (query_get q "sid") ≫= λ c,
        match c with
        | None => abortUpgrade x ErrCodeUnknownSID
        | Some s =>
            accept_websocket x r ≫= λ a,
            match a with Some t => MaybeUpgrade s (TWebsocket t) | None => skip end
        end
  end.

(** [ServeHTTP] *)
Definition ServeHTTP x r : P unit :=
  let q := rq_query r in
  let transportName := query_get q "transport" in
  if decide (transportName = "polling") then handlePolling x r q
  else if decide (transportName = "websocket") then handleWebsocket x r q
  else abortRequest x ErrCodeUnknownTransport None.

(** net/http serving one request: the exchange is over, and the request's
    context done, when [ServeHTTP] returns. *)
Definition new_exchange r : exchange := mkExchange r [] None [] false false false.
Definition serve_request r : P unit :=
  atomic (λ w, (length (exchs w), set_exchs (λ l, l ++ [new_exchange r]) w)) ≫= λ x,
  ServeHTTP x r ≫= λ _,
  update (upd_exch x (set_x_over true)).

(** The client of a request goes away; the peer of a connection acts. *)
Definition request_cancelled x : P unit := update (upd_exch x (set_x_gone true)).
Definition peer_acts (c : connp) (f : C → C) : P unit := update (set_wconns (alter f c)).
End Server.
