(* ===== verification/ClientTypes.v ===== *)
(** * ClientTypes: the state of the Engine.IO client

    The structs of [engineio/client.go] and [client_transport.go], and what
    they use of the runtime and the network: contexts, channels that are only
    closed, timers, HTTP requests and WebSocket dials under way, connections.

    The network is not under the client's control: a request or a dial that is
    under way is answered by a step of the environment ([ClientEngine.answers],
    [dial_answers]) or ends with its context.  As for the server, the
    third-party connection is the class [WebsocketConn], an armed timer may
    fire at any moment, and the user's callbacks are names [fn]. *)

From S2P Require Import Prelude.
From S2P Require Import EnginePacket.
From S2P Require Import Sched.
From S2P Require Import EngineTypes.

Abbreviation clientp := nat.
Abbreviation ctxp := nat.

(** ** Data *)

(** A parsed URL: the scheme, what the client leaves alone, and the query
    ([url.Values]). *)
Record url := mkUrl { u_scheme : string; u_rest : string; u_query : gmap string (list string) }.

(** [q.Set(k, v)]. *)
Definition query_set (k v : string) (u : url) : url :=
  mkUrl (u_scheme u) (u_rest u) (<[k := [v]]> (u_query u)).

(** [wsURLString]: http(s) becomes ws(s). *)
Definition wsURLString (u : url) : url :=
  mkUrl (if decide (u_scheme u = "http") then "ws"
         else if decide (u_scheme u = "https") then "wss" else u_scheme u)
    (u_rest u) (u_query u).

(** The client's transports, by type. *)
Inductive ctport := CPolling (p : nat) | CWebsocket (p : nat).

#[export] Instance ctport_eq_dec : EqDecision ctport.
Proof. solve_decision. Defined.

(** [clientBinding]. *)
Record binding := mkBinding { b_client : clientp; b_transport : ctport }.

#[export] Instance binding_eq_dec : EqDecision binding.
Proof. solve_decision. Defined.

(** The errors a session ends with: of an HTTP exchange or a connection, an
    unexpected status, a packet that does not decode (rewrapped as
    [ErrInvalidPacket] or not), a bad open packet, the end of the transport,
    the watchdog; and those of [Dial]. *)
Inductive cl_error :=
| CErrIO (msg : string)
| CErrStatus (code : Z)
| CErrCodec (e : codec_error)
| CWrapInvalid (e : codec_error)
| CErrOpenJSON
| CErrTransportClosed
| CErrPingTimeout
| CErrClientClosed
| CErrContext.

#[export] Instance cl_error_eq_dec : EqDecision cl_error.
Proof. solve_decision. Defined.

(** [wrapInvalidPacket] on the errors a transport reports. *)
Definition cl_wrapInvalidPacket (e : cl_error) : cl_error :=
  match e with CErrCodec ErrInvalidPacket => CWrapInvalid ErrInvalidPacket | _ => e end.

(** An HTTP response as the client reads it: the status, the body, and the
    error reading the body ends with. *)
Record response := mkResponse { rs_status : Z; rs_body : bytes; rs_fails : option string }.

(** A request that was sent, until and after it is answered. *)
Record http_call := mkHttp {
  h_method : string;
  h_url : url;
  h_body : bytes;
  h_ctx : ctxp;
  h_answer : option (result string response)
}.

(** A [websocket.Dial] under way. *)
Record ws_dial := mkDial { d_url : url; d_ctx : ctxp; d_answer : option (result string connp) }.

(** [clientPolling]; [cp_sid] is the client its [sid] function asks. *)
Record cpolling := mkCPolling {
  cp_u : url;
  cp_sid : clientp;
  cp_handler : option binding;
  cp_ctx : ctxp;
  cp_closed : bool;
  cp_paused : bool;
  cp_pauseCh : chanp;
  cp_inflight : Z;
  cp_sendInflight : Z;
  cp_polling : bool
}.

(** [clientWebsocket] *)
Record cwebsocket := mkCWebsocket {
  cw_conn : connp;
  cw_ctx : ctxp;
  cw_handler : option binding;
  cw_reading : bool
}.

(** [Client]; [handshakeDone] holds the value sent and not yet received. *)
Record client := mkClient {
  c_u : url;
  c_opts : options;
  c_sid : string;
  c_tport : option ctport;
  c_closed : bool;
  c_writeBuffer : list Packet;
  c_upgrading : bool;
  c_pingInterval : Z;
  c_pingTimeout : Z;
  c_noPing : option timerp;
  c_handshakeDone : option (option cl_error);
  c_handshakeOnce : bool;
  c_onOpen : option fn;
  c_onData : option fn;
  c_onClose : option fn
}.

(** The calls of the user's callbacks. *)
Inductive cl_event :=
| CUpOpen (c : clientp)
| CUpData (c : clientp) (data : bytes) (binary : bool)
| CUpClose (c : clientp) (err : option cl_error).

(** The methods behind the [Transport] and [Handler] interfaces, and the loop of
    [upgradeToWebsocket] that waits for the probe's answer. *)
Inductive cl_method :=
| CMSend (t : ctport) (pkts : list Packet)
| CMClose (t : ctport)
| CMOnPacket (b : binding) (p : Packet)
| CMOnError (b : binding) (e : cl_error)
| CMOnClose (b : binding)
| CMProbe (c : clientp) (t : option ctport) (conn : connp) (ctx : ctxp).

(** ** Field updates *)
Definition set_cp_handler v (x : cpolling) : cpolling := mkCPolling (cp_u x) (cp_sid x) v (cp_ctx
  x) (cp_closed x) (cp_paused x) (cp_pauseCh x) (cp_inflight x) (cp_sendInflight x) (cp_polling
  x).
Definition set_cp_closed v (x : cpolling) : cpolling := mkCPolling (cp_u x) (cp_sid x) (cp_handler
  x) (cp_ctx x) v (cp_paused x) (cp_pauseCh x) (cp_inflight x) (cp_sendInflight x) (cp_polling x).
Definition set_cp_paused v (x : cpolling) : cpolling := mkCPolling (cp_u x) (cp_sid x) (cp_handler
  x) (cp_ctx x) (cp_closed x) v (cp_pauseCh x) (cp_inflight x) (cp_sendInflight x) (cp_polling x).
Definition set_cp_pauseCh v (x : cpolling) : cpolling := mkCPolling (cp_u x) (cp_sid x)
  (cp_handler x) (cp_ctx x) (cp_closed x) (cp_paused x) v (cp_inflight x) (cp_sendInflight x)
  (cp_polling x).
Definition set_cp_inflight v (x : cpolling) : cpolling := mkCPolling (cp_u x) (cp_sid x)
  (cp_handler x) (cp_ctx x) (cp_closed x) (cp_paused x) (cp_pauseCh x) v (cp_sendInflight x)
  (cp_polling x).
Definition set_cp_sendInflight v (x : cpolling) : cpolling := mkCPolling (cp_u x) (cp_sid x)
  (cp_handler x) (cp_ctx x) (cp_closed x) (cp_paused x) (cp_pauseCh x) (cp_inflight x) v
  (cp_polling x).
Definition set_cp_polling v (x : cpolling) : cpolling := mkCPolling (cp_u x) (cp_sid x)
  (cp_handler x) (cp_ctx x) (cp_closed x) (cp_paused x) (cp_pauseCh x) (cp_inflight x)
  (cp_sendInflight x) v.
Definition set_cw_handler v (x : cwebsocket) : cwebsocket := mkCWebsocket (cw_conn x) (cw_ctx x) v
  (cw_reading x).
Definition set_cw_reading v (x : cwebsocket) : cwebsocket := mkCWebsocket (cw_conn x) (cw_ctx x)
  (cw_handler x) v.
Definition set_c_sid v (x : client) : client := mkClient (c_u x) (c_opts x) v (c_tport x)
  (c_closed x) (c_writeBuffer x) (c_upgrading x) (c_pingInterval x) (c_pingTimeout x) (c_noPing x)
  (c_handshakeDone x) (c_handshakeOnce x) (c_onOpen x) (c_onData x) (c_onClose x).
Definition set_c_tport v (x : client) : client := mkClient (c_u x) (c_opts x) (c_sid x) v
  (c_closed x) (c_writeBuffer x) (c_upgrading x) (c_pingInterval x) (c_pingTimeout x) (c_noPing x)
  (c_handshakeDone x) (c_handshakeOnce x) (c_onOpen x) (c_onData x) (c_onClose x).
Definition set_c_closed v (x : client) : client := mkClient (c_u x) (c_opts x) (c_sid x) (c_tport
  x) v (c_writeBuffer x) (c_upgrading x) (c_pingInterval x) (c_pingTimeout x) (c_noPing x)
  (c_handshakeDone x) (c_handshakeOnce x) (c_onOpen x) (c_onData x) (c_onClose x).
Definition set_c_writeBuffer v (x : client) : client := mkClient (c_u x) (c_opts x) (c_sid x)
  (c_tport x) (c_closed x) v (c_upgrading x) (c_pingInterval x) (c_pingTimeout x) (c_noPing x)
  (c_handshakeDone x) (c_handshakeOnce x) (c_onOpen x) (c_onData x) (c_onClose x).
Definition set_c_upgrading v (x : client) : client := mkClient (c_u x) (c_opts x) (c_sid x)
  (c_tport x) (c_closed x) (c_writeBuffer x) v (c_pingInterval x) (c_pingTimeout x) (c_noPing x)
  (c_handshakeDone x) (c_handshakeOnce x) (c_onOpen x) (c_onData x) (c_onClose x).
Definition set_c_pingInterval v (x : client) : client := mkClient (c_u x) (c_opts x) (c_sid x)
  (c_tport x) (c_closed x) (c_writeBuffer x) (c_upgrading x) v (c_pingTimeout x) (c_noPing x)
  (c_handshakeDone x) (c_handshakeOnce x) (c_onOpen x) (c_onData x) (c_onClose x).
Definition set_c_pingTimeout v (x : client) : client := mkClient (c_u x) (c_opts x) (c_sid x)
  (c_tport x) (c_closed x) (c_writeBuffer x) (c_upgrading x) (c_pingInterval x) v (c_noPing x)
  (c_handshakeDone x) (c_handshakeOnce x) (c_onOpen x) (c_onData x) (c_onClose x).
Definition set_c_noPing v (x : client) : client := mkClient (c_u x) (c_opts x) (c_sid x) (c_tport
  x) (c_closed x) (c_writeBuffer x) (c_upgrading x) (c_pingInterval x) (c_pingTimeout x) v
  (c_handshakeDone x) (c_handshakeOnce x) (c_onOpen x) (c_onData x) (c_onClose x).
Definition set_c_handshakeDone v (x : client) : client := mkClient (c_u x) (c_opts x) (c_sid x)
  (c_tport x) (c_closed x) (c_writeBuffer x) (c_upgrading x) (c_pingInterval x) (c_pingTimeout x)
  (c_noPing x) v (c_handshakeOnce x) (c_onOpen x) (c_onData x) (c_onClose x).
Definition set_c_handshakeOnce v (x : client) : client := mkClient (c_u x) (c_opts x) (c_sid x)
  (c_tport x) (c_closed x) (c_writeBuffer x) (c_upgrading x) (c_pingInterval x) (c_pingTimeout x)
  (c_noPing x) (c_handshakeDone x) v (c_onOpen x) (c_onData x) (c_onClose x).
Definition set_c_onOpen v (x : client) : client := mkClient (c_u x) (c_opts x) (c_sid x) (c_tport
  x) (c_closed x) (c_writeBuffer x) (c_upgrading x) (c_pingInterval x) (c_pingTimeout x) (c_noPing
  x) (c_handshakeDone x) (c_handshakeOnce x) v (c_onData x) (c_onClose x).
Definition set_c_onData v (x : client) : client := mkClient (c_u x) (c_opts x) (c_sid x) (c_tport
  x) (c_closed x) (c_writeBuffer x) (c_upgrading x) (c_pingInterval x) (c_pingTimeout x) (c_noPing
  x) (c_handshakeDone x) (c_handshakeOnce x) (c_onOpen x) v (c_onClose x).
Definition set_c_onClose v (x : client) : client := mkClient (c_u x) (c_opts x) (c_sid x) (c_tport
  x) (c_closed x) (c_writeBuffer x) (c_upgrading x) (c_pingInterval x) (c_pingTimeout x) (c_noPing
  x) (c_handshakeDone x) (c_handshakeOnce x) (c_onOpen x) (c_onData x) v.

Section State.
Context {C U : Type}.

(** The clients and everything they allocate; [handles] are the clients [Dial]
    has returned; [cpanicked] is a panic nothing recovers. *)
Record cworld := mkCWorld {
  clis : list client;
  handles : list clientp;
  cpolls : list cpolling;
  cwss : list cwebsocket;
  cconns : list C;
  https : list http_call;
  dials : list ws_dial;
  ctxs : list bool;
  cchans : list bool;
  ctimers : list timer;
  cuplog : list cl_event;
  ctick : nat;
  cpanicked : bool;
  capp : U
}.
Implicit Types (w : cworld).
Definition set_clis f w := mkCWorld (f (clis w)) (handles w) (cpolls w) (cwss w) (cconns w) (https
  w) (dials w) (ctxs w) (cchans w) (ctimers w) (cuplog w) (ctick w) (cpanicked w) (capp w).
Definition set_handles f w := mkCWorld (clis w) (f (handles w)) (cpolls w) (cwss w) (cconns w)
  (https w) (dials w) (ctxs w) (cchans w) (ctimers w) (cuplog w) (ctick w) (cpanicked w) (capp w).
Definition set_cpolls f w := mkCWorld (clis w) (handles w) (f (cpolls w)) (cwss w) (cconns w)
  (https w) (dials w) (ctxs w) (cchans w) (ctimers w) (cuplog w) (ctick w) (cpanicked w) (capp w).
Definition set_cwss f w := mkCWorld (clis w) (handles w) (cpolls w) (f (cwss w)) (cconns w) (https
  w) (dials w) (ctxs w) (cchans w) (ctimers w) (cuplog w) (ctick w) (cpanicked w) (capp w).
Definition set_cconns f w := mkCWorld (clis w) (handles w) (cpolls w) (cwss w) (f (cconns w))
  (https w) (dials w) (ctxs w) (cchans w) (ctimers w) (cuplog w) (ctick w) (cpanicked w) (capp w).
Definition set_https f w := mkCWorld (clis w) (handles w) (cpolls w) (cwss w) (cconns w) (f (https
  w)) (dials w) (ctxs w) (cchans w) (ctimers w) (cuplog w) (ctick w) (cpanicked w) (capp w).
Definition set_dials f w := mkCWorld (clis w) (handles w) (cpolls w) (cwss w) (cconns w) (https w)
  (f (dials w)) (ctxs w) (cchans w) (ctimers w) (cuplog w) (ctick w) (cpanicked w) (capp w).
Definition set_ctxs f w := mkCWorld (clis w) (handles w) (cpolls w) (cwss w) (cconns w) (https w)
  (dials w) (f (ctxs w)) (cchans w) (ctimers w) (cuplog w) (ctick w) (cpanicked w) (capp w).
Definition set_cchans f w := mkCWorld (clis w) (handles w) (cpolls w) (cwss w) (cconns w) (https
  w) (dials w) (ctxs w) (f (cchans w)) (ctimers w) (cuplog w) (ctick w) (cpanicked w) (capp w).
Definition set_ctimers f w := mkCWorld (clis w) (handles w) (cpolls w) (cwss w) (cconns w) (https
  w) (dials w) (ctxs w) (cchans w) (f (ctimers w)) (cuplog w) (ctick w) (cpanicked w) (capp w).
Definition set_cuplog f w := mkCWorld (clis w) (handles w) (cpolls w) (cwss w) (cconns w) (https
  w) (dials w) (ctxs w) (cchans w) (ctimers w) (f (cuplog w)) (ctick w) (cpanicked w) (capp w).
Definition set_ctick f w := mkCWorld (clis w) (handles w) (cpolls w) (cwss w) (cconns w) (https w)
  (dials w) (ctxs w) (cchans w) (ctimers w) (cuplog w) (f (ctick w)) (cpanicked w) (capp w).
Definition set_cpanicked v w := mkCWorld (clis w) (handles w) (cpolls w) (cwss w) (cconns w)
  (https w) (dials w) (ctxs w) (cchans w) (ctimers w) (cuplog w) (ctick w) v (capp w).
Definition set_capp f w := mkCWorld (clis w) (handles w) (cpolls w) (cwss w) (cconns w) (https w)
  (dials w) (ctxs w) (cchans w) (ctimers w) (cuplog w) (ctick w) (cpanicked w) (f (capp w)).

(** An object updated in place. *)
Definition upd_cli (c : clientp) (f : client → client) : cworld → cworld := set_clis (alter f c).
Definition upd_cpoll (p : nat) (f : cpolling → cpolling) : cworld → cworld := set_cpolls (alter f p).
Definition upd_cws (p : nat) (f : cwebsocket → cwebsocket) : cworld → cworld := set_cwss (alter f p).

Lemma upd_as_set c k (f : client → client) w :
  clis w !! c = Some k → upd_cli c f w = set_clis <[c := f k]> w.
Proof. intros Hk. unfold upd_cli, set_clis. f_equal. by apply alter_as_insert. Qed.

Lemma upd_poll_as_set p k (f : cpolling → cpolling) w :
  cpolls w !! p = Some k → upd_cpoll p f w = set_cpolls <[p := f k]> w.
Proof. intros Hk. unfold upd_cpoll, set_cpolls. f_equal. by apply alter_as_insert. Qed.

(** ** The runtime *)

(** [context.WithCancel(context.Background())] and [WithTimeout]; [cancel];
    [ctx.Err() != nil]. *)
Definition add_ctx w : ctxp * cworld := (length (ctxs w), set_ctxs (λ l, l ++ [false]) w).
Definition cancel_ctx (x : ctxp) : cworld → cworld := set_ctxs <[x := true]>.
Definition ctx_done (x : ctxp) w : bool := default true (ctxs w !! x).

(** Channels, [true] when closed; [close] panics on a closed one. *)
Definition add_cchan w : chanp * cworld := (length (cchans w), set_cchans (λ l, l ++ [false]) w).
Definition close_cchan (d : chanp) w : cworld :=
  match cchans w !! d with
  | Some false => set_cchans <[d := true]> w
  | _ => set_cpanicked true w
  end.
Definition cchan_closed (d : chanp) w : bool := default false (cchans w !! d).

(** Timers of [time.AfterFunc]. *)
Definition add_ctimer (d : Z) w : timerp * cworld :=
  (length (ctimers w), set_ctimers (λ l, l ++ [mkTimer d Armed]) w).
Definition stop_ctimer (o : option timerp) w : cworld :=
  match o with
  | Some tm => set_ctimers (alter (λ t, mkTimer (tm_dur t)
                 match tm_state t with Armed => Stopped | st => st end) tm) w
  | None => w
  end.
Definition fire_ctimer (tm : timerp) w : option (unit * cworld) :=
  match ctimers w !! tm with
  | Some (mkTimer d Armed) => Some (tt, set_ctimers <[tm := mkTimer d Fired]> w)
  | _ => None
  end.

Abbreviation P := (mprog cworld cl_method).

(** Reading a field. *)
Definition cli_get {B} (c : clientp) (d : B) (f : client → B) : P B :=
  gets (λ w, match clis w !! c with Some k => f k | None => d end).
Definition cpoll_get {B} (p : nat) (d : B) (f : cpolling → B) : P B :=
  gets (λ w, match cpolls w !! p with Some k => f k | None => d end).
Definition cws_get {B} (p : nat) (d : B) (f : cwebsocket → B) : P B :=
  gets (λ w, match cwss w !! p with Some k => f k | None => d end).
End State.

#[global] Arguments cworld C U : clear implicits.
