(* ===== verification/ClientTransport.v ===== *)
(** * ClientTransport: the transports of the Engine.IO client

    Models [engineio/client_transport.go]: the polling transport, whose loop
    issues one GET after another and can be paused, and whose [Send] issues a
    POST; and the WebSocket transport.  [http.NewRequestWithContext] fails only
    for a URL or a method that cannot occur here, and is left out. *)

From S2P Require Import Prelude.
From S2P Require Import EnginePacket.
From S2P Require Import Sched.
From S2P Require Import EngineTypes.
From S2P Require Import ClientTypes.

Section Transport.
Context {C U : Type} `{WS : !WebsocketConn C} (choose : nat → bool).
Abbreviation W := (cworld C U).
Abbreviation P := (mprog W cl_method).
Implicit Types (w : W) (p i : nat) (b : binding).

(** ** The network *)

(** [httpClient.Do(req)]: the answer, or an error when the request's context
    is done; either when both. *)
Definition send_request (meth : string) (u : url) (body : bytes) (ctx : ctxp) w : nat * W :=
  (length (https w), set_https (λ l, l ++ [mkHttp meth u body ctx None]) w).

Definition take_answer {B : Type} (ctx : ctxp) (answer : option (result string B)) w
    : option (result string B * W) :=
  let w' := set_ctick S w in
  match answer with
  | Some a => Some (if ctx_done ctx w && choose (ctick w) then Err "context canceled" else a, w')
  | None => if ctx_done ctx w then Some (Err "context canceled", w') else None
  end.

Definition http_do (meth : string) (u : url) (body : bytes) (ctx : ctxp) : P (result string response) :=
  atomic (send_request meth u body ctx) ≫= λ i,
  await (λ w, match https w !! i with Some k => take_answer ctx (h_answer k) w | None => None end).

(** [io.ReadAll(resp.Body)]: it may also fail because the context is done. *)
Definition read_body (ctx : ctxp) (resp : response) : P (result string bytes) :=
  atomic (λ w,
    (if ctx_done ctx w && choose (ctick w) then Err "context canceled"
     else match rs_fails resp with Some e => Err e | None => Ok (rs_body resp) end,
     set_ctick S w)).

(** [websocket.Dial(ctx, u, nil)]. *)
Definition dial_websocket (u : url) (ctx : ctxp) : P (result string connp) :=
  atomic (λ w, (length (dials w), set_dials (λ l, l ++ [mkDial u ctx None]) w)) ≫= λ i,
  await (λ w, match dials w !! i with Some k => take_answer ctx (d_answer k) w | None => None end).

(** [conn.Read(ctx)], [conn.Write(ctx, ...)]. *)
Definition cconn_read (c : connp) (ctx : ctxp) : P (option (bool * bytes)) :=
  await (λ w, match cconns w !! c with
              | Some k => match ws_read k (ctx_done ctx w) with
                          | Some (r, k') => Some (r, set_cconns <[c := k']> w)
                          | None => None
                          end
              | None => Some (None, w)
              end).
Definition cconn_write (c : connp) (ctx : ctxp) (binary : bool) (data : bytes) : P (option string) :=
  await (λ w, match cconns w !! c with
              | Some k => match ws_write k (ctx_done ctx w) binary data with
                          | Some (e, k') => Some (e, set_cconns <[c := k']> w)
                          | None => None
                          end
              | None => Some (None, w)
              end).

(** ** Polling *)

(** A call through [p.handler], which panics when it is nil. *)
Definition cp_notify p (m : binding → cl_method) : P unit :=
  cpoll_get p None cp_handler ≫= λ h,
  match h with Some b => call (m b) | None => update (set_cpanicked true) end.

(** [urlWithSID] *)
Definition urlWithSID p : P url :=
  cpoll_get p None (λ k, Some (cp_u k, cp_sid k)) ≫= λ o,
  match o with
  | Some (u, c) =>
      cli_get c "" c_sid ≫= λ sid,
      mret (if decide (sid = "") then u else query_set "sid" sid u)
  | None => mret (mkUrl "" "" ∅)
  end.

(** [pause] *)
Definition pause_locked p w : bool * W :=
  (match cpolls w !! p with Some k => 0 <? cp_sendInflight k | None => false end,
   upd_cpoll p (set_cp_paused true) w).
Definition sends_done p : P unit :=
  await (λ w, match cpolls w !! p with
              | Some k => if 0 <? cp_sendInflight k then None else Some (tt, w)
              | None => Some (tt, w)
              end).
Definition cp_pause p : P unit := atomic (pause_locked p) ≫= λ busy, when busy (sends_done p).

(** [stopForUpgrade] *)
Definition stopForUpgrade p : P unit := update (upd_cpoll p (set_cp_closed true)).

(** [resume] *)
Definition resume_locked p w : W :=
  match cpolls w !! p with
  | Some k =>
      if cp_paused k then
        let w1 := close_cchan (cp_pauseCh k) (upd_cpoll p (set_cp_paused false) w) in
        let '(d, w2) := add_cchan w1 in
        upd_cpoll p (set_cp_pauseCh d) w2
      else w
  | None => w
  end.
Definition cp_resume p : P unit := update (resume_locked p).

(** The counters of the requests in flight. *)
Definition add_sends p (n : Z) : P unit :=
  update (upd_cpoll p (λ k, set_cp_sendInflight (cp_sendInflight k + n) k)).
Definition add_polls p (n : Z) : P unit :=
  update (upd_cpoll p (λ k, set_cp_inflight (cp_inflight k + n) k)).

(** [p.ctx.Err() != nil] *)
Definition cp_cancelled p : P bool :=
  gets (λ w, match cpolls w !! p with Some k => ctx_done (cp_ctx k) w | None => true end).

(** [Send] *)
Definition cp_Send p (pkts : list Packet) : P unit :=
  let body := EncodePayload pkts in
  urlWithSID p ≫= λ u,
  cpoll_get p 0%nat cp_ctx ≫= λ ctx,
  add_sends p 1 ≫= λ _,
  http_do "POST" u body ctx ≫= λ r,
  add_sends p (-1) ≫= λ _,
  match r with
  | Err e =>
      cp_cancelled p ≫= λ done : bool,
      if done then skip else cp_notify p (λ b, CMOnError b (CErrIO e))
  | Ok resp =>
      when (negb (bool_decide (rs_status resp = 200)))
        (cp_notify p (λ b, CMOnError b (CErrStatus (rs_status resp))))
  end.

(** One round of [pollLoop]; waiting while it is paused. *)
Definition unpaused p (ch : chanp) : P bool :=
  cpoll_get p 0%nat cp_ctx ≫= λ ctx,
  await (λ w,
    let w' := set_ctick S w in
    if cchan_closed ch w && negb (ctx_done ctx w && choose (ctick w)) then Some (true, w')
    else if ctx_done ctx w then Some (false, w') else None).

Definition poll_body p (ctx : ctxp) (resp : response) : P bool :=
  read_body ctx resp ≫= λ body,
  if decide (rs_status resp ≠ 200) then
    cp_notify p (λ b, CMOnError b (CErrStatus (rs_status resp))) ≫= λ _, mret false
  else
    match body with
    | Err e => cp_notify p (λ b, CMOnError b (CErrIO e)) ≫= λ _, mret false
    | Ok body =>
        match DecodePayloadWithLimit body 0 with
        | (_, Some e) => cp_notify p (λ b, CMOnError b (CErrCodec e)) ≫= λ _, mret false
        | (pkts, None) =>
            for_each pkts (λ pk, cp_notify p (λ b, CMOnPacket b pk)) ≫= λ _, mret true
        end
    end.

Definition poll_round p : P bool :=
  cpoll_get p (true, false, 0%nat) (λ k, (cp_closed k, cp_paused k, cp_pauseCh k)) ≫= λ st,
  let '(closed, paused, ch) := st in
  if (closed : bool) then mret false
  else if (paused : bool) then unpaused p ch
  else
    cp_cancelled p ≫= λ done : bool,
    if done then mret false
    else
      urlWithSID p ≫= λ u,
      cpoll_get p 0%nat cp_ctx ≫= λ ctx,
      add_polls p 1 ≫= λ _,
      http_do "GET" u [] ctx ≫= λ r,
      add_polls p (-1) ≫= λ _,
      match r with
      | Err e =>
          cp_cancelled p ≫= λ done : bool,
          if done then mret false
          else cp_notify p (λ b, CMOnError b (CErrIO e)) ≫= λ _, mret false
      | Ok resp => poll_body p ctx resp
      end.

(** [SetHandler]; [pollOnce] starts the loop once. *)
Definition cp_SetHandler p b : P unit :=
  update (upd_cpoll p (set_cp_handler (Some b))) ≫= λ _,
  atomic (λ w, (match cpolls w !! p with Some k => negb (cp_polling k) | None => false end,
                upd_cpoll p (set_cp_polling true) w)) ≫= λ first,
  when first (go_loop (poll_round p)).

(** [Close] *)
Definition cp_Close p : P unit :=
  atomic (λ w, (match cpolls w !! p with
                | Some k => if cp_closed k then None else Some (cp_ctx k)
                | None => None
                end, upd_cpoll p (set_cp_closed true) w)) ≫= λ o,
  match o with Some ctx => update (cancel_ctx ctx) | None => skip end.

(** ** WebSocket *)

(** A call through [w.handler], unless it is nil. *)
Definition cw_notify i (m : binding → cl_method) : P unit :=
  cws_get i None cw_handler ≫= λ h, match h with Some b => call (m b) | None => skip end.

(** The connection and the context of the transport never change. *)
Definition cw_conn_ctx i : P (connp * ctxp) := cws_get i (0%nat, 0%nat) (λ k, (cw_conn k, cw_ctx k)).

(** One round of [readLoop]. *)
Definition cw_round i : P bool :=
  cw_conn_ctx i ≫= λ cx,
  cconn_read cx.1 cx.2 ≫= λ r,
  match r with
  | None => cw_notify i CMOnClose ≫= λ _, mret false
  | Some (true, data) =>
      cw_notify i (λ b, CMOnPacket b (mkPacket Message data true)) ≫= λ _, mret true
  | Some (false, data) =>
      match DecodePacket data false with
      | Err e => cw_notify i (λ b, CMOnError b (CErrCodec e)) ≫= λ _, mret true
      | Ok pk => cw_notify i (λ b, CMOnPacket b pk) ≫= λ _, mret true
      end
  end.

(** [SetHandler] *)
Definition cw_SetHandler i b : P unit :=
  update (upd_cws i (set_cw_handler (Some b))) ≫= λ _,
  atomic (λ w, (match cwss w !! i with Some k => negb (cw_reading k) | None => false end,
                upd_cws i (set_cw_reading true) w)) ≫= λ first,
  when first (go_loop (cw_round i)).

(** [Send] *)
Fixpoint cw_Send i (pkts : list Packet) : P unit :=
  match pkts with
  | [] => skip
  | pk :: pkts' =>
      cw_conn_ctx i ≫= λ cx,
      cconn_write cx.1 cx.2 (IsBinary pk) (if IsBinary pk then Data pk else EncodePacket pk true) ≫= λ e,
      match e with
      | Some msg => cw_notify i (λ b, CMOnError b (CErrIO msg))
      | None => cw_Send i pkts'
      end
  end.

(** [Close] *)
Definition cw_Close i : P unit :=
  cw_conn_ctx i ≫= λ cx,
  update (set_cconns (alter ws_close cx.1)) ≫= λ _, update (cancel_ctx cx.2).

(** ** The [Transport] interface *)

Definition ct_Name (t : ctport) : string :=
  match t with CPolling _ => "polling" | CWebsocket _ => "websocket" end.
Definition ct_SetHandler (t : ctport) b : P unit :=
  match t with CPolling p => cp_SetHandler p b | CWebsocket i => cw_SetHandler i b end.
End Transport.
