(* ===== verification/ClientEngine.v ===== *)
(** * ClientEngine: the Engine.IO client

    Models [engineio/client.go]: [Dial] and the handshake, sending with the
    buffer that holds packets during an upgrade, the heartbeat's watchdog,
    closing, and the upgrade to WebSocket with its probe.  [Dial] takes the URL
    as [url.Parse] gives it.  The deferred [cancel] of the upgrade is the last
    step of each of its ends. *)

From S2P Require Import Prelude.
From S2P Require Import EnginePacket.
From S2P Require Import AckTable.
From S2P Require Import Sched.
From S2P Require Import EngineTypes.
From S2P Require Import EngineOptions.
From S2P Require Import OpenPacket.
From S2P Require Import EngineServer.
From S2P Require Import ClientTypes.
From S2P Require Import ClientTransport.

Section Client.
Context {C U : Type} `{WS : !WebsocketConn C} (choose : nat → bool).
Abbreviation W := (cworld C U).
Abbreviation P := (mprog W cl_method).
Implicit Types (w : W) (c : clientp) (b : binding) (t : ctport).

(** What the user does in the client's callbacks. *)
Record cl_user := mkClUser {
  cu_open : fn → clientp → P unit;
  cu_data : fn → clientp → bytes → bool → P unit;
  cu_close : fn → clientp → option cl_error → P unit
}.
Context (usr : cl_user).

(** [OnOpen], [OnData], [OnClose] with a function; [SID] *)
Definition cl_OnOpen c (f : fn) : P unit := update (upd_cli c (set_c_onOpen (Some f))).
Definition cl_OnData c (f : fn) : P unit := update (upd_cli c (set_c_onData (Some f))).
Definition cl_OnClose c (f : fn) : P unit := update (upd_cli c (set_c_onClose (Some f))).
Definition SID c : P string := cli_get c "" c_sid.

(** ** Sending *)

(** [flushSends]: the critical section takes the buffer. *)
Definition flushSends_locked c w : option (option ctport * list Packet) * W :=
  match clis w !! c with
  | Some k =>
      if c_closed k || c_upgrading k then (None, w)
      else (Some (c_tport k, c_writeBuffer k), upd_cli c (set_c_writeBuffer []) w)
  | None => (None, w)
  end.

Definition flushSends c : P unit :=
  atomic (flushSends_locked c) ≫= λ o,
  match o with
  | Some (Some t, p :: ps) => call (CMSend t (p :: ps))
  | _ => skip
  end.

(** [sendPacket] and [SendMessage] *)
Definition cl_push c (p : Packet) w : bool * W :=
  match clis w !! c with
  | Some k => if c_closed k then (false, w)
              else (true, upd_cli c (set_c_writeBuffer (c_writeBuffer k ++ [p])) w)
  | None => (false, w)
  end.

Definition cl_sendPacket c (ty : Type_) (data : bytes) (binary : bool) : P unit :=
  atomic (cl_push c (mkPacket ty data binary)) ≫= λ ok, when ok (flushSends c).

Definition cl_SendMessage c (data : bytes) (binary : bool) : P (option cl_error) :=
  atomic (cl_push c (mkPacket Message data binary)) ≫= λ ok : bool,
  if ok then flushSends c ≫= λ _, mret None else mret (Some CErrClientClosed).

(** ** Closing *)

(** [Close]: the user's; no callback is run. *)
Definition mark_closed c w : option client * W :=
  match clis w !! c with
  | Some k => if c_closed k then (None, w)
              else (Some k, stop_ctimer (c_noPing k) (upd_cli c (set_c_closed true) w))
  | None => (None, w)
  end.

Definition cl_Close c : P unit :=
  atomic (mark_closed c) ≫= λ o,
  match o with
  | Some k => match c_tport k with Some t => call (CMClose t) | None => skip end
  | None => skip
  end.

(** [handshakeSucceeded], [handshakeFailed] *)
Definition handshake_done c (v : option cl_error) : P unit :=
  update (λ w, match clis w !! c with
               | Some k => if c_handshakeOnce k then w
                           else upd_cli c (λ k, set_c_handshakeDone (Some v) (set_c_handshakeOnce true k)) w
               | None => w
               end).

(** A call of a callback that is registered. *)
Definition run_callback (o : option fn) (ev : cl_event) (p : fn → P unit) : P unit :=
  match o with
  | Some f => update (set_cuplog (λ l, l ++ [ev])) ≫= λ _, p f
  | None => skip
  end.

(** [closeWithError] *)
Definition closeWithError c (err : option cl_error) : P unit :=
  atomic (mark_closed c) ≫= λ o,
  match o with
  | Some k =>
      match err with Some _ => handshake_done c err | None => skip end ≫= λ _,
      run_callback (c_onClose k) (CUpClose c err) (λ f, cu_close usr f c err)
  | None => skip
  end.

(** [onErrorFrom], [onCloseFrom] *)
Definition cl_active c t : P bool := cli_get c false (λ k, bool_decide (c_tport k = Some t)).
Definition cl_onErrorFrom c t (e : cl_error) : P unit :=
  cl_active c t ≫= λ a, when a (closeWithError c (Some (cl_wrapInvalidPacket e))).
Definition cl_onCloseFrom c t : P unit :=
  cl_active c t ≫= λ a, when a (closeWithError c (Some CErrTransportClosed)).

(** ** The watchdog *)

(** [resetNoPingTimeout] *)
Definition watchdog_time c : P Z :=
  cli_get c 0 (λ k,
    let interval := if decide (c_pingInterval k = 0) then PingInterval (c_opts k) else c_pingInterval k in
    let timeout := if decide (c_pingTimeout k = 0) then PingTimeout (c_opts k) else c_pingTimeout k in
    wrap64 (interval + timeout)).

Definition arm_watchdog c (d : Z) w : option timerp * W :=
  match clis w !! c with
  | Some k =>
      if c_closed k then (None, w)
      else
        let '(tm, w1) := add_ctimer d (stop_ctimer (c_noPing k) w) in
        (Some tm, upd_cli c (set_c_noPing (Some tm)) w1)
  | None => (None, w)
  end.

Definition resetNoPingTimeout c : P unit :=
  watchdog_time c ≫= λ d,
  atomic (arm_watchdog c d) ≫= λ o,
  match o with
  | Some tm => go (await (fire_ctimer tm) ≫= λ _, closeWithError c (Some CErrPingTimeout))
  | None => skip
  end.

(** ** The upgrade *)

(** [fail] *)
Definition upgrade_fail c (t : option ctport) : P unit :=
  update (upd_cli c (set_c_upgrading false)) ≫= λ _,
  flushSends c ≫= λ _,
  match t with Some (CPolling p) => cp_resume p | _ => skip end.

(** A failure after the dial, and the end of the upgrade. *)
Definition upgrade_broken c (t : option ctport) (conn : connp) (ctx : ctxp) : P unit :=
  update (set_cconns (alter ws_closeNow conn)) ≫= λ _,
  upgrade_fail c t ≫= λ _, update (cancel_ctx ctx).

(** The switch to the new transport. *)
Definition new_cwebsocket (conn : connp) : P nat :=
  atomic (λ w, let '(ctx, w1) := add_ctx w in
               (length (cwss w), set_cwss (λ l, l ++ [mkCWebsocket conn ctx None false]) w1)).

Definition cl_switch c t w : option (option ctport) * W :=
  match clis w !! c with
  | Some k => if c_closed k then (None, w)
              else (Some (c_tport k), upd_cli c (λ k, set_c_tport (Some t) (set_c_upgrading false k)) w)
  | None => (None, w)
  end.

Definition finish_upgrade c (conn : connp) (ctx : ctxp) : P unit :=
  new_cwebsocket conn ≫= λ i,
  atomic (cl_switch c (CWebsocket i)) ≫= λ o,
  match o with
  | None => update (set_cconns (alter ws_closeNow conn))
  | Some old =>
      match old with
      | Some (CPolling p) => stopForUpgrade p
      | Some t => call (CMClose t)
      | None => update (set_cpanicked true)
      end ≫= λ _,
      cw_SetHandler i (mkBinding c (CWebsocket i)) ≫= λ _, flushSends c
  end ≫= λ _, update (cancel_ctx ctx).

(** Waiting for the probe's answer, and what follows. *)
Definition probe_loop c (t : option ctport) (conn : connp) (ctx : ctxp) : P unit :=
  cconn_read conn ctx ≫= λ r,
  match r with
  | None => upgrade_broken c t conn ctx
  | Some (binary, data) =>
      if negb binary && bool_decide (data = bytes_of "3probe") then
        cconn_write conn ctx false (bytes_of "5") ≫= λ e,
        match e with
        | Some _ => upgrade_broken c t conn ctx
        | None => finish_upgrade c conn ctx
        end
      else call (CMProbe c t conn ctx)
  end.

(** [upgradeToWebsocket] *)
Definition upgrade_url (u : url) (sid : string) : url :=
  wsURLString (query_set "sid" sid (query_set "transport" "websocket" (query_set "EIO" "4" u))).

Definition upgradeToWebsocket c : P unit :=
  cli_get c ("", None) (λ k, (c_sid k, c_tport k)) ≫= λ st,
  let '(sid, t) := st in
  if decide (sid = "") then skip
  else
    update (upd_cli c (set_c_upgrading true)) ≫= λ _,
    match t with Some (CPolling p) => cp_pause p | _ => skip end ≫= λ _,
    cli_get c (mkUrl "" "" ∅) c_u ≫= λ u,
    atomic add_ctx ≫= λ ctx,
    dial_websocket choose (upgrade_url u sid) ctx ≫= λ r,
    match r with
    | Err _ => upgrade_fail c t ≫= λ _, update (cancel_ctx ctx)
    | Ok conn =>
        cconn_write conn ctx false (bytes_of "2probe") ≫= λ e,
        match e with
        | Some _ => upgrade_broken c t conn ctx
        | None => probe_loop c t conn ctx
        end
    end.

(** ** Packets *)

(** [handleOpen] *)
Definition opened_client (o : open_packet) (k : client) : client :=
  set_c_pingTimeout (wrap64 (o_pingTimeout o * 10 ^ 6))
    (set_c_pingInterval (wrap64 (o_pingInterval o * 10 ^ 6)) (set_c_sid (o_sid o) k)).

Definition wants_upgrade (o : open_packet) (k : client) : bool :=
  containsString (o_upgrades o) "websocket" && AllowUpgrades (c_opts k) && enabled (c_opts k) "websocket".

Definition handleOpen c (data : bytes) : P unit :=
  match decode_open data with
  | None => closeWithError c (Some CErrOpenJSON)
  | Some o =>
      update (upd_cli c (opened_client o)) ≫= λ _,
      resetNoPingTimeout c ≫= λ _,
      cli_get c false (wants_upgrade o) ≫= λ up,
      when up (go (upgradeToWebsocket c)) ≫= λ _,
      cli_get c None c_onOpen ≫= λ f,
      handshake_done c None ≫= λ _,
      run_callback f (CUpOpen c) (λ f, cu_open usr f c)
  end.

(** [onPacket] *)
Definition cl_onPacket c (p : Packet) : P unit :=
  match Type_of p with
  | Open => handleOpen c (Data p)
  | Ping => cl_sendPacket c Pong (Data p) false ≫= λ _, resetNoPingTimeout c
  | Message =>
      cli_get c None c_onData ≫= λ f,
      run_callback f (CUpData c (Data p) (IsBinary p)) (λ f, cu_data usr f c (Data p) (IsBinary p))
  | Close => closeWithError c None
  | _ => skip
  end.

(** [clientBinding.OnPacket] *)
Definition binding_OnPacket b (p : Packet) : P unit :=
  cl_active (b_client b) (b_transport b) ≫= λ active,
  if negb active && bool_decide (Type_of p = Close) then skip else cl_onPacket (b_client b) p.

#[export] Instance client_methods : Methods W cl_method := λ m,
  match m with
  | CMSend (CPolling p) pkts => cp_Send choose p pkts
  | CMSend (CWebsocket i) pkts => cw_Send i pkts
  | CMClose (CPolling p) => cp_Close p
  | CMClose (CWebsocket i) => cw_Close i
  | CMOnPacket b pk => binding_OnPacket b pk
  | CMOnError b e => cl_onErrorFrom (b_client b) (b_transport b) e
  | CMOnClose b => cl_onCloseFrom (b_client b) (b_transport b)
  | CMProbe c t conn ctx => probe_loop c t conn ctx
  end.

(** ** Dial *)

Definition new_client (u : url) (o : options) : client :=
  mkClient u o "" None false [] false 0 0 None None false None None None.

(** [dialPolling] *)
Definition new_cpolling c (u : url) w : nat * W :=
  let '(ch, w1) := add_cchan w in
  let '(ctx, w2) := add_ctx w1 in
  (length (cpolls w), set_cpolls (λ l, l ++ [mkCPolling u c None ctx false false ch 0 0 false]) w2).

Definition dialPolling c : P unit :=
  cli_get c (mkUrl "" "" ∅) c_u ≫= λ u,
  atomic (new_cpolling c (query_set "transport" "polling" (query_set "EIO" "4" u))) ≫= λ p,
  update (upd_cli c (set_c_tport (Some (CPolling p)))) ≫= λ _,
  cp_SetHandler choose p (mkBinding c (CPolling p)).

(** [dialWebsocket] *)
Definition dialWebsocket c (ctx : ctxp) : P (option cl_error) :=
  cli_get c (mkUrl "" "" ∅) c_u ≫= λ u,
  dial_websocket choose (wsURLString (query_set "transport" "websocket" (query_set "EIO" "4" u))) ctx ≫= λ r,
  match r with
  | Err e => mret (Some (CErrIO e))
  | Ok conn =>
      new_cwebsocket conn ≫= λ i,
      update (upd_cli c (set_c_tport (Some (CWebsocket i)))) ≫= λ _,
      cw_SetHandler i (mkBinding c (CWebsocket i)) ≫= λ _, mret None
  end.

(** The [select] of [Dial]: the context, or the value of [handshakeDone]. *)
Definition handshake_or_ctx c (ctx : ctxp) w : option (option (option cl_error) * W) :=
  match clis w !! c with
  | Some k =>
      let w' := set_ctick S w in
      match c_handshakeDone k with
      | Some v => if ctx_done ctx w && choose (ctick w) then Some (None, w')
                  else Some (Some v, upd_cli c (set_c_handshakeDone None) w')
      | None => if ctx_done ctx w then Some (None, w') else None
      end
  | None => None
  end.

Definition Dial (ctx : ctxp) (u : result string url) (opts : option options) : P (result cl_error clientp) :=
  let o := withDefaults (default zero_options opts) in
  match u with
  | Err e => mret (Err (CErrIO e))
  | Ok u =>
      atomic (λ w, (length (clis w), set_clis (λ l, l ++ [new_client u o]) w)) ≫= λ c,
      match head (Transports o) with
      | Some t =>
          if decide (t = "polling") then dialPolling c ≫= λ _, mret None
          else if decide (t = "websocket") then dialWebsocket c ctx
          else mret None
      | None => update (set_cpanicked true) ≫= λ _, mret None
      end ≫= λ e,
      match e with
      | Some e => mret (Err e)
      | None =>
          await (handshake_or_ctx c ctx) ≫= λ v,
          match v with
          | None => cl_Close c ≫= λ _, mret (Err CErrContext)
          | Some (Some e) => mret (Err e)
          | Some None => mret (Ok c)
          end
      end
  end.

(** ** The user and the environment *)

(** A user who dials and keeps the client, and one who uses a client [Dial]
    has returned. *)
Definition dials_server (u : result string url) (opts : option options) : P unit :=
  atomic add_ctx ≫= λ ctx,
  Dial ctx u opts ≫= λ r,
  match r with Ok c => update (set_handles (λ l, l ++ [c])) | Err _ => skip end.
Definition with_client (i : nat) (f : clientp → P unit) : P unit :=
  await (λ w, match handles w !! i with Some c => Some (c, w) | None => None end) ≫= f.

(** A request, a dial is answered; a context ends; the peer of a connection
    acts. *)
Definition answered (i : nat) (a : result string response) : W → W :=
  set_https (alter (λ k, mkHttp (h_method k) (h_url k) (h_body k) (h_ctx k)
    (match h_answer k with None => Some a | old => old end)) i).
Definition answers (i : nat) (a : result string response) : P unit := update (answered i a).
Definition dial_answered (i : nat) (a : result string C) w : W :=
  match dials w !! i with
  | Some (mkDial u ctx None) =>
      match a with
      | Ok k => set_dials <[i := mkDial u ctx (Some (Ok (length (cconns w))))]>
                  (set_cconns (λ l, l ++ [k]) w)
      | Err e => set_dials <[i := mkDial u ctx (Some (Err e))]> w
      end
  | _ => w
  end.
Definition dial_answers (i : nat) (a : result string C) : P unit := update (dial_answered i a).
Definition ctx_expires (x : ctxp) : P unit := update (cancel_ctx x).
Definition cpeer_acts (conn : connp) (f : C → C) : P unit := update (set_cconns (alter f conn)).
End Client.
