(* ===== verification/EngineDemo.v ===== *)
(** * EngineDemo: a concrete network and application

    An instance of the parameters of the Engine.IO server: connections that
    are a pair of queues, an application that echoes messages, and a
    configuration of requests.  The concrete runs of the other files use
    them. *)

From S2P Require Import Prelude.
From S2P Require Import Base64.
From S2P Require Import EnginePacket.
From S2P Require Import Sched.
From S2P Require Import EngineTypes.
From S2P Require Import EngineOptions.
From S2P Require Import Polling.
From S2P Require Import Websocket.
From S2P Require Import EngineSocket.
From S2P Require Import EngineServer.

(** A connection: the frames to read, those written, and whether it is
    closed. *)
Record pipe := mkPipe { inbox : list (bool * bytes); outbox : list (bool * bytes); hungup : bool }.

#[export] Instance pipe_conn : WebsocketConn pipe := {|
  ws_accept := λ _, Ok (mkPipe [] [] false);
  ws_read := λ c cancelled,
    if cancelled || hungup c then Some (None, c)
    else match inbox c with
         | m :: l => Some (Some m, mkPipe l (outbox c) (hungup c))
         | [] => None
         end;
  ws_write := λ c cancelled binary b,
    if cancelled || hungup c then Some (Some "closed", c)
    else Some (None, mkPipe (inbox c) (outbox c ++ [(binary, b)]) (hungup c));
  ws_close := λ c, mkPipe (inbox c) (outbox c) true;
  ws_closeNow := λ c, mkPipe (inbox c) (outbox c) true
|}.

Definition feed (ms : list (bool * bytes)) (c : pipe) : pipe :=
  mkPipe (inbox c ++ ms) (outbox c) (hungup c).

Definition choose (n : nat) : bool := true.
Definition rand (n : nat) : bytes := replicate 18 (byte_of_val (Z.of_nat n)).
Definition cord (n : nat) (m : gmap string sockp) : list sockp := (map_to_list m).*2.

(** The application echoes every message. *)
Definition echo : user (C := pipe) (U := nat) :=
  mkUser (λ _ _, skip) (λ _ s data b, SendMessage s data b) (λ _ _ _ _, skip).

Abbreviation dworld := (world pipe nat).
Abbreviation dconfig := (config dworld method_name).

#[export] Instance demo_methods : Methods dworld method_name := engine_methods choose echo.

Definition get (q : list (string * string)) : request := mkRequest "GET" q "" [] None "client".
Definition post (q : list (string * string)) (body : string) : request :=
  mkRequest "POST" q "text/plain" (bytes_of body) None "client".
Definition demo_sid : string := "AAAAAAAAAAAAAAAAAAAAAAAA".
Definition q_polling : list (string * string) := [("EIO", "4"); ("transport", "polling")].
Definition q_websocket : list (string * string) := [("EIO", "4"); ("transport", "websocket")].
Definition with_sid (q : list (string * string)) := q ++ [("sid", demo_sid)].

Definition serve (r : request) : mprog dworld method_name unit := serve_request choose rand echo r.

Definition hang_up (c : pipe) : pipe := mkPipe (inbox c) (outbox c) true.

Definition answer (c : dconfig) (x : exchp) : option (option Z * string * bool) :=
  (λ e, (x_status e, string_of (x_body e), x_over e)) <$> (exchs c.1 !! x).

(** The world after the calls have run by turns, and its first session and
    transports. *)
Definition world_after (calls : list (mprog dworld method_name unit)) (ns : list nat) : dworld :=
  (turns ns (NewServer None 0%nat, Once <$> calls)).1.

Definition first_sk (w : dworld) : esocket := default (new_socket "" "" None) (sks w !! 0%nat).
Definition first_poll (w : dworld) : polling := default new_polling (polls w !! 0%nat).
