(* ===== verification/EngineInvariant.v ===== *)
(** * EngineInvariant: what every interleaving of the Engine.IO server keeps

    Ownership of what may be done once: writing the response of a request
    ([TFresh] before its poll is parked, [TWriter] after), closing the channel a poll waits on ([TClose]), telling the
    layer above that a session is closed ([TClosing]), opening a session
    ([TOpen]).  A goroutine owns such a permission, or the permission is
    parked in the state: a polling transport that holds a request's response
    and channel owns both permissions.  The invariant counts them. *)

From stdpp Require Import gmultiset.
From S2P Require Import Prelude.
From S2P Require Import EnginePacket.
From S2P Require Import Sched.
From S2P Require Import Safety.
From S2P Require Import EngineTypes.
From S2P Require Import EngineOptions.
From S2P Require Import Polling.
From S2P Require Import Websocket.
From S2P Require Import EngineSocket.
From S2P Require Import EngineServer.

Inductive token :=
| TFresh (x : exchp) | TWriter (x : exchp) | TClose (d : chanp)
| TClosing (s : sockp) | TOpen (s : sockp).

#[export] Instance token_eq_dec : EqDecision token.
Proof. solve_decision. Defined.

#[export] Instance token_countable : Countable token.
Proof.
  apply (inj_countable'
    (λ t, match t with
          | TWriter x => (0, x) | TClose d => (1, d) | TClosing s => (2, s) | TOpen s => (3, s)
          | TFresh x => (4, x)
          end%nat)
    (λ p : nat * nat, match p.1 with
       | 0 => TWriter p.2 | 1 => TClose p.2 | 2 => TClosing p.2 | 3 => TOpen p.2 | _ => TFresh p.2
       end%nat)).
  by intros [].
Defined.

Section Invariant.
Context {C U : Type} `{WS : !WebsocketConn C}.
Abbreviation W := (world C U).
Abbreviation P := (mprog W method_name).
Implicit Types (w : W) (s : sockp) (x : exchp) (d : chanp) (o F : gmultiset token).

(** ** The invariant *)

(** Handlers that are stored or called close the channel of an upgrade
    only. *)
Definition handler_ok w (h : handler) : Prop :=
  match h with
  | HBinding _ _ => True
  | HUpgrade _ _ _ stop => ∃ b, chans w !! stop = Some (mkChan StopCheck b)
  end.
Definition handler_opt w (h : option handler) : Prop :=
  match h with Some h => handler_ok w h | None => True end.

(** A polling transport holds a request, its response and its channel, or
    none of them. *)
Definition poll_ok w (k : polling) : Prop :=
  handler_opt w (p_handler k) ∧
  match p_res k, p_pollDone k with
  | Some x, Some d => p_req k = Some x ∧ ∃ b, chans w !! d = Some (mkChan (PollDone x) b)
  | None, None => p_req k = None
  | _, _ => False
  end.

(** How many permissions there may be. *)
Definition close_right w d : nat :=
  match chans w !! d with Some (mkChan (PollDone _) false) => 1 | _ => 0 end.
Definition answered (e : exchange) : Prop := is_Some (x_status e).
Definition write_right w x : nat :=
  match exchs w !! x with
  | Some e => if x_over e || bool_decide (answered e) then 0 else 1
  | None => 0
  end.
Definition closing_right w s : nat :=
  match sks w !! s with
  | Some k => if decide (es_readyState k = stateClosed) then 2 else 1
  | None => 0
  end.

(** The session whose end the layer above was told. *)
Definition closed_sock (e : up_event) : option sockp :=
  match e with UpClose s _ _ => Some s | _ => None end.
Abbreviation told w s := (cnt closed_sock s (uplog w)).

Record inv w o : Prop := {
  i_panic : panicked w = false;
  i_close d : (cnt p_pollDone d (polls w) + multiplicity (TClose d) o ≤ close_right w d)%nat;
  i_write x : (cnt p_res x (polls w) + multiplicity (TWriter x) o + multiplicity (TFresh x) o
               ≤ write_right w x)%nat;
  i_done d x : chans w !! d = Some (mkChan (PollDone x) true) →
    (cnt p_res x (polls w) + multiplicity (TWriter x) o = 0)%nat;
  i_misused x e : exchs w !! x = Some e → x_misused e = false;
  i_closing s : (told w s + multiplicity (TClosing s) o + multiplicity (TOpen s) o
                 ≤ closing_right w s)%nat;
  i_poll p k : polls w !! p = Some k → poll_ok w k;
  i_ws t k : wss w !! t = Some k → handler_opt w (ws_handler k);
  i_made d x b : chans w !! d = Some (mkChan (PollDone x) b) →
    is_Some (exchs w !! x) ∧ multiplicity (TFresh x) o = 0%nat;
  i_unique d d' x b b' : chans w !! d = Some (mkChan (PollDone x) b) →
    chans w !! d' = Some (mkChan (PollDone x) b') → d = d'
}.

(** What is never undone. *)
Record hist w w' : Prop := {
  h_chan d u b : chans w !! d = Some (mkChan u b) →
    ∃ b', chans w' !! d = Some (mkChan u b') ∧ (b = true → b' = true);
  h_exch x e : exchs w !! x = Some e →
    ∃ e', exchs w' !! x = Some e' ∧ x_req e' = x_req e ∧ (x_over e = true → x_over e' = true)
      ∧ (answered e → x_status e' = x_status e ∧ x_header e' = x_header e ∧ x_body e' = x_body e);
  h_sock s k : sks w !! s = Some k → ∃ k', sks w' !! s = Some k' ∧ es_id k' = es_id k;
  h_uplog : uplog w `prefix_of` uplog w'
}.

#[export] Instance hist_preorder : PreOrder hist.
Proof.
  split.
  - intros w. split; [eauto|intros x e He; exists e; by eauto|eauto|done].
  - intros w1 w2 w3 [A1 A2 A3 A4] [B1 B2 B3 B4]. split.
    + intros d u b H. destruct (A1 d u b H) as (b1 & H1 & H2).
      destruct (B1 d u b1 H1) as (b2 & H3 & H4). eauto.
    + intros x e He. destruct (A2 x e He) as (e1 & H1 & H2 & H3 & H4).
      destruct (B2 x e1 H1) as (e2 & J1 & J2 & J3 & J4). exists e2.
      split_and!; [done|by rewrite J2|auto|]. intros Ha. destruct (H4 Ha) as (K1 & K2 & K3).
      destruct J4 as (L1 & L2 & L3); [by unfold answered; rewrite K1|].
      split_and!; by etransitivity.
    + intros s k H. destruct (A3 s k H) as (k1 & H1 & H2).
      destruct (B3 s k1 H1) as (k2 & H3 & H4). exists k2. split; [done|by rewrite H4].
    + by etransitivity.
Qed.

Lemma hist_stop w w' stop : hist w w' →
  (∃ b, chans w !! stop = Some (mkChan StopCheck b)) →
  ∃ b, chans w' !! stop = Some (mkChan StopCheck b).
Proof. intros Hh [b Hb]. destruct (h_chan w w' Hh _ _ _ Hb) as (b' & H & _). eauto. Qed.

Lemma handler_ok_hist w w' h : hist w w' → handler_ok w h → handler_ok w' h.
Proof. intros Hh. destruct h; [done|]. by apply hist_stop. Qed.

Lemma handler_opt_hist w w' h : hist w w' → handler_opt w h → handler_opt w' h.
Proof. intros Hh. destruct h; [|done]. by apply handler_ok_hist. Qed.

Lemma poll_ok_hist w w' k : hist w w' → poll_ok w k → poll_ok w' k.
Proof.
  intros Hh [H1 H2]. split; [by eapply handler_opt_hist|].
  destruct (p_res k), (p_pollDone k); try done. destruct H2 as (H2 & b & H3). split; [done|].
  destruct (h_chan w w' Hh _ _ _ H3) as (b' & H & _). eauto.
Qed.

(** ** Steps that trade no permission *)

Abbreviation good := (harmless inv hist).

(** What the invariant looks at stays, but for the sessions, which keep what
    matters, and the handlers. *)
Lemma good_core w w' :
  panicked w' = panicked w → chans w' = chans w → exchs w' = exchs w → uplog w' = uplog w →
  (∀ d, cnt p_pollDone d (polls w') = cnt p_pollDone d (polls w)) →
  (∀ x, cnt p_res x (polls w') = cnt p_res x (polls w)) →
  (∀ s k, sks w !! s = Some k → ∃ k', sks w' !! s = Some k' ∧ es_id k' = es_id k) →
  (∀ s, closing_right w s ≤ closing_right w' s)%nat →
  (∀ o, inv w o → ∀ p k, polls w' !! p = Some k → poll_ok w k) →
  (∀ o, inv w o → ∀ t k, wss w' !! t = Some k → handler_opt w (ws_handler k)) →
  good w w'.
Proof.
  intros E1 E2 E3 E4 E5 E6 E7 E8 E9 E10 o Hi.
  assert (hist w w') as Hh.
  { split; rewrite ?E2, ?E3, ?E4; eauto. intros x e He. exists e. by eauto. }
  split; [|done]. split; unfold close_right, write_right; rewrite ?E1, ?E2, ?E3, ?E4.
  - apply Hi.
  - intros d. rewrite E5. apply Hi.
  - intros x. rewrite E6. apply Hi.
  - intros d x. rewrite E6. apply Hi.
  - apply Hi.
  - intros s. etransitivity; [apply Hi|apply E8].
  - intros p k Hk. eapply poll_ok_hist; [done|]. by eapply E9.
  - intros t k Hk. eapply handler_opt_hist; [done|]. by eapply E10.
  - apply Hi.
  - apply Hi.
Qed.

Lemma egood_same w w' :
  panicked w' = panicked w → chans w' = chans w → exchs w' = exchs w → uplog w' = uplog w →
  polls w' = polls w → sks w' = sks w → wss w' = wss w → good w w'.
Proof.
  intros E1 E2 E3 E4 E5 E6 E7. apply good_core; try done; unfold closing_right;
    rewrite ?E5, ?E6, ?E7; eauto using i_poll, i_ws.
Qed.

Lemma good_upd_sk s (f : esocket → esocket) w :
  (∀ k, es_id (f k) = es_id k ∧
        (es_readyState k = stateClosed → es_readyState (f k) = stateClosed)) →
  good w (upd_sk s f w).
Proof.
  intros Hf. apply good_core; try done.
  - intros s' k Hk. unfold upd_sk. simpl. destruct (decide (s = s')) as [->|Hne].
    + rewrite list_lookup_alter_eq, Hk. exists (f k). split; [done|apply Hf].
    + rewrite list_lookup_alter_ne by done. eauto.
  - intros s'. unfold closing_right, upd_sk. simpl. destruct (decide (s = s')) as [->|Hne].
    + rewrite list_lookup_alter_eq. destruct (sks w !! s') as [k|]; [|done]. simpl.
      destruct (Hf k) as [_ Hc]. repeat case_decide; try lia. exfalso. auto.
    + by rewrite list_lookup_alter_ne.
  - intros o Hi p k. apply (i_poll w o Hi).
  - intros o Hi t k. apply (i_ws w o Hi).
Qed.

Lemma lookup_upd_poll p (f : polling → polling) w p' k' :
  polls (upd_poll p f w) !! p' = Some k' →
  (p' = p ∧ ∃ k, polls w !! p = Some k ∧ k' = f k) ∨ (p' ≠ p ∧ polls w !! p' = Some k').
Proof.
  unfold upd_poll. simpl. destruct (decide (p' = p)) as [->|Hne].
  - rewrite list_lookup_alter_eq. intros (k & Hk & ->)%fmap_Some. left. eauto.
  - rewrite list_lookup_alter_ne by done. auto.
Qed.

(** A polling transport whose request stays where it is. *)
Lemma good_upd_poll p (f : polling → polling) w :
  (∀ k, polls w !! p = Some k →
        p_req (f k) = p_req k ∧ p_res (f k) = p_res k ∧ p_pollDone (f k) = p_pollDone k) →
  (∀ k, handler_opt w (p_handler k) → handler_opt w (p_handler (f k))) →
  good w (upd_poll p f w).
Proof.
  intros Hf Hh. apply good_core; try done.
  - intros d. unfold upd_poll. simpl. apply cnt_alter_same. intros k. apply Hf.
  - intros x. unfold upd_poll. simpl. apply cnt_alter_same. intros k. apply Hf.
  - eauto.
  - intros o Hi p' k' Hk'. apply lookup_upd_poll in Hk' as [(-> & k & Hk & ->)|(_ & Hk)];
      [|by eapply i_poll].
    destruct (i_poll w o Hi p k Hk) as [Hp1 Hp2]. split; [by apply Hh|].
    destruct (Hf k Hk) as (-> & -> & ->). done.
  - intros o Hi t k. apply (i_ws w o Hi).
Qed.

Lemma good_upd_ws t (f : websocket → websocket) w :
  (∀ k, handler_opt w (ws_handler k) → handler_opt w (ws_handler (f k))) →
  good w (upd_ws t f w).
Proof.
  intros Hf. apply good_core; try done; [eauto|intros o Hi p k; apply (i_poll w o Hi)|].
  intros o Hi t' k'. unfold upd_ws. simpl. destruct (decide (t = t')) as [->|Hne].
  - rewrite list_lookup_alter_eq. intros (k & Hk & ->)%fmap_Some. eapply Hf, i_ws; done.
  - rewrite list_lookup_alter_ne by done. apply (i_ws w o Hi).
Qed.

Lemma good_stop tm w : good w (stop_opt tm w).
Proof. destruct tm; by apply egood_same. Qed.

(** ** Steps that trade permissions *)

Lemma inv_less w o o' : (∀ t, multiplicity t o' ≤ multiplicity t o)%nat → inv w o → inv w o'.
Proof.
  intros Ho Hi. pose proof Hi as [I1 I2 I3 I4 I5 I6 I7 I8 I9 I10]. split; try done.
  - intros d. specialize (I2 d). specialize (Ho (TClose d)). lia.
  - intros x. specialize (I3 x). pose proof (Ho (TWriter x)). pose proof (Ho (TFresh x)). lia.
  - intros d x Hd. specialize (I4 d x Hd). specialize (Ho (TWriter x)). lia.
  - intros s. specialize (I6 s). pose proof (Ho (TClosing s)). pose proof (Ho (TOpen s)). lia.
  - intros d x b Hd. destruct (I9 d x b Hd). specialize (Ho (TFresh x)). split; [done|lia].
Qed.

Lemma lookup_close_chan d u w d' :
  chans w !! d = Some (mkChan u false) →
  chans (close_chan d w) !! d' = if decide (d = d') then Some (mkChan u true) else chans w !! d'.
Proof.
  intros Hd. unfold close_chan. rewrite Hd. simpl. case_decide as E; [subst|].
  - apply list_lookup_insert_eq. by eapply lookup_lt_Some.
  - by apply list_lookup_insert_ne.
Qed.

Lemma hist_close_chan d u w : chans w !! d = Some (mkChan u false) → hist w (close_chan d w).
Proof.
  intros Hd. split.
  - intros d' u' b Hd'. rewrite (lookup_close_chan d u) by done. case_decide as E; [subst|eauto].
    rewrite Hd in Hd'. simplify_eq. eauto.
  - intros x e He. exists e. unfold close_chan. rewrite Hd. by eauto.
  - intros s k Hk. exists k. unfold close_chan. by rewrite Hd.
  - unfold close_chan. by rewrite Hd.
Qed.

(** Closing the channel of a poll whose response nobody can write any
    more. *)
Lemma trade_close d x b w F :
  chans w !! d = Some (mkChan (PollDone x) b) →
  inv w ({[+ TClose d +]} ⊎ F) → (cnt p_res x (polls w) + multiplicity (TWriter x) F = 0)%nat →
  inv (close_chan d w) F ∧ hist w (close_chan d w).
Proof.
  intros Hd Hi Hx.
  assert (chans w !! d = Some (mkChan (PollDone x) false)) as Hopen.
  { destruct b; [|done]. pose proof (i_close w _ Hi d) as Hc. unfold close_right in Hc.
    rewrite Hd in Hc. mults. }
  pose proof (hist_close_chan d _ w Hopen) as Hh. split; [|done].
  assert (inv w F) as Hi' by (eapply inv_less; [|exact Hi]; intros t; mults).
  pose proof Hi' as [I1 I2 I3 I4 I5 I6 I7 I8 I9 I10].
  pose proof (i_close w _ Hi d) as Hd1. unfold close_right in Hd1. rewrite Hopen in Hd1.
  assert (polls (close_chan d w) = polls w ∧ exchs (close_chan d w) = exchs w
          ∧ sks (close_chan d w) = sks w ∧ wss (close_chan d w) = wss w
          ∧ uplog (close_chan d w) = uplog w ∧ panicked (close_chan d w) = panicked w)
    as (E1 & E2 & E3 & E4 & E5 & E6) by (unfold close_chan; by rewrite Hopen).
  assert (∀ d' x' b', chans (close_chan d w) !! d' = Some (mkChan (PollDone x') b') →
            ∃ b'', chans w !! d' = Some (mkChan (PollDone x') b'')) as Hold.
  { intros d' x' b'. rewrite (lookup_close_chan d (PollDone x)) by done.
    case_decide; intros; simplify_eq; eauto. }
  split; unfold close_right, write_right, closing_right; rewrite ?E1, ?E2, ?E3, ?E4, ?E5, ?E6; try done.
  - intros d'. rewrite (lookup_close_chan d (PollDone x)) by done. case_decide as E; [subst|apply I2].
    mults.
  - intros d' x' Hd'. rewrite (lookup_close_chan d (PollDone x)) in Hd' by done.
    case_decide; simplify_eq; [lia|]. by eapply I4.
  - intros p k Hk. eapply poll_ok_hist; [done|by eapply I7].
  - intros t k Hk. eapply handler_opt_hist; [done|by eapply I8].
  - intros d' x' b' Hd'. apply Hold in Hd' as [b'' Hd']. by eapply I9.
  - intros d1 d2 x' b1 b2 H1 H2. apply Hold in H1 as [b3 H1]. apply Hold in H2 as [b4 H2].
    by eapply I10.
Qed.

Lemma trade_close_drop d x b w F :
  chans w !! d = Some (mkChan (PollDone x) b) →
  inv w ({[+ TWriter x; TClose d +]} ⊎ F) →
  inv (close_chan d w) F ∧ hist w (close_chan d w).
Proof.
  intros Hd Hi. eapply trade_close; [exact Hd| |].
  - eapply inv_less; [|exact Hi]. intros t. mults.
  - pose proof (i_write w _ Hi x) as Hw. unfold write_right in Hw.
    destruct (exchs w !! x) as [e|]; [destruct (_ || _)|]; mults.
Qed.

Lemma trade_close_written d x b e w F :
  chans w !! d = Some (mkChan (PollDone x) b) → exchs w !! x = Some e → answered e →
  inv w ({[+ TClose d +]} ⊎ F) →
  inv (close_chan d w) F ∧ hist w (close_chan d w).
Proof.
  intros Hd He Ha Hi. eapply trade_close; [exact Hd|exact Hi|].
  pose proof (i_write w _ Hi x) as Hw. unfold write_right in Hw. rewrite He in Hw.
  rewrite bool_decide_true, orb_true_r in Hw by done. mults.
Qed.

(** Taking the parked response out of a polling transport. *)
Lemma trade_take p (g : polling → polling) k x w F :
  polls w !! p = Some k → p_res k = Some x →
  p_req (g k) = None → p_res (g k) = None → p_pollDone (g k) = None → p_handler (g k) = p_handler k →
  inv w F →
  ∃ d b, p_pollDone k = Some d ∧ chans w !! d = Some (mkChan (PollDone x) b) ∧
    inv (upd_poll p g w) ({[+ TWriter x; TClose d +]} ⊎ F) ∧ hist w (upd_poll p g w).
Proof.
  intros Hk Hx G1 G2 G3 G4 Hi.
  destruct (i_poll w F Hi p k Hk) as [Hk1 Hk2]. rewrite Hx in Hk2.
  destruct (p_pollDone k) as [d|] eqn:Hdone; [|done]. destruct Hk2 as (Hreq & b & Hd).
  exists d, b. split_and!; [done..| |].
  2: { split; unfold upd_poll; simpl; eauto. intros y e He. exists e. by eauto. }
  pose proof Hi as [I1 I2 I3 I4 I5 I6 I7 I8 I9 I10].
  assert (∀ d', (cnt p_pollDone d' (polls (upd_poll p g w)) + one p_pollDone d' k
                 = cnt p_pollDone d' (polls w))%nat) as Cd.
  { intros d'. pose proof (cnt_alter p_pollDone d' g p (polls w) k Hk) as Hc.
    unfold one at 2 in Hc. rewrite G3 in Hc. rewrite decide_False in Hc by done.
    unfold upd_poll. simpl. lia. }
  assert (∀ x', (cnt p_res x' (polls (upd_poll p g w)) + one p_res x' k
                 = cnt p_res x' (polls w))%nat) as Cx.
  { intros x'. pose proof (cnt_alter p_res x' g p (polls w) k Hk) as Hc.
    unfold one at 2 in Hc. rewrite G2 in Hc. rewrite decide_False in Hc by done.
    unfold upd_poll. simpl. lia. }
  unfold one in Cd, Cx. rewrite Hdone in Cd. rewrite Hx in Cx.
  split; try done.
  - intros d'. specialize (I2 d'). specialize (Cd d'). change (close_right (upd_poll p g w) d') with (close_right w d').
    mults.
  - intros x'. specialize (I3 x'). specialize (Cx x'). change (write_right (upd_poll p g w) x') with (write_right w x').
    mults.
  - intros d' x' Hd'. specialize (I4 d' x' Hd'). specialize (Cx x'). mults.
  - intros s. specialize (I6 s). change (closing_right (upd_poll p g w) s) with (closing_right w s).
    change (told (upd_poll p g w) s) with (told w s). mults.
  - intros p' k' Hk'. apply lookup_upd_poll in Hk' as [(-> & k0 & Hk0 & ->)|(_ & Hk')]; [|by apply (I7 p')].
    rewrite Hk in Hk0. simplify_eq. split; [by rewrite G4|]. by rewrite G1, G2, G3.
  - intros d' x' b' Hd'. destruct (I9 d' x' b' Hd'). split; [done|]. mults.
Qed.

(** Nothing but the exchanges changes. *)
Lemma inv_exch x e e' w o o' :
  exchs w !! x = Some e → inv w o → x_req e' = x_req e →
  (x_over e = true → x_over e' = true) →
  (answered e → x_status e' = x_status e ∧ x_header e' = x_header e ∧ x_body e' = x_body e) →
  x_misused e' = false →
  (∀ t, multiplicity t o' ≤ multiplicity t o)%nat →
  (cnt p_res x (polls w) + multiplicity (TWriter x) o' + multiplicity (TFresh x) o'
   ≤ if x_over e' || bool_decide (answered e') then 0 else 1)%nat →
  inv (set_exchs <[x := e']> w) o' ∧ hist w (set_exchs <[x := e']> w).
Proof.
  intros He Hi Hreq Hover Hans Hmis Ho Hright.
  assert (∀ y, exchs (set_exchs <[x := e']> w) !! y = if decide (x = y) then Some e' else exchs w !! y) as Hl.
  { intros y. simpl. case_decide as E; [subst|by apply list_lookup_insert_ne].
    apply list_lookup_insert_eq. by eapply lookup_lt_Some. }
  split.
  - pose proof (inv_less w o o' Ho Hi) as [I1 I2 I3 I4 I5 I6 I7 I8 I9 I10]. split; try done.
    + intros y. unfold write_right. rewrite Hl. case_decide as E; [by subst|apply I3].
    + intros y e1. rewrite Hl. case_decide; [|apply I5]. intros. by simplify_eq.
    + intros d y b Hd. destruct (I9 d y b Hd). rewrite Hl. by case_decide.
  - split; [eauto| |eauto|done]. intros y e1 He1. rewrite Hl. case_decide as E; [|exists e1; by eauto].
    subst. rewrite He in He1. simplify_eq. by exists e'.
Qed.

Lemma alter_exch x e (f : exchange → exchange) w :
  exchs w !! x = Some e → upd_exch x f w = set_exchs <[x := f e]> w.
Proof. intros He. unfold upd_exch, set_exchs. f_equal. by apply alter_as_insert. Qed.

Definition pen x (t : token) : Prop := t = TWriter x ∨ t = TFresh x.

Lemma writer_exch w x t F : pen x t → inv w ({[+ t +]} ⊎ F) →
  ∃ e, exchs w !! x = Some e ∧ x_over e = false ∧ ¬ answered e
       ∧ (cnt p_res x (polls w) + multiplicity (TWriter x) F + multiplicity (TFresh x) F = 0)%nat.
Proof.
  intros Ht Hi. pose proof (i_write w _ Hi x) as Hw. unfold write_right in Hw.
  assert (multiplicity (TWriter x) {[+ t +]} + multiplicity (TFresh x) {[+ t +]} = 1)%nat as Hpen
    by (destruct Ht as [-> | ->]; mults).
  rewrite !multiplicity_disj_union in Hw.
  destruct (exchs w !! x) as [e|]; [|lia]. exists e.
  destruct (x_over e); simpl in Hw; [lia|].
  destruct (bool_decide_reflect (answered e)); [lia|]. split_and!; [done..|lia].
Qed.

(** Answering a request. *)
Definition answering (f : exchange → exchange) : Prop :=
  ∀ e, answered (f e) ∧ x_req (f e) = x_req e ∧ x_over (f e) = x_over e.

Lemma trade_respond x t f w F :
  pen x t → answering f → inv w ({[+ t +]} ⊎ F) →
  inv (upd_exch x (use_writer f) w) F ∧ hist w (upd_exch x (use_writer f) w)
  ∧ ∃ e, exchs (upd_exch x (use_writer f) w) !! x = Some e ∧ answered e.
Proof.
  intros Ht Hf Hi. destruct (writer_exch w x t F Ht Hi) as (e & He & Hover & Hans & Hzero).
  destruct (Hf e) as (F1 & F2 & F3).
  rewrite (alter_exch x e) by done.
  destruct (inv_exch x e (use_writer f e) w ({[+ t +]} ⊎ F) F) as [H1 H2]; try done.
  - unfold use_writer. simpl. rewrite F3. done.
  - simpl. rewrite (i_misused w _ Hi x e He), Hover. by rewrite bool_decide_false.
  - intros t'. mults.
  - simpl. lia.
  - split_and!; [done..|]. exists (use_writer f e). split; [|done].
    simpl. apply list_lookup_insert_eq. by eapply lookup_lt_Some.
Qed.

(** The end of [ServeHTTP], when nobody can write the response. *)
Lemma trade_over x w F :
  (cnt p_res x (polls w) + multiplicity (TWriter x) F + multiplicity (TFresh x) F = 0)%nat → inv w F →
  inv (upd_exch x (set_x_over true) w) F ∧ hist w (upd_exch x (set_x_over true) w).
Proof.
  intros Hzero Hi. destruct (exchs w !! x) as [e|] eqn:He.
  - rewrite (alter_exch x e) by done. apply (inv_exch x e _ w F F); try done.
    + exact (i_misused w _ Hi x e He).
    + simpl. lia.
  - assert (upd_exch x (set_x_over true) w = w) as ->; [|split; [done|reflexivity]].
    unfold upd_exch. destruct w. unfold set_exchs. f_equal. apply list_eq. intros i. simpl in *.
    destruct (decide (x = i)) as [->|Hne]; [by rewrite list_lookup_alter_eq, He|].
    by rewrite list_lookup_alter_ne.
Qed.

(** The client goes away. *)
Lemma good_gone x w : good w (upd_exch x (set_x_gone true) w).
Proof.
  intros o Hi. destruct (exchs w !! x) as [e|] eqn:He.
  - rewrite (alter_exch x e) by done. apply (inv_exch x e _ w o o); try done.
    + exact (i_misused w _ Hi x e He).
    + pose proof (i_write w o Hi x) as Hw. unfold write_right in Hw. by rewrite He in Hw.
  - assert (upd_exch x (set_x_gone true) w = w) as ->; [|split; [done|reflexivity]].
    unfold upd_exch. destruct w. unfold set_exchs. f_equal. apply list_eq. intros i. simpl in *.
    destruct (decide (x = i)) as [->|Hne]; [by rewrite list_lookup_alter_eq, He|].
    by rewrite list_lookup_alter_ne.
Qed.

(** A request arrives. *)
Lemma trade_exchange r w F :
  inv w F →
  inv (set_exchs (λ l, l ++ [new_exchange r]) w) ({[+ TFresh (length (exchs w)) +]} ⊎ F)
  ∧ hist w (set_exchs (λ l, l ++ [new_exchange r]) w).
Proof.
  intros Hi. pose proof (i_write w F Hi (length (exchs w))) as Hfresh. unfold write_right in Hfresh.
  rewrite lookup_ge_None_2 in Hfresh by done.
  split.
  - pose proof Hi as [I1 I2 I3 I4 I5 I6 I7 I8 I9 I10]. split; try done.
    + intros d. specialize (I2 d). change (close_right (set_exchs _ w) d) with (close_right w d).
      simpl. mults.
    + intros x. unfold write_right. simpl. destruct (decide (x = length (exchs w))) as [->|Hne].
      * rewrite list_lookup_middle by done. simpl. mults.
      * specialize (I3 x). unfold write_right in I3.
        assert ((exchs w ++ [new_exchange r]) !! x = exchs w !! x) as ->; [|mults].
        destruct (decide (x < length (exchs w))%nat); [by apply lookup_app_l|].
        rewrite !lookup_ge_None_2; rewrite ?length_app; simpl; [done|lia..].
    + intros d x Hd. specialize (I4 d x Hd). simpl. mults.
    + intros x e. simpl. intros [He|[_ He]]%lookup_app_Some; [by eapply I5|].
      by apply list_lookup_singleton_Some in He as [_ <-].
    + intros s. specialize (I6 s). change (closing_right (set_exchs _ w) s) with (closing_right w s).
      simpl. mults.
    + intros d x b Hd. simpl. destruct (I9 d x b Hd) as [[e He] ?]. split.
      * exists e. by apply lookup_app_l_Some.
      * apply lookup_lt_Some in He. mults.
  - split; [eauto| |eauto|done]. intros x e He. exists e. simpl.
    split; [by apply lookup_app_l_Some|by eauto].
Qed.

(** A channel more: the others are what they were. *)
Lemma lookup_add_chan u w d c : chans w !! d = Some c → chans (add_chan u w).2 !! d = Some c.
Proof. apply lookup_app_l_Some. Qed.

Lemma lookup_add_chan_inv u w d c :
  chans (add_chan u w).2 !! d = Some c →
  chans w !! d = Some c ∨ d = length (chans w) ∧ c = mkChan u false.
Proof.
  intros [?|[Hge Hc]]%lookup_app_Some; [by left|].
  apply list_lookup_singleton_Some in Hc as [Hd <-]. right. split; [lia|done].
Qed.

Lemma hist_add_chan u w : hist w (add_chan u w).2.
Proof.
  split; [|intros y e' He'; exists e'; by eauto|eauto|done].
  intros d v b Hd. exists b. split; [by apply lookup_add_chan|done].
Qed.

(** A transport gets a response, or a channel, it had none of. *)
Lemma cnt_becomes {X} (f : X → option nat) b g p l k v :
  l !! p = Some k → f k = None → f (g k) = Some v →
  cnt f b (alter g p l) = (cnt f b l + if decide (v = b) then 1 else 0)%nat.
Proof.
  intros Hk H1 H2. pose proof (cnt_alter f b g p l k Hk) as Hc. unfold one in Hc. rewrite H1, H2 in Hc. mults.
Qed.

(** A poll parks its response. *)
Lemma trade_park p k x (g : polling → polling) w F :
  let w1 := (add_chan (PollDone x) w).2 in
  let d := length (chans w) in
  polls w !! p = Some k → p_req k = None →
  p_req (g k) = Some x → p_res (g k) = Some x → p_pollDone (g k) = Some d →
  p_handler (g k) = p_handler k →
  inv w ({[+ TFresh x +]} ⊎ F) →
  inv (upd_poll p g w1) F ∧ hist w (upd_poll p g w1)
  ∧ chans (upd_poll p g w1) !! d = Some (mkChan (PollDone x) false).
Proof.
  intros w1 d Hk Hreq G1 G2 G3 G4 Hi.
  destruct (writer_exch w x (TFresh x) F) as (e & He & _ & _ & Hzero); [by right|done|].
  assert (hist w (upd_poll p g w1)) as Hh by (destruct (hist_add_chan (PollDone x) w); by split).
  assert (inv w F) as Hi' by (eapply inv_less; [|exact Hi]; intros t; mults).
  pose proof Hi' as [I1 I2 I3 I4 I5 I6 I7 I8 I9 I10].
  destruct (I7 p k Hk) as [Hh1 Hk2].
  destruct (p_res k) eqn:Hres; [destruct (p_pollDone k); [|done]; by destruct Hk2; simplify_eq|].
  destruct (p_pollDone k) eqn:Hdone; [done|].
  pose proof (λ d', cnt_becomes p_pollDone d' g p (polls w) k d Hk Hdone G3) as Cd.
  pose proof (λ x', cnt_becomes p_res x' g p (polls w) k x Hk Hres G2) as Cx.
  change (alter g p (polls w)) with (polls (upd_poll p g w1)) in Cd, Cx.
  assert (chans w1 !! d = Some (mkChan (PollDone x) false)) as Hd1 by (by apply list_lookup_middle).
  assert (∀ d' x' b, chans w !! d' = Some (mkChan (PollDone x') b) → x ≠ x') as Hfresh.
  { intros d' x' b Hd <-. destruct (i_made w _ Hi d' x b Hd) as [_ Hz]. mults. }
  split_and!; [|done|done]. split; try done.
  - intros d'. specialize (I2 d'). rewrite Cd. unfold close_right in I2 |- *.
    change (chans (upd_poll p g w1)) with (chans w1).
    case_decide as E; [subst d'|].
    + rewrite Hd1. rewrite (lookup_ge_None_2 (chans w) d) in I2 by done. lia.
    + destruct (chans w !! d') as [c|] eqn:Hd;
        [rewrite (lookup_add_chan (PollDone x) _ _ _ Hd : chans w1 !! d' = Some c)|]; lia.
  - intros x'. specialize (I3 x'). rewrite Cx. pose proof (i_write w _ Hi x') as I3'.
    change (write_right (upd_poll p g w1) x') with (write_right w x'). mults.
  - intros d' x' Hd. change (chans (upd_poll p g w1)) with (chans w1) in Hd.
    apply lookup_add_chan_inv in Hd as [Hd|[_ ?]]; [|done]. rewrite Cx. pose proof (i_done w _ Hi d' x' Hd).
    pose proof (Hfresh d' x' true Hd). case_decide; [done|]. mults.
  - intros p' k' Hk'. eapply (poll_ok_hist w) in Hh; [|by eapply (I7 p)].
    apply lookup_upd_poll in Hk' as [(-> & k0 & Hk0 & ->)|(_ & Hk')].
    + change (polls w1) with (polls w) in Hk0. rewrite Hk in Hk0. simplify_eq.
      split; [rewrite G4; apply Hh|]. rewrite G1, G2, G3. split; [done|]. by exists false.
    + change (polls w1) with (polls w) in Hk'. destruct (I7 p' k' Hk') as [J1 J2]. split.
      * destruct (p_handler k') as [[|]|]; [done| |done]. destruct J1 as [b J1].
        exists b. by apply lookup_add_chan.
      * destruct (p_res k'), (p_pollDone k'); try done. destruct J2 as (? & b & J2). split; [done|].
        exists b. by apply lookup_add_chan.
  - intros t k' Hk'. specialize (I8 t k' Hk'). destruct (ws_handler k') as [[|]|]; [done| |done].
    destruct I8 as [b J1]. exists b. by apply lookup_add_chan.
  - intros d' x' b Hd. change (chans (upd_poll p g w1)) with (chans w1) in Hd.
    apply lookup_add_chan_inv in Hd as [Hd|[_ ?]]; [by eapply I9|]. simplify_eq. split; [by exists e|lia].
  - intros d1 d2 x' b1 b2 H1 H2. change (chans (upd_poll p g w1)) with (chans w1) in H1, H2.
    apply lookup_add_chan_inv in H1 as [H1|[-> ?]], H2 as [H2|[-> ?]]; simplify_eq; [by eapply I10| | |done].
    + by destruct (Hfresh _ _ _ H1).
    + by destruct (Hfresh _ _ _ H2).
Qed.

(** The [stopCheck] channel of an upgrade. *)
Lemma trade_stop_chan w o :
  inv w o → inv (add_chan StopCheck w).2 o ∧ hist w (add_chan StopCheck w).2
  ∧ chans (add_chan StopCheck w).2 !! length (chans w) = Some (mkChan StopCheck false).
Proof.
  intros Hi. set (w1 := (add_chan StopCheck w).2).
  pose proof (hist_add_chan StopCheck w) as Hh.
  assert (∀ d x b, chans w1 !! d = Some (mkChan (PollDone x) b) → chans w !! d = Some (mkChan (PollDone x) b)) as Hnew.
  { by intros d x b [?|[_ ?]]%lookup_add_chan_inv. }
  split_and!; [|done|by apply list_lookup_middle].
  pose proof Hi as [I1 I2 I3 I4 I5 I6 I7 I8 I9 I10]. split; try done.
  - intros d. specialize (I2 d). unfold close_right in I2 |- *. change (polls w1) with (polls w).
    destruct (chans w !! d) as [c|] eqn:Hd; [|lia].
    by rewrite (lookup_add_chan StopCheck _ _ _ Hd : chans w1 !! d = Some c).
  - intros d x Hd. by eapply I4, Hnew.
  - intros p k Hk. eapply poll_ok_hist; [done|by eapply I7].
  - intros t k Hk. eapply handler_opt_hist; [done|by eapply I8].
  - intros d x b Hd. by eapply I9, Hnew.
  - intros d1 d2 x b1 b2 H1 H2. eapply I10; by eapply Hnew.
Qed.

Lemma good_close_stop stop w :
  (∃ b, chans w !! stop = Some (mkChan StopCheck b)) →
  good w (if is_closed stop w then w else close_chan stop w).
Proof.
  intros [b Hb] o Hi. unfold is_closed. rewrite Hb. destruct b; simpl; [by apply harmless_refl|].
  pose proof (hist_close_chan stop _ w Hb) as Hh. split; [|done].
  pose proof Hi as [I1 I2 I3 I4 I5 I6 I7 I8 I9 I10].
  assert (∀ d x b, chans (close_chan stop w) !! d = Some (mkChan (PollDone x) b) →
            chans w !! d = Some (mkChan (PollDone x) b)) as Hnew.
  { intros d x b. rewrite (lookup_close_chan stop StopCheck) by done. by case_decide. }
  assert (polls (close_chan stop w) = polls w ∧ exchs (close_chan stop w) = exchs w
          ∧ sks (close_chan stop w) = sks w ∧ wss (close_chan stop w) = wss w
          ∧ uplog (close_chan stop w) = uplog w ∧ panicked (close_chan stop w) = panicked w)
    as (E1 & E2 & E3 & E4 & E5 & E6) by (unfold close_chan; by rewrite Hb).
  split; unfold close_right, write_right, closing_right; rewrite ?E1, ?E2, ?E3, ?E4, ?E5, ?E6; try done.
  - intros d. rewrite (lookup_close_chan stop StopCheck) by done. case_decide; [subst|apply I2].
    specialize (I2 d). unfold close_right in I2. by rewrite Hb in I2.
  - intros d x Hd. by eapply I4, Hnew.
  - intros p k Hk. eapply poll_ok_hist; [done|by eapply I7].
  - intros t k Hk. eapply handler_opt_hist; [done|by eapply I8].
  - intros d x b Hd. by eapply I9, Hnew.
  - intros d1 d2 x b1 b2 H1 H2. eapply I10; by eapply Hnew.
Qed.

(** ** Sessions *)

(** A session changed so that it may be closed [n] more times, or less. *)
Lemma inv_sk s k k' w o o' :
  sks w !! s = Some k → es_id k' = es_id k → inv w o →
  (∀ t, (∀ s', t ≠ TClosing s' ∧ t ≠ TOpen s') → multiplicity t o' = multiplicity t o) →
  (∀ s', s' ≠ s → multiplicity (TClosing s') o' + multiplicity (TOpen s') o'
                  ≤ multiplicity (TClosing s') o + multiplicity (TOpen s') o)%nat →
  (told w s + multiplicity (TClosing s) o' + multiplicity (TOpen s) o'
   ≤ if decide (es_readyState k' = stateClosed) then 2 else 1)%nat →
  inv (set_sks <[s := k']> w) o' ∧ hist w (set_sks <[s := k']> w).
Proof.
  intros Hk Hid Hi Ht1 Ht2 Hs.
  assert (∀ s', sks (set_sks <[s := k']> w) !! s' = if decide (s = s') then Some k' else sks w !! s') as Hl.
  { intros s'. simpl. destruct (decide (s = s')) as [<-|E]; [|by apply list_lookup_insert_ne].
    apply list_lookup_insert_eq. by eapply lookup_lt_Some. }
  split.
  - pose proof Hi as [I1 I2 I3 I4 I5 I6 I7 I8 I9 I10]. split; try done.
    + intros d. rewrite Ht1 by done. apply I2.
    + intros x. rewrite !Ht1 by done. apply I3.
    + intros d x. rewrite Ht1 by done. apply I4.
    + intros s'. unfold closing_right. rewrite Hl. destruct (decide (s = s')) as [<-|E]; [done|].
      specialize (I6 s'). specialize (Ht2 s' (not_eq_sym E)). unfold closing_right in I6.
      change (told (set_sks <[s:=k']> w) s') with (told w s'). lia.
    + intros d x b. rewrite Ht1 by done. apply I9.
  - split; [eauto|intros y e He; exists e; by eauto| |done]. intros s' k0 Hk0. rewrite Hl.
    destruct (decide (s = s')) as [<-|E]; [|by eauto]. rewrite Hk in Hk0. simplify_eq. eauto.
Qed.

Lemma alter_sk s k (f : esocket → esocket) w :
  sks w !! s = Some k → upd_sk s f w = set_sks <[s := f k]> w.
Proof. intros He. unfold upd_sk, set_sks. f_equal. by apply alter_as_insert. Qed.

(** The first one to close a session gets the permission to tell. *)
Lemma trade_close_session s w F :
  inv w F →
  inv (close_session s w).2 ((if (close_session s w).1.1 then {[+ TClosing s +]} else ∅) ⊎ F)
  ∧ hist w (close_session s w).2.
Proof.
  intros Hi. unfold close_session. destruct (sks w !! s) as [k|] eqn:Hk; simpl.
  2: { rewrite (left_id_L ∅ (⊎)). split; [done|reflexivity]. }
  case_decide as Hst; simpl; [rewrite (left_id_L ∅ (⊎)); split; [done|reflexivity]|].
  assert (inv (upd_sk s (set_es_readyState stateClosed) w) ({[+ TClosing s +]} ⊎ F)
          ∧ hist w (upd_sk s (set_es_readyState stateClosed) w)) as [H1 H2].
  { rewrite (alter_sk s k) by done. apply (inv_sk s k _ w F); try done.
    - intros t Hne. rewrite multiplicity_disj_union, multiplicity_singleton_ne; [done|]. apply Hne.
    - intros s' Hne. mults.
    - pose proof (i_closing w F Hi s) as Hc. unfold closing_right in Hc. rewrite Hk, decide_False in Hc by done.
      simpl. mults. }
  destruct (good_stop (es_pingIntervalTimer k) _ _ H1) as [H3 H4].
  destruct (good_stop (es_pingTimeoutTimer k) _ _ H3) as [H5 H6].
  split; [done|]. by do 2 (etransitivity; [done|]).
Qed.

(** Telling uses the permission up. *)
Lemma trade_told s reason err w F :
  let w' := set_uplog (λ l, l ++ [UpClose s reason err]) w in
  inv w ({[+ TClosing s +]} ⊎ F) → inv w' F ∧ hist w w'.
Proof.
  intros w' Hi. split.
  - assert (inv w F) as Hi' by (eapply inv_less; [|exact Hi]; intros t; mults).
    pose proof Hi' as [I1 I2 I3 I4 I5 I6 I7 I8 I9 I10]. split; try done.
    intros s'. pose proof (i_closing w _ Hi s') as Hs.
    change (closing_right w' s') with (closing_right w s').
    assert (told w' s' = (told w s' + if decide (s = s') then 1 else 0)%nat) as ->.
    { unfold w'. simpl. rewrite cnt_app. simpl. unfold one. simpl. mults. }
    mults.
  - split; [eauto|intros y e He; exists e; by eauto|eauto|]. unfold w'. simpl. by apply prefix_app_r.
Qed.

Lemma good_uplog e w : closed_sock e = None → good w (set_uplog (λ l, l ++ [e]) w).
Proof.
  intros He o Hi. split.
  - pose proof Hi as [I1 I2 I3 I4 I5 I6 I7 I8 I9 I10]. split; try done.
    intros s. simpl. rewrite cnt_app. simpl. unfold one. rewrite He. specialize (I6 s).
    change (closing_right (set_uplog _ w) s) with (closing_right w s).
    rewrite decide_False by done. lia.
  - split; [eauto|intros y e' He'; exists e'; by eauto|eauto|]. simpl. by apply prefix_app_r.
Qed.

(** A new session, and opening it. *)
Lemma trade_new_socket k w F :
  let w' := set_sks (λ l, l ++ [k]) w in
  inv w F → inv w' ({[+ TOpen (length (sks w)) +]} ⊎ F) ∧ hist w w'.
Proof.
  intros w' Hi. split.
  - pose proof Hi as [I1 I2 I3 I4 I5 I6 I7 I8 I9 I10]. split; try done.
    + intros d. specialize (I2 d). change (close_right w' d) with (close_right w d).
      unfold w'. simpl. mults.
    + intros x. specialize (I3 x). change (write_right w' x) with (write_right w x).
      unfold w'. simpl. mults.
    + intros d x Hd. specialize (I4 d x Hd). unfold w'. simpl. mults.
    + intros s. specialize (I6 s). unfold closing_right in I6 |- *. unfold w'. simpl.
      destruct (sks w !! s) as [k0|] eqn:Hk.
      * rewrite (lookup_app_l_Some _ _ _ _ Hk). apply lookup_lt_Some in Hk. mults.
      * destruct ((sks w ++ [k]) !! s) as [k0|] eqn:Hk0; [|].
        -- apply lookup_app_Some in Hk0 as [Hk0|[Hge Hk0]]; [congruence|].
           apply list_lookup_singleton_Some in Hk0 as [Hs ->]. mults.
        -- apply lookup_ge_None in Hk0. rewrite length_app in Hk0. simpl in Hk0. mults.
    + intros d x b Hd. destruct (I9 d x b Hd). split; [done|mults].
  - split; [eauto|intros y e He; exists e; by eauto| |done].
    intros s k0 Hk0. exists k0. split; [|done]. by apply lookup_app_l_Some.
Qed.

Lemma trade_open s w F :
  let w' := upd_sk s (set_es_readyState stateOpen) w in
  inv w ({[+ TOpen s +]} ⊎ F) → inv w' F ∧ hist w w'.
Proof.
  intros w' Hi. pose proof (i_closing w _ Hi s) as Hs. unfold closing_right in Hs.
  destruct (sks w !! s) as [k|] eqn:Hk; [|mults].
  unfold w'. rewrite (alter_sk s k) by done. eapply inv_sk; try done.
  - intros t Hne. rewrite multiplicity_disj_union, multiplicity_singleton_ne; [done|]. apply Hne.
  - intros s' Hne. mults.
  - rewrite decide_False by done. mults.
Qed.
End Invariant.
