(* ===== verification/EngineSafety.v ===== *)
(** * EngineSafety: every operation of the Engine.IO server keeps the invariant

    One lemma per operation of Polling, Websocket, EngineSocket and
    EngineServer: whatever runs beside it, it keeps the invariant of
    EngineInvariant, undoes nothing, and uses up the permissions it is given.
    The theorems put them together for any interleaving of requests, timers,
    network events and calls of the API. *)

From stdpp Require Import gmultiset.
From S2P Require Import Prelude.
From S2P Require Import EnginePacket.
From S2P Require Import Sched.
From S2P Require Import Safety.
From S2P Require Import EngineTypes.
From S2P Require Import EngineOptions.
From S2P Require Import Polling.
From S2P Require Import Websocket.
From S2P Require Import EngineSocket.
From S2P Require Import EngineServer.
From S2P Require Import EngineDemo.
From S2P Require Import EngineInvariant.

Section Safety.
Context {C U : Type} `{WS : !WebsocketConn C}.
Abbreviation W := (world C U).
Abbreviation P := (mprog W method_name).
Implicit Types (w : W) (s : sockp) (x : exchp) (d : chanp) (o F : gmultiset token).

(** What a caller of a named method must know: the handler it calls is one
    that is stored. *)
Definition pre (m : method_name) w o : Prop :=
  o = ∅ ∧ match m with
          | MOnPacket h _ | MOnError h _ | MOnClose h | MOnReady h => handler_ok w h
          | _ => True
          end.

Abbreviation good := (harmless inv hist).
Abbreviation kp w p Q := (keeps inv hist pre w p Q).
Abbreviation sf w p := (keeps inv hist pre w p (λ _ _, True)).
Abbreviation ow w o p Q := (own inv hist pre w o p Q).

(** ** Timers *)

Lemma good_fire tm u w w' : fire tm w = Some (u, w') → good w w'.
Proof. unfold fire. intros Hf. bust. by apply egood_same. Qed.

Lemma sf_fire w tm : sf w (await (fire tm)).
Proof.
  apply (keeps_await inv hist pre). intros w1 F u w2 _ Hi Hf. destruct (good_fire tm u w1 w2 Hf F Hi). by split_and!.
Qed.

Lemma sf_run_timer w tm (p : P unit) : (∀ w', hist w w' → sf w' p) → sf w (run_timer tm p).
Proof. intros Hp. apply sf_go, sf_seq; [apply sf_fire|done]. Qed.

(** ** Handlers *)

Lemma sf_on_handler w h (m : handler → method_name) :
  (∀ h w', handler_ok w' h → pre (m h) w' ∅) → handler_opt w h → sf w (on_handler h m).
Proof.
  intros Hm Hh. destruct h as [h|]; [|apply sf_skip]. apply sf_call. intros w' Hw.
  apply Hm. by eapply handler_ok_hist.
Qed.

Lemma sf_poll_notifyError w p e : sf w (poll_notifyError p e).
Proof.
  eapply (keeps_bind inv hist pre w _ _ (λ h w', handler_opt w' h)).
  - apply (keeps_gets inv hist pre). intros w1 w3 F F' _ Hi Hh _. destruct (polls w1 !! p) as [k|] eqn:Hk; [|done].
    eapply handler_opt_hist; [done|]. by destruct (i_poll w1 F Hi p k Hk).
  - intros h w' F _ _ Hh. by apply sf_on_handler.
Qed.

(** ** The polling transport *)

Lemma sf_upd_poll w p (f : polling → polling) :
  (∀ k, p_req (f k) = p_req k ∧ p_res (f k) = p_res k ∧ p_pollDone (f k) = p_pollDone k
        ∧ p_handler (f k) = p_handler k) →
  sf w (update (upd_poll p f)).
Proof.
  intros Hf. apply sf_update. intros w1 _. apply good_upd_poll.
  - intros k _. destruct (Hf k) as (? & ? & ? & ?). done.
  - intros k. destruct (Hf k) as (_ & _ & _ & ->). done.
Qed.

Lemma sf_poll_SetHandler w p h : handler_ok w h → sf w (poll_SetHandler p h).
Proof.
  intros Hh. apply sf_update. intros w1 Hw. apply good_upd_poll; [done|].
  intros k _. by eapply handler_ok_hist.
Qed.

Lemma sf_closeLocked w p :
  kp w (atomic (closeLocked p)) (λ h w', handler_opt w' h).
Proof.
  apply (keeps_atomic inv hist pre). intros w1 F _ Hi. unfold closeLocked.
  destruct (polls w1 !! p) as [k|] eqn:Hk; simpl; [|by split_and!; [|reflexivity|]].
  destruct (p_closed k); simpl; [by split_and!; [|reflexivity|]|].
  destruct (i_poll w1 F Hi p k Hk) as [Hh Hp].
  assert (inv (match p_pollDone k with
               | Some d => close_chan d (stop_opt (p_closeTimer k) (upd_poll p closed_poll w1))
               | None => stop_opt (p_closeTimer k) (upd_poll p closed_poll w1)
               end) F ∧
          hist w1 (match p_pollDone k with
               | Some d => close_chan d (stop_opt (p_closeTimer k) (upd_poll p closed_poll w1))
               | None => stop_opt (p_closeTimer k) (upd_poll p closed_poll w1)
               end)) as [H1 H2].
  { destruct (p_res k) as [x|] eqn:Hx.
    - destruct (trade_take p closed_poll k x w1 F Hk Hx) as (d & b & Hd & Hc & Hi1 & Hh1); try done.
      rewrite Hd. destruct (good_stop (p_closeTimer k) _ _ Hi1) as [Hi2 Hh2].
      destruct (trade_close_drop d x b (stop_opt (p_closeTimer k) (upd_poll p closed_poll w1)) F)
        as [Hi3 Hh3]; [by destruct (p_closeTimer k)|done|].
      split; [done|]. by do 2 (etransitivity; [done|]).
    - destruct (p_pollDone k) eqn:Hd; [done|].
      destruct (good_upd_poll p closed_poll w1) with (o := F) as [Hi1 Hh1]; [|done|done|].
      { intros k0 Hk0. rewrite Hk in Hk0. simplify_eq. by rewrite Hp, Hx, Hd. }
      destruct (good_stop (p_closeTimer k) _ _ Hi1) as [Hi2 Hh2].
      split; [done|by etransitivity]. }
  split_and!; [done..|]. intros w3 F' Hh3 _. eapply handler_opt_hist; [|exact Hh]. by etransitivity.
Qed.

Lemma sf_poll_notifyClose w p : sf w (poll_notifyClose p).
Proof.
  eapply (keeps_bind inv hist pre); [apply sf_closeLocked|]. intros h w' F _ _ Hh. by apply sf_on_handler.
Qed.

(** ** Responses *)

Definition written x w : Prop := ∃ e, exchs w !! x = Some e ∧ answered e.

Lemma written_hist x w w' : hist w w' → written x w → written x w'.
Proof.
  intros Hh (e & He & Ha). destruct (h_exch w w' Hh x e He) as (e' & He' & _ & _ & Hans).
  exists e'. split; [done|]. destruct (Hans Ha) as (Hs & _). unfold answered. by rewrite Hs.
Qed.

(** The channel [d] is the one made for the poll of [x]. *)
Definition chan_of d x w : Prop := ∃ b, chans w !! d = Some (mkChan (PollDone x) b).

Lemma chan_of_hist d x w w' : hist w w' → chan_of d x w → chan_of d x w'.
Proof. intros Hh [b Hb]. destruct (h_chan w w' Hh _ _ _ Hb) as (b' & Hb' & _). by exists b'. Qed.

Lemma own_respond w x t f :
  pen x t → answering f →
  ow w {[+ t +]} (respond x f) (λ _ w' o', o' = ∅ ∧ written x w').
Proof.
  intros Ht Hf. apply (own_update inv hist pre). intros w1 F _ Hi.
  destruct (trade_respond x t f w1 F Ht Hf Hi) as (H1 & H2 & H3). exists ∅.
  rewrite (left_id_L ∅ (⊎)). split_and!; [done..|]. intros w3 F' Hh _. split; [done|].
  by eapply written_hist.
Qed.

Lemma own_close_written w d x :
  chan_of d x w → written x w →
  ow w {[+ TClose d +]} (update (close_chan d)) (λ _ _ o', o' = ∅).
Proof.
  intros Hd Hx. apply (own_update inv hist pre). intros w1 F Hh Hi.
  destruct (chan_of_hist d x w w1 Hh Hd) as [b Hb].
  destruct (written_hist x w w1 Hh Hx) as (e & He & Ha).
  destruct (trade_close_written d x b e w1 F Hb He Ha Hi) as [H1 H2]. exists ∅.
  rewrite (left_id_L ∅ (⊎)). by split_and!.
Qed.

Lemma own_close_drop w d x :
  chan_of d x w →
  ow w {[+ TWriter x; TClose d +]} (update (close_chan d)) (λ _ _ o', o' = ∅).
Proof.
  intros Hd. apply (own_update inv hist pre). intros w1 F Hh Hi.
  destruct (chan_of_hist d x w w1 Hh Hd) as [b Hb].
  destruct (trade_close_drop d x b w1 F Hb Hi) as [H1 H2]. exists ∅.
  rewrite (left_id_L ∅ (⊎)). by split_and!.
Qed.

Definition taken (r : option sending) w o : Prop :=
  match r with
  | None => o = ∅
  | Some sg => ∃ d, sg_done sg = Some d ∧ chan_of d (sg_res sg) w
                    ∧ o = {[+ TWriter (sg_res sg); TClose d +]}
  end.

Lemma own_send_locked w p pkts : ow w ∅ (atomic (send_locked p pkts)) taken.
Proof.
  apply (own_atomic inv hist pre). intros w1 F _ Hi. rewrite (left_id_L ∅ (⊎)) in Hi.
  assert (∀ w2 : W, inv w2 F → hist w1 w2 → ∃ o', inv w2 (o' ⊎ F) ∧ hist w1 w2
    ∧ (∀ w3 F', hist w2 w3 → inv w3 (o' ⊎ F') → taken None w3 o')) as Hnone.
  { intros w2 Hi2 Hh2. exists ∅. rewrite (left_id_L ∅ (⊎)). by split_and!. }
  unfold send_locked. destruct (polls w1 !! p) as [k|] eqn:Hk; [|by apply Hnone; [|reflexivity]].
  destruct (p_closed k); [by apply Hnone; [|reflexivity]|].
  set (pk := if p_pendingClose k then pkts ++ [mkPacket Close [] false] else pkts). clearbody pk.
  destruct (p_res k) as [x|] eqn:Hx; simpl.
  - destruct (trade_take p take_poll k x w1 F Hk Hx) as (d & b & Hd & Hc & Hi1 & Hh1); try done.
    exists {[+ TWriter x; TClose d +]}. split_and!; [done..|]. intros w3 F' Hh3 _.
    exists d. split_and!; [done| |done]. eapply chan_of_hist; [|by exists b]. by etransitivity.
  - apply Hnone; by eapply good_upd_poll.
Qed.

Lemma answering_header f status :
  (∀ e, x_req (f e) = x_req e ∧ x_over (f e) = x_over e) → answering (λ e, write_header status (f e)).
Proof.
  intros Hf e. destruct (Hf e) as [H1 H2]. unfold write_header, answered.
  destruct (x_status (f e)) eqn:Hs; simpl; rewrite ?Hs; split_and!; eauto.
Qed.

Lemma answering_write f body : answering f → answering (λ e, write_body body (f e)).
Proof.
  intros Hf e. destruct (Hf e) as (H1 & H2 & H3). unfold write_body, write_header, answered in *.
  destruct (x_status (f e)) eqn:Hs; simpl; rewrite ?Hs; split_and!; eauto.
Qed.

Lemma answering_body f status body :
  (∀ e, x_req (f e) = x_req e ∧ x_over (f e) = x_over e) →
  answering (λ e, write_body body (write_header status (f e))).
Proof. intros Hf. by apply answering_write, answering_header. Qed.

Lemma answering_poll payload : answering (poll_response payload).
Proof.
  apply answering_body. intros e. unfold header_set. done.
Qed.

Lemma sf_poll_Send w p pkts : sf w (poll_Send p pkts).
Proof.
  unfold poll_Send. eapply (own_bind inv hist pre); [apply own_send_locked|].
  intros [sg|] w1 o1 F1 _ _ Ht; [|simpl in Ht; subst; exact (sf_skip w1)].
  destruct Ht as (d & Hd & Hc & ->). rewrite Hd.
  eapply (own_bind inv hist pre) with (Q := λ _ w' o', o' = {[+ TClose d +]} ∧ written (sg_res sg) w').
  - eapply (own_mono inv hist pre); [apply own_frame, own_respond; [by left|apply answering_poll]|].
    simpl. intros _ w2 o2 F2 _ _ (o3 & -> & -> & Hw). by rewrite (left_id_L ∅ (⊎)).
  - intros _ w2 o2 F2 Hh2 _ [-> Hw]. eapply own_then_keeps.
    + eapply own_close_written; [|exact Hw]. by eapply chan_of_hist.
    + intros w3 Hh3. apply sf_when. intros _. apply sf_poll_notifyClose.
Qed.

Lemma sf_poll_Close w p : sf w (poll_Close p).
Proof.
  unfold poll_Close. apply sf_then.
  - apply sf_atomic. intros w1 _. unfold close_locked.
    destruct (polls w1 !! p) as [k|]; simpl; [|apply harmless_refl].
    destruct (p_closed k), (p_discarded k), (p_writable k); try apply harmless_refl.
    destruct (p_closeTimer k); simpl; [by apply good_upd_poll|].
    eapply harmless_trans; [|by apply good_upd_poll]. by apply egood_same.
  - intros [| | |[tm|]] w' _; try apply sf_skip.
    + apply sf_poll_notifyClose.
    + apply sf_seq; [apply sf_poll_Send|]. intros. apply sf_poll_notifyClose.
    + apply sf_run_timer. intros. apply sf_poll_notifyClose.
Qed.

(** ** Serving a poll *)

Context (choose : nat → bool).

(** The response of [x] is out of reach: it is written, or the channel of its
    poll is closed. *)
Definition done_with x w : Prop :=
  written x w ∨ ∃ d, chans w !! d = Some (mkChan (PollDone x) true).

Lemma done_with_hist x w w' : hist w w' → done_with x w → done_with x w'.
Proof.
  intros Hh [Hw|[d Hd]]; [left; by eapply written_hist|right].
  destruct (h_chan w w' Hh _ _ _ Hd) as (b & Hb & Ht). exists d. by rewrite Hb, (Ht eq_refl).
Qed.

(** How serving a request ends: its response was not begun, or it is done
    with. *)
Definition served x (w : W) o : Prop := o = {[+ TFresh x +]} ∨ o = ∅ ∧ done_with x w.

Abbreviation serves w x p := (ow w {[+ TFresh x +]} p (λ _ w' o', served x w' o')).

Lemma own_answer w x f : answering f → serves w x (respond x f).
Proof.
  intros Hf. eapply (own_mono inv hist pre); [apply own_respond; [by right|done]|].
  intros _ w' o' F _ _ [-> Hw]. right. split; [done|by left].
Qed.

Lemma answering_status status : answering (write_header status).
Proof. by apply (answering_header id). Qed.

(** Taking the response back when its client is gone. *)
Lemma own_abandon w p x d :
  chan_of d x w →
  ow w ∅ (atomic (abandon_poll p x))
    (λ mine _ o', o' = if mine : bool then {[+ TWriter x; TClose d +]} else ∅).
Proof.
  intros Hd. apply (own_atomic inv hist pre). intros w2 F2 Hh2 Hi. rewrite (left_id_L ∅ (⊎)) in Hi.
  assert (∃ o', inv w2 (o' ⊎ F2) ∧ hist w2 w2
            ∧ (∀ w3 F', hist w2 w3 → inv w3 (o' ⊎ F') → o' = ∅)) as Hnone.
  { exists ∅. rewrite (left_id_L ∅ (⊎)). by split_and!; [|reflexivity|]. }
  unfold abandon_poll. destruct (polls w2 !! p) as [k|] eqn:Hk; [|done].
  destruct (decide (p_req k = Some x)) as [Hreq|]; [|done]. simpl.
  assert (p_res k = Some x) as Hx.
  { destruct (i_poll w2 F2 Hi p k Hk) as [_ Hp].
    destruct (p_res k), (p_pollDone k); destruct_and?; by simplify_eq. }
  destruct (trade_take p take_poll k x w2 F2 Hk Hx) as (d' & b & Hd' & Hc & Hi1 & Hh3); try done.
  destruct (chan_of_hist d x w w2 Hh2 Hd) as [b' Hb'].
  assert (d' = d) as -> by (by eapply (i_unique w2 F2 Hi)).
  exists {[+ TWriter x; TClose d +]}. by split_and!.
Qed.

Lemma sf_watch w p x d h : chan_of d x w → handler_opt w h → sf w (watch_poll choose p x d h).
Proof.
  intros Hd Hh. unfold watch_poll. apply sf_then.
  { apply sf_await. intros w1 b w2 _ Hs. unfold poll_select in Hs. bust; by apply egood_same. }
  intros [] w1 Hh1; [|apply sf_skip].
  eapply (own_bind inv hist pre); [apply own_abandon; by eapply chan_of_hist|].
  intros [] w2 o2 F2 Hh2 _ ->; [|exact (sf_skip w2)].
  eapply own_then_keeps; [apply own_close_drop; eapply chan_of_hist; [|exact Hd]; by etransitivity|].
  intros w3 Hh3. apply sf_on_handler; [done|]. eapply handler_opt_hist; [|exact Hh].
  by do 2 (etransitivity; [done|]).
Qed.

(** What [onPollRequest]'s critical section gives. *)
Definition parked x (r : option (chanp * option handler * list Packet)) w o : Prop :=
  match r with
  | None => o = {[+ TFresh x +]}
  | Some (d, h, _) => o = ∅ ∧ chan_of d x w ∧ handler_opt w h
  end.

Lemma own_park w p x : ow w {[+ TFresh x +]} (atomic (park_poll p x)) (parked x).
Proof.
  apply (own_atomic inv hist pre). intros w1 F _ Hi.
  assert (∃ o', inv w1 (o' ⊎ F) ∧ hist w1 w1
            ∧ (∀ w3 F', hist w1 w3 → inv w3 (o' ⊎ F') → parked x None w3 o')) as Hnone.
  { exists {[+ TFresh x +]}. by split_and!; [|reflexivity|]. }
  unfold park_poll. destruct (polls w1 !! p) as [k|] eqn:Hk; [|done].
  destruct (p_req k) eqn:Hreq; [done|]. simpl.
  destruct (trade_park p k x (λ k, set_p_sendBuffer (if p_closed k then p_sendBuffer k else [])
    (set_p_pollDone (Some (length (chans w1))) (set_p_writable true
      (set_p_res (Some x) (set_p_req (Some x) k))))) w1 F) as (H1 & H2 & H3); try done.
  exists ∅. rewrite (left_id_L ∅ (⊎)). split_and!; [done..|]. intros w3 F' Hh3 _. split_and!; [done| |].
  - eapply chan_of_hist; [done|]. by exists false.
  - eapply handler_opt_hist; [|apply (i_poll w1 _ Hi p k Hk)]. by etransitivity.
Qed.

Lemma kp_wait_chan w d x : chan_of d x w → kp w (wait_chan d) (λ _ w', done_with x w').
Proof.
  intros Hd. apply (keeps_await inv hist pre). intros w1 F [] w2 Hh Hi Hs.
  destruct (chan_of_hist d x w w1 Hh Hd) as [b Hb]. unfold is_closed in Hs. rewrite Hb in Hs. simpl in Hs.
  destruct b; simplify_eq. split_and!; [done|reflexivity|].
  intros w3 F' Hh3 _. eapply done_with_hist; [done|]. right. by exists d.
Qed.

Lemma own_served_keeps w x (p : P unit) : kp w p (λ _ w', done_with x w') →
  ow w ∅ p (λ _ w' o', served x w' o').
Proof.
  intros Hp. eapply (own_mono inv hist pre); [exact Hp|]. intros _ w' o' F _ _ [-> Hd]. by right.
Qed.

Lemma serves_poll w p x : serves w x (onPollRequest choose p x).
Proof.
  unfold onPollRequest. eapply (own_bind inv hist pre); [apply own_park|].
  intros [[[d h] buffered]|] w1 o1 F1 _ _ Ht.
  - destruct Ht as (-> & Hd & Hh). apply own_served_keeps.
    apply sf_seq; [by apply sf_go, sf_watch|]. intros w2 Hh2.
    apply sf_seq; [apply sf_on_handler; [done|by eapply handler_opt_hist]|]. intros w3 Hh3.
    assert (∀ w4, hist w3 w4 → kp w4 (wait_chan d) (λ _ w', done_with x w')) as Hwait.
    { intros w4 Hh4. apply kp_wait_chan. eapply chan_of_hist; [|exact Hd].
      by do 2 (etransitivity; [done|]). }
    case_decide.
    + apply sf_then; [apply sf_gets|]. intros pending w4 Hh4.
      apply sf_seq; [apply sf_when; intros _; apply sf_poll_Send|]. intros w5 Hh5.
      apply Hwait. by etransitivity.
    + apply sf_seq; [apply sf_poll_Send|done].
  - simpl in Ht. subst. apply own_keeps_then; [apply sf_poll_notifyError|].
    intros _ w2 _. apply own_answer, answering_status.
Qed.

(** ** Serving a payload *)

Lemma answering_post : answering post_response.
Proof. by apply answering_body. Qed.

Lemma serves_data_body w p x mx h r : handler_opt w h → serves w x (data_body p x mx h r).
Proof.
  intros Hh. unfold data_body.
  assert (∀ e, serves w x (poll_notifyError p e ≫= λ _, respond x (write_header 400))) as Herr.
  { intros e. apply own_keeps_then; [apply sf_poll_notifyError|].
    intros _ w' _. apply own_answer, answering_status. }
  destruct (is_octet_stream r); [apply Herr|]. destruct (read_limited mx r) as [body|e]; [|apply Herr].
  destruct (mx <? blen body); [apply own_answer, answering_status|].
  destruct (DecodePayloadWithLimit body mx) as [pkts [e|]].
  - apply own_keeps_then; [by apply sf_on_handler|]. intros _ w' _. apply own_answer, answering_status.
  - apply own_keeps_then.
    + apply (keeps_for_each inv hist pre). intros pk w' _ Hh'. apply sf_on_handler; [done|].
      by eapply handler_opt_hist.
    + intros _ w' _. apply own_answer, answering_post.
Qed.

Lemma own_served_then w o x (p q : P unit) :
  ow w o p (λ _ w' o', served x w' o') → (∀ w', hist w w' → sf w' q) →
  ow w o (p ≫= λ _, q) (λ _ w' o', served x w' o').
Proof.
  intros Hp Hq. eapply (own_bind inv hist pre); [exact Hp|]. intros u w' o' F Hh _ Hs.
  rewrite <- (left_id_L ∅ (⊎) o'). eapply (own_mono inv hist pre); [apply own_frame, Hq; done|].
  simpl. intros u2 w2 o2 F2 Hh2 _ (o3 & -> & -> & _). rewrite (left_id_L ∅ (⊎)).
  destruct Hs as [->|[-> Hd]]; [by left|right]. split; [done|by eapply done_with_hist].
Qed.

Lemma serves_data w p x r : serves w x (onDataRequest p x r).
Proof.
  unfold onDataRequest. eapply (keeps_seq inv hist pre) with
    (Q := λ (r : option (Z * option handler)) w', match r with Some (_, h) => handler_opt w' h | None => True end).
  - apply (keeps_atomic inv hist pre). intros w1 F _ Hi. unfold data_locked.
    destruct (polls w1 !! p) as [k|] eqn:Hk; simpl; [|by split_and!; [|reflexivity|]].
    destruct (p_dataReq k); simpl; [by split_and!; [|reflexivity|]|].
    destruct (good_upd_poll p (set_p_dataReq (Some x)) w1) with (o := F) as [H1 H2]; try done.
    split_and!; [done..|]. intros w3 F' Hh3 _. eapply handler_opt_hist; [|apply (i_poll w1 F Hi p k Hk)].
    by etransitivity.
  - intros [[mx h]|] w1 F _ _ Hh.
    + apply own_served_then; [by apply serves_data_body|]. intros w2 _. by apply sf_upd_poll.
    + apply own_keeps_then; [apply sf_poll_notifyError|]. intros _ w2 _. apply own_answer, answering_status.
Qed.

Lemma serves_poll_ServeHTTP w p x r : serves w x (poll_ServeHTTP choose p x r).
Proof.
  unfold poll_ServeHTTP. case_decide; [apply serves_poll|]. case_decide; [apply serves_data|].
  apply own_answer. by apply answering_body.
Qed.

(** ** The WebSocket transport *)

Lemma sf_upd_ws w t (f : websocket → websocket) :
  (∀ k, ws_handler (f k) = ws_handler k) → sf w (update (upd_ws t f)).
Proof. intros Hf. apply sf_update. intros w1 _. apply good_upd_ws. intros k. by rewrite Hf. Qed.

Lemma kp_ws_handler w t :
  kp w (ws_get t None ws_handler) (λ h w', handler_opt w' h).
Proof.
  apply (keeps_gets inv hist pre). intros w1 w3 F F' _ Hi Hh _.
  destruct (wss w1 !! t) as [k|] eqn:Hk; [|done].
  eapply handler_opt_hist; [done|]. by eapply i_ws.
Qed.

Lemma sf_ws_notify w t (m : handler → method_name) :
  (∀ h w', handler_ok w' h → pre (m h) w' ∅) → sf w (ws_notify t m).
Proof.
  intros Hm. eapply (keeps_bind inv hist pre); [apply kp_ws_handler|].
  intros h w' F _ _ Hh. by apply sf_on_handler.
Qed.

Lemma sf_conn_Read w t : sf w (conn_Read t).
Proof. apply sf_await. intros w1 r w2 _ Hr. bust; by apply egood_same. Qed.

Lemma sf_conn_Write w t b data : sf w (conn_Write t b data).
Proof. apply sf_await. intros w1 r w2 _ Hr. bust; by apply egood_same. Qed.

Lemma sf_read_round w t : sf w (read_round t).
Proof.
  unfold read_round. apply sf_then; [apply sf_conn_Read|].
  assert (∀ w' (m : handler → method_name) (b : bool), (∀ h w', handler_ok w' h → pre (m h) w' ∅) →
    sf w' (ws_notify t m ≫= λ _, mret b)) as Hn.
  { intros w' m b Hm. apply sf_seq; [by apply sf_ws_notify|]. intros. apply sf_ret. }
  intros [[[] data]|] w' _; [by apply Hn| |by apply Hn].
  destruct (DecodePacket data false); by apply Hn.
Qed.

Lemma sf_ws_SetHandler w t h : handler_ok w h → sf w (ws_SetHandler t h).
Proof.
  intros Hh. apply sf_seq.
  { apply sf_update. intros w1 Hh1. apply good_upd_ws. intros k _. by eapply handler_ok_hist. }
  intros w1 Hh1. apply sf_then; [apply sf_atomic; intros; by apply good_upd_ws|].
  intros first w2 _. apply sf_when. intros _. apply (keeps_go_loop inv hist pre); [|done].
  apply sf_read_round.
Qed.

Lemma sf_send_frames w t pkts : sf w (send_frames t pkts).
Proof.
  revert w. induction pkts as [|p pkts IH]; intros w; [apply sf_ret|]. cbn [send_frames].
  apply sf_then; [apply sf_conn_Write|]. intros [msg|] w' _; [|apply IH].
  apply sf_seq; [by apply sf_ws_notify|]. intros. apply sf_ret.
Qed.

Lemma sf_ws_Send w t pkts : sf w (ws_Send t pkts).
Proof.
  unfold ws_Send. destruct pkts as [|p pkts]; [apply sf_skip|].
  apply sf_then; [apply sf_send_frames|]. intros ok w1 _. apply sf_when. intros _.
  eapply (keeps_bind inv hist pre w1 _ _ (λ h w', handler_opt w' h)).
  - apply (keeps_atomic inv hist pre). intros w2 F _ Hi.
    destruct (good_upd_ws t (set_ws_writable true) w2) with (o := F) as [H1 H2]; try done.
    split_and!; [done..|]. simpl. intros w3 F' Hh3 _.
    destruct (wss w2 !! t) as [k|] eqn:Hk; [|done].
    eapply (handler_opt_hist w2); [by etransitivity|exact (i_ws w2 F Hi t k Hk)].
  - intros h w2 F _ _ Hh. by apply sf_on_handler.
Qed.

Lemma sf_ws_Close w t : sf w (ws_Close t).
Proof.
  unfold ws_Close. apply sf_then; [apply sf_atomic; intros; by apply good_upd_ws|].
  intros first w1 _. apply sf_when. intros _. apply sf_then.
  - apply sf_atomic. intros w2 _. simpl. destruct (wss w2 !! t); by apply egood_same.
  - intros [] w2 _. by apply sf_upd_ws.
Qed.

(** ** Sessions *)

Lemma sf_upd_sk w s (f : esocket → esocket) :
  (∀ k, es_id (f k) = es_id k ∧ es_readyState (f k) = es_readyState k) → sf w (update (upd_sk s f)).
Proof.
  intros Hf. apply sf_update. intros w1 _. apply good_upd_sk. intros k. destruct (Hf k) as [H1 H2].
  by rewrite H1, H2.
Qed.

Lemma sf_t_Discard w t : sf w (t_Discard t).
Proof. destruct t; [by apply sf_upd_poll|by apply sf_upd_ws]. Qed.

Lemma sf_t_SetHandler w t h : handler_ok w h → sf w (t_SetHandler t h).
Proof. destruct t; [apply sf_poll_SetHandler|apply sf_ws_SetHandler]. Qed.

Lemma sf_t_Send w t pkts : sf w (t_Send t pkts).
Proof. by apply sf_call. Qed.

Lemma sf_t_Close w t : sf w (t_Close t).
Proof. by apply sf_call. Qed.

Lemma sf_MFlush w s : sf w (call (MFlush s)).
Proof. by apply sf_call. Qed.

Lemma sf_MPing w s : sf w (call (MPing s)).
Proof. by apply sf_call. Qed.

Lemma sf_flush w s : sf w (flush s).
Proof.
  unfold flush. apply sf_then.
  - apply sf_atomic. intros w1 _. unfold flush_locked. bust; try apply harmless_refl.
    by apply good_upd_sk.
  - intros [[t buf]|] w1 _; [|apply sf_skip]. apply sf_seq; [apply sf_t_Send|]. intros w2 _.
    apply sf_then; [apply sf_atomic; intros; by apply good_upd_sk|]. intros b w3 _.
    apply sf_when. intros _. apply sf_MFlush.
Qed.

Lemma sf_sendPacket w s ty data b : sf w (sendPacket s ty data b).
Proof.
  unfold sendPacket. apply sf_then.
  - apply sf_atomic. intros w1 _. unfold push_locked. bust; try apply harmless_refl. by apply good_upd_sk.
  - intros [t|] w1 _; [|apply sf_skip]. apply sf_then; [apply sf_gets|]. intros c w2 _.
    apply sf_when. intros _. apply sf_MFlush.
Qed.

Lemma sf_SendMessage w s data b : sf w (SendMessage s data b).
Proof. apply sf_sendPacket. Qed.

Lemma good_arm_ping s w : good w (arm_ping s w).2.
Proof. unfold arm_ping. simpl. eapply harmless_trans; [|by apply good_upd_sk]. by apply egood_same. Qed.

Lemma good_armed s w tm w' : arm_ping s w = (tm, w') → good w w'.
Proof. intros Ha. pose proof (good_arm_ping s w) as Hg. by rewrite Ha in Hg. Qed.

Lemma sf_schedulePing w s : sf w (schedulePing s).
Proof.
  unfold schedulePing. apply sf_then; [apply sf_atomic; intros; apply good_arm_ping|].
  intros tm w1 _. apply sf_run_timer. intros. apply sf_MPing.
Qed.

Lemma sf_Socket_Close w s : sf w (Socket_Close s).
Proof.
  unfold Socket_Close. apply sf_then.
  - apply sf_atomic. intros w1 _. destruct (sks w1 !! s) as [k|] eqn:Hk; [|apply harmless_refl].
    destruct (decide (es_readyState k = stateOpen)) as [Hopen|]; [|apply harmless_refl]. simpl.
    intros o Hi. rewrite (alter_sk s k) by done. eapply inv_sk; try done.
    rewrite decide_False by done. pose proof (i_closing w1 o Hi s) as Hc. unfold closing_right in Hc.
    by rewrite Hk, Hopen, decide_False in Hc by done.
  - intros b w1 _. apply sf_when. intros _. apply sf_seq; [apply sf_MFlush|]. intros w2 _.
    unfold closeTransport. apply sf_then; [apply sf_gets|]. intros [t|] w3 _; [apply sf_t_Close|apply sf_skip].
Qed.

(** The layer above is told about events in callbacks that are themselves made of
    such operations. *)
Context (usr : user (C := C) (U := U)).

Record safe_user : Prop := {
  su_connect f s w : sf w (u_connect usr f s);
  su_data f s data b w : sf w (u_data usr f s data b);
  su_close f s reason err w : sf w (u_close usr f s reason err)
}.
Context (Husr : safe_user).

Lemma sf_uplog w e : closed_sock e = None → sf w (update (set_uplog (λ l, l ++ [e]))).
Proof. intros He. apply sf_update. intros. by apply good_uplog. Qed.

(** Telling that a session is closed uses up the permission, whether there is
    a callback or not. *)
Lemma own_weaken_token w t F : inv w ({[+ t +]} ⊎ F) → inv w F.
Proof. apply inv_less. intros t'. rewrite multiplicity_disj_union. lia. Qed.

Lemma own_sock_onClose w s reason err :
  ow w {[+ TClosing s +]} (sock_onClose usr s reason err) (λ _ _ o', o' = ∅).
Proof.
  unfold sock_onClose. apply own_keeps_then.
  { apply sf_atomic. intros w1 _. simpl. destruct (sks w1 !! s); by apply egood_same. }
  intros [] w1 _. eapply (own_bind inv hist pre) with
    (Q := λ (f : option fn) _ o', o' = match f with Some _ => {[+ TClosing s +]} | None => ∅ end).
  - apply (own_atomic inv hist pre). intros w2 F _ Hi. simpl. destruct (srv_onClose w2).
    + exists {[+ TClosing s +]}. by split_and!; [|reflexivity|].
    + exists ∅. rewrite (left_id_L ∅ (⊎)). split_and!; [by eapply own_weaken_token|reflexivity|done].
  - intros [f|] w2 o2 F _ _ ->.
    + eapply (own_mono inv hist pre); [apply own_then_keeps with (Q := λ _ _, True)|].
      * apply (own_update inv hist pre). intros w3 F3 _ Hi. destruct (trade_told s reason err w3 F3 Hi).
        exists ∅. rewrite (left_id_L ∅ (⊎)). by split_and!.
      * intros w3 _. apply Husr.
      * by intros u w3 o3 F3 _ _ [-> _].
    + eapply (own_mono inv hist pre); [exact (sf_skip w2)|]. by intros u w3 o3 F3 _ _ [-> _].
Qed.

Lemma sf_closeWithReason w s reason err : sf w (closeWithReason usr s reason err).
Proof.
  unfold closeWithReason. eapply (own_bind inv hist pre) with
    (Q := λ (r : bool * option tport) _ o', o' = if r.1 then {[+ TClosing s +]} else ∅).
  - apply (own_atomic inv hist pre). intros w1 F _ Hi. rewrite (left_id_L ∅ (⊎)) in Hi.
    destruct (trade_close_session s w1 F Hi) as [H1 H2]. eexists. by split_and!.
  - intros [[] t] w1 o1 F _ _ ->; simpl; [|exact (sf_skip w1)].
    eapply (own_mono inv hist pre); [apply own_keeps_then with (Q := λ _ _ o', o' = ∅)|].
    + destruct t as [t|]; [|apply sf_skip]. apply sf_seq; [apply sf_t_Discard|]. intros. apply sf_t_Close.
    + intros u w2 _. apply own_sock_onClose.
    + by intros u w3 o3 F3 _ _ ->.
Qed.

Lemma sf_pingTimeoutHandler w s : sf w (pingTimeoutHandler usr s).
Proof.
  unfold pingTimeoutHandler. apply sf_then; [apply sf_gets|]. intros closed w1 _.
  apply sf_when. intros _. apply sf_closeWithReason.
Qed.

Lemma sf_pingHandler w s : sf w (pingHandler usr s).
Proof.
  unfold pingHandler. apply sf_then.
  - apply sf_atomic. intros w1 _. unfold ping_locked. bust; try apply harmless_refl. by eapply good_armed.
  - intros [|tm|] w1 _; [apply sf_skip|apply sf_run_timer; intros; apply sf_MPing|].
    apply sf_seq; [apply sf_sendPacket|]. intros w2 _. apply sf_then.
    + apply sf_atomic. intros w3 _. unfold arm_timeout. simpl.
      eapply harmless_trans; [|by apply good_upd_sk]. by apply egood_same.
    + intros tm w3 _. apply sf_run_timer. intros. apply sf_pingTimeoutHandler.
Qed.

Lemma sf_onPacket w s p : sf w (onPacket usr s p).
Proof.
  unfold onPacket. apply sf_then.
  - apply sf_atomic. intros w1 _. unfold packet_locked. destruct (sks w1 !! s) as [k|]; [|apply harmless_refl].
    case_decide; [|apply harmless_refl]. destruct (Type_of p); try apply harmless_refl.
    eapply harmless_trans; [apply good_stop|]. eapply harmless_trans; [apply good_stop|]. apply good_arm_ping.
  - intros [|tm|[f|]|reason] w1 _.
    + apply sf_skip.
    + apply sf_run_timer. intros. apply sf_MPing.
    + apply sf_seq; [by apply sf_uplog|]. intros w2 _. apply Husr.
    + apply sf_skip.
    + apply sf_closeWithReason.
Qed.

Lemma sf_onErrorFrom w s t e : sf w (onErrorFrom usr s t e).
Proof.
  unfold onErrorFrom. apply sf_then; [apply sf_gets|]. intros b w1 _. apply sf_when. intros _.
  apply sf_closeWithReason.
Qed.

Lemma sf_onCloseFrom w s t : sf w (onCloseFrom usr s t).
Proof.
  unfold onCloseFrom. apply sf_then; [apply sf_gets|]. intros b w1 _. apply sf_when. intros _.
  apply sf_closeWithReason.
Qed.

Lemma sf_attach w s t : sf w (attach s t).
Proof.
  unfold attach. apply sf_seq; [by apply sf_upd_sk|]. intros. by apply sf_t_SetHandler.
Qed.

Lemma sf_openPacketData w s : sf w (openPacketData s).
Proof. unfold openPacketData. apply sf_then; [apply sf_gets|]. intros. apply sf_gets. Qed.

Lemma own_open w s : ow w {[+ TOpen s +]} (open s) (λ _ _ o', o' = ∅).
Proof.
  unfold open. eapply (own_mono inv hist pre); [apply own_then_keeps with (Q := λ _ _, True)|].
  - apply (own_update inv hist pre). intros w1 F _ Hi. destruct (trade_open s w1 F Hi).
    exists ∅. rewrite (left_id_L ∅ (⊎)). by split_and!.
  - intros w1 _. apply sf_then; [apply sf_openPacketData|]. intros data w2 _.
    apply sf_seq; [apply sf_sendPacket|]. intros. apply sf_schedulePing.
  - by intros u w3 o3 F3 _ _ [-> _].
Qed.

(** ** The upgrade *)

Abbreviation stop_chan w stop := (∃ b, chans w !! stop = Some (mkChan StopCheck b)).

Lemma sf_stopCheckFn w stop : stop_chan w stop → sf w (stopCheckFn stop).
Proof.
  intros Hs. apply sf_update. intros w1 Hh. apply good_close_stop. by eapply hist_stop.
Qed.

Lemma sf_probe_round w s stop : sf w (probe_round choose s stop).
Proof.
  unfold probe_round. apply sf_then; [apply sf_atomic; intros; by apply egood_same|].
  intros [] w1 _; [|apply sf_ret]. apply sf_then; [apply sf_gets|]. intros b w2 _.
  apply sf_seq; [|intros; apply sf_ret]. apply sf_when. intros _. unfold pollingNoop.
  apply sf_then; [apply sf_gets|]. intros [t|] w3 _; [apply sf_t_Send|apply sf_skip].
Qed.

Lemma sf_onProbe w s t stop : sf w (onProbe choose s t stop).
Proof.
  unfold onProbe. apply sf_seq; [apply sf_t_Send|]. intros w1 _.
  apply (keeps_go_loop inv hist pre); [|done]. apply sf_probe_round.
Qed.

Lemma sf_retire w s t : sf w (retire_transport s t).
Proof.
  assert (∀ w', sf w' (t_Discard t ≫= λ _, t_Close t)) as Hend.
  { intros w'. apply sf_seq; [apply sf_t_Discard|]. intros. apply sf_t_Close. }
  unfold retire_transport. destruct t as [p|p].
  - apply sf_seq; [|intros; apply Hend]. apply sf_seq.
    { apply sf_await. intros w1 [] w2 _ Hs. bust; apply harmless_refl. }
    intros w1 _. apply sf_then; [apply sf_atomic; intros; by apply good_upd_poll|].
    intros drained w2 _. apply sf_when. intros _. by apply sf_upd_sk.
  - apply sf_seq; [apply sf_skip|intros; apply Hend].
Qed.

Lemma good_rearm s w : good w (rearm_if_open s w).2.
Proof. unfold rearm_if_open. bust; try apply harmless_refl. by eapply good_armed. Qed.

Lemma sf_run_rearmed w s tm : sf w (run_rearmed s tm).
Proof. destruct tm; [apply sf_run_timer; intros; apply sf_MPing|apply sf_skip]. Qed.

Lemma sf_onUpgrade w s t tm stop : stop_chan w stop → sf w (onUpgrade s t tm stop).
Proof.
  intros Hs. unfold onUpgrade. apply sf_seq; [apply sf_update; intros; by apply egood_same|].
  intros w1 Hh1. apply sf_seq; [apply sf_stopCheckFn; by eapply hist_stop|]. intros w2 _.
  apply sf_then.
  { apply sf_atomic. intros w3 _. unfold switch_locked. bust; try apply harmless_refl. by apply good_upd_sk. }
  intros [old|] w3 _; [|apply sf_t_Close].
  apply sf_seq; [destruct old; [apply sf_retire|apply sf_skip]|]. intros w4 _.
  apply sf_seq; [by apply sf_upd_sk|]. intros w5 _.
  apply sf_seq; [by apply sf_t_SetHandler|]. intros w6 _.
  apply sf_seq; [apply sf_MFlush|]. intros w7 _.
  apply sf_then; [apply sf_atomic; intros; apply good_rearm|]. intros. apply sf_run_rearmed.
Qed.

Lemma sf_onAbort w s t tm stop : stop_chan w stop → sf w (onAbort s t tm stop).
Proof.
  intros Hs. unfold onAbort. apply sf_seq; [apply sf_update; intros; by apply egood_same|].
  intros w1 Hh1. apply sf_seq; [apply sf_stopCheckFn; by eapply hist_stop|]. intros w2 _.
  apply sf_seq; [apply sf_t_Close|]. intros w3 _. apply sf_then.
  { apply sf_atomic. intros w4 _. eapply harmless_trans; [|apply good_rearm]. by apply good_upd_sk. }
  intros a w4 _. apply sf_seq; [apply sf_run_rearmed|]. intros. apply sf_MFlush.
Qed.

Lemma sf_up_OnPacket w s t tm stop p : stop_chan w stop → sf w (up_OnPacket choose s t tm stop p).
Proof.
  intros Hs. unfold up_OnPacket. destruct (_ && _); [apply sf_onProbe|].
  case_decide; [by apply sf_onUpgrade|by apply sf_onAbort].
Qed.

Lemma sf_MaybeUpgrade w s t : sf w (MaybeUpgrade s t).
Proof.
  unfold MaybeUpgrade. apply sf_then.
  - apply sf_atomic. intros w1 _. unfold begin_upgrade.
    destruct (sks w1 !! s); [destruct (_ || _)|]; try apply harmless_refl.
    eapply harmless_trans; [apply good_stop|]. eapply harmless_trans; [apply good_stop|]. by apply good_upd_sk.
  - intros [] w1 _; [|apply sf_t_Close].
    apply sf_then; [apply sf_atomic; intros; by apply egood_same|]. intros tm w2 _.
    apply sf_seq; [apply sf_run_timer; intros; apply sf_t_Close|]. intros w3 _.
    eapply (keeps_bind inv hist pre w3 _ _ (λ stop w', stop_chan w' stop)).
    + apply (keeps_atomic inv hist pre). intros w4 F _ Hi.
      destruct (trade_stop_chan w4 F Hi) as (H1 & H2 & H3). split_and!; [done..|].
      intros w5 F' Hh5 _. eapply hist_stop; [done|]. by exists false.
    + intros stop w4 F _ _ Hs. by apply sf_t_SetHandler.
Qed.

(** Every named method does what its callers count on. *)
Lemma engine_methods_own :
  @methods_own W method_name token _ _ _ inv hist pre (engine_methods choose usr).
Proof.
  intros m w o [-> Hm].
  assert (∀ p : P unit, sf w p → ow w ∅ p (λ _ _ o', o' = ∅)) as Hsf.
  { intros p Hp. eapply (own_mono inv hist pre); [exact Hp|]. by intros u w' o' F _ _ [-> _]. }
  apply Hsf. clear Hsf. destruct m as [[] pkts|[]|[] p|[] e|[]|[]|s|s]; simpl in *.
  - apply sf_poll_Send.
  - apply sf_ws_Send.
  - apply sf_poll_Close.
  - apply sf_ws_Close.
  - apply sf_onPacket.
  - by apply sf_up_OnPacket.
  - apply sf_onErrorFrom.
  - by apply sf_onAbort.
  - apply sf_onCloseFrom.
  - by apply sf_onAbort.
  - apply sf_flush.
  - apply sf_skip.
  - apply sf_flush.
  - apply sf_pingHandler.
Qed.

(** ** The server *)

Context (rand : nat → bytes) (cord : nat → gmap string sockp → list sockp).

Lemma sf_createSocket w r t : sf w (createSocket rand usr r t).
Proof.
  unfold createSocket. apply sf_then; [apply sf_atomic; intros; by apply egood_same|].
  intros id w1 _. eapply (own_bind inv hist pre) with (Q := λ s _ o', o' = {[+ TOpen s +]}).
  - apply (own_atomic inv hist pre). intros w2 F _ Hi. rewrite (left_id_L ∅ (⊎)) in Hi. simpl.
    destruct (trade_new_socket (new_socket id (rq_addr r) (srv_onData w2)) w2 F Hi).
    eexists. by split_and!.
  - intros s w2 o2 F _ _ ->.
    apply own_keeps_then; [apply sf_update; intros; by apply egood_same|]. intros _ w3 _.
    apply own_keeps_then; [apply sf_attach|]. intros _ w4 _.
    eapply own_then_keeps; [apply own_open|]. intros w5 _.
    apply sf_then; [apply sf_gets|]. intros f w6 _. apply sf_seq; [|intros; apply sf_ret].
    destruct f as [f|]; [|apply sf_skip]. apply sf_seq; [by apply sf_uplog|]. intros. apply Husr.
Qed.

Lemma sf_verify w r q b : sf w (verify r q b).
Proof.
  unfold verify. apply sf_then; [apply sf_gets|]. intros o w1 _.
  repeat (case_match; try apply sf_ret). all: apply sf_then; [apply sf_gets|].
  all: intros [s|] w2 _; [|apply sf_ret]; apply sf_then; [apply sf_gets|]; intros; apply sf_ret.
Qed.

Lemma answering_abort code ctx : answering (abort_response code ctx).
Proof. by apply answering_body. Qed.

Lemma serves_abort w x code : serves w x (abortRequest x code None).
Proof. apply own_answer, answering_abort. Qed.

Lemma own_keeps_served w x (p : P unit) : sf w p → serves w x p.
Proof.
  intros Hp. rewrite <- (left_id_L ∅ (⊎) {[+ TFresh x +]}).
  eapply (own_mono inv hist pre); [by apply own_frame|]. simpl.
  intros u w' o' F _ _ (o2 & -> & -> & _). left. by rewrite (left_id_L ∅ (⊎)).
Qed.

Lemma good_new_polling w : good w (set_polls (λ l, l ++ [new_polling]) w).
Proof.
  apply good_core; try done; simpl.
  - intros d. rewrite cnt_app. simpl. unfold one. simpl. lia.
  - intros x. rewrite cnt_app. simpl. unfold one. simpl. lia.
  - eauto.
  - intros o Hi p k [Hk|[_ Hk]]%lookup_app_Some; [by eapply i_poll|].
    by apply list_lookup_singleton_Some in Hk as [_ <-].
  - intros o Hi t k. apply (i_ws w o Hi).
Qed.

Lemma sf_NewWebsocket w c : sf w (NewWebsocket c).
Proof.
  apply sf_atomic. intros w1 _. simpl. apply good_core; try done; simpl; [eauto| |].
  - intros o Hi p k. apply (i_poll w1 o Hi).
  - intros o Hi t k [Hk|[_ Hk]]%lookup_app_Some; [by eapply i_ws|].
    by apply list_lookup_singleton_Some in Hk as [_ <-].
Qed.

Lemma serves_handshake w x r : serves w x (handshake choose rand usr x r).
Proof.
  unfold handshake. apply own_keeps_then; [apply sf_atomic; intros; apply good_new_polling|].
  intros p w1 _. apply own_keeps_then; [apply sf_gets|]. intros o w2 _.
  apply own_keeps_then; [by apply sf_upd_poll|]. intros _ w3 _.
  apply own_keeps_then; [apply sf_createSocket|]. intros s w4 _. apply serves_poll_ServeHTTP.
Qed.

Lemma serves_session w x r s : serves w x (serve_session choose x r s).
Proof.
  assert (∀ w', serves w' x (sk_get s None es_pollingTport ≫= λ retained,
      match retained with
      | Some (TPolling p) => poll_ServeHTTP choose p x r
      | _ => abortRequest x ErrCodeBadRequest None
      end)) as Hretained.
  { intros w'. apply own_keeps_then; [apply sf_gets|].
    intros [[p|p]|] w1 _; [apply serves_poll_ServeHTTP|apply serves_abort..]. }
  unfold serve_session. apply own_keeps_then; [apply sf_gets|].
  intros [[p|p]|] w1 _; [apply serves_poll_ServeHTTP|apply Hretained..].
Qed.

Lemma serves_handlePolling w x r q : serves w x (handlePolling choose rand usr x r q).
Proof.
  unfold handlePolling. apply own_keeps_then; [apply sf_verify|]. intros [|e|] w1 _.
  - destruct (bool_decide _); [apply serves_handshake|]. apply own_keeps_then; [apply sf_gets|].
    intros [s|] w2 _; [apply serves_session|apply serves_abort].
  - apply serves_abort.
  - apply own_keeps_served, sf_skip.
Qed.

(** Taking over the connection answers the request only when it fails. *)
Lemma own_accept w x r (k : nat → P unit) :
  (∀ t w', sf w' (k t)) →
  serves w x (accept_websocket x r ≫= λ a, match a with Some t => k t | None => skip end).
Proof.
  intros Hk. unfold accept_websocket. destruct (ws_accept r) as [c|[status body]].
  - apply own_keeps_served. apply sf_then; [|intros [t|] w' _; [apply Hk|apply sf_skip]].
    apply sf_then; [apply sf_atomic; intros; by apply egood_same|]. intros i w1 _.
    apply sf_then; [apply sf_NewWebsocket|]. intros. apply sf_ret.
  - eapply (own_bind inv hist pre) with
      (Q := λ a w' o', a = None ∧ served x w' o').
    + eapply (own_bind inv hist pre); [apply own_answer; by apply answering_body|].
      intros u w1 o1 F1 _ _ Hs. apply (own_ret inv hist pre). intros w2 F2 Hh2 _. split; [done|].
      destruct Hs as [->|[-> Hd]]; [by left|right]. split; [done|by eapply done_with_hist].
    + intros a w1 o1 F1 _ _ [-> Hs]. apply (own_ret inv hist pre). intros w2 F2 Hh2 _.
      destruct Hs as [->|[-> Hd]]; [by left|right]. split; [done|by eapply done_with_hist].
Qed.

Lemma serves_handleWebsocket w x r q : serves w x (handleWebsocket rand usr x r q).
Proof.
  unfold handleWebsocket. apply own_keeps_then; [apply sf_verify|]. intros [|e|] w1 _.
  - destruct (bool_decide _).
    + apply own_accept. intros t w'. apply sf_then; [apply sf_createSocket|]. intros. apply sf_skip.
    + apply own_keeps_then; [apply sf_gets|]. intros [s|] w2 _; [|apply serves_abort].
      apply own_accept. intros. apply sf_MaybeUpgrade.
  - apply serves_abort.
  - apply own_keeps_served, sf_skip.
Qed.

Lemma serves_ServeHTTP w x r : serves w x (ServeHTTP choose rand usr x r).
Proof.
  unfold ServeHTTP. case_decide; [apply serves_handlePolling|].
  case_decide; [apply serves_handleWebsocket|apply serves_abort].
Qed.

Lemma own_over w x o : served x w o → ow w o (update (upd_exch x (set_x_over true))) (λ _ _ o', o' = ∅).
Proof.
  intros Hs. apply (own_update inv hist pre). intros w1 F Hh Hi.
  assert (inv w1 F) as HiF by (eapply inv_less; [|exact Hi]; intros t; rewrite multiplicity_disj_union; lia).
  assert (cnt p_res x (polls w1) + multiplicity (TWriter x) F + multiplicity (TFresh x) F = 0)%nat as Hz.
  { destruct Hs as [->|[-> Hd]].
    - destruct (writer_exch w1 x (TFresh x) F) as (e & _ & _ & _ & Hz); [by right|done|done].
    - destruct (done_with_hist x w w1 Hh Hd) as [(e & He & Ha)|[d Hd']].
      + pose proof (i_write w1 F HiF x) as Hw. unfold write_right in Hw. rewrite He in Hw.
        rewrite bool_decide_true, orb_true_r in Hw by done. lia.
      + pose proof (i_done w1 F HiF d x Hd'). destruct (i_made w1 F HiF d x _ Hd'). lia. }
  destruct (trade_over x w1 F Hz HiF). exists ∅. rewrite (left_id_L ∅ (⊎)). by split_and!.
Qed.

Lemma sf_serve_request w r : sf w (serve_request choose rand usr r).
Proof.
  unfold serve_request. eapply (own_bind inv hist pre) with (Q := λ x _ o', o' = {[+ TFresh x +]}).
  - apply (own_atomic inv hist pre). intros w1 F _ Hi. rewrite (left_id_L ∅ (⊎)) in Hi. simpl.
    destruct (trade_exchange r w1 F Hi). eexists. by split_and!.
  - intros x w1 o1 F1 _ _ ->. eapply (own_bind inv hist pre); [apply serves_ServeHTTP|].
    intros u w2 o2 F2 _ _ Hs. eapply (own_mono inv hist pre); [by apply own_over|].
    by intros u3 w3 o3 F3 _ _ ->.
Qed.

(** What the world outside starts: requests, disappearing clients, network
    events, and the calls of the API. *)
Inductive entry : P unit → Prop :=
| entry_request r : entry (serve_request choose rand usr r)
| entry_gone x : entry (request_cancelled x)
| entry_peer c (f : C → C) : entry (peer_acts c f)
| entry_send s data b : entry (SendMessage s data b)
| entry_close s : entry (Socket_Close s)
| entry_server_close : entry (Server_Close cord)
| entry_OnConnect f : entry (OnConnect f)
| entry_OnData f : entry (OnData f)
| entry_OnClose f : entry (OnClose f).

Lemma sf_entry p w : entry p → sf w p.
Proof.
  intros [r|x|c f|s data b|s| |f|f|f].
  - apply sf_serve_request.
  - apply sf_update. intros. apply good_gone.
  - apply sf_update. intros. by apply egood_same.
  - apply sf_SendMessage.
  - apply sf_Socket_Close.
  - apply sf_then; [apply sf_atomic; intros; by apply egood_same|]. intros l w1 _.
    apply (keeps_for_each inv hist pre). intros s w2 _ _. apply sf_Socket_Close.
  - apply sf_update. intros. by apply egood_same.
  - apply sf_update. intros. by apply egood_same.
  - apply sf_update. intros. by apply egood_same.
Qed.

(** ** Every reachable state *)

Lemma inv_NewEngine op (u : U) : inv (NewServer (C := C) op u) ∅.
Proof. by split. Qed.

Definition running (op : option options) (u : U) (ps : list (P unit)) : config W method_name :=
  (NewServer op u, Once <$> ps).

Lemma running_own op u ps c c' :
  Forall entry ps →
  reachable (H := engine_methods choose usr) (running op u ps) c →
  reachable (H := engine_methods choose usr) c c' →
  (∃ os, inv c.1 os) ∧ hist c.1 c'.1.
Proof.
  intros Hps Hr Hr'.
  destruct (reachable_twice inv hist pre engine_methods_own (running op u ps) c c')
    as [(os & Hi & _) Hh]; [exact Hr|exact Hr'|apply inv_NewEngine| |by split; [exists os|]].
  simpl. apply Forall_fmap. eapply Forall_impl; [exact Hps|]. intros p Hp n.
  by apply (keeps_leaves inv hist pre _ _ _ (sf_entry p _ Hp)).
Qed.
End Safety.

(** ** Consequences *)

Lemma inv_parked {C U} (w : world C U) o p k x :
  inv w o → polls w !! p = Some k → p_res k = Some x →
  ∃ e, exchs w !! x = Some e ∧ x_over e = false ∧ x_status e = None.
Proof.
  intros Hi Hk Hx. pose proof (i_write w o Hi x) as Hw. pose proof (cnt_pos p_res x (polls w) p k Hk Hx).
  unfold write_right in Hw. destruct (exchs w !! x) as [e|]; [|lia]. exists e.
  destruct (x_over e); simpl in Hw; [lia|]. destruct (bool_decide_reflect (answered e)) as [|Ha]; [lia|].
  split_and!; [done..|]. unfold answered in Ha. destruct (x_status e); [|done]. by destruct Ha.
Qed.

(** C2. Whatever requests, disappearing clients, timers, network events and
    calls of the API run beside each other, in any interleaving: no channel is
    closed twice; a response is begun at most once, and never after its
    handler has returned; a response that a polling transport holds is held by
    no other, its handler is still waiting and nothing has been written to it;
    the layer above is told of the end of a session at most once, or twice for
    a session that is closed again ([told] counts the callbacks); and what was
    answered or told is never taken back. *)
Theorem engine_invariant {C U} `{WS : !WebsocketConn C} (choose : nat → bool) (usr : user (C := C) (U := U))
    (rand : nat → bytes) (cord : nat → gmap string sockp → list sockp) op u ps w ts :
  safe_user usr → Forall (entry choose usr rand cord) ps →
  reachable (H := engine_methods choose usr) (running op u ps) (w, ts) →
  panicked w = false
  ∧ (∀ x e, exchs w !! x = Some e → x_misused e = false)
  ∧ (∀ p p' k k' x, polls w !! p = Some k → polls w !! p' = Some k' →
       p_res k = Some x → p_res k' = Some x → p = p')
  ∧ (∀ p k x, polls w !! p = Some k → p_res k = Some x →
       ∃ e, exchs w !! x = Some e ∧ x_over e = false ∧ x_status e = None)
  ∧ (∀ s, (cnt closed_sock s (uplog w) ≤ closing_right w s)%nat)
  ∧ (∀ w' ts', reachable (H := engine_methods choose usr) (w, ts) (w', ts') →
       uplog w `prefix_of` uplog w' ∧
       ∀ x e, exchs w !! x = Some e → answered e →
         ∃ e', exchs w' !! x = Some e' ∧ x_status e' = x_status e ∧ x_header e' = x_header e
               ∧ x_body e' = x_body e).
Proof.
  intros Husr Hps Hr.
  assert (∃ o, inv w o) as [o Hi].
  { by destruct (running_own choose usr Husr rand cord op u ps (w, ts) (w, ts) Hps Hr) as [Hi _];
      [apply rtc_refl|]. }
  split_and!.
  - apply Hi.
  - apply Hi.
  - intros p p' k k' x Hk Hk' Hx Hx'. eapply (cnt_unique p_res x (polls w)); try done.
    pose proof (i_write w o Hi x) as Hw. unfold write_right in Hw.
    destruct (exchs w !! x) as [e|]; [destruct (_ || _)|]; lia.
  - intros p k x. by apply (inv_parked w o).
  - intros s. pose proof (i_closing w o Hi s). lia.
  - intros w' ts' Hr'.
    destruct (running_own choose usr Husr rand cord op u ps (w, ts) (w', ts') Hps Hr Hr') as [_ Hh].
    split; [apply Hh|]. intros x e He Ha. destruct (h_exch _ _ Hh x e He) as (e' & H1 & _ & _ & H2).
    exists e'. split; [done|by apply H2].
Qed.

(** A conversation: a handshake, a message posted and its echo polled, an
    upgrade to WebSocket and a message over it. *)
Definition conversation_calls : list (mprog dworld method_name unit) :=
  [OnData 0; OnClose 0; serve (get q_polling); serve (post (with_sid q_polling) "4hello");
   serve (get (with_sid q_polling)); serve (get (with_sid q_websocket));
   peer_acts 0 (feed [(false, bytes_of "2probe"); (false, bytes_of "5"); (false, bytes_of "4after")])].

Definition conversation : dconfig :=
  turns [0; 1; 2; 3; 4; 5; 6; 11]%nat (running None 0%nat conversation_calls).

Lemma conversation_reachable : reachable (running None 0%nat conversation_calls) conversation.
Proof. apply turns_reachable. Qed.

(** The echo reached the client by the poll and then by the connection. *)
Example conversation_answers :
  answer conversation 1 = Some (Some 200, "ok", true) ∧
  answer conversation 2 = Some (Some 200, "4hello", true) ∧
  (outbox <$> wconns conversation.1 !! 0%nat)
  = Some [(false, bytes_of "3probe"); (false, bytes_of "4after")].
Proof. split_and!; by vm_compute. Qed.

Lemma safe_echo : safe_user echo.
Proof. split; intros; [apply sf_skip|apply sf_SendMessage|apply sf_skip]. Qed.

Lemma conversation_entries : Forall (entry choose echo rand cord) conversation_calls.
Proof. repeat constructor. Qed.

Lemma engine_invariant_witness :
  panicked conversation.1 = false ∧ length (exchs conversation.1) = 4%nat
  ∧ ∀ x e, exchs conversation.1 !! x = Some e → x_misused e = false.
Proof.
  destruct conversation as [w ts] eqn:Hc.
  destruct (engine_invariant choose echo rand cord None 0%nat conversation_calls w ts) as (H1 & H2 & _).
  - exact safe_echo.
  - exact conversation_entries.
  - rewrite <- Hc. exact conversation_reachable.
  - split_and!; [exact H1| |exact H2].
    change (length (exchs w)) with (length (exchs (w, ts).1)). rewrite <- Hc. vm_compute. reflexivity.
Defined.
