(* ===== verification/EngineRaces.v ===== *)
(** * EngineRaces: runs of the Engine.IO server that go wrong

    Concrete interleavings, by the model of the network and the application
    of EngineDemo, in which a session does not do what the code means it to
    do.  Each is a reachable configuration: the theorem names the calls it
    starts from and evaluates the run.  In a run, [(i, n)] lets goroutine [i]
    take at most [n] steps; the calls come first, the goroutines they start
    after them in the order they are started. *)

From S2P Require Import Prelude.
From S2P Require Import EnginePacket.
From S2P Require Import Sched.
From S2P Require Import EngineTypes.
From S2P Require Import EngineOptions.
From S2P Require Import Polling.
From S2P Require Import Websocket.
From S2P Require Import EngineSocket.
From S2P Require Import EngineServer.
From S2P Require Import EngineDemo.

#[local] Open Scope nat_scope.

Definition start (calls : list (mprog dworld method_name unit)) : dconfig :=
  (NewServer None 0, Once <$> calls).

(** What has been told to the layer above. *)
Definition log_of (c : dconfig) : list up_event := uplog c.1.
Definition state_of (c : dconfig) : option readyState := es_readyState <$> (sks c.1 !! 0).
Definition frames_of (c : dconfig) : option (list (bool * bytes)) := outbox <$> (wconns c.1 !! 0).
Definition known (c : dconfig) : bool := bool_decide (is_Some (clients c.1 !! demo_sid)).

(** A session can be told closed twice, and connected after that: when the
    peer of a fresh WebSocket connection hangs up, the reading goroutine that
    [attach] started may close the session before [open] runs; [open] opens it
    again, the handshake packet cannot be written, and the session is closed a
    second time before the application hears of its connection. *)
Theorem reopened_session :
  ∃ c, reachable (start [OnConnect 0; OnClose 0; serve (get q_websocket); peer_acts 0 hang_up]) c ∧
    log_of c = [UpClose 0 "transport close" None;
                UpClose 0 "transport error" (Some (TransportError (ErrConn "closed")));
                UpConnect 0] ∧
    known c = false ∧ forallb finished (take 4 c.2) = true.
Proof.
  eexists. split; [apply (play_reachable [(0, 9); (1, 9); (2, 11); (3, 9); (4, 99); (2, 99)])|].
  split_and!; by vm_compute.
Qed.

(** The client's answer to two pings. *)
Definition two_pongs : request :=
  mkRequest "POST" (with_sid q_polling) "text/plain" (bytes_of "3" ++ separator :: bytes_of "3")
    None "client".

(** A probe that the client breaks off with any other packet aborts the
    upgrade twice, once for the packet and once for the end of the connection,
    and each time arms a ping timer.  Two heartbeats run from then on: two
    pings are sent, the client's two pongs stop the second timeout twice, and
    the first one closes a session whose client answered every ping. *)
Theorem aborted_upgrade_times_out :
  let calls := [OnClose 0; serve (get q_polling); serve (get (with_sid q_websocket));
                peer_acts 0 (feed [(false, bytes_of "2probe"); (false, bytes_of "6")]);
                serve (get (with_sid q_polling)); serve two_pongs] in
  ∃ c1 c2 c3, reachable (start calls) c1 ∧ reachable c1 c2 ∧ reachable c2 c3 ∧
    (tm_state <$> timers c1.1) = [Stopped; Stopped; Armed; Armed] ∧ state_of c1 = Some stateOpen ∧
    answer c2 2 = Some (Some 200%Z, string_of (bytes_of "2" ++ separator :: bytes_of "2"), true) ∧
    answer c2 3 = Some (Some 200%Z, "ok", true) ∧ log_of c2 = [] ∧
    log_of c3 = [UpClose 0 "ping timeout" (Some ErrHeartbeatTimeout)].
Proof.
  intros calls.
  exists (play [(0, 9); (1, 99); (2, 99); (3, 99); (9, 99)] (start calls)).
  exists (play [(11, 99); (12, 99); (4, 99); (5, 99)]
            (play [(0, 9); (1, 99); (2, 99); (3, 99); (9, 99)] (start calls))).
  exists (play [(13, 99)] (play [(11, 99); (12, 99); (4, 99); (5, 99)]
            (play [(0, 9); (1, 99); (2, 99); (3, 99); (9, 99)] (start calls)))).
  split_and!; try apply play_reachable; by vm_compute.
Qed.

(** A pong that arrives between the sending of its ping and the arming of
    the ping timeout does not stop that timeout: nothing does before the next
    ping, and with a timeout shorter than the interval (the default) the
    session is closed although the client has answered. *)
Theorem early_pong_times_out :
  let calls := [OnClose 0; serve (get q_websocket); peer_acts 0 (feed [(false, bytes_of "3")])] in
  ∃ c1 c2, reachable (start calls) c1 ∧ reachable c1 c2 ∧
    (inbox <$> wconns c1.1 !! 0) = Some [] ∧ state_of c1 = Some stateOpen ∧
    (λ t, (tm_dur t, tm_state t)) <$> timers c1.1
      = [((25 * Second)%Z, Fired); ((25 * Second)%Z, Armed); ((20 * Second)%Z, Armed)] ∧
    log_of c2 = [UpClose 0 "ping timeout" (Some ErrHeartbeatTimeout)].
Proof.
  intros calls.
  exists (play [(0, 9); (1, 99); (4, 10); (2, 9); (3, 99); (4, 99)] (start calls)).
  exists (play [(6, 99)] (play [(0, 9); (1, 99); (4, 10); (2, 9); (3, 99); (4, 99)] (start calls))).
  split_and!; try apply play_reachable; by vm_compute.
Qed.

(** An upgrade can reorder messages: [SendMessage] of A has returned, its
    packet left in the polling transport because the client broke off its
    poll; [onUpgrade] makes the WebSocket transport the session's before it
    has moved that packet, and a [SendMessage] of B in between is written
    first. *)
Theorem upgrade_reorders :
  let calls := [serve (get q_polling); SendMessage 0 (bytes_of "A") false;
                serve (get (with_sid q_polling)); serve (get (with_sid q_websocket));
                peer_acts 0 (feed [(false, bytes_of "2probe"); (false, bytes_of "5")]);
                request_cancelled 1; SendMessage 0 (bytes_of "B") false] in
  ∃ c1 c2, reachable (start calls) c1 ∧ reachable c1 c2 ∧
    (finished <$> (c1.2 !! 1)) = Some true ∧ (finished <$> (c1.2 !! 6)) = Some false ∧
    (sks c1.1 !! 0 ≫= λ k, Some (es_upgraded k)) = Some false ∧
    frames_of c2 = Some [(false, bytes_of "3probe"); (false, bytes_of "4B"); (false, bytes_of "4A")].
Proof.
  intros calls.
  exists (play [(0, 99); (2, 99); (1, 4); (3, 99); (5, 9); (9, 99); (1, 99); (4, 9)] (start calls)).
  exists (play [(11, 15); (6, 99); (11, 99)]
    (play [(0, 99); (2, 99); (1, 4); (3, 99); (5, 9); (9, 99); (1, 99); (4, 9)] (start calls))).
  split_and!; try apply play_reachable; by vm_compute.
Qed.
