(* ===== verification/EngineHandlers.v ===== *)
(** * EngineHandlers: what the operations of the Engine.IO server do

    The functional behaviour of the methods, run alone to their end: the
    verification of requests, the handshake, polls and posts, the heartbeat,
    closing, upgrading.  [ex n p w] runs [p] with named methods nested at most
    [n] deep. *)

From S2P Require Import Prelude.
From S2P Require Import EnginePacket.
From S2P Require Import Strconv.
From S2P Require Import AckTable.
From S2P Require Import Sched.
From S2P Require Import EngineTypes.
From S2P Require Import EngineOptions.
From S2P Require Import Polling.
From S2P Require Import Websocket.
From S2P Require Import EngineSocket.
From S2P Require Import EngineServer.
From S2P Require Import EngineDemo.

#[local] Opaque EncodePayload handshake_json.

Section Handlers.
Context {C U : Type} `{WS : !WebsocketConn C} (choose : nat → bool) (rand : nat → bytes).
Context (usr : user (C := C) (U := U)).
Abbreviation W := (world C U).
Abbreviation P := (mprog W method_name).
Implicit Types (w : W) (s : sockp) (x : exchp) (p : nat) (d : chanp) (r : request).

Abbreviation ex n q w :=
  (@exec W method_name (@calls W method_name (engine_methods choose usr) n) _ q w).

(** ** Verification of requests *)

Lemma enabled_spec o t : enabled o t = true ↔ t ∈ Transports o.
Proof.
  unfold enabled, transportsEnabled.
  assert (∀ l (m : gmap string bool), default false (foldl (λ m t, <[t := true]> m) m l !! t) = true
            ↔ t ∈ l ∨ default false (m !! t) = true) as Hfold.
  { intros l. induction l as [|t' l IH]; intros m; simpl; [set_solver|].
    rewrite IH. rewrite elem_of_cons. destruct (decide (t' = t)) as [->|Hne].
    - rewrite lookup_insert_eq. simpl. naive_solver.
    - rewrite lookup_insert_ne by done. naive_solver. }
  rewrite Hfold, lookup_empty. simpl. naive_solver.
Qed.

(** The transport of a session that is known. *)
Definition session_transport w (sid : string) : option tport :=
  s ← clients w !! sid; k ← sks w !! s; es_transport k.

Definition allowed (o : options) r : Prop :=
  match AllowRequest o with Some f => f r = None | None => True end.

(** The checks all requests pass first. *)
Definition protocol_ok w (q : list (string * string)) : Prop :=
  query_get q "EIO" = "4" ∧ query_get q "transport" ∈ Transports (opts w).

(** A WebSocket handshake that is not an upgrade request. *)
Definition plain_websocket (q : list (string * string)) (upgrade : bool) : Prop :=
  query_get q "transport" = "websocket" ∧ upgrade = false.

(** C24. [verify] changes nothing, always decides, and accepts exactly the
    requests of protocol 4 for an enabled transport that either start a
    session (a [GET] without a session id, allowed by [AllowRequest], and an
    upgrade request when it is for WebSocket) or name a session that has a
    transport (the one the request is for, unless it is an upgrade).  Each
    rejection has its own reason, in the order of the checks. *)
Theorem verify_decides n w r q upgrade :
  ∃ v, ex n (verify r q upgrade) w = Some (v, w, []) ∧
  (v = Reject ErrUnsupportedProtocol ↔ query_get q "EIO" ≠ "4") ∧
  (v = Reject ErrUnknownTransport ↔
     query_get q "EIO" = "4" ∧ query_get q "transport" ∉ Transports (opts w)) ∧
  (v = Reject ErrUnknownSID ↔
     protocol_ok w q ∧ query_get q "sid" ≠ "" ∧ clients w !! query_get q "sid" = None) ∧
  (v = Reject ErrBadHandshakeMethod ↔
     protocol_ok w q ∧ query_get q "sid" = "" ∧ rq_method r ≠ "GET") ∧
  (v = Reject ErrForbidden ↔
     protocol_ok w q ∧ query_get q "sid" = "" ∧ rq_method r = "GET" ∧ ¬ plain_websocket q upgrade
     ∧ ¬ allowed (opts w) r) ∧
  (v = Accept ↔
     protocol_ok w q ∧
     (query_get q "sid" = "" ∧ rq_method r = "GET" ∧ ¬ plain_websocket q upgrade
        ∧ allowed (opts w) r
      ∨ query_get q "sid" ≠ "" ∧ ∃ t, session_transport w (query_get q "sid") = Some t
        ∧ (upgrade = true ∨ transport_Name t = query_get q "transport"))).
Proof.
  unfold verify, protocol_ok, plain_websocket, allowed, session_transport. rewrite exec_bind, ex_gets.
  destruct (bool_decide_reflect (query_get q "EIO" = "4")) as [HE|HE]; cbn [negb].
  2: { eexists. split; [done|]. naive_solver. }
  destruct (enabled (opts w) (query_get q "transport")) eqn:Hen; cbn [negb].
  2: { assert (query_get q "transport" ∉ Transports (opts w)) as Hn.
       { intros Hin. apply enabled_spec in Hin. congruence. }
       eexists. split; [done|]. naive_solver. }
  apply enabled_spec in Hen.
  destruct (bool_decide_reflect (query_get q "sid" = "")) as [Hs|Hs]; cbn [negb].
  - destruct (bool_decide_reflect (rq_method r = "GET")) as [HG|HG]; cbn [negb].
    2: { eexists. split; [done|]. naive_solver. }
    destruct (bool_decide_reflect (query_get q "transport" = "websocket")) as [Hw|Hw], upgrade; cbn [negb andb].
    2: { eexists. split; [done|]. naive_solver. }
    all: eexists; split; [done|].
    all: destruct (AllowRequest (opts w)) as [f|]; [destruct (f r) eqn:Hf|]; naive_solver.
  - unfold find_client. rewrite exec_bind, ex_gets.
    destruct (clients w !! query_get q "sid") as [s|] eqn:Hc; simpl.
    2: { eexists. split; [done|]. naive_solver. }
    unfold sk_get. destruct (sks w !! s) as [k|] eqn:Hk; simpl.
    2: { eexists. split; [done|]. naive_solver. }
    destruct (es_transport k) as [t|] eqn:Ht; simpl.
    2: { eexists. split; [done|]. naive_solver. }
    eexists. split; [done|].
    destruct upgrade, (bool_decide_reflect (transport_Name t = query_get q "transport")); naive_solver.
Qed.

(** ** Requests that are refused *)

Lemma verify_exchs n w f r q upgrade v :
  ex n (verify r q upgrade) w = Some (v, w, []) →
  ex n (verify r q upgrade) (set_exchs f w) = Some (v, set_exchs f w, []).
Proof.
  unfold verify. rewrite !exec_bind, !ex_gets. cbn [opts set_exchs].
  destruct (negb _); [by intros [= <-]|]. destruct (negb _); [by intros [= <-]|].
  destruct (negb _).
  - unfold find_client. rewrite !exec_bind, !ex_gets. cbn [clients set_exchs].
    destruct (clients w !! _) as [s|]; [|by intros [= <-]]. unfold sk_get.
    rewrite !exec_bind, !ex_gets. cbn [sks set_exchs]. by intros [= <-].
  - destruct (negb _); [by intros [= <-]|]. destruct (_ && _); [by intros [= <-]|]. by intros [= <-].
Qed.

Lemma list_alter_insert {A} (f : A → A) i (l : list A) a :
  l !! i = Some a → alter f i l = <[i := f a]> l.
Proof.
  revert i. induction l as [|b l IH]; intros [|i] H; simplify_eq/=; [done|]. f_equal. by apply IH.
Qed.

Lemma list_insert_snoc {A} (l : list A) a b : <[length l := b]> (l ++ [a]) = l ++ [b].
Proof. induction l as [|c l IH]; [done|]. simpl. f_equal. apply IH. Qed.

Lemma insert_alter_snoc {A} (f : A → A) (l : list A) a b :
  alter f (length l) (<[length l := b]> (l ++ [a])) = l ++ [f b].
Proof. rewrite list_insert_snoc. apply alter_snoc. Qed.

(** The exchange of a request answered with [e] and over. *)
Definition refused r (code : Z) : exchange :=
  mkExchange r [("Content-Type", "application/json")] (Some (abort_status code))
    (abort_body code (errorMessages code)) false true false.

Lemma alter_new_exch (f : exchange → exchange) w e :
  upd_exch (length (exchs w)) f (set_exchs (λ l, l ++ [e]) w) = set_exchs (λ l, l ++ [f e]) w.
Proof. unfold upd_exch, set_exchs. simpl. by rewrite alter_snoc. Qed.

Definition arrived r w : W := set_exchs (λ l, l ++ [new_exchange r]) w.

(** Serving is serving the new exchange, which is over at the end. *)
Lemma ex_serve n w r w' ts :
  ex n (ServeHTTP choose rand usr (length (exchs w)) r) (arrived r w) = Some (tt, w', ts) →
  ex n (serve_request choose rand usr r) w
  = Some (tt, upd_exch (length (exchs w)) (set_x_over true) w', ts).
Proof.
  intros H. unfold serve_request. eapply (ex_first _ _ w (length (exchs w)) (arrived r w)); [done|].
  by eapply ex_last.
Qed.

Lemma ex_refused n w r code :
  ex n (ServeHTTP choose rand usr (length (exchs w)) r) (arrived r w)
    = ex n (abortRequest (length (exchs w)) code None) (arrived r w) →
  ex n (serve_request choose rand usr r) w
  = Some (tt, set_exchs (λ l, l ++ [refused r code]) w, []).
Proof.
  intros H. erewrite ex_serve; [|rewrite H; apply ex_update].
  unfold arrived. by rewrite !alter_new_exch.
Qed.

(** A request that [verify] rejects, or that names no transport, is answered with
    the error's code and message as JSON, with status 403 when it is forbidden
    and 400 otherwise, and nothing else changes. *)
Theorem rejected_request n w r :
  (∀ e, query_get (rq_query r) "transport" = "polling" ∧
          ex n (verify r (rq_query r) false) w = Some (Reject e, w, [])
        ∨ query_get (rq_query r) "transport" = "websocket" ∧
          ex n (verify r (rq_query r) true) w = Some (Reject e, w, []) →
     ex n (serve_request choose rand usr r) w
     = Some (tt, set_exchs (λ l, l ++ [refused r (errorCode e)]) w, [])) ∧
  (query_get (rq_query r) "transport" ∉ ["polling"; "websocket"] →
     ex n (serve_request choose rand usr r) w
     = Some (tt, set_exchs (λ l, l ++ [refused r ErrCodeUnknownTransport]) w, [])).
Proof.
  split.
  - intros e [[Ht Hv]|[Ht Hv]]; apply ex_refused; unfold ServeHTTP; rewrite Ht.
    + rewrite decide_True by done. unfold handlePolling. rewrite exec_bind.
      unfold arrived. by rewrite (verify_exchs n w _ _ _ _ _ Hv).
    + rewrite decide_False, decide_True by done. unfold handleWebsocket. rewrite exec_bind.
      unfold arrived. by rewrite (verify_exchs n w _ _ _ _ _ Hv).
  - intros Ht. apply ex_refused. unfold ServeHTTP. rewrite !decide_False; [done|set_solver..].
Qed.

(** A polling request for a session that has moved to WebSocket is refused
    as a bad request, and nothing else changes: a POST that was under way when
    the upgrade was confirmed loses its messages.  The routing of such requests
    to the retained polling transport is never reached by a request that runs
    alone. *)
Theorem late_post_refused n w r s k i :
  protocol_ok w (rq_query r) → query_get (rq_query r) "transport" = "polling" →
  query_get (rq_query r) "sid" ≠ "" → clients w !! query_get (rq_query r) "sid" = Some s →
  sks w !! s = Some k → es_transport k = Some (TWebsocket i) →
  ex n (serve_request choose rand usr r) w
  = Some (tt, set_exchs (λ l, l ++ [refused r ErrCodeBadRequest]) w, []).
Proof.
  intros [HE Hen] Ht Hsid Hc Hs Hk. apply ex_refused. unfold ServeHTTP. rewrite decide_True by done.
  unfold handlePolling. apply enabled_spec in Hen.
  assert (ex n (verify r (rq_query r) false) w = Some (Reject ErrBadRequest, w, [])) as Hv.
  { unfold verify. rewrite exec_bind, ex_gets, bool_decide_true, Hen, bool_decide_false by done. cbn [negb].
    unfold find_client, sk_get. rewrite exec_bind, ex_gets, Hc, exec_bind, ex_gets, Hs, Hk, Ht.
    by rewrite bool_decide_false by done. }
  rewrite exec_bind. unfold arrived. by rewrite (verify_exchs n w _ _ _ _ _ Hv).
Qed.

(** ** Polls and posts *)

(** Session [s] with the id [sid] is served by the polling transport [p],
    which nobody is closing. *)
Record polling_session w (sid : string) s p (ks : esocket) (kp : polling) : Prop := {
  ps_sid : sid ≠ "";
  ps_client : clients w !! sid = Some s;
  ps_sock : sks w !! s = Some ks;
  ps_transport : es_transport ks = Some (TPolling p);
  ps_poll : polls w !! p = Some kp;
  ps_handler : p_handler kp = Some (HBinding s (TPolling p));
  ps_closed : p_closed kp = false;
  ps_pendingClose : p_pendingClose kp = false
}.

(** A request for that session over polling. *)
Definition for_session w r (sid : string) : Prop :=
  protocol_ok w (rq_query r) ∧ query_get (rq_query r) "transport" = "polling"
  ∧ query_get (rq_query r) "sid" = sid.

Lemma session_arrived w sid s p ks kp r :
  polling_session w sid s p ks kp → polling_session (arrived r w) sid s p ks kp.
Proof. by intros []. Qed.

Lemma verify_session n w r q s k t :
  protocol_ok w q → query_get q "sid" ≠ "" → clients w !! query_get q "sid" = Some s →
  sks w !! s = Some k → es_transport k = Some t → transport_Name t = query_get q "transport" →
  ex n (verify r q false) w = Some (Accept, w, []).
Proof.
  intros [HE Hen] Hsid Hc Hs Ht Hname. apply enabled_spec in Hen. unfold verify.
  rewrite exec_bind, ex_gets, bool_decide_true, Hen, bool_decide_false by done. cbn [negb].
  unfold find_client, sk_get. rewrite exec_bind, ex_gets, Hc, exec_bind, ex_gets, Hs, Ht.
  by rewrite bool_decide_true.
Qed.

Lemma ex_for_session n w r sid s p ks kp w' ts :
  polling_session w sid s p ks kp → for_session w r sid →
  ex n (poll_ServeHTTP choose p (length (exchs w)) r) (arrived r w) = Some (tt, w', ts) →
  ex n (serve_request choose rand usr r) w
  = Some (tt, upd_exch (length (exchs w)) (set_x_over true) w', ts).
Proof.
  intros [H1 H2 H3 H4 H5 H6 H7 H8] (Hp & Ht & Hs) He. apply ex_serve. unfold ServeHTTP.
  rewrite decide_True by done. unfold handlePolling.
  eapply ex_first.
  { apply (verify_session _ _ _ _ s ks (TPolling p)); by rewrite ?Hs, ?Ht. }
  cbn beta iota. rewrite bool_decide_false by (by rewrite Hs).
  eapply ex_first; [apply ex_gets|]. rewrite Hs. cbn [clients arrived set_exchs]. rewrite H2.
  unfold serve_session, sk_get. eapply ex_first; [apply ex_gets|].
  cbn [sks arrived set_exchs]. by rewrite H3, H4.
Qed.

(** The world after [Send] has answered the poll of [x]. *)
Definition poll_answered p x d (payload : bytes) w : W :=
  set_chans <[d := mkChan (PollDone x) true]>
    (upd_exch x (use_writer (poll_response payload)) (upd_poll p take_poll w)).

Lemma ex_poll_Send n p pkts w kp x d :
  polls w !! p = Some kp → p_closed kp = false → p_pendingClose kp = false →
  p_res kp = Some x → p_pollDone kp = Some d → chans w !! d = Some (mkChan (PollDone x) false) →
  ex n (poll_Send p pkts) w = Some (tt, poll_answered p x d (EncodePayload pkts) w, []).
Proof.
  intros Hp Hc Hpc Hx Hd Hch. unfold poll_Send. eapply ex_first.
  { rewrite exec_atomic. unfold send_locked. by rewrite Hp, Hc, Hpc, Hx, Hd. }
  cbn [fst snd sg_res sg_done sg_pendingClose sg_encoded].
  eapply ex_first; [apply ex_update|]. eapply ex_first; [apply ex_update|].
  unfold close_chan. change (chans (upd_exch x _ _)) with (chans w). by rewrite Hch.
Qed.

Definition take_buffer (k : esocket) : esocket := set_es_sending true (set_es_writeBuffer [] k).

Lemma ex_flush n s p w ks kp x d :
  sks w !! s = Some ks → es_readyState ks ≠ stateClosed → es_sending ks = false →
  es_upgrading ks = false → es_transport ks = Some (TPolling p) → es_writeBuffer ks ≠ [] →
  polls w !! p = Some kp → p_writable kp = true → p_closed kp = false → p_pendingClose kp = false →
  p_res kp = Some x → p_pollDone kp = Some d → chans w !! d = Some (mkChan (PollDone x) false) →
  ex (S n) (flush s) w
  = Some (tt, upd_sk s (set_es_sending false)
                (poll_answered p x d (EncodePayload (es_writeBuffer ks)) (upd_sk s take_buffer w)), []).
Proof.
  intros Hs H1 H2 H3 H4 H5 Hp P1 P2 P3 P4 P5 Hd. unfold flush. eapply ex_first.
  { rewrite exec_atomic. unfold flush_locked.
    rewrite Hs, bool_decide_false, H2, H3, H4, bool_decide_false by done. cbn [orb tport_writable].
    by rewrite Hp, P1. }
  cbn [fst snd negb]. eapply ex_first.
  { apply ex_call. by apply (ex_poll_Send n p _ (upd_sk s take_buffer w) kp x d). }
  eapply ex_first; [apply exec_atomic|]. unfold reflush_locked.
  cbn [fst snd]. change (sks (poll_answered _ _ _ _ ?w0)) with (sks w0). unfold upd_sk at 1.
  cbn [sks set_sks]. rewrite list_lookup_alter_eq, Hs. cbn [fmap option_fmap option_map take_buffer set_es_sending set_es_writeBuffer es_writeBuffer es_readyState].
  rewrite (bool_decide_true ([] = [])) by done. by rewrite andb_false_r.
Qed.

(** A session that is not closed, not flushing and not being upgraded. *)
Definition idle (k : esocket) : Prop :=
  es_readyState k ≠ stateClosed ∧ es_sending k = false ∧ es_upgrading k = false.

(** What a poll leaves in the transport before anything is sent. *)
Definition park x d (k : polling) : polling :=
  set_p_sendBuffer (if p_closed k then p_sendBuffer k else [])
    (set_p_pollDone (Some d) (set_p_writable true (set_p_res (Some x) (set_p_req (Some x) k)))).

Definition parked p x w : W :=
  upd_poll p (park x (length (chans w))) (add_chan (PollDone x) w).2.

Lemma lookup_parked p x w kp :
  polls w !! p = Some kp → polls (parked p x w) !! p = Some (park x (length (chans w)) kp).
Proof. intros Hp. unfold parked, upd_poll. simpl. by rewrite list_lookup_alter_eq, Hp. Qed.

(** The session's buffer is written to the poll that just arrived. *)
Definition poll_flushed s p x d (buf : list Packet) w : W :=
  upd_sk s (set_es_sending false) (poll_answered p x d (EncodePayload buf) (upd_sk s take_buffer w)).

Lemma ex_park n p x w kp :
  polls w !! p = Some kp → p_req kp = None →
  ex n (atomic (park_poll p x)) w
  = Some (Some (length (chans w), p_handler kp, if p_closed kp then [] else p_sendBuffer kp),
          parked p x w, []).
Proof. intros Hp Hr. rewrite exec_atomic. unfold park_poll. by rewrite Hp, Hr. Qed.

Lemma ex_wait n x d w : chans w !! d = Some (mkChan (PollDone x) true) → ex n (wait_chan d) w = Some (tt, w, []).
Proof. intros Hd. apply ex_await. unfold is_closed. by rewrite Hd. Qed.

Lemma poll_answered_closed p x d payload w :
  is_Some (chans w !! d) →
  chans (poll_answered p x d payload w) !! d = Some (mkChan (PollDone x) true).
Proof. intros [c Hc]. unfold poll_answered. simpl. apply list_lookup_insert_eq. by eapply lookup_lt_Some. Qed.

(** Updating an exchange concerns the exchanges only. *)
Lemma upd_exch_fields x f w :
  sks (upd_exch x f w) = sks w ∧ polls (upd_exch x f w) = polls w ∧
  exchs (upd_exch x f w) = alter f x (exchs w) ∧ clients (upd_exch x f w) = clients w ∧
  uplog (upd_exch x f w) = uplog w ∧ timers (upd_exch x f w) = timers w ∧
  panicked (upd_exch x f w) = panicked w ∧ app (upd_exch x f w) = app w ∧
  rnd (upd_exch x f w) = rnd w.
Proof. by destruct w. Qed.

(** What the flush leaves alone. *)
Lemma flushed_fields s p x d buf w :
  let w' := poll_flushed s p x d buf w in
  clients w' = clients w ∧ uplog w' = uplog w ∧ timers w' = timers w ∧ panicked w' = panicked w ∧
  app w' = app w ∧ rnd w' = rnd w.
Proof. by destruct w. Qed.

(** The options stay as they are. *)
Lemma kept_opts s p x d buf f w :
  opts (upd_exch x f w) = opts w ∧ opts (poll_flushed s p x d buf w) = opts w ∧ opts (parked p x w) = opts w.
Proof. by destruct w. Qed.

(** What the flush leaves in the transport, in the session and in the
    exchange of the poll. *)
Lemma flushed_poll s p x d buf w kp :
  polls w !! p = Some kp → polls (poll_flushed s p x d buf w) !! p = Some (take_poll kp).
Proof.
  intros Hp. unfold poll_flushed, poll_answered. cbn [polls upd_sk set_sks set_chans upd_exch set_exchs].
  unfold upd_poll. cbn [polls set_polls]. rewrite list_lookup_alter_eq.
  change (polls (upd_sk s take_buffer w)) with (polls w). by rewrite Hp.
Qed.

Lemma flushed_sk s p x d buf w k :
  sks w !! s = Some k → es_sending k = false →
  sks (poll_flushed s p x d buf w) !! s = Some (set_es_writeBuffer [] k).
Proof.
  intros Hs Hk. unfold poll_flushed, poll_answered.
  change (sks (upd_sk s ?f (set_chans _ (upd_exch _ _ (upd_poll _ _ (upd_sk s ?g w))))))
    with (alter f s (alter g s (sks w))).
  rewrite !list_lookup_alter_eq, Hs. simpl. f_equal. unfold take_buffer. destruct k. simpl in *. by subst.
Qed.

Lemma flushed_exchs s p x d buf w e :
  exchs w !! x = Some e →
  exchs (poll_flushed s p x d buf w)
  = <[x := use_writer (poll_response (EncodePayload buf)) e]> (exchs w).
Proof.
  intros He. unfold poll_flushed, poll_answered.
  change (exchs (upd_sk _ _ (set_chans _ (upd_exch x ?f (upd_poll _ _ (upd_sk _ _ w))))))
    with (alter f x (exchs w)). by apply list_alter_insert.
Qed.

Lemma ex_onPollRequest n w sid s p ks kp x :
  polling_session w sid s p ks kp → idle ks → es_writeBuffer ks ≠ [] →
  p_req kp = None → p_sendBuffer kp = [] →
  let d := length (chans w) in
  ex (S (S n)) (onPollRequest choose p x) w
  = Some (tt, poll_flushed s p x d (es_writeBuffer ks) (parked p x w),
          [Once (watch_poll choose p x d (p_handler kp))]).
Proof.
  intros [_ _ Hs Ht Hp Hh Hc Hpc] (I1 & I2 & I3) Hbuf Hreq Hsb d. unfold onPollRequest.
  eapply ex_first; [by apply (ex_park _ p x w kp)|]. rewrite Hc, Hsb. fold d.
  eapply ex_seq; [done| |by rewrite app_nil_r]. rewrite Hh. cbn [on_handler].
  assert (chans (parked p x w) !! d = Some (mkChan (PollDone x) false)) as Hd by apply lookup_snoc.
  eapply ex_first.
  { apply ex_call. apply (ex_flush n s p (parked p x w) ks (park x d kp) x d); try done.
    by apply lookup_parked. }
  fold (poll_flushed s p x d (es_writeBuffer ks) (parked p x w)). rewrite decide_True by done.
  eapply ex_first; [apply ex_gets|].
  rewrite (flushed_poll s p x d _ _ (park x d kp)) by by apply lookup_parked.
  cbn [p_pendingClose take_poll park set_p_pollDone set_p_res set_p_req set_p_writable set_p_sendBuffer].
  rewrite Hpc. cbn [andb when]. eapply ex_first; [done|]. apply (ex_wait _ x).
  apply poll_answered_closed. by exists (mkChan (PollDone x) false).
Qed.

(** A poll that was answered with [payload]. *)
Definition delivered r (payload : bytes) : exchange :=
  mkExchange r [("Content-Type", "text/plain; charset=UTF-8"); ("Cache-Control", "no-store")]
    (Some 200) payload false true false.

(** A poll of a session that has packets waiting is answered at once with
    exactly these packets, in order, as one payload; the session's buffer is
    empty afterwards and the transport holds no request.  The only goroutine
    it leaves is the one that watches for the client's disappearance. *)
Theorem poll_delivers n w r sid s p ks kp :
  polling_session w sid s p ks kp → for_session w r sid → rq_method r = "GET" →
  idle ks → es_writeBuffer ks ≠ [] → p_req kp = None → p_sendBuffer kp = [] →
  ∃ w', ex (S (S n)) (serve_request choose rand usr r) w
        = Some (tt, w', [Once (watch_poll choose p (length (exchs w)) (length (chans w)) (p_handler kp))]) ∧
    exchs w' = exchs w ++ [delivered r (EncodePayload (es_writeBuffer ks))] ∧
    sks w' !! s = Some (set_es_writeBuffer [] ks) ∧
    polls w' !! p = Some (take_poll (park (length (exchs w)) (length (chans w)) kp)) ∧
    clients w' = clients w ∧ uplog w' = uplog w ∧ timers w' = timers w ∧ panicked w' = panicked w ∧
    app w' = app w ∧ opts w' = opts w.
Proof.
  intros Hps Hr HG Hidle Hbuf Hreq Hsb.
  eexists. split; [eapply ex_for_session; [done..|]|].
  { unfold poll_ServeHTTP. rewrite decide_True by done.
    by apply (ex_onPollRequest n (arrived r w) sid s p ks kp); [apply session_arrived|..]. }
  set (x := length (exchs w)). set (d := length (chans w)). destruct Hps, Hidle as (I1 & I2 & I3).
  change (length (chans (arrived r w))) with d.
  set (w0 := parked p x (arrived r w)).
  assert (exchs w0 !! x = Some (new_exchange r)) as Hx by apply lookup_snoc.
  assert (sks w0 !! s = Some ks) as Hs0 by exact ps_sock0.
  assert (polls w0 !! p = Some (park x d kp)) as Hp0 by by apply (lookup_parked p x (arrived r w)).
  assert (clients w0 = clients w ∧ uplog w0 = uplog w ∧ timers w0 = timers w ∧ panicked w0 = panicked w
    ∧ app w0 = app w ∧ opts w0 = opts w) as (E1 & E2 & E3 & E4 & E5 & E6) by done.
  assert (exchs w0 = exchs w ++ [new_exchange r]) as Ex by done. clearbody w0.
  destruct (upd_exch_fields x (set_x_over true) (poll_flushed s p x d (es_writeBuffer ks) w0))
    as (-> & -> & -> & -> & -> & -> & -> & -> & _).
  destruct (flushed_fields s p x d (es_writeBuffer ks) w0) as (-> & -> & -> & -> & -> & _).
  split_and!; try done.
  - rewrite (flushed_exchs s p x d _ w0 (new_exchange r)) by exact Hx. rewrite Ex.
    unfold x. by rewrite insert_alter_snoc.
  - by apply flushed_sk.
  - by apply flushed_poll.
Qed.

(** A data callback that always returns, having changed the application's
    state. *)
Definition data_effect (f : fn) (g : bytes → bool → U → U) : Prop :=
  ∀ n s data b w, ex n (u_data usr f s data b) w = Some (tt, set_app (g data b) w, []).

Definition handed s (g : bytes → bool → U → U) w (pk : Packet) : W :=
  set_app (g (Data pk) (IsBinary pk)) (set_uplog (λ l, l ++ [UpData s (Data pk) (IsBinary pk)]) w).

Lemma ex_onPacket_message n w s k f g pk t :
  sks w !! s = Some k → es_readyState k = stateOpen → es_onData k = Some f → data_effect f g →
  Type_of pk = Message →
  ex (S n) (call (MOnPacket (HBinding s t) pk)) w = Some (tt, handed s g w pk, []).
Proof.
  intros Hs Ho Hf Hg Ht. apply ex_call.
  change (ex n (onPacket usr s pk) w = Some (tt, handed s g w pk, [])). unfold onPacket. eapply ex_first.
  { rewrite exec_atomic. unfold packet_locked. by rewrite Hs, decide_True, Ht, Hf. }
  cbn [fst snd]. eapply ex_first; [apply ex_update|]. apply Hg.
Qed.

Lemma ex_packets n w s k f g t pkts :
  sks w !! s = Some k → es_readyState k = stateOpen → es_onData k = Some f → data_effect f g →
  Forall (λ pk, Type_of pk = Message) pkts →
  ex (S n) (for_each pkts (λ pk, on_handler (Some (HBinding s t)) (λ h, MOnPacket h pk))) w
  = Some (tt, foldl (handed s g) w pkts, []).
Proof.
  intros Hs Ho Hf Hg Hall. revert w Hs. induction Hall as [|pk pkts Ht Hall IH]; intros w Hs; [done|].
  cbn [for_each foldl]. eapply ex_first; [by eapply ex_onPacket_message|]. by apply IH.
Qed.

Lemma handed_fold s g w pkts :
  let w' := foldl (handed s g) w pkts in
  uplog w' = uplog w ++ ((λ pk, UpData s (Data pk) (IsBinary pk)) <$> pkts) ∧
  app w' = foldl (λ u pk, g (Data pk) (IsBinary pk) u) (app w) pkts ∧
  w' = set_app (λ _, app w') (set_uplog (λ _, uplog w') w).
Proof.
  revert w. induction pkts as [|pk pkts IH]; intros w; simpl; [by rewrite app_nil_r; destruct w|].
  destruct (IH (handed s g w pk)) as (H1 & H2 & H3). split_and!; [|done|].
  - rewrite H1. simpl. by rewrite <- app_assoc.
  - rewrite H3. by destruct w.
Qed.

Lemma read_whole mx r :
  0 ≤ mx < int64_max → rq_fails r = None → blen (rq_body r) ≤ mx → read_limited mx r = Ok (rq_body r).
Proof.
  intros Hmx Hf Hb. unfold read_limited. rewrite wrap64_small by (unfold int64_max in *; lia).
  rewrite Hf. destruct (Z.leb_spec (mx + 1) (blen (rq_body r))); [lia|done].
Qed.

Definition posted r : exchange :=
  mkExchange r [("Content-Type", "text/html"); ("Cache-Control", "no-store")] (Some 200)
    (bytes_of "ok") false true false.

(** A POST whose body is within the limit and decodes to messages hands
    them to the layer above, each once and in the payload's order, and is then
    answered with "ok"; nothing is sent and the transport accepts the next
    POST. *)
Theorem post_delivers n w r sid s p ks kp f g pkts :
  polling_session w sid s p ks kp → for_session w r sid → rq_method r = "POST" →
  es_readyState ks = stateOpen → es_onData ks = Some f → data_effect f g →
  p_dataReq kp = None → 0 ≤ p_maxBufferSize kp < int64_max →
  is_octet_stream r = false → rq_fails r = None → blen (rq_body r) ≤ p_maxBufferSize kp →
  DecodePayloadWithLimit (rq_body r) (p_maxBufferSize kp) = (pkts, None) →
  Forall (λ pk, Type_of pk = Message) pkts →
  ∃ w', ex (S n) (serve_request choose rand usr r) w = Some (tt, w', []) ∧
    uplog w' = uplog w ++ ((λ pk, UpData s (Data pk) (IsBinary pk)) <$> pkts) ∧
    app w' = foldl (λ u pk, g (Data pk) (IsBinary pk) u) (app w) pkts ∧
    exchs w' = exchs w ++ [posted r] ∧
    sks w' = sks w ∧ polls w' !! p = Some kp ∧ clients w' = clients w ∧ chans w' = chans w ∧ opts w' = opts w.
Proof.
  intros Hps Hr HP Ho Hf Hg Hdata Hmx Hoct Hfail Hlen Hdec Hall.
  set (x := length (exchs w)).
  set (w1 := upd_poll p (set_p_dataReq (Some x)) (arrived r w)).
  eexists. split; [eapply ex_for_session; [done..|]|].
  { destruct Hps. unfold poll_ServeHTTP. rewrite decide_False, decide_True by (rewrite HP; done).
    unfold onDataRequest. eapply ex_first.
    { rewrite exec_atomic. unfold data_locked. cbn [polls arrived set_exchs]. by rewrite ps_poll0, Hdata. }
    cbn [fst snd]. eapply ex_first; [|apply ex_update]. unfold data_body.
    rewrite Hoct, read_whole by done. destruct (Z.ltb_spec (p_maxBufferSize kp) (blen (rq_body r))); [lia|].
    rewrite Hdec, ps_handler0. eapply ex_first; [|apply ex_update].
    by apply (ex_packets n w1 s ks f g). }
  destruct (handed_fold s g w1 pkts) as (H1 & H2 & H3). rewrite H3. clear H3. destruct Hps.
  split_and!; try done.
  - unfold upd_exch. cbn [exchs upd_poll set_polls set_exchs set_app set_uplog w1 arrived].
    unfold x. by rewrite !alter_snoc.
  - cbn [polls upd_exch set_exchs]. unfold upd_poll. cbn [polls set_polls set_app set_uplog w1 upd_poll arrived set_exchs].
    change (polls (upd_exch _ _ (set_app _ (set_uplog _ w1)))) with (alter (set_p_dataReq (Some x)) p (polls w)).
    rewrite !list_lookup_alter_eq, ps_poll0. simpl. f_equal. destruct kp. simpl in *. by subst.
Qed.
End Handlers.

(** ** On concrete requests *)

Abbreviation dex n q w := (@exec dworld method_name (@calls dworld method_name demo_methods n) _ q w).

(** A client of an older protocol. *)
Definition old_client : request := get [("EIO", "3"); ("transport", "polling")].

Lemma rejected_request_witness :
  dex 0 (serve old_client) (NewServer None 0%nat)
  = Some (tt, set_exchs (λ l, l ++ [refused old_client 5]) (NewServer None 0%nat), []).
Proof.
  destruct (rejected_request choose rand echo 0 (NewServer None 0%nat) old_client) as [H _].
  apply (H ErrUnsupportedProtocol). left. split; reflexivity.
Defined.

(** A session after its handshake, with a message to send. *)
Definition waiting : dworld :=
  world_after [serve (get q_polling); SendMessage 0%nat (bytes_of "hi") false] [0; 1]%nat.

Lemma waiting_session :
  polling_session waiting demo_sid 0%nat 0%nat (first_sk waiting) (first_poll waiting).
Proof. split; vm_compute; done. Qed.

Lemma waiting_for r :
  query_get (rq_query r) "EIO" = "4" → query_get (rq_query r) "transport" = "polling" →
  query_get (rq_query r) "sid" = demo_sid → for_session waiting r demo_sid.
Proof. intros H1 H2 H3. split; [split; [done|rewrite H2; by left]|done]. Qed.

Lemma poll_delivers_witness :
  let r := get (with_sid q_polling) in
  ∃ w' ts, dex 2 (serve r) waiting = Some (tt, w', ts)
    ∧ exchs w' = exchs waiting ++ [delivered r (bytes_of "4hi")].
Proof.
  intros r.
  destruct (poll_delivers choose rand echo 0 waiting r demo_sid 0 0 (first_sk waiting)
              (first_poll waiting)) as (w' & H1 & H2 & _).
  - exact waiting_session.
  - by apply waiting_for.
  - reflexivity.
  - split_and!; vm_compute; done.
  - vm_compute. done.
  - vm_compute. reflexivity.
  - vm_compute. reflexivity.
  - exists w', [Once (watch_poll choose 0%nat (length (exchs waiting)) (length (chans waiting))
                        (p_handler (first_poll waiting)))].
    split; [exact H1|]. rewrite H2. vm_compute. reflexivity.
Defined.

(** An application that counts the bytes it is sent. *)
Definition count_data (data : bytes) (binary : bool) (u : nat) : nat := (u + length data)%nat.
Definition counting : user (C := pipe) (U := nat) :=
  mkUser (λ _ _, skip) (λ _ _ data b, update (set_app (count_data data b))) (λ _ _ _ _, skip).

Definition listening : dworld := world_after [OnData 0%nat; serve (get q_polling)] [0; 1]%nat.
Definition two_messages : request :=
  mkRequest "POST" (with_sid q_polling) "text/plain" (bytes_of "4abc" ++ separator :: bytes_of "4de")
    None "client".

Lemma post_delivers_witness :
  ∃ w', @exec dworld method_name (@calls dworld method_name (engine_methods choose counting) 1) _
          (serve_request choose rand counting two_messages) listening = Some (tt, w', []) ∧
    uplog w' = [UpData 0%nat (bytes_of "abc") false; UpData 0%nat (bytes_of "de") false] ∧
    app w' = 5%nat ∧ exchs w' = exchs listening ++ [posted two_messages].
Proof.
  destruct (post_delivers choose rand counting 0 listening two_messages demo_sid 0 0
    (first_sk listening) (first_poll listening) 0%nat count_data
    [mkPacket Message (bytes_of "abc") false; mkPacket Message (bytes_of "de") false])
    as (w' & H1 & H2 & H3 & H4 & _).
  - split; vm_compute; done.
  - split; [split; [reflexivity|by left]|split; reflexivity].
  - reflexivity.
  - vm_compute. reflexivity.
  - vm_compute. reflexivity.
  - intros n s data b w. reflexivity.
  - vm_compute. reflexivity.
  - vm_compute. split; done.
  - reflexivity.
  - reflexivity.
  - vm_compute. done.
  - vm_compute. reflexivity.
  - by repeat constructor.
  - exists w'. split; [exact H1|]. rewrite H2, H3, H4. split_and!; vm_compute; reflexivity.
Defined.

(** A session that has moved to WebSocket. *)
Definition moved : dworld :=
  world_after [serve (get q_polling); serve (get (with_sid q_websocket));
               peer_acts 0 (feed [(false, bytes_of "2probe"); (false, bytes_of "5")])] [0; 1; 2; 6]%nat.
Definition late_post : request := post (with_sid q_polling) "4lost".

Lemma late_post_refused_witness :
  dex 0 (serve late_post) moved
  = Some (tt, set_exchs (λ l, l ++ [refused late_post ErrCodeBadRequest]) moved, []).
Proof.
  apply (late_post_refused choose rand echo 0 moved late_post 0%nat (first_sk moved) 0%nat).
  - split; [reflexivity|by left].
  - reflexivity.
  - done.
  - vm_compute. reflexivity.
  - vm_compute. reflexivity.
  - vm_compute. reflexivity.
Defined.
