(* ===== verification/EngineSessions.v ===== *)
(** * EngineSessions: the life of a session of the Engine.IO server

    Continues EngineHandlers: opening, the heartbeat, closing and upgrading,
    run alone to their end. *)

From S2P Require Import Prelude.
From S2P Require Import EnginePacket.
From S2P Require Import Sched.
From S2P Require Import EngineTypes.
From S2P Require Import EngineOptions.
From S2P Require Import Polling.
From S2P Require Import Websocket.
From S2P Require Import EngineSocket.
From S2P Require Import EngineServer.
From S2P Require Import EngineDemo.
From S2P Require Import EngineInvariant.
From S2P Require Import EngineHandlers.

Lemma encode_open (data : bytes) : EncodePayload [mkPacket Open data false] = "0"%byte :: data.
Proof. done. Qed.

#[local] Opaque EncodePayload handshake_json.

Section Sessions.
Context {C U : Type} `{WS : !WebsocketConn C} (choose : nat → bool) (rand : nat → bytes).
Context (usr : user (C := C) (U := U)).
Abbreviation W := (world C U).
Abbreviation P := (mprog W method_name).
Implicit Types (w : W) (s : sockp) (x : exchp) (p : nat) (d : chanp) (r : request).

Abbreviation ex n q w :=
  (@exec W method_name (@calls W method_name (engine_methods choose usr) n) _ q w).

(** ** Closing *)

Definition disarmed (tm : timerp) w : Prop := ∀ t, timers w !! tm = Some t → tm_state t ≠ Armed.

Lemma disarmed_stop tm tm' w : disarmed tm w → disarmed tm (stop_timer tm' w).
Proof.
  intros H t. unfold stop_timer. simpl. destruct (decide (tm' = tm)) as [->|Hne].
  - rewrite list_lookup_alter_eq. destruct (timers w !! tm) as [t0|] eqn:Ht; [|done]. simpl.
    intros [= <-]. simpl. specialize (H t0 Ht). by destruct (tm_state t0).
  - rewrite list_lookup_alter_ne by done. apply H.
Qed.

Lemma stop_disarms tm w : disarmed tm (stop_timer tm w).
Proof.
  intros t. unfold stop_timer. simpl. rewrite list_lookup_alter_eq.
  destruct (timers w !! tm) as [t0|]; [|done]. intros [= <-]. simpl. by destruct (tm_state t0).
Qed.

Lemma disarmed_stop_opt tm o w : disarmed tm w → disarmed tm (stop_opt o w).
Proof. destruct o; [apply disarmed_stop|done]. Qed.

(** The transport [t] is closed for good. *)
Definition tport_closed (t : tport) w : Prop :=
  match t with
  | TPolling p => ∃ k, polls w !! p = Some k ∧ p_closed k = true ∧ p_res k = None
  | TWebsocket i => ∃ k, wss w !! i = Some k ∧ ws_closed k = true ∧ ws_cancelled k = true
  end.

(** A transport that session [s] can close: it is open, its events go to [s],
    and the channel of a poll it holds is open. *)
Definition closable (t : tport) s w : Prop :=
  match t with
  | TPolling p => ∃ k, polls w !! p = Some k ∧ p_closed k = false
      ∧ p_handler k = Some (HBinding s t)
      ∧ ∀ d, p_pollDone k = Some d → ∃ u, chans w !! d = Some (mkChan u false)
  | TWebsocket i => ∃ k, wss w !! i = Some k ∧ ws_closed k = false
  end.

(** What closing a transport leaves alone. *)
Record keeps_session w w' : Prop := {
  kx_sks : sks w' = sks w;
  kx_clients : clients w' = clients w;
  kx_uplog : uplog w' = uplog w;
  kx_cb : srv_onClose w' = srv_onClose w;
  kx_app : app w' = app w;
  kx_opts : opts w' = opts w;
  kx_panic : panicked w' = panicked w;
  kx_timers tm : disarmed tm w → disarmed tm w'
}.

Lemma ex_closed_event n w s k t :
  sks w !! s = Some k → es_readyState k = stateClosed →
  ex n (onCloseFrom usr s t) w = Some (tt, w, []).
Proof.
  intros Hs Hc. unfold onCloseFrom, is_active, sk_get. eapply ex_first; [apply ex_gets|].
  destruct (match sks w !! s with Some _ => _ | None => _ end); [|done]. simpl.
  unfold close_session. by rewrite Hs, decide_True.
Qed.

Definition keeps_websockets (t : tport) w w' : Prop :=
  match t with TPolling _ => wss w' = wss w ∧ wconns w' = wconns w | TWebsocket _ => True end.

(** [closeLocked] of a polling transport that is open. *)
Lemma closeLocked_closes p s w kp :
  polls w !! p = Some kp → p_closed kp = false → p_handler kp = Some (HBinding s (TPolling p)) →
  (∀ d, p_pollDone kp = Some d → ∃ u, chans w !! d = Some (mkChan u false)) →
  ∃ w', closeLocked p w = (Some (HBinding s (TPolling p)), w') ∧
    keeps_session w w' ∧ keeps_websockets (TPolling p) w w' ∧ tport_closed (TPolling p) w'.
Proof.
  intros Hp Hc Hh Hd. unfold closeLocked. rewrite Hp, Hc, Hh.
  set (w2 := stop_opt (p_closeTimer kp) (upd_poll p closed_poll w)).
  assert (polls w2 !! p = Some (closed_poll kp) ∧ chans w2 = chans w) as [Hp2 Hc2].
  { assert (polls (upd_poll p closed_poll w) !! p = Some (closed_poll kp))
      by (unfold upd_poll; cbn [polls set_polls]; by rewrite list_lookup_alter_eq, Hp).
    unfold w2. by destruct (p_closeTimer kp). }
  assert (keeps_session w w2 ∧ keeps_websockets (TPolling p) w w2) as [Hk Hkw].
  { unfold w2. destruct (p_closeTimer kp); (split; [split; try done|done]). intros. by apply disarmed_stop. }
  eexists. split; [done|]. destruct (p_pollDone kp) as [d|]; [|by split_and!; [..|exists (closed_poll kp)]].
  destruct (Hd d eq_refl) as [u Hu]. unfold close_chan. rewrite Hc2, Hu.
  split_and!; [destruct Hk; by split|done|by exists (closed_poll kp)].
Qed.

Lemma ex_poll_discarded n w s p :
  (∀ w', sks w' = sks w → ex n (onCloseFrom usr s (TPolling p)) w' = Some (tt, w', [])) →
  closable (TPolling p) s w →
  ∃ w', ex (S (S n)) (t_Discard (TPolling p) ≫= λ _, t_Close (TPolling p)) w = Some (tt, w', []) ∧
        keeps_session w w' ∧ keeps_websockets (TPolling p) w w' ∧ tport_closed (TPolling p) w'.
Proof.
  intros Hquiet (kp & Hp & Hc & Hh & Hd).
  set (kp1 := set_p_discarded true kp). set (w1 := upd_poll p (set_p_discarded true) w).
  assert (polls w1 !! p = Some kp1) as Hp1.
  { unfold w1, upd_poll. simpl. by rewrite list_lookup_alter_eq, Hp. }
  destruct (closeLocked_closes p s w1 kp1 Hp1 Hc Hh Hd) as (w2 & Hcl & Hk & Hkw & Htc).
  exists w2. split_and!; [|destruct Hk; by split|done..].
  eapply ex_first; [apply ex_update|]. apply ex_call.
  change (ex (S n) (poll_Close p) w1 = Some (tt, w2, [])). unfold poll_Close.
  eapply ex_first.
  { rewrite exec_atomic. unfold close_locked. rewrite Hp1. cbn [kp1 p_closed set_p_discarded p_discarded].
    by rewrite Hc. }
  cbn [fst snd]. unfold poll_notifyClose. eapply ex_first; [by rewrite exec_atomic, Hcl|].
  cbn [fst snd on_handler]. apply ex_call. apply Hquiet. apply Hk.
Qed.

Lemma ex_ws_discarded n w s i :
  closable (TWebsocket i) s w →
  ∃ w', ex (S (S n)) (t_Discard (TWebsocket i) ≫= λ _, t_Close (TWebsocket i)) w = Some (tt, w', []) ∧
        keeps_session w w' ∧ tport_closed (TWebsocket i) w'.
Proof.
  intros (k0 & Hi & Hc).
  set (k1 := set_ws_discarded true k0). set (w1 := upd_ws i (set_ws_discarded true) w).
  assert (wss w1 !! i = Some k1) as Hi1.
  { unfold w1, upd_ws. cbn [wss set_wss]. by rewrite list_lookup_alter_eq, Hi. }
  set (w2 := upd_ws i (set_ws_closed true) w1).
  assert (wss w2 !! i = Some (set_ws_closed true k1)) as Hi2.
  { unfold w2, upd_ws. cbn [wss set_wss]. by rewrite list_lookup_alter_eq, Hi1. }
  set (w3 := set_wconns (alter ws_close (ws_conn k1)) w2).
  exists (upd_ws i (set_ws_cancelled true) w3). split.
  { eapply ex_first; [apply ex_update|]. apply ex_call.
    change (ex (S n) (ws_Close i) w1 = Some (tt, upd_ws i (set_ws_cancelled true) w3, [])). unfold ws_Close.
    eapply ex_first; [apply exec_atomic|]. cbn [fst snd]. rewrite Hi1.
    change (ws_closed k1) with (ws_closed k0). rewrite Hc. cbn [negb when].
    eapply ex_first; [apply exec_atomic|]. cbn [fst snd]. fold w2. rewrite Hi2. done. }
  split; [by split|]. exists (set_ws_cancelled true (set_ws_closed true k1)).
  unfold upd_ws. cbn [wss set_wss]. change (wss w3) with (wss w2).
  by rewrite list_lookup_alter_eq, Hi2.
Qed.

Lemma ex_close_discarded n w s t :
  (∀ w', sks w' = sks w → ex n (onCloseFrom usr s t) w' = Some (tt, w', [])) → closable t s w →
  ∃ w', ex (S (S n)) (t_Discard t ≫= λ _, t_Close t) w = Some (tt, w', []) ∧
        keeps_session w w' ∧ keeps_websockets t w w' ∧ tport_closed t w'.
Proof.
  intros Hquiet Ht. destruct t as [p|i]; [exact (ex_poll_discarded n w s p Hquiet Ht)|].
  destruct (ex_ws_discarded n w s i Ht) as (w' & ? & ? & ?). by exists w'.
Qed.

(** The critical section of [closeWithReason], the first time. *)
Lemma close_session_marks w s k t :
  sks w !! s = Some k → es_readyState k ≠ stateClosed → es_transport k = Some t → closable t s w →
  ∃ w1, close_session s w = (true, Some t, w1) ∧
    keeps_session (upd_sk s (set_es_readyState stateClosed) w) w1 ∧ closable t s w1 ∧
    (∀ tm, es_pingIntervalTimer k = Some tm ∨ es_pingTimeoutTimer k = Some tm → disarmed tm w1) ∧
    sks w1 !! s = Some (set_es_readyState stateClosed k).
Proof.
  intros Hs Hst Ht Hcl. set (w0 := upd_sk s (set_es_readyState stateClosed) w).
  assert (sks w0 !! s = Some (set_es_readyState stateClosed k)) as Hs0
    by (unfold w0, upd_sk; simpl; by rewrite list_lookup_alter_eq, Hs).
  exists (stop_opt (es_pingTimeoutTimer k) (stop_opt (es_pingIntervalTimer k) w0)). split_and!.
  - unfold close_session. by rewrite Hs, decide_False, Ht.
  - destruct (es_pingTimeoutTimer k), (es_pingIntervalTimer k); split; try done; intros;
      repeat apply disarmed_stop; done.
  - by destruct (es_pingTimeoutTimer k), (es_pingIntervalTimer k), t.
  - intros tm [-> | ->]; [apply disarmed_stop_opt|]; apply stop_disarms.
  - by destruct (es_pingTimeoutTimer k), (es_pingIntervalTimer k).
Qed.

(** A close callback that always returns, having changed the application's
    state. *)
Definition close_effect (f : fn) (g : string → option cerror → U → U) : Prop :=
  ∀ n s reason err w, ex n (u_close usr f s reason err) w = Some (tt, set_app (g reason err) w, []).

(** C20. [closeWithReason] closes the session and its transport for good, stops
    the two heartbeat timers, forgets the session's id and tells the layer above
    once, with the reason; it does not depend on anybody else to finish.
    Calling it again does nothing. *)
Theorem close_session_once n w s k t f g reason err :
  sks w !! s = Some k → es_readyState k ≠ stateClosed → es_transport k = Some t → closable t s w →
  srv_onClose w = Some f → close_effect f g →
  ∃ w', ex (S (S n)) (closeWithReason usr s reason err) w = Some (tt, w', []) ∧
    sks w' !! s = Some (set_es_readyState stateClosed k) ∧
    tport_closed t w' ∧
    clients w' = delete (es_id k) (clients w) ∧
    uplog w' = uplog w ++ [UpClose s reason err] ∧
    app w' = g reason err (app w) ∧ panicked w' = panicked w ∧
    (∀ tm, es_pingIntervalTimer k = Some tm ∨ es_pingTimeoutTimer k = Some tm → disarmed tm w') ∧
    ∀ m reason' err', ex m (closeWithReason usr s reason' err') w' = Some (tt, w', []).
Proof.
  intros Hs Hst Ht Hcl Hf Hg. set (k1 := set_es_readyState stateClosed k).
  destruct (close_session_marks w s k t Hs Hst Ht Hcl) as (w1 & Hclose & Hk1 & Hcl1 & Hdis & Hs1).
  fold k1 in Hs1.
  destruct (ex_close_discarded n w1 s t) as (w2 & He2 & Hk2 & _ & Ht2); [|done|].
  { intros w' Hw'. eapply ex_closed_event; [by rewrite Hw'|done]. }
  set (w3 := set_clients (delete (es_id k)) w2).
  set (w4 := set_uplog (λ l, l ++ [UpClose s reason err]) w3).
  exists (set_app (g reason err) w4).
  assert (sks w2 = sks w1) as E1 by apply Hk2.
  assert (clients w2 = clients w) as E2 by (rewrite (kx_clients _ _ Hk2); apply Hk1).
  assert (uplog w2 = uplog w) as E3 by (rewrite (kx_uplog _ _ Hk2); apply Hk1).
  assert (srv_onClose w2 = Some f) as E4 by (rewrite (kx_cb _ _ Hk2), (kx_cb _ _ Hk1); done).
  split_and!.
  - unfold closeWithReason. eapply ex_first; [by rewrite exec_atomic, Hclose|].
    cbn [fst snd when]. eapply ex_first; [exact He2|]. unfold sock_onClose.
    eapply ex_first; [apply exec_atomic|]. cbn [fst snd]. rewrite E1, Hs1.
    change (es_id k1) with (es_id k). fold w3.
    eapply ex_first; [apply ex_gets|]. change (srv_onClose w3) with (srv_onClose w2). rewrite E4.
    eapply ex_first; [apply ex_update|]. apply Hg.
  - simpl. by rewrite E1.
  - by destruct t.
  - simpl. by rewrite E2.
  - simpl. by rewrite E3.
  - simpl. rewrite (kx_app _ _ Hk2), (kx_app _ _ Hk1). done.
  - simpl. rewrite (kx_panic _ _ Hk2), (kx_panic _ _ Hk1). done.
  - intros tm Htm. change (disarmed tm w2). apply Hk2. by apply Hdis.
  - intros m reason' err'. unfold closeWithReason. eapply ex_first.
    { rewrite exec_atomic. unfold close_session. simpl. by rewrite E1, Hs1. }
    done.
Qed.

(** ** Sending over a WebSocket connection *)

Lemma ex_conn_Write n w i k c c1 b data :
  wss w !! i = Some k → ws_cancelled k = false → wconns w !! ws_conn k = Some c →
  ws_write c false b data = Some (None, c1) →
  ex n (conn_Write i b data) w = Some (None, set_wconns <[ws_conn k := c1]> w, []).
Proof. intros Hi Hk Hc Hw. apply ex_await. by rewrite Hi, Hc, Hk, Hw. Qed.

Lemma ex_send_frames n w i k c c' pkts :
  wss w !! i = Some k → ws_cancelled k = false → wconns w !! ws_conn k = Some c →
  accepts c (frame_of <$> pkts) c' →
  ex n (send_frames i pkts) w = Some (true, set_wconns <[ws_conn k := c']> w, []).
Proof.
  intros Hi Hk. revert w c Hi. induction pkts as [|pk pkts IH]; intros w c Hi Hc Ha.
  - simpl in Ha. subst. simpl. do 2 f_equal. f_equal. unfold set_wconns. destruct w. simpl in *.
    f_equal. by rewrite list_insert_id.
  - destruct Ha as (c1 & Hw & Ha). cbn [send_frames]. eapply ex_first; [by eapply ex_conn_Write|].
    cbn beta iota. rewrite (IH _ c1); [|done| |done].
    + unfold set_wconns. simpl. by rewrite list_insert_insert_eq.
    + simpl. apply list_lookup_insert_eq. by eapply lookup_lt_Some.
Qed.

(** [flush] over an open WebSocket transport whose events go to the
    session. *)
Definition ws_flushed s i (kc : connp) (c' : C) w : W :=
  upd_sk s (set_es_sending false)
    (upd_ws i (set_ws_writable true) (set_wconns <[kc := c']> (upd_sk s take_buffer w))).

Lemma ex_flush_websocket n w s k i ki c c' :
  sks w !! s = Some k → idle k → es_transport k = Some (TWebsocket i) → es_writeBuffer k ≠ [] →
  wss w !! i = Some ki → ws_writable ki = true → ws_cancelled ki = false →
  ws_handler ki = Some (HBinding s (TWebsocket i)) → wconns w !! ws_conn ki = Some c →
  accepts c (frame_of <$> es_writeBuffer k) c' →
  ex (S (S n)) (flush s) w = Some (tt, ws_flushed s i (ws_conn ki) c' w, []).
Proof.
  intros Hs (I1 & I2 & I3) Ht Hb Hi Hw Hc Hh Hcn Ha. unfold flush. eapply ex_first.
  { rewrite exec_atomic. unfold flush_locked.
    rewrite Hs, bool_decide_false, I2, I3, Ht, bool_decide_false by done. cbn [orb tport_writable].
    by rewrite Hi, Hw. }
  cbn [fst snd negb]. set (w1 := upd_sk s take_buffer w).
  set (w2 := set_wconns <[ws_conn ki := c']> w1). set (w3 := upd_ws i (set_ws_writable true) w2).
  assert (sks w1 !! s = Some (take_buffer k)) as Hs1.
  { unfold w1, upd_sk. cbn [sks set_sks]. by rewrite list_lookup_alter_eq, Hs. }
  eapply (ex_first _ _ _ tt w3).
  { apply ex_call. change (ex (S n) (ws_Send i (es_writeBuffer k)) w1 = Some (tt, w3, [])).
    unfold ws_Send. destruct (es_writeBuffer k) as [|pk pkts] eqn:Hbuf; [done|]. rewrite <- Hbuf in Ha |- *.
    eapply ex_first; [by apply (ex_send_frames _ w1 i ki c c')|]. cbn [when]. fold w2.
    eapply ex_first; [apply exec_atomic|]. cbn [fst snd]. change (wss w2) with (wss w). rewrite Hi, Hh.
    fold w3. cbn [on_handler]. apply ex_call.
    change (ex n (flush s) w3 = Some (tt, w3, [])). unfold flush. eapply ex_first.
    { rewrite exec_atomic. unfold flush_locked. change (sks w3) with (sks w1). rewrite Hs1.
      cbn [take_buffer es_sending set_es_sending]. by rewrite orb_true_r. }
    done. }
  eapply ex_first; [apply exec_atomic|]. unfold reflush_locked. cbn [fst snd].
  change (sks w3) with (sks w1). rewrite Hs1. cbn [take_buffer set_es_sending set_es_writeBuffer es_writeBuffer].
  rewrite (bool_decide_true ([] = [])) by done. by rewrite andb_false_r.
Qed.

(** ** Upgrading *)

(** The upgrade of session [s] from the polling transport [p] to the WebSocket
    transport [i] is in progress, and no poll is pending. *)
Record upgrading w s p i (stop : chanp) (k : esocket) (kp : polling) (ki : websocket) : Prop := {
  ug_sock : sks w !! s = Some k;
  ug_open : es_readyState k = stateOpen;
  ug_idle : es_sending k = false;
  ug_transport : es_transport k = Some (TPolling p);
  ug_poll : polls w !! p = Some kp;
  ug_poll_open : p_closed kp = false;
  ug_poll_handler : p_handler kp = Some (HBinding s (TPolling p));
  ug_no_poll : p_pollDone kp = None;
  ug_ws : wss w !! i = Some ki;
  ug_writable : ws_writable ki = true;
  ug_live : ws_cancelled ki = false;
  ug_reading : ws_reading ki = true;
  ug_stop : chans w !! stop = Some (mkChan StopCheck false)
}.

(** The old transport is emptied and closed; its packets go before those of
    the session's own buffer. *)
Lemma ex_retire n w s p k kp t :
  sks w !! s = Some k → es_sending k = false → es_transport k = Some t → t ≠ TPolling p →
  polls w !! p = Some kp → p_closed kp = false →
  p_handler kp = Some (HBinding s (TPolling p)) → p_pollDone kp = None →
  ∃ w', ex (S (S n)) (retire_transport s (TPolling p)) w = Some (tt, w', []) ∧
    sks w' = <[s := set_es_writeBuffer (p_sendBuffer kp ++ es_writeBuffer k) k]> (sks w) ∧
    wss w' = wss w ∧ wconns w' = wconns w ∧ opts w' = opts w ∧ uplog w' = uplog w ∧ panicked w' = panicked w ∧
    tport_closed (TPolling p) w'.
Proof.
  intros Hs Hsend Ht Hne Hp Hc Hh Hd.
  set (w1 := upd_poll p (set_p_sendBuffer []) w).
  set (w2 := if bool_decide (p_sendBuffer kp = []) then w1
             else upd_sk s (λ k, set_es_writeBuffer (p_sendBuffer kp ++ es_writeBuffer k) k) w1).
  assert (sks w2 = <[s := set_es_writeBuffer (p_sendBuffer kp ++ es_writeBuffer k) k]> (sks w)) as Hs2.
  { unfold w2. case_bool_decide as Hb.
    - rewrite Hb. rewrite list_insert_id; [done|]. rewrite Hs. by destruct k.
    - rewrite (alter_sk s k); done. }
  assert (polls w2 !! p = Some (set_p_sendBuffer [] kp)) as Hp2.
  { unfold w2, w1, upd_poll. case_bool_decide; cbn [polls set_polls upd_sk set_sks];
      by rewrite list_lookup_alter_eq, Hp. }
  destruct (ex_close_discarded n w2 s (TPolling p)) as (w3 & He & Hk & [Hkw1 Hkw2] & Htc).
  - intros w' Hw'. unfold onCloseFrom, is_active, sk_get. eapply ex_first; [apply ex_gets|].
    rewrite Hw', Hs2, list_lookup_insert_eq by (by eapply lookup_lt_Some). simpl.
    rewrite Ht, bool_decide_false by congruence. done.
  - exists (set_p_sendBuffer [] kp). split_and!; [done..|]. intros d. simpl. by rewrite Hd.
  - exists w3. split.
    { unfold retire_transport. eapply ex_first; [|exact He].
      eapply ex_first; [apply ex_await; by rewrite Hs, Hsend|].
      unfold DrainBuffered. eapply ex_first; [apply exec_atomic|]. cbn [fst snd]. rewrite Hp. fold w1.
      unfold w2. by case_bool_decide. }
    assert (opts w2 = opts w ∧ uplog w2 = uplog w ∧ panicked w2 = panicked w ∧ wss w2 = wss w
            ∧ wconns w2 = wconns w) as (E1 & E2 & E3 & E4 & E5) by (unfold w2; by case_bool_decide).
    destruct Hk. split_and!; [congruence..|done].
Qed.

Lemma ex_flush_or_nothing n w s k i ki c c' :
  sks w !! s = Some k → idle k → es_transport k = Some (TWebsocket i) →
  wss w !! i = Some ki → ws_writable ki = true → ws_cancelled ki = false →
  ws_handler ki = Some (HBinding s (TWebsocket i)) → wconns w !! ws_conn ki = Some c →
  accepts c (frame_of <$> es_writeBuffer k) c' →
  ∃ w', ex (S (S (S n))) (call (MFlush s)) w = Some (tt, w', []) ∧
    sks w' !! s = Some (set_es_sending false (set_es_writeBuffer [] k)) ∧
    wconns w' !! ws_conn ki = Some c' ∧ polls w' = polls w ∧ opts w' = opts w ∧
    uplog w' = uplog w ∧ panicked w' = panicked w ∧ timers w' = timers w.
Proof.
  intros Hs Hidle Ht Hi Hw Hc Hh Hcn Ha. destruct (decide (es_writeBuffer k = [])) as [Hb|Hb].
  - exists w. rewrite Hb in Ha. simpl in Ha. subst c'. split_and!; try done.
    + apply ex_call. change (ex (S (S n)) (flush s) w = Some (tt, w, [])). unfold flush.
      eapply (ex_first _ _ _ None w); [|done]. rewrite exec_atomic. unfold flush_locked.
      destruct Hidle as (I1 & I2 & I3). rewrite Hs, bool_decide_false, I2, I3, Ht by done.
      by rewrite (bool_decide_true (es_writeBuffer k = [])).
    + destruct Hidle as (_ & I2 & _). rewrite Hs. f_equal. destruct k. simpl in *. by subst.
  - eexists. split; [apply ex_call; by eapply ex_flush_websocket|]. split_and!; try done.
    + unfold ws_flushed, upd_sk. cbn [sks set_sks upd_ws set_wss set_wconns].
      rewrite !list_lookup_alter_eq, Hs. done.
    + unfold ws_flushed. cbn [wconns upd_sk set_sks upd_ws set_wss set_wconns].
      apply list_lookup_insert_eq. by eapply lookup_lt_Some.
Qed.

(** The events of the WebSocket transport go to the session from now on. *)
Lemma ex_rebind n w s i ki :
  wss w !! i = Some ki → ws_reading ki = true →
  let w' := upd_ws i (set_ws_reading true) (upd_ws i (set_ws_handler (Some (HBinding s (TWebsocket i)))) w) in
  ex n (t_SetHandler (TWebsocket i) (HBinding s (TWebsocket i))) w = Some (tt, w', []) ∧
  wss w' !! i = Some (set_ws_reading true (set_ws_handler (Some (HBinding s (TWebsocket i))) ki)).
Proof.
  intros Hi Hr w'. split; unfold w', upd_ws; [|cbn [wss set_wss]; by rewrite !list_lookup_alter_eq, Hi].
  unfold t_SetHandler, ws_SetHandler. eapply ex_first; [apply ex_update|].
  eapply ex_first; [apply exec_atomic|]. unfold upd_ws. cbn [fst snd wss set_wss].
  rewrite list_lookup_alter_eq, Hi. cbn [fmap option_fmap option_map ws_reading set_ws_handler]. by rewrite Hr.
Qed.

(** The session, whose transport is the WebSocket one already, takes over what
    the polling transport had and writes it, then what it had itself. *)
Lemma ex_move_session n w s p k kp i ki c c' :
  sks w !! s = Some k → idle k → es_transport k = Some (TWebsocket i) →
  polls w !! p = Some kp → p_closed kp = false →
  p_handler kp = Some (HBinding s (TPolling p)) → p_pollDone kp = None →
  wss w !! i = Some ki → ws_writable ki = true → ws_cancelled ki = false → ws_reading ki = true →
  wconns w !! ws_conn ki = Some c → accepts c (frame_of <$> (p_sendBuffer kp ++ es_writeBuffer k)) c' →
  ∃ w',
    (∀ (q : P unit) w'' ts, ex (S (S (S n))) q w' = Some (tt, w'', ts) →
       ex (S (S (S n))) (retire_transport s (TPolling p) ≫= λ _,
                         update (upd_sk s (set_es_binding (Some (HBinding s (TWebsocket i))))) ≫= λ _,
                         t_SetHandler (TWebsocket i) (HBinding s (TWebsocket i)) ≫= λ _,
                         call (MFlush s) ≫= λ _, q) w = Some (tt, w'', ts)) ∧
    sks w' !! s = Some (set_es_sending false (set_es_writeBuffer []
                          (set_es_binding (Some (HBinding s (TWebsocket i))) k))) ∧
    wconns w' !! ws_conn ki = Some c' ∧ tport_closed (TPolling p) w' ∧
    opts w' = opts w ∧ uplog w' = uplog w ∧ panicked w' = panicked w.
Proof.
  intros Hs Hidle Ht Hp Hpc Hph Hpd Hi Hw Hl Hr Hcn Ha.
  destruct (ex_retire (S n) w s p k kp (TWebsocket i)) as (w4 & He4 & Hs4 & Hw4 & Hc4 & Ho4 & Hu4 & Hp4 & Ht4);
    try done; [by destruct Hidle as (_ & ? & _)|].
  set (w5 := upd_sk s (set_es_binding (Some (HBinding s (TWebsocket i)))) w4).
  set (k5 := set_es_binding (Some (HBinding s (TWebsocket i)))
               (set_es_writeBuffer (p_sendBuffer kp ++ es_writeBuffer k) k)).
  assert (sks w5 !! s = Some k5) as Hs5.
  { unfold w5, upd_sk. cbn [sks set_sks]. rewrite list_lookup_alter_eq, Hs4.
    by rewrite list_lookup_insert_eq by (by eapply lookup_lt_Some). }
  destruct (ex_rebind (S (S (S n))) w5 s i ki) as [He7 Hi7]; [by change (wss w5) with (wss w4); rewrite Hw4|done|].
  set (w7 := upd_ws i _ _) in He7, Hi7.
  destruct (ex_flush_or_nothing n w7 s k5 i _ c c' Hs5 Hidle Ht Hi7 Hw Hl eq_refl) as
    (w8 & He8 & Hs8 & Hc8 & Hp8 & Ho8 & Hu8 & Hn8 & _); [|done|].
  { change (wconns w7) with (wconns w4). by rewrite Hc4. }
  exists w8. split_and!.
  - intros q w'' ts Hq. eapply ex_first; [exact He4|]. eapply ex_first; [apply ex_update|].
    eapply ex_first; [exact He7|]. eapply ex_first; [exact He8|exact Hq].
  - exact Hs8.
  - exact Hc8.
  - unfold tport_closed. rewrite Hp8. exact Ht4.
  - rewrite Ho8. exact Ho4.
  - rewrite Hu8. exact Hu4.
  - rewrite Hn8. exact Hp4.
Qed.

(** C18. Confirming an upgrade moves the session to the WebSocket transport
    without losing or reordering anything: when nothing else runs, the packets
    left in the polling transport and then those buffered by the session are
    written to the connection, each as one frame, in order; the polling
    transport is closed, and the layer above hears nothing; the heartbeat goes
    on with a fresh timer. *)
Theorem upgrade_moves n w s p i tm stop k kp ki c c' :
  upgrading w s p i stop k kp ki → wconns w !! ws_conn ki = Some c →
  accepts c (frame_of <$> (p_sendBuffer kp ++ es_writeBuffer k)) c' →
  ∃ w' t, ex (S (S (S n))) (onUpgrade s (TWebsocket i) tm stop) w = Some (tt, w', [t]) ∧
    wconns w' !! ws_conn ki = Some c' ∧
    (∃ k', sks w' !! s = Some k' ∧ es_id k' = es_id k ∧ es_readyState k' = stateOpen ∧
       es_transport k' = Some (TWebsocket i) ∧ es_upgraded k' = true ∧ es_upgrading k' = false ∧
       es_writeBuffer k' = [] ∧ es_sending k' = false ∧
       ∃ tm', es_pingIntervalTimer k' = Some tm' ∧
              timers w' !! tm' = Some (mkTimer (PingInterval (opts w)) Armed)) ∧
    tport_closed (TPolling p) w' ∧ uplog w' = uplog w ∧ panicked w' = panicked w.
Proof.
  intros [] Hcn Ha.
  set (w1 := stop_timer tm w).
  set (w2 := set_chans <[stop := mkChan StopCheck true]> w1).
  set (k3 := set_es_transport (Some (TWebsocket i)) (set_es_upgraded true (set_es_upgrading false k))).
  set (w3 := upd_sk s (λ k, set_es_transport (Some (TWebsocket i)) (set_es_upgraded true (set_es_upgrading false k))) w2).
  assert (sks w3 !! s = Some k3) as Hs3.
  { unfold w3, upd_sk. cbn [sks set_sks]. rewrite list_lookup_alter_eq. change (sks w2) with (sks w).
    by rewrite ug_sock0. }
  destruct (ex_move_session n w3 s p k3 kp i ki c c') as (w8 & He & Hs8 & Hc8 & Ht8 & Ho8 & Hu8 & Hn8); try done.
  { split_and!; simpl; [by rewrite ug_open0|done..]. }
  set (tm' := length (timers w8)).
  exists (upd_sk s (set_es_pingIntervalTimer (Some tm')) (set_timers (λ l, l ++ [mkTimer (PingInterval (opts w8)) Armed]) w8)).
  eexists. split_and!; [|exact Hc8| |exact Ht8|exact Hu8|exact Hn8].
  - unfold onUpgrade. eapply ex_first; [apply ex_update|]. fold w1.
    eapply ex_first.
    { unfold stopCheckFn. rewrite ex_update. unfold is_closed, close_chan.
      change (chans w1) with (chans w). by rewrite ug_stop0. }
    cbn [ch_closed]. fold w2. eapply ex_first.
    { rewrite exec_atomic. unfold switch_locked. change (sks w2) with (sks w).
      by rewrite ug_sock0, decide_False, ug_transport0 by (by rewrite ug_open0). }
    cbn [fst snd]. fold w3. apply He. eapply ex_first.
    { rewrite exec_atomic. unfold rearm_if_open. rewrite Hs8, decide_True; [done|]. by simpl. }
    cbn [fst snd run_rearmed]. done.
  - eexists. split.
    { unfold upd_sk. cbn [sks set_sks set_timers]. rewrite list_lookup_alter_eq, Hs8. done. }
    split_and!; try done. exists tm'. split; [done|]. cbn [timers upd_sk set_sks set_timers].
    rewrite Ho8. by apply lookup_snoc.
Qed.

(** ** The handshake *)

Definition connect_effect (f : fn) (g : sockp → U → U) : Prop :=
  ∀ n s w, ex n (u_connect usr f s) w = Some (tt, set_app (g s) w, []).

(** A fresh session over a fresh polling transport: the handshake packet is in
    its buffer, and its ping timer is armed. *)
Definition opened_socket (id addr : string) s p (tm : timerp) (data : bytes) (f : option fn) : esocket :=
  mkESocket id addr stateOpen (Some (TPolling p)) (Some (TPolling p)) (Some (HBinding s (TPolling p)))
    [mkPacket Open data false] false false false (Some tm) None f.
Definition opened_polling s p (mx : Z) : polling :=
  mkPolling (Some (HBinding s (TPolling p))) None None None None false [] false false false None mx.

Definition ping_timer (tm : timerp) s : thread W method_name :=
  Once (await (fire tm) ≫= λ _, call (MPing s)).

Section Handshake.
Context (w : W) (r : request) (mx : Z) (f : fn) (g : sockp → U → U).
Abbreviation p := (length (polls w)).
Abbreviation s := (length (sks w)).
Abbreviation tm := (length (timers w)).
Abbreviation id := (session_id rand (opts w) r (rnd w)).
Abbreviation data := (handshake_json id (upgradesFor (opts w) "polling") (opts w)).

(** The world in which the session [k] over the transport [kp] is being set
    up. *)
Definition stage (cl : gmap string sockp → gmap string sockp) (tf : list timer → list timer)
  (k : esocket) (kp : polling) : W :=
  set_timers tf (set_polls (λ l, l ++ [kp])
    (set_clients cl (set_sks (λ l, l ++ [k]) (set_rnd (S (rnd w)) w)))).

Lemma stage_upd_sk cl tf k kp h : upd_sk s h (stage cl tf k kp) = stage cl tf (h k) kp.
Proof. unfold upd_sk, stage, set_sks. simpl. by rewrite alter_snoc. Qed.

Lemma stage_upd_poll cl tf k kp h : upd_poll p h (stage cl tf k kp) = stage cl tf k (h kp).
Proof. unfold upd_poll, stage, set_polls. simpl. by rewrite alter_snoc. Qed.

Lemma stage_sk cl tf k kp : sks (stage cl tf k kp) !! s = Some k.
Proof. apply lookup_snoc. Qed.

Lemma stage_poll cl tf k kp : polls (stage cl tf k kp) !! p = Some kp.
Proof. apply lookup_snoc. Qed.

Lemma ex_open_stage n cl k kp :
  es_transport k = Some (TPolling p) → es_id k = id → p_writable kp = false →
  ex n (open s) (stage cl (λ l, l) k kp)
  = Some (tt, stage cl (λ l, l ++ [mkTimer (PingInterval (opts w)) Armed])
                (set_es_pingIntervalTimer (Some tm)
                   (set_es_writeBuffer (es_writeBuffer k ++ [mkPacket Open data false])
                      (set_es_readyState stateOpen k))) kp,
          [ping_timer tm s]).
Proof.
  intros Ht Hid Hw. unfold open. eapply ex_first; [apply ex_update|]. rewrite stage_upd_sk.
  eapply (ex_first _ _ _ data).
  { unfold openPacketData, sk_get. eapply ex_first; [apply ex_gets|].
    rewrite ex_gets, !stage_sk. cbn [es_transport es_id set_es_readyState]. by rewrite Ht, Hid. }
  eapply ex_first.
  { unfold sendPacket. eapply ex_first.
    { rewrite exec_atomic. unfold push_locked. rewrite stage_sk, stage_upd_sk.
      rewrite !bool_decide_false by done. cbn [orb es_transport set_es_readyState]. by rewrite Ht. }
    cbn [fst snd]. eapply ex_first; [apply ex_gets|]. cbn [tport_writable].
    rewrite stage_poll, Hw. done. }
  unfold schedulePing. eapply ex_first.
  { rewrite exec_atomic. unfold arm_ping, add_timer. done. }
  cbn [fst snd]. change (set_timers ?h (stage ?c _ ?k0 ?kp0)) with (stage c h k0 kp0).
  rewrite stage_upd_sk. done.
Qed.

Definition opened : W :=
  set_app (g s) (set_uplog (λ l, l ++ [UpConnect s])
    (stage <[id := s]> (λ l, l ++ [mkTimer (PingInterval (opts w)) Armed])
      (opened_socket id (rq_addr r) s p tm data (srv_onData w)) (opened_polling s p mx))).

Lemma opened_opts x : opts (parked p x opened) = opts w.
Proof. unfold parked, opened, stage. reflexivity. Qed.

Lemma ex_createSocket n :
  srv_onConnect w = Some f → connect_effect f g →
  ex n (createSocket rand usr r (TPolling p))
    (set_polls (λ l, l ++ [set_p_maxBufferSize mx new_polling]) w)
  = Some (s, opened, [ping_timer tm s]).
Proof.
  intros Hf Hg. unfold createSocket.
  eapply ex_first; [apply exec_atomic|]. cbn [fst snd opts rnd set_polls].
  eapply ex_first; [apply exec_atomic|]. cbn [fst snd sks srv_onData set_polls set_rnd].
  change (set_sks ?h _) with (stage (λ m, m) (λ l, l) (new_socket id (rq_addr r) (srv_onData w))
    (set_p_maxBufferSize mx new_polling)).
  eapply ex_first; [apply ex_update|].
  change (set_clients ?h (stage _ ?tf ?k ?kp)) with (stage h tf k kp).
  eapply ex_first.
  { unfold attach. eapply ex_first; [apply ex_update|]. rewrite stage_upd_sk.
    cbn [t_SetHandler]. unfold poll_SetHandler. by rewrite ex_update, stage_upd_poll. }
  eapply ex_seq; [by apply ex_open_stage| |by rewrite app_nil_r].
  eapply ex_first; [apply ex_gets|]. change (srv_onConnect (stage _ _ _ _)) with (srv_onConnect w).
  rewrite Hf. eapply ex_first; [|done]. eapply ex_first; [apply ex_update|]. apply Hg.
Qed.

Lemma ex_handshake n x :
  srv_onConnect w = Some f → connect_effect f g → mx = MaxHTTPBufferSize (opts w) →
  id ≠ "" → rq_method r = "GET" →
  ex (S (S n)) (handshake choose rand usr x r) w
  = Some (tt, poll_flushed s p x (length (chans w)) [mkPacket Open data false] (parked p x opened),
          [ping_timer tm s; Once (watch_poll choose p x (length (chans w)) (Some (HBinding s (TPolling p))))]).
Proof.
  intros Hf Hg Hmx Hid HG. unfold handshake.
  eapply ex_first; [apply exec_atomic|]. cbn [fst snd].
  eapply ex_first; [apply ex_gets|]. cbn [opts set_polls].
  eapply ex_first.
  { unfold poll_SetMaxBufferSize. rewrite ex_update. unfold upd_poll, set_polls. simpl.
    by rewrite alter_snoc, <- Hmx. }
  eapply ex_seq; [by apply ex_createSocket| |done].
  unfold poll_ServeHTTP. rewrite decide_True by done.
  apply (ex_onPollRequest choose usr n opened id s p
    (opened_socket id (rq_addr r) s p tm data (srv_onData w)) (opened_polling s p mx)); try done.
  split; try done; [apply lookup_insert_eq|apply stage_sk|apply stage_poll].
Qed.
End Handshake.

(** ** The heartbeat *)

Definition ping_packet : Packet := mkPacket Ping [] false.

(** How packets that are sent leave the session: later, because the transport
    is not writable or another goroutine is flushing; as the answer of the poll
    that is parked, exchange [x]; or over a WebSocket, whose connection is then
    [c']. *)
Inductive way := Later | ByPoll (p : nat) (x : exchp) (d : chanp) | ByWebsocket (i : nat) (c' : C).

Definition way_open w s (k : esocket) (pks : list Packet) (y : way) : Prop :=
  match y with
  | Later => ∃ t, es_transport k = Some t ∧ (tport_writable t w = false ∨ es_sending k = true)
  | ByPoll p x d =>
      es_transport k = Some (TPolling p) ∧ es_sending k = false ∧
      ∃ kp, polls w !! p = Some kp ∧ p_writable kp = true ∧ p_closed kp = false ∧ p_pendingClose kp = false ∧
        p_res kp = Some x ∧ p_pollDone kp = Some d ∧ chans w !! d = Some (mkChan (PollDone x) false)
  | ByWebsocket i c' =>
      es_transport k = Some (TWebsocket i) ∧ es_sending k = false ∧
      ∃ ki c, wss w !! i = Some ki ∧ ws_writable ki = true ∧ ws_cancelled ki = false ∧
        ws_handler ki = Some (HBinding s (TWebsocket i)) ∧ wconns w !! ws_conn ki = Some c ∧
        accepts c (frame_of <$> pks) c'
  end.

Definition still_buffered (pks : list Packet) (y : way) : list Packet :=
  match y with Later => pks | _ => [] end.

(** What the peer has of them. *)
Definition departed w w' (pks : list Packet) (y : way) : Prop :=
  match y with
  | Later => exchs w' = exchs w ∧ wconns w' = wconns w
  | ByPoll p x d =>
      exchs w' = alter (use_writer (poll_response (EncodePayload pks))) x (exchs w) ∧ wconns w' = wconns w
      ∧ is_closed d w' = true
  | ByWebsocket i c' =>
      exchs w' = exchs w ∧ ∃ ki, wss w !! i = Some ki ∧ wconns w' = <[ws_conn ki := c']> (wconns w)
  end.

(** What sending leaves alone. *)
Definition beside w w' : Prop :=
  timers w' = timers w ∧ opts w' = opts w ∧ uplog w' = uplog w ∧ clients w' = clients w ∧ panicked w' = panicked w.

Lemma ex_push_packet n w s k ty data b y :
  let pks := es_writeBuffer k ++ [mkPacket ty data b] in
  sks w !! s = Some k → es_readyState k = stateOpen → es_upgrading k = false → way_open w s k pks y →
  ∃ w1, ex (S (S (S n))) (sendPacket s ty data b) w = Some (tt, w1, []) ∧
    sks w1 !! s = Some (set_es_writeBuffer (still_buffered pks y) k) ∧ departed w w1 pks y ∧ beside w w1.
Proof.
  intros pks Hs Ho Hu Hr. set (k0 := set_es_writeBuffer pks k). set (w0 := upd_sk s (set_es_writeBuffer pks) w).
  assert (sks w0 !! s = Some k0) as Hs0 by (unfold w0; simpl; by rewrite list_lookup_alter_eq, Hs).
  assert (pks ≠ []) as Hne by (unfold pks; by destruct (es_writeBuffer k)).
  assert (∀ t w1, es_transport k = Some t →
    ex (S (S (S n))) (when (tport_writable t w) (call (MFlush s))) w0 = Some (tt, w1, []) →
    ex (S (S (S n))) (sendPacket s ty data b) w = Some (tt, w1, [])) as Hpush.
  { intros t w1 Ht Hq. unfold sendPacket. rewrite exec_bind, exec_atomic. unfold push_locked.
    rewrite Hs, Ho, !bool_decide_false, Ht by done. cbn [orb fst snd]. fold pks. fold w0.
    unfold t_Writable. rewrite exec_bind, ex_gets. change (tport_writable t w0) with (tport_writable t w).
    cbn beta iota. by rewrite Hq. }
  destruct y as [|p x d|i c'].
  - destruct Hr as (t & Ht & Hr). exists w0. split_and!; try done. apply (Hpush t); [done|].
    destruct Hr as [->|Hsd]; [done|]. destruct (tport_writable t w); [|done]. apply ex_call.
    change (ex (S (S n)) (flush s) w0 = Some (tt, w0, [])). unfold flush.
    rewrite exec_bind, exec_atomic. unfold flush_locked. rewrite Hs0.
    cbn [k0 es_sending set_es_writeBuffer]. by rewrite Hsd, orb_true_r.
  - destruct Hr as (Ht & Hsd & kp & Hp & P1 & P2 & P3 & P4 & P5 & Hd).
    exists (poll_flushed s p x d pks w0). split_and!; try done.
    + apply (Hpush (TPolling p)); [done|]. cbn [tport_writable]. rewrite Hp, P1. apply ex_call.
      apply (ex_flush choose usr (S n) s p w0 k0 kp x d); try done. change (es_readyState k0) with (es_readyState k).
      by rewrite Ho.
    + by rewrite (flushed_sk s p x d pks w0 k0).
    + cbn. split_and!; [|done|].
      * by rewrite <- (proj1 (proj2 (proj2 (upd_exch_fields x (use_writer (poll_response (EncodePayload pks))) w)))).
      * unfold is_closed. pose proof (poll_answered_closed p x d (EncodePayload pks) (upd_sk s take_buffer w0)) as Hcl.
        unfold poll_flushed. change (chans (upd_sk s ?f ?w9)) with (chans w9).
        rewrite Hcl by by eexists. done.
  - destruct Hr as (Ht & Hsd & ki & c & Hi & W1 & W2 & W3 & Hc & Ha).
    exists (ws_flushed s i (ws_conn ki) c' w0). split_and!; try done.
    + apply (Hpush (TWebsocket i)); [done|]. cbn [tport_writable]. rewrite Hi, W1. apply ex_call.
      apply (ex_flush_websocket n w0 s k0 i ki c c'); try done.
      split; [|done]. change (es_readyState k0) with (es_readyState k). by rewrite Ho.
    + unfold ws_flushed. simpl. rewrite !list_lookup_alter_eq, Hs. simpl. f_equal. unfold take_buffer.
      destruct k. simpl in *. by subst.
    + cbn. split; [done|]. by exists ki.
Qed.

(** The session [k] after a ping with the timeout [tmo] was sent; [buf] is
    what is still in its buffer. *)
Definition pinged (tmo : timerp) (buf : list Packet) (k : esocket) : esocket :=
  set_es_pingTimeoutTimer (Some tmo) (set_es_writeBuffer buf k).

(** The ping timer fires. *)
Lemma ex_ping n w s k y tm dur :
  let pks := es_writeBuffer k ++ [ping_packet] in
  sks w !! s = Some k → es_readyState k = stateOpen → es_upgrading k = false → way_open w s k pks y →
  timers w !! tm = Some (mkTimer dur Armed) →
  let tmo := length (timers w) in
  ∃ w1,
    ex (S (S (S (S n)))) (await (fire tm) ≫= λ _, call (MPing s)) w
    = Some (tt, w1, [Once (await (fire tmo) ≫= λ _, pingTimeoutHandler usr s)]) ∧
    timers w1 = <[tm := mkTimer dur Fired]> (timers w) ++ [mkTimer (PingTimeout (opts w)) Armed] ∧
    sks w1 !! s = Some (pinged tmo (still_buffered pks y) k) ∧ departed w w1 pks y ∧
    opts w1 = opts w ∧ uplog w1 = uplog w ∧ clients w1 = clients w ∧ panicked w1 = panicked w.
Proof.
  intros pks Hs Ho Hu Hr Htm tmo. set (w0 := set_timers <[tm := mkTimer dur Fired]> w).
  destruct (ex_push_packet n w0 s k Ping [] false y Hs Ho Hu Hr) as (w1 & H1 & H2 & H3 & E1 & E2 & E3 & E4 & E5).
  fold ping_packet pks in H2, H3.
  assert (length (timers w1) = tmo) as Hlen by (rewrite E1; apply length_insert).
  exists (upd_sk s (set_es_pingTimeoutTimer (Some tmo))
            (set_timers (λ l, l ++ [mkTimer (PingTimeout (opts w)) Armed]) w1)).
  split_and!; try done.
  - eapply ex_first; [apply ex_await; unfold fire; by rewrite Htm|]. fold w0. apply ex_call.
    change (@method _ _ (engine_methods choose usr) (MPing s)) with (pingHandler usr s).
    unfold pingHandler. eapply ex_first.
    { rewrite exec_atomic. unfold ping_locked. change (sks w0) with (sks w).
      by rewrite Hs, decide_False, Hu by (by rewrite Ho). }
    cbn [fst snd]. eapply ex_first; [exact H1|]. eapply ex_first.
    { rewrite exec_atomic. unfold arm_timeout, add_timer. cbn [fst snd]. by rewrite Hlen, E2. }
    cbn [fst snd]. done.
  - cbn. by rewrite E1.
  - cbn. by rewrite list_lookup_alter_eq, H2.
Qed.

(** The pong comes in time. *)
Lemma ex_pong n w s k tm tmo dur old data binary :
  sks w !! s = Some k → es_readyState k = stateOpen →
  es_pingIntervalTimer k = Some tm → es_pingTimeoutTimer k = Some tmo →
  timers w = old ++ [mkTimer dur Armed] → length old = tmo →
  (∀ t, old !! tm = Some t → tm_state t ≠ Armed) → (tm < tmo)%nat →
  ∃ w2,
    ex n (onPacket usr s (mkPacket Pong data binary)) w = Some (tt, w2, [ping_timer (S tmo) s]) ∧
    timers w2 = old ++ [mkTimer dur Stopped; mkTimer (PingInterval (opts w)) Armed] ∧
    sks w2 !! s = Some (set_es_pingIntervalTimer (Some (S tmo)) k) ∧
    uplog w2 = uplog w ∧ clients w2 = clients w ∧ panicked w2 = panicked w.
Proof.
  intros Hs Ho Hi Htmo Htms Hlen Hold Hlt.
  set (w3 := stop_timer tm (stop_timer tmo w)).
  assert (timers w3 = old ++ [mkTimer dur Stopped]) as Ht3.
  { unfold w3, stop_timer. cbn [timers set_timers]. rewrite Htms, <- Hlen, alter_snoc.
    apply list_eq. intros i. destruct (decide (i = tm)) as [->|Hne]; [|by rewrite list_lookup_alter_ne].
    rewrite list_lookup_alter_eq, !lookup_app_l by lia. destruct (old !! tm) as [[d st]|] eqn:Htm; [|done].
    specialize (Hold _ eq_refl). by destruct st. }
  exists (upd_sk s (set_es_pingIntervalTimer (Some (S tmo)))
            (set_timers (λ l, l ++ [mkTimer (PingInterval (opts w)) Armed]) w3)). split_and!; try done.
  - unfold onPacket. eapply ex_first.
    { rewrite exec_atomic. unfold packet_locked. rewrite Hs, decide_True by done. cbn [Type_of].
      rewrite Hi, Htmo. cbn [stop_opt]. fold w3. unfold arm_ping, add_timer. cbn [fst snd].
      rewrite Ht3, length_app, Hlen. cbn [length]. by rewrite Nat.add_1_r. }
    cbn [fst snd]. done.
  - change (timers w3 ++ [mkTimer (PingInterval (opts w)) Armed]
      = old ++ [mkTimer dur Stopped; mkTimer (PingInterval (opts w)) Armed]).
    by rewrite Ht3, <- app_assoc.
  - change (alter (set_es_pingIntervalTimer (Some (S tmo))) s (sks w) !! s
      = Some (set_es_pingIntervalTimer (Some (S tmo)) k)).
    by rewrite list_lookup_alter_eq, Hs.
Qed.

(** C21. One round of the heartbeat.  When the ping timer of an open session
    that is not upgrading fires, the ping goes after what is buffered: when a poll is parked it is
    answered with all of that, over a WebSocket that accepts the frames they
    are written, and otherwise they wait in the buffer.  A timeout is armed;
    the client's pong then stops that timeout and arms the next ping, with the
    configured durations.  The session stays open and the layer above hears
    nothing. *)
Theorem heartbeat_round n w s k y tm dur data binary :
  let pks := es_writeBuffer k ++ [ping_packet] in
  sks w !! s = Some k → es_readyState k = stateOpen → es_upgrading k = false → way_open w s k pks y →
  es_pingIntervalTimer k = Some tm → timers w !! tm = Some (mkTimer dur Armed) →
  let tmo := length (timers w) in
  let old := <[tm := mkTimer dur Fired]> (timers w) in
  let k1 := pinged tmo (still_buffered pks y) k in
  ∃ w1,
    ex (S (S (S (S n)))) (await (fire tm) ≫= λ _, call (MPing s)) w
    = Some (tt, w1, [Once (await (fire tmo) ≫= λ _, pingTimeoutHandler usr s)]) ∧
    departed w w1 pks y ∧
    timers w1 = old ++ [mkTimer (PingTimeout (opts w)) Armed] ∧
    sks w1 !! s = Some k1 ∧
    ∃ w2,
      ex n (onPacket usr s (mkPacket Pong data binary)) w1 = Some (tt, w2, [ping_timer (S tmo) s]) ∧
      timers w2 = old ++ [mkTimer (PingTimeout (opts w)) Stopped; mkTimer (PingInterval (opts w)) Armed] ∧
      sks w2 !! s = Some (set_es_pingIntervalTimer (Some (S tmo)) k1) ∧
      uplog w2 = uplog w ∧ clients w2 = clients w ∧ panicked w2 = panicked w.
Proof.
  intros pks Hs Ho Hu Hr Hi Htm tmo old k1.
  destruct (ex_ping n w s k y tm dur) as (w1 & H1 & Ht1 & Hs1 & Hdep & E1 & E2 & E3 & E4); try done.
  exists w1. split_and!; [done..|].
  destruct (ex_pong n w1 s k1 tm tmo (PingTimeout (opts w)) old data binary)
    as (w2 & H2 & Ht2 & Hs2 & F2 & F3 & F4); try done.
  - apply length_insert.
  - intros t0. unfold old. rewrite list_lookup_insert_eq by (by eapply lookup_lt_Some). by intros [= <-].
  - by eapply lookup_lt_Some.
  - exists w2. rewrite <- E1, <- E2, <- E3, <- E4. by rewrite E1 in Ht2 |- *.
Qed.

(** An accepted handshake over polling creates one session: it is
    registered under the id drawn for it, it is told to the layer above, its
    ping timer is armed, and the handshake request is answered with the open
    packet, which carries the id, the upgrades and the limits as JSON.  The
    session is then idle and ready for the requests that name its id. *)
Theorem handshake_opens n w r f g :
  let id := session_id rand (opts w) r (rnd w) in
  let data := handshake_json id (upgradesFor (opts w) "polling") (opts w) in
  let s := length (sks w) in let p := length (polls w) in let x := length (exchs w) in
  let tm := length (timers w) in
  query_get (rq_query r) "transport" = "polling" → query_get (rq_query r) "sid" = "" →
  rq_method r = "GET" → ex (S (S n)) (verify r (rq_query r) false) w = Some (Accept, w, []) →
  srv_onConnect w = Some f → connect_effect f g → id ≠ "" →
  ∃ w' ks kp,
    ex (S (S n)) (serve_request choose rand usr r) w
    = Some (tt, w', [ping_timer tm s;
        Once (watch_poll choose p x (length (chans w)) (Some (HBinding s (TPolling p))))]) ∧
    clients w' = <[id := s]> (clients w) ∧
    exchs w' = exchs w ++ [delivered r ("0"%byte :: data)] ∧
    polling_session w' id s p ks kp ∧ idle ks ∧ es_readyState ks = stateOpen ∧ es_id ks = id ∧
    es_writeBuffer ks = [] ∧ es_onData ks = srv_onData w ∧
    p_req kp = None ∧ p_dataReq kp = None ∧ p_sendBuffer kp = [] ∧ p_writable kp = false ∧
    p_maxBufferSize kp = MaxHTTPBufferSize (opts w) ∧
    es_pingIntervalTimer ks = Some tm ∧
    timers w' = timers w ++ [mkTimer (PingInterval (opts w)) Armed] ∧
    uplog w' = uplog w ++ [UpConnect s] ∧ app w' = g s (app w) ∧
    rnd w' = S (rnd w) ∧ panicked w' = panicked w ∧ opts w' = opts w.
Proof.
  intros id data s p x tm Ht Hsid HG Hv Hf Hg Hid.
  set (mx := MaxHTTPBufferSize (opts w)).
  set (k0 := opened_socket id (rq_addr r) s p tm data (srv_onData w)).
  set (w0 := parked p x (opened (arrived r w) r mx g)).
  set (w1 := poll_flushed s p x (length (chans w)) [mkPacket Open data false] w0).
  exists (upd_exch x (set_x_over true) w1), (set_es_writeBuffer [] k0),
    (take_poll (park x (length (chans w)) (opened_polling s p mx))). split.
  { apply ex_serve. unfold ServeHTTP. rewrite decide_True by done. unfold handlePolling.
    eapply ex_first; [apply (verify_exchs choose usr _ _ _ _ _ _ _ Hv)|]. cbn beta iota.
    rewrite bool_decide_true by done. by apply (ex_handshake (arrived r w) r mx f g). }
  assert (polls w0 !! p = Some (park x (length (chans w)) (opened_polling s p mx))) as Hp0.
  { apply (lookup_parked p x (opened (arrived r w) r mx g)), (stage_poll (arrived r w)). }
  assert (sks w0 !! s = Some k0) as Hs0 by apply (stage_sk (arrived r w)).
  assert (exchs w0 = exchs w ++ [new_exchange r]) as Ex by done.
  assert (exchs w0 !! x = Some (new_exchange r)) as Hx by apply lookup_snoc.
  assert (clients w0 = <[id := s]> (clients w) ∧ uplog w0 = uplog w ++ [UpConnect s]
    ∧ timers w0 = timers w ++ [mkTimer (PingInterval (opts w)) Armed] ∧ panicked w0 = panicked w
    ∧ app w0 = g s (app w) ∧ rnd w0 = S (rnd w)) as (E1 & E2 & E3 & E4 & E5 & E6) by done.
  assert (opts w0 = opts w) as E7 by apply (opened_opts (arrived r w)).
  unfold w1. clearbody w0. clear w1.
  set (w1 := poll_flushed s p x (length (chans w)) [mkPacket Open data false] w0).
  destruct (upd_exch_fields x (set_x_over true) w1) as (F1 & F2 & F3 & F4 & -> & -> & -> & -> & ->).
  pose proof (flushed_fields s p x (length (chans w)) [mkPacket Open data false] w0) as HF.
  cbv zeta in HF. fold w1 in HF. destruct HF as (G1 & -> & -> & -> & -> & ->).
  assert (opts (upd_exch x (set_x_over true) w1) = opts w) as Ho.
  { destruct (kept_opts s p x (length (chans w)) [mkPacket Open data false] (set_x_over true) w1) as (-> & _).
    unfold w1. by rewrite (proj1 (proj2 (kept_opts s p x _ _ (set_x_over true) w0))). }
  assert (clients (upd_exch x (set_x_over true) w1) = <[id := s]> (clients w)) as Hc
    by by rewrite F4, G1.
  split_and!; try done.
  - rewrite F3. unfold w1. rewrite (flushed_exchs _ _ _ _ _ _ (new_exchange r)), encode_open by done.
    rewrite Ex. unfold x. by rewrite insert_alter_snoc.
  - split; try done.
    + rewrite Hc. apply lookup_insert_eq.
    + rewrite F1. by apply flushed_sk.
    + rewrite F2. by apply flushed_poll.
Qed.
End Sessions.

(** ** On concrete sessions *)

Definition no_effect_connect (s : sockp) (u : nat) : nat := u.
Definition no_effect_close (reason : string) (err : option cerror) (u : nat) : nat := u.

Lemma echo_connect_effect f : connect_effect choose echo f no_effect_connect.
Proof. intros n s w. by destruct w. Qed.

Lemma echo_close_effect f : close_effect choose echo f no_effect_close.
Proof. intros n s reason err w. by destruct w. Qed.

Lemma handshake_opens_witness :
  let w := world_after [OnConnect 0%nat] [0%nat] in
  ∃ w', (∃ ts, dex 2 (serve (get q_polling)) w = Some (tt, w', ts)) ∧
    clients w' !! demo_sid = Some 0%nat ∧ uplog w' = [UpConnect 0%nat].
Proof.
  intros w.
  destruct (handshake_opens choose rand echo 0 w (get q_polling) 0%nat no_effect_connect)
    as (w' & ks & kp & H1 & H2 & _ & _ & _ & _ & _ & _ & _ & _ & _ & _ & _ & _ & _ & _ & H3 & _).
  - reflexivity.
  - reflexivity.
  - reflexivity.
  - reflexivity.
  - reflexivity.
  - exact (echo_connect_effect 0%nat).
  - vm_compute. done.
  - exists w'. split; [eexists; exact H1|]. rewrite H2, H3. split; vm_compute; reflexivity.
Defined.

Definition hearing : dworld := world_after [OnClose 0%nat; serve (get q_polling)] [0; 1]%nat.

Lemma close_session_once_witness :
  ∃ w', dex 2 (closeWithReason echo 0%nat "bye" None) hearing = Some (tt, w', []) ∧
    clients w' !! demo_sid = None ∧ uplog w' = [UpClose 0%nat "bye" None].
Proof.
  destruct (close_session_once choose echo 0 hearing 0%nat (first_sk hearing) (TPolling 0%nat) 0%nat
    no_effect_close "bye" None) as (w' & H1 & _ & _ & H2 & H3 & _).
  - vm_compute. reflexivity.
  - vm_compute. done.
  - vm_compute. reflexivity.
  - exists (first_poll hearing). split_and!; [vm_compute; reflexivity..|]. vm_compute. done.
  - vm_compute. reflexivity.
  - exact (echo_close_effect 0%nat).
  - exists w'. split; [exact H1|]. rewrite H2, H3. split; vm_compute; reflexivity.
Defined.

(** A session whose poll is parked, and one over a WebSocket connection. *)
Definition polled : dworld := world_after [serve (get q_polling); serve (get (with_sid q_polling))] [0; 1]%nat.
Definition over_socket : dworld := world_after [serve (get q_websocket)] [0]%nat.

Definition first_conn (w : dworld) : pipe := default (mkPipe [] [] false) (wconns w !! 0%nat).

(** The ping answers the parked poll, and goes over the WebSocket; then the
    pong comes. *)
Lemma heartbeat_round_witness :
  (∃ w1 w2, (∃ ts, dex 4 (await (fire 0%nat) ≫= λ _, call (MPing 0%nat)) polled = Some (tt, w1, ts)) ∧
    ((λ e, (x_status e, x_body e)) <$> exchs w1 !! 1%nat) = Some (Some 200, bytes_of "2") ∧
    (∃ ts, dex 0 (onPacket echo 0%nat (mkPacket Pong [] false)) w1 = Some (tt, w2, ts)) ∧
    (tm_state <$> timers w2) = [Fired; Stopped; Armed]) ∧
  ∃ w1, (∃ ts, dex 4 (await (fire 0%nat) ≫= λ _, call (MPing 0%nat)) over_socket = Some (tt, w1, ts)) ∧
    (wconns w1 !! 0%nat) = Some (mkPipe [] (outbox (first_conn over_socket) ++ [(false, bytes_of "2")]) false).
Proof.
  split.
  - destruct (heartbeat_round choose echo 0 polled 0%nat (first_sk polled) (ByPoll 0%nat 1%nat 1%nat) 0%nat
      (25 * 10 ^ 9) [] false) as (w1 & H1 & Hd & _ & _ & w2 & H2 & H3 & _).
    1-3: vm_compute; reflexivity.
    2-3: vm_compute; reflexivity.
    { split_and!; [vm_compute; reflexivity..|]. exists (first_poll polled). split_and!; vm_compute; reflexivity. }
    exists w1, w2. destruct Hd as (-> & _). split_and!; [by eexists|vm_compute; reflexivity|by eexists|].
    rewrite H3. vm_compute. reflexivity.
  - destruct (heartbeat_round choose echo 0 over_socket 0%nat (first_sk over_socket)
      (ByWebsocket 0%nat (mkPipe [] (outbox (first_conn over_socket) ++ [(false, bytes_of "2")]) false)) 0%nat
      (25 * 10 ^ 9) [] false) as (w1 & H1 & Hd & _).
    1-3: vm_compute; reflexivity.
    2-3: vm_compute; reflexivity.
    { split_and!; [vm_compute; reflexivity..|].
      exists (default (mkWebsocket 0%nat None false false false false false) (wss over_socket !! 0%nat)).
      exists (first_conn over_socket). split_and!; try (vm_compute; reflexivity).
      eexists. split; [vm_compute; reflexivity|vm_compute; reflexivity]. }
    exists w1. split; [by eexists|]. destruct Hd as (_ & ki & Hi & ->).
    assert (ws_conn ki = 0%nat) as -> by (revert Hi; vm_compute; by intros [= <-]). vm_compute. reflexivity.
Defined.

(** An upgrade whose probe has been answered. *)
Definition probed : dworld :=
  world_after [serve (get q_polling); SendMessage 0%nat (bytes_of "A") false;
               serve (get (with_sid q_websocket)); peer_acts 0%nat (feed [(false, bytes_of "2probe")])]
    [0; 1; 2; 3; 7]%nat.

Definition first_ws (w : dworld) : websocket :=
  default (mkWebsocket 0%nat None false false false false false) (wss w !! 0%nat).

Lemma probed_upgrading :
  upgrading probed 0%nat 0%nat 0%nat 1%nat (first_sk probed) (first_poll probed) (first_ws probed).
Proof. split; vm_compute; reflexivity. Qed.

Lemma upgrade_moves_witness :
  ∃ w' t, dex 3 (onUpgrade 0%nat (TWebsocket 0%nat) 1%nat 1%nat) probed = Some (tt, w', [t]) ∧
    wconns w' !! 0%nat = Some (mkPipe [] [(false, bytes_of "3probe"); (false, bytes_of "4A")] false)
    ∧ uplog w' = [].
Proof.
  destruct (upgrade_moves choose echo 0 probed 0%nat 0%nat 0%nat 1%nat 1%nat (first_sk probed)
    (first_poll probed) (first_ws probed) (mkPipe [] [(false, bytes_of "3probe")] false)
    (mkPipe [] [(false, bytes_of "3probe"); (false, bytes_of "4A")] false))
    as (w' & t & H1 & H2 & _ & _ & H3 & _).
  - exact probed_upgrading.
  - vm_compute. reflexivity.
  - assert (p_sendBuffer (first_poll probed) ++ es_writeBuffer (first_sk probed)
      = [mkPacket Message (bytes_of "A") false]) as -> by (vm_compute; reflexivity).
    by eexists.
  - exists w', t. split; [exact H1|]. split; [exact H2|]. rewrite H3. vm_compute. reflexivity.
Defined.
