(* ===== verification/ClientDemo.v ===== *)
(** * ClientDemo: a concrete user of the Engine.IO client

    The connections are those of EngineDemo; the user keeps the messages it
    receives.  The concrete runs of the client's files use it. *)

From S2P Require Import Prelude.
From S2P Require Import EnginePacket.
From S2P Require Import Sched.
From S2P Require Import EngineTypes.
From S2P Require Import EngineOptions.
From S2P Require Import OpenPacket.
From S2P Require Import EngineServer.
From S2P Require Import EngineDemo.
From S2P Require Import ClientTypes.
From S2P Require Import ClientTransport.
From S2P Require Import ClientEngine.

Abbreviation cdworld := (cworld pipe (list bytes)).
Abbreviation cdconfig := (config cdworld cl_method).
Abbreviation cdprog := (mprog cdworld cl_method unit).

Definition keeper : cl_user (C := pipe) (U := list bytes) :=
  mkClUser (λ _ _, skip) (λ _ _ data _, update (set_capp (λ l, l ++ [data]))) (λ _ _ _, skip).

#[export] Instance client_demo_methods : Methods cdworld cl_method := client_methods choose keeper.

Definition server_url : url := mkUrl "http" "//localhost/engine.io/" ∅.
Definition polling_only : options := mkOptions 0 0 0 0 ["polling"] false None None.

(** What the server answers: an open packet, packets, a status. *)
Definition opens (upgrades : list string) : result string response :=
  Ok (mkResponse 200 (EncodePayload [mkPacket Open
    (handshake_json "sid1" upgrades (withDefaults zero_options)) false]) None).
Definition sends (ps : list Packet) : result string response := Ok (mkResponse 200 (EncodePayload ps) None).
Definition says (s : string) : Packet := mkPacket Message (bytes_of s) false.
Definition accepted : result string response := Ok (mkResponse 200 (bytes_of "ok") None).

Definition world0 : cdworld := mkCWorld [] [] [] [] [] [] [] [] [] [] [] 0 false [].
Definition played (calls : list cdprog) (ns : list nat) : cdconfig := turns ns (world0, Once <$> calls).
