(* ===== verification/ClientInvariant.v ===== *)
(** * ClientInvariant: what every interleaving of the Engine.IO client keeps

    The tokens: setting the transport of a client that is being dialled
    ([CTDial]), telling the user that a session is closed ([CTClosing]), a POST
    and a GET in flight ([CTSend], [CTGet]), running the loop of a polling
    transport ([CTLoop], which is [CTGet] while the loop waits for its
    request).  The transports' counters count [CTSend] and [CTGet].

    A client is [usable] once its transport can be called: before that only
    [Dial] knows it. *)

From stdpp Require Import gmultiset.
From S2P Require Import Prelude.
From S2P Require Import EnginePacket.
From S2P Require Import Sched.
From S2P Require Import Safety.
From S2P Require Import EngineTypes.
From S2P Require Import EngineOptions.
From S2P Require Import ClientTypes.
From S2P Require Import ClientTransport.
From S2P Require Import ClientEngine.

Inductive ctoken :=
| CTDial (c : clientp) | CTClosing (c : clientp) | CTSend (p : nat) | CTGet (p : nat) | CTLoop (p : nat).

#[export] Instance ctoken_eq_dec : EqDecision ctoken.
Proof. solve_decision. Defined.

#[export] Instance ctoken_countable : Countable ctoken.
Proof.
  apply (inj_countable'
    (λ t, match t with
          | CTDial c => (0, c) | CTClosing c => (1, c) | CTSend p => (2, p) | CTGet p => (3, p)
          | CTLoop p => (4, p)
          end%nat)
    (λ p : nat * nat, match p.1 with
       | 0 => CTDial p.2 | 1 => CTClosing p.2 | 2 => CTSend p.2 | 3 => CTGet p.2 | _ => CTLoop p.2
       end%nat)).
  by intros [].
Defined.

(** The session whose end the user was told. *)
Definition closed_client (e : cl_event) : option clientp :=
  match e with CUpClose c _ => Some c | _ => None end.

Section Invariant.
Context {C U : Type}.
Abbreviation W := (cworld C U).
Implicit Types (w : W) (c : clientp) (p : nat) (o F : gmultiset ctoken).

(** ** The invariant *)

(** A polling transport that has a handler; a client whose transport is
    set. *)
Definition callable w (t : ctport) : Prop :=
  match t with
  | CPolling p => ∃ k, cpolls w !! p = Some k ∧ is_Some (cp_handler k)
  | CWebsocket _ => True
  end.
Definition usable w c : Prop :=
  ∃ k t, clis w !! c = Some k ∧ c_tport k = Some t ∧ callable w t.

Abbreviation told w c := (cnt closed_client c (cuplog w)).
Definition closed_right w c : nat :=
  match clis w !! c with Some k => if c_closed k then 1 else 0 | None => 0 end.
Definition dial_right w c : nat :=
  match clis w !! c with Some k => match c_tport k with Some _ => 0 | None => 1 end | None => 0 end.
Definition loop_right w p : nat :=
  match cpolls w !! p with Some k => if cp_polling k then 1 else 0 | None => 0 end.

(** What must hold of each client and of each polling transport. *)
Definition client_ok w (k : client) c : Prop :=
  (c_handshakeOnce k = true → usable w c) ∧
  (is_Some (c_handshakeDone k) → c_handshakeOnce k = true).

Record cpoll_ok w o (k : cpolling) p : Prop := {
  cpo_sends : cp_sendInflight k = Z.of_nat (multiplicity (CTSend p) o);
  cpo_gets : cp_inflight k = Z.of_nat (multiplicity (CTGet p) o);
  cpo_pause : cchans w !! cp_pauseCh k = Some false;
  cpo_bound b : cp_handler k = Some b → usable w (b_client b)
}.

(** The timer [tm] is the watchdog of an open session. *)
Definition watches w (tm : timerp) : Prop :=
  ∃ c k, clis w !! c = Some k ∧ c_closed k = false ∧ c_noPing k = Some tm.

Record inv w o : Prop := {
  ci_panic : cpanicked w = false;
  ci_client c k : clis w !! c = Some k → client_ok w k c;
  ci_poll p k : cpolls w !! p = Some k → cpoll_ok w o k p;
  ci_loop p : (multiplicity (CTLoop p) o + multiplicity (CTGet p) o ≤ loop_right w p)%nat;
  ci_send p : cpolls w !! p = None → multiplicity (CTSend p) o = 0%nat;
  ci_pause p p' k k' : cpolls w !! p = Some k → cpolls w !! p' = Some k' →
    cp_pauseCh k = cp_pauseCh k' → p = p';
  ci_ws i k b : cwss w !! i = Some k → cw_handler k = Some b → usable w (b_client b);
  ci_closing c : (told w c + multiplicity (CTClosing c) o ≤ closed_right w c)%nat;
  ci_dial c : (multiplicity (CTDial c) o ≤ dial_right w c)%nat;
  ci_handles c : c ∈ handles w → usable w c;
  ci_timer tm d : ctimers w !! tm = Some (mkTimer d Armed) → watches w tm
}.

(** What is never undone: a WebSocket transport is not left, a closed session
    or transport not reopened. *)
Definition tport_le (o o' : option ctport) : Prop :=
  match o with
  | None => True
  | Some (CPolling p) => o' = Some (CPolling p) ∨ ∃ i, o' = Some (CWebsocket i)
  | Some (CWebsocket _) => ∃ i, o' = Some (CWebsocket i)
  end.

Definition client_le (k k' : client) : Prop :=
  tport_le (c_tport k) (c_tport k') ∧ (c_closed k = true → c_closed k' = true)
  ∧ (c_handshakeOnce k = true → c_handshakeOnce k' = true).

Definition cpoll_le (k k' : cpolling) : Prop :=
  (cp_closed k = true → cp_closed k' = true) ∧ (cp_polling k = true → cp_polling k' = true)
  ∧ (is_Some (cp_handler k) → is_Some (cp_handler k')) ∧ cp_ctx k' = cp_ctx k.

Record hist w w' : Prop := {
  ch_cli c k : clis w !! c = Some k → ∃ k', clis w' !! c = Some k' ∧ client_le k k';
  ch_poll p k : cpolls w !! p = Some k → ∃ k', cpolls w' !! p = Some k' ∧ cpoll_le k k';
  ch_log : cuplog w `prefix_of` cuplog w'
}.

#[export] Instance tport_le_preorder : PreOrder tport_le.
Proof.
  split.
  - intros [[p|i]|]; simpl; eauto.
  - intros [[p|i]|] o2 o3; simpl; [|intros [j ->]; simpl; auto|done].
    intros [->|[j ->]]; simpl; auto.
Qed.

#[export] Instance client_le_preorder : PreOrder client_le.
Proof.
  split; [by intros k|]. intros k1 k2 k3 (A1 & A2 & A3) (B1 & B2 & B3).
  split_and!; [by etransitivity|auto..].
Qed.

#[export] Instance cpoll_le_preorder : PreOrder cpoll_le.
Proof.
  split; [by intros k|]. intros k1 k2 k3 (A1 & A2 & A3 & A4) (B1 & B2 & B3 & B4).
  split_and!; auto. congruence.
Qed.

#[export] Instance hist_preorder : PreOrder hist.
Proof.
  split.
  - intros w. split; [intros c k Hk; exists k; by split|intros p k Hk; exists k; by split|done].
  - intros w1 w2 w3 [A1 A2 A3] [B1 B2 B3]. split.
    + intros c k H. destruct (A1 c k H) as (k1 & H1 & L1). destruct (B1 c k1 H1) as (k2 & H2 & L2).
      exists k2. split; [done|by etransitivity].
    + intros p k H. destruct (A2 p k H) as (k1 & H1 & L1). destruct (B2 p k1 H1) as (k2 & H2 & L2).
      exists k2. split; [done|by etransitivity].
    + by etransitivity.
Qed.

Lemma callable_hist w w' t : hist w w' → callable w t → callable w' t.
Proof.
  intros Hh. destruct t as [p|]; [|done]. intros (k & Hk & Hs).
  destruct (ch_poll w w' Hh p k Hk) as (k' & Hk' & _ & _ & Hs' & _). exists k'. auto.
Qed.

Lemma callable_le w t x : callable w t → tport_le (Some t) x → ∃ t', x = Some t' ∧ callable w t'.
Proof. destruct t as [p|i]; intros Ht; simpl; [intros [->|[j ->]]|intros [j ->]]; by eexists. Qed.

Lemma usable_hist w w' c : hist w w' → usable w c → usable w' c.
Proof.
  intros Hh (k & t & Hk & Ht & Hc). destruct (ch_cli w w' Hh c k Hk) as (k' & Hk' & Hle & _).
  rewrite Ht in Hle. destruct (callable_le w' t (c_tport k')) as (t' & Ht' & Hc'); [by eapply callable_hist|done|].
  by exists k', t'.
Qed.

(** ** The two kinds of steps

    What the invariant asks of a step that changes clients, the log and timers
    only, and of one that changes polling transports and channels only. *)

Definition poll_token (t : ctoken) : Prop :=
  match t with CTDial _ | CTClosing _ => False | _ => True end.

Lemma inv_clients w w' o o' :
  inv w o → hist w w' →
  (cpolls w', cwss w', cchans w', handles w', cpanicked w') = (cpolls w, cwss w, cchans w, handles w, cpanicked w) →
  (∀ t, poll_token t → multiplicity t o' = multiplicity t o) →
  (∀ c k, clis w' !! c = Some k → client_ok w' k c) →
  (∀ c, told w' c + multiplicity (CTClosing c) o' ≤ closed_right w' c)%nat →
  (∀ c, multiplicity (CTDial c) o' ≤ dial_right w' c)%nat →
  (∀ tm d, ctimers w' !! tm = Some (mkTimer d Armed) → watches w' tm) →
  inv w' o'.
Proof.
  intros Hi Hh Heq Ht Hcl Hclosing Hdial Htimer. injection Heq as E1 E2 E3 E4 E5.
  assert (∀ c, usable w c → usable w' c) as Hu by (intros c; by apply usable_hist).
  split; try done; unfold loop_right; rewrite ?E1, ?E2, ?E3, ?E4, ?E5; try apply Hi.
  - intros p k Hk. destruct (ci_poll w o Hi p k Hk) as [P1 P2 P3 P4].
    split; rewrite ?Ht, ?E3 by done; auto.
  - intros p. rewrite !Ht by done. apply Hi.
  - intros p. rewrite Ht by done. apply Hi.
  - intros i k b Hk Hb. by eapply Hu, ci_ws.
  - intros c Hc. by eapply Hu, ci_handles.
Qed.

Lemma inv_polls w w' o o' :
  inv w o → hist w w' →
  (clis w', cwss w', handles w', cpanicked w', cuplog w', ctimers w')
  = (clis w, cwss w, handles w, cpanicked w, cuplog w, ctimers w) →
  (∀ t, ¬ poll_token t → multiplicity t o' = multiplicity t o) →
  (∀ p k, cpolls w' !! p = Some k → cpoll_ok w' o' k p) →
  (∀ p, multiplicity (CTLoop p) o' + multiplicity (CTGet p) o' ≤ loop_right w' p)%nat →
  (∀ p, cpolls w' !! p = None → multiplicity (CTSend p) o' = 0%nat) →
  (∀ p p' k k', cpolls w' !! p = Some k → cpolls w' !! p' = Some k' →
    cp_pauseCh k = cp_pauseCh k' → p = p') →
  inv w' o'.
Proof.
  intros Hi Hh Heq Ht Hp Hloop Hsend Hpause. injection Heq as E1 E2 E3 E4 E5 E6.
  assert (∀ c, usable w c → usable w' c) as Hu by (intros c; by apply usable_hist).
  split; try done; unfold closed_right, dial_right, watches; rewrite ?E1, ?E2, ?E3, ?E4, ?E5, ?E6; try apply Hi.
  - intros c k Hk. destruct (ci_client w o Hi c k Hk). split; auto.
  - intros i k b Hk Hb. by eapply Hu, ci_ws.
  - intros c. rewrite Ht by (intros []). apply Hi.
  - intros c. rewrite Ht by (intros []). apply Hi.
  - intros c Hc. by eapply Hu, ci_handles.
Qed.

(** ** Steps that trade no token *)

Abbreviation good := (harmless inv hist).

Lemma hist_same w w' : (clis w', cpolls w', cuplog w') = (clis w, cpolls w, cuplog w) → hist w w'.
Proof. intros [= E1 E2 E3]. split; rewrite ?E1, ?E2, ?E3; [intros x k Hk; exists k; by split..|done]. Qed.

Lemma inv_ok w w' o k c : hist w w' → inv w o → clis w !! c = Some k → client_ok w' k c.
Proof.
  intros Hh Hi Hk. destruct (ci_client w o Hi c k Hk). split; [|done]. intros Ho.
  eapply usable_hist; eauto.
Qed.

(** What the invariant does not look at. *)
Lemma cgood_same w w' :
  (clis w', cpolls w', cuplog w', cwss w', cchans w', handles w', cpanicked w', ctimers w')
  = (clis w, cpolls w, cuplog w, cwss w, cchans w, handles w, cpanicked w, ctimers w) → good w w'.
Proof.
  intros [= E1 E2 E3 E4 E5 E6 E7 E8] o Hi.
  assert (hist w w') as Hh by (apply hist_same; congruence). split; [|done].
  apply (inv_clients w w' o o Hi Hh); unfold closed_right, dial_right, watches; rewrite ?E1, ?E3, ?E8.
  - congruence.
  - done.
  - intros c k Hk. by eapply inv_ok.
  - apply Hi.
  - apply Hi.
  - apply Hi.
Qed.

(** ** Timers *)

(** Armed timers become fewer. *)
Lemma cgood_timers f w :
  (∀ tm d, f (ctimers w) !! tm = Some (mkTimer d Armed) → ctimers w !! tm = Some (mkTimer d Armed)) →
  good w (set_ctimers f w).
Proof.
  intros Hf o Hi. assert (hist w (set_ctimers f w)) as Hh by by apply hist_same. split; [|done].
  apply (inv_clients w _ o o Hi Hh); try done; [|apply Hi..|].
  - intros c k Hk. by eapply inv_ok.
  - intros tm d Htm. by eapply (ci_timer w o Hi), Hf.
Qed.

Lemma stopped_timer tm w d :
  ctimers (stop_ctimer (Some tm) w) !! tm ≠ Some (mkTimer d Armed).
Proof.
  simpl. rewrite list_lookup_alter_eq. destruct (ctimers w !! tm) as [[d' []]|]; simpl; congruence.
Qed.

Lemma cgood_stop x w : good w (stop_ctimer x w).
Proof.
  destruct x as [tm|]; [|apply harmless_refl]. apply cgood_timers. intros tm' d.
  destruct (decide (tm = tm')) as [<-|Hne]; [|by rewrite list_lookup_alter_ne].
  intros H. by apply stopped_timer in H.
Qed.

Lemma cgood_fire tm u w w' : fire_ctimer tm w = Some (u, w') → good w w'.
Proof.
  unfold fire_ctimer. destruct (ctimers w !! tm) as [[d []]|] eqn:Htm; intros; simplify_eq.
  apply cgood_timers. intros tm' d'. destruct (decide (tm = tm')) as [<-|Hne].
  - rewrite list_lookup_insert_eq by by eapply lookup_lt_Some. congruence.
  - by rewrite list_lookup_insert_ne.
Qed.

(** ** Clients *)

Lemma inv_client c k k' w o o' :
  clis w !! c = Some k → client_le k k' → inv w o →
  (is_Some (c_handshakeDone k') → c_handshakeOnce k' = true) →
  (c_handshakeOnce k' = true → c_handshakeOnce k = true ∨ usable w c) →
  (∀ t, t ≠ CTDial c ∧ t ≠ CTClosing c → multiplicity t o' = multiplicity t o) →
  (told w c + multiplicity (CTClosing c) o' ≤ if c_closed k' then 1 else 0)%nat →
  (multiplicity (CTDial c) o' ≤ match c_tport k' with Some _ => 0 | None => 1 end)%nat →
  (∀ tm d, ctimers w !! tm = Some (mkTimer d Armed) → c_noPing k = Some tm → c_closed k = false →
     c_noPing k' = Some tm ∧ c_closed k' = false) →
  inv (set_clis <[c := k']> w) o' ∧ hist w (set_clis <[c := k']> w).
Proof.
  intros Hk Hle Hi Hdone Honce Ht Hc Hd Htm. set (w' := set_clis <[c := k']> w).
  assert (∀ c', clis w' !! c' = if decide (c = c') then Some k' else clis w !! c') as Hl.
  { intros c'. simpl. destruct (decide (c = c')) as [<-|E]; [|by apply list_lookup_insert_ne].
    apply list_lookup_insert_eq. by eapply lookup_lt_Some. }
  assert (hist w w') as Hh.
  { split; [|intros p kp Hkp; exists kp; by split|done]. intros c' k0 Hk0. rewrite Hl.
    case_decide; [|by exists k0; split]. simplify_eq. eauto. }
  split; [|done]. apply (inv_clients w w' o o' Hi Hh); try done.
  - intros t Hp. apply Ht. by split; intros ->.
  - intros c' k0. rewrite Hl. case_decide; intros Hk0; [simplify_eq|by eapply inv_ok].
    split; [|done]. intros Ho. eapply usable_hist; [done|].
    destruct (Honce Ho); [by eapply (ci_client w o Hi)|done].
  - intros c'. unfold closed_right. rewrite Hl. change (told w' c') with (told w c').
    case_decide as E; [by subst|]. rewrite Ht by (split; congruence). apply (ci_closing w o Hi c').
  - intros c'. unfold dial_right. rewrite Hl. case_decide as E; [by subst|].
    rewrite Ht by (split; congruence). apply (ci_dial w o Hi c').
  - intros tm d Harmed. destruct (ci_timer w o Hi tm d Harmed) as (c' & k0 & Hk0 & Ho & Hn).
    exists c'. rewrite Hl. case_decide; [subst|by eauto]. rewrite Hk in Hk0. simplify_eq.
    destruct (Htm tm d Harmed Hn Ho). eauto.
Qed.

Lemma upd_cli_none c (f : client → client) w : clis w !! c = None → upd_cli c f w = w.
Proof. intros Hk. unfold upd_cli. destruct w. unfold set_clis. simpl in *. f_equal.
  apply list_eq. intros i. destruct (decide (c = i)) as [->|Hne].
  - by rewrite list_lookup_alter_eq, Hk.
  - by rewrite list_lookup_alter_ne.
Qed.

(** A step that trades no token of client [c]. *)
Lemma cgood_client c k k' w :
  clis w !! c = Some k → client_le k k' → c_closed k' = c_closed k →
  (is_Some (c_handshakeDone k') → c_handshakeOnce k' = true) →
  (c_handshakeOnce k' = true → c_handshakeOnce k = true ∨ usable w c) →
  (c_tport k = None → c_tport k' = None) →
  (∀ tm d, ctimers w !! tm = Some (mkTimer d Armed) → c_noPing k = Some tm → c_closed k = false →
     c_noPing k' = Some tm) →
  good w (set_clis <[c := k']> w).
Proof.
  intros Hk Hle Hc Hdone Honce Htp Htm o Hi. apply (inv_client c k k' w o o Hk Hle Hi); try done.
  - rewrite Hc. pose proof (ci_closing w o Hi c) as H. unfold closed_right in H. by rewrite Hk in H.
  - pose proof (ci_dial w o Hi c) as H. unfold dial_right in H. rewrite Hk in H.
    destruct (c_tport k); [|rewrite Htp by done]; destruct (c_tport k'); lia.
  - intros tm d Ha Hn Ho. split; [by eapply Htm|congruence].
Qed.

(** The fields the invariant looks at. *)
Definition core (k : client) :=
  (c_tport k, c_closed k, c_noPing k, c_handshakeDone k, c_handshakeOnce k).

Lemma cgood_upd_cli c (f : client → client) w : (∀ k, core (f k) = core k) → good w (upd_cli c f w).
Proof.
  intros Hf. destruct (clis w !! c) as [k|] eqn:Hk; [|by rewrite upd_cli_none; [apply harmless_refl|]].
  rewrite (upd_as_set c k) by done. pose proof (Hf k) as [= E1 E2 E3 E4 E5].
  intros o Hi. apply (cgood_client c k (f k) w); try done; rewrite ?E1, ?E3, ?E4, ?E5; auto.
  - split; [by rewrite E1|]. by rewrite E2, E5.
  - apply (ci_client w o Hi c k Hk).
Qed.
Lemma cinv_less w o o' :
  (∀ t, multiplicity t o' ≤ multiplicity t o)%nat →
  (∀ p, multiplicity (CTSend p) o' = multiplicity (CTSend p) o
        ∧ multiplicity (CTGet p) o' = multiplicity (CTGet p) o) →
  inv w o → inv w o'.
Proof.
  intros Ho Hp Hi. pose proof Hi as [I1 I2 I3 I4 I5 I6 I7 I8 I9 I10 I11]. split; try done.
  - intros p k Hk. destruct (I3 p k Hk) as [P1 P2 P3 P4]. destruct (Hp p) as [E1 E2].
    split; rewrite ?E1, ?E2; auto.
  - intros p. specialize (I4 p). pose proof (Ho (CTLoop p)). pose proof (Ho (CTGet p)). lia.
  - intros p. rewrite (proj1 (Hp p)). apply I5.
  - intros c. specialize (I8 c). specialize (Ho (CTClosing c)). lia.
  - intros c. specialize (I9 c). specialize (Ho (CTDial c)). lia.
Qed.

(** A new client; setting its transport for the first time. *)
Lemma trade_new_client u op w F :
  let w' := set_clis (λ l, l ++ [new_client u op]) w in
  inv w F → inv w' ({[+ CTDial (length (clis w)) +]} ⊎ F) ∧ hist w w'.
Proof.
  intros w' Hi.
  assert (∀ c k, clis w' !! c = Some k →
    clis w !! c = Some k ∨ c = length (clis w) ∧ k = new_client u op) as Hnew.
  { intros c k [?|[Hge Hk]]%lookup_app_Some; [by left|].
    apply list_lookup_singleton_Some in Hk as [? <-]. right. split; [lia|done]. }
  assert (∀ c k, clis w !! c = Some k → clis w' !! c = Some k) as Hold.
  { intros c k Hk. by apply lookup_app_l_Some. }
  assert (hist w w') as Hh.
  { split; [|intros p k Hk; exists k; by split|done]. intros c k Hk. exists k. by split; [apply Hold|]. }
  split; [|done]. apply (inv_clients w w' F _ Hi Hh); try done.
  - intros t Ht. destruct t; by mults.
  - intros c k [Hk|[-> ->]]%Hnew; [by eapply inv_ok|]. split; [done|by intros []].
  - intros c. pose proof (ci_closing w F Hi c) as Hc. change (told w' c) with (told w c).
    unfold closed_right in Hc |- *. destruct (clis w !! c) as [k|] eqn:Hk; [rewrite (Hold c k Hk)|]; mults.
  - intros c. pose proof (ci_dial w F Hi c) as Hc. unfold dial_right in Hc |- *.
    destruct (decide (c = length (clis w))) as [->|Hne].
    + rewrite lookup_ge_None_2 in Hc by done. unfold w'. simpl.
      rewrite list_lookup_middle by done. simpl. mults.
    + destruct (clis w !! c) as [k|] eqn:Hk; [rewrite (Hold c k Hk)|]; mults.
  - intros tm d Ha. destruct (ci_timer w F Hi tm d Ha) as (c & k & Hk & ?). exists c, k. auto.
Qed.

Lemma trade_dial c t w F :
  let w' := upd_cli c (set_c_tport (Some t)) w in
  inv w ({[+ CTDial c +]} ⊎ F) →
  inv w' F ∧ hist w w' ∧ ∃ k, clis w' !! c = Some k ∧ c_tport k = Some t.
Proof.
  intros w' Hi. pose proof (ci_dial w _ Hi c) as Hd. unfold dial_right in Hd.
  destruct (clis w !! c) as [k|] eqn:Hk; [|mults]. destruct (c_tport k) eqn:Hn; [mults|].
  pose proof (ci_closing w _ Hi c) as Hc. unfold closed_right in Hc. rewrite Hk in Hc.
  unfold w'. rewrite (upd_as_set c k) by done.
  assert (inv w F) as Hi' by (eapply cinv_less; [| |exact Hi]; intros; [|split]; mults).
  destruct (ci_client w F Hi' c k Hk) as [Ho Hs].
  destruct (inv_client c k (set_c_tport (Some t) k) w F F) as [H1 H2]; simpl; auto; [..|mults|mults|].
  - split; [by rewrite Hn|done].
  - split_and!; [done..|]. exists (set_c_tport (Some t) k). split; [|done].
    simpl. apply list_lookup_insert_eq. by eapply lookup_lt_Some.
Qed.

(** The first one to close a session gets the permission to tell. *)
Lemma trade_mark_closed c w F :
  inv w F →
  inv (mark_closed c w).2 (match (mark_closed c w).1 with Some _ => {[+ CTClosing c +]} | None => ∅ end ⊎ F)
  ∧ hist w (mark_closed c w).2.
Proof.
  intros Hi. unfold mark_closed. destruct (clis w !! c) as [k|] eqn:Hk; simpl.
  2: { rewrite (left_id_L ∅ (⊎)). split; [done|reflexivity]. }
  destruct (c_closed k) eqn:Ho; simpl; [rewrite (left_id_L ∅ (⊎)); split; [done|reflexivity]|].
  set (w1 := stop_ctimer (c_noPing k) w).
  assert (stop_ctimer (c_noPing k) (upd_cli c (set_c_closed true) w) = upd_cli c (set_c_closed true) w1)
    as -> by (by destruct (c_noPing k)).
  destruct (cgood_stop (c_noPing k) w F Hi) as [Hi1 Hh1]. fold w1 in Hi1, Hh1.
  assert (clis w1 !! c = Some k) as Hk1 by (unfold w1; by destruct (c_noPing k)).
  rewrite (upd_as_set c k) by done.
  pose proof (ci_closing w1 F Hi1 c) as Hc. unfold closed_right in Hc. rewrite Hk1, Ho in Hc.
  pose proof (ci_dial w1 F Hi1 c) as Hd. unfold dial_right in Hd. rewrite Hk1 in Hd.
  destruct (ci_client w1 F Hi1 c k Hk1) as [Hu Hs].
  destruct (inv_client c k (set_c_closed true k) w1 F ({[+ CTClosing c +]} ⊎ F)) as [H1 H2]; simpl; auto;
    [done|..|mults|mults| |split; [done|by etransitivity]].
  - intros t [_ Hne]. rewrite multiplicity_disj_union, multiplicity_singleton_ne by done. done.
  - intros tm d Ha Hn _. exfalso. unfold w1 in Ha. rewrite Hn in Ha. by apply stopped_timer in Ha.
Qed.

(** Telling uses the permission up; the other callbacks need none. *)
Lemma trade_log e w F :
  let w' := set_cuplog (λ l, l ++ [e]) w in
  inv w ((match closed_client e with Some c => {[+ CTClosing c +]} | None => ∅ end) ⊎ F) →
  inv w' F ∧ hist w w'.
Proof.
  intros w' Hi.
  assert (inv w F) as Hi'.
  { eapply cinv_less; [| |exact Hi]; intros; [|split]; destruct (closed_client e); mults. }
  assert (hist w w') as Hh.
  { split; [intros c k Hk; exists k; by split..|]. by apply prefix_app_r. }
  split; [|done]. apply (inv_clients w w' F F Hi' Hh); try done; try apply Hi'.
  intros c. pose proof (ci_closing w _ Hi c) as Hc. change (closed_right w' c) with (closed_right w c).
  unfold w'. simpl. rewrite cnt_app. simpl. unfold one. destruct (closed_client e); mults.
Qed.

(** Moving a usable client to a WebSocket. *)
Lemma cgood_switch c i w : usable w c → good w (cl_switch c (CWebsocket i) w).2.
Proof.
  intros (k & t & Hk & Ht & Hc). unfold cl_switch. rewrite Hk. destruct (c_closed k) eqn:Ho; [apply harmless_refl|].
  simpl. rewrite (upd_as_set c k) by done. intros o Hi. destruct (ci_client w o Hi c k Hk) as [Hu Hs].
  apply (cgood_client c k _ w); simpl; auto; [|congruence].
  split; [|done]. simpl. rewrite Ht. destruct t; simpl; eauto.
Qed.

(** The result of the handshake is sent once, and received. *)
Lemma cgood_handshake c v w : usable w c →
  good w (match clis w !! c with
          | Some k => if c_handshakeOnce k then w
                      else upd_cli c (λ k, set_c_handshakeDone (Some v) (set_c_handshakeOnce true k)) w
          | None => w
          end).
Proof.
  intros Hu. destruct (clis w !! c) as [k|] eqn:Hk; [|apply harmless_refl].
  destruct (c_handshakeOnce k) eqn:Ho; [apply harmless_refl|]. rewrite (upd_as_set c k) by done.
  by apply (cgood_client c k); simpl; auto.
Qed.

Lemma cgood_received c w : good w (upd_cli c (set_c_handshakeDone None) w).
Proof.
  destruct (clis w !! c) as [k|] eqn:Hk; [|by rewrite upd_cli_none; [apply harmless_refl|]].
  rewrite (upd_as_set c k) by done. apply (cgood_client c k); simpl; auto; [done|by intros []].
Qed.

(** The watchdog is armed anew. *)
Lemma cgood_arm c d w : good w (arm_watchdog c d w).2.
Proof.
  unfold arm_watchdog. destruct (clis w !! c) as [k|] eqn:Hk; [|apply harmless_refl].
  destruct (c_closed k) eqn:Ho; [apply harmless_refl|]. simpl.
  set (w1 := stop_ctimer (c_noPing k) w). set (tm := length (ctimers w1)).
  assert (clis w1 !! c = Some k) as Hk1 by (unfold w1; by destruct (c_noPing k)).
  set (w2 := upd_cli c (set_c_noPing (Some tm)) w1).
  change (good w (set_ctimers (λ l, l ++ [mkTimer d Armed]) w2)).
  assert (good w w2) as Hw2.
  { eapply harmless_trans; [apply cgood_stop|]. fold w1. unfold w2. rewrite (upd_as_set c k) by done.
    intros o Hi. destruct (ci_client w1 o Hi c k Hk1) as [Hu Hs].
    apply (cgood_client c k); simpl; auto; [done|].
    intros tm' d' Ha Hn _. exfalso. unfold w1 in Ha. rewrite Hn in Ha. by apply stopped_timer in Ha. }
  intros o Hi. destruct (Hw2 o Hi) as [Hi2 Hh2]. split; [|by destruct Hh2].
  assert (hist w2 (set_ctimers (λ l, l ++ [mkTimer d Armed]) w2)) as Hh3 by by apply hist_same.
  apply (inv_clients w2 _ o o Hi2 Hh3); try done; try apply Hi2.
  intros tm' d' [Ha|[Hge Ha]]%lookup_app_Some; [by eapply (ci_timer w2 o Hi2)|].
  apply list_lookup_singleton_Some in Ha as [Hlen _]. assert (tm' = tm) as -> by (unfold tm; simpl in *; lia).
  exists c, (set_c_noPing (Some tm) k). split_and!; [|done..].
  unfold w2. simpl. rewrite list_lookup_alter_eq. by rewrite Hk1.
Qed.

(** A client [Dial] returns is usable. *)
Lemma cgood_handle c w : usable w c → good w (set_handles (λ l, l ++ [c]) w).
Proof.
  intros Hu o Hi. assert (hist w (set_handles (λ l, l ++ [c]) w)) as Hh by by apply hist_same.
  split; [|done]. pose proof Hi as [I1 I2 I3 I4 I5 I6 I7 I8 I9 I10 I11]. split; try done.
  - intros p k Hk. by destruct (I3 p k Hk).
  - intros c' [Hc|Hc%list_elem_of_singleton]%elem_of_app; [by apply I10|by subst].
Qed.
(** ** Polling transports *)

Lemma upd_poll_none p (f : cpolling → cpolling) w : cpolls w !! p = None → upd_cpoll p f w = w.
Proof.
  intros Hk. unfold upd_cpoll. destruct w. unfold set_cpolls. simpl in *. f_equal.
  apply list_eq. intros i. destruct (decide (p = i)) as [->|Hne].
  - by rewrite list_lookup_alter_eq, Hk.
  - by rewrite list_lookup_alter_ne.
Qed.

(** Transport [p] changed, with what it counts. *)
Lemma inv_cpoll p k k' w o o' :
  cpolls w !! p = Some k → cpoll_le k k' → inv w o →
  cp_pauseCh k' = cp_pauseCh k →
  cp_sendInflight k' = Z.of_nat (multiplicity (CTSend p) o') →
  cp_inflight k' = Z.of_nat (multiplicity (CTGet p) o') →
  (multiplicity (CTLoop p) o' + multiplicity (CTGet p) o' ≤ if cp_polling k' then 1 else 0)%nat →
  (∀ b, cp_handler k' = Some b → usable (set_cpolls <[p := k']> w) (b_client b)) →
  (∀ t, t ≠ CTSend p ∧ t ≠ CTGet p ∧ t ≠ CTLoop p → multiplicity t o' = multiplicity t o) →
  inv (set_cpolls <[p := k']> w) o' ∧ hist w (set_cpolls <[p := k']> w).
Proof.
  intros Hk Hle Hi Hch Hs Hg Hl Hb Ht. set (w' := set_cpolls <[p := k']> w).
  assert (∀ q, cpolls w' !! q = if decide (p = q) then Some k' else cpolls w !! q) as Hlk.
  { intros q. simpl. destruct (decide (p = q)) as [<-|E]; [|by apply list_lookup_insert_ne].
    apply list_lookup_insert_eq. by eapply lookup_lt_Some. }
  assert (hist w w') as Hh.
  { split; [intros c k0 Hk0; exists k0; by split| |done]. intros q k0 Hk0. rewrite Hlk.
    case_decide; [|by exists k0; split]. simplify_eq. eauto. }
  split; [|done]. apply (inv_polls w w' o o' Hi Hh); try done.
  - intros t Hp. apply Ht. split_and!; intros ->; by destruct Hp.
  - intros q k0. rewrite Hlk. case_decide as E; [subst q|]; intros Hk0.
    + simplify_eq. split; try done. rewrite Hch. apply (ci_poll w o Hi p k Hk).
    + destruct (ci_poll w o Hi q k0 Hk0) as [P1 P2 P3 P4]. split; try done.
      * by rewrite Ht by (split_and!; congruence).
      * by rewrite Ht by (split_and!; congruence).
      * intros b Hb0. eapply usable_hist; eauto.
  - intros q. unfold loop_right. rewrite Hlk. case_decide; [by subst|].
    rewrite !Ht by (split_and!; congruence). apply (ci_loop w o Hi q).
  - intros q. rewrite Hlk. case_decide; [done|]. rewrite Ht by (split_and!; congruence).
    apply (ci_send w o Hi q).
  - intros q q' k1 k2. rewrite !Hlk. pose proof (ci_pause w o Hi) as Hp.
    repeat case_decide; intros; simplify_eq; eauto; rewrite ?Hch in *; eauto.
Qed.

(** The numbers of transport [p]. *)
Lemma poll_numbers p k w o : cpolls w !! p = Some k → inv w o →
  cp_sendInflight k = Z.of_nat (multiplicity (CTSend p) o)
  ∧ cp_inflight k = Z.of_nat (multiplicity (CTGet p) o)
  ∧ (multiplicity (CTLoop p) o + multiplicity (CTGet p) o ≤ if cp_polling k then 1 else 0)%nat.
Proof.
  intros Hk Hi. destruct (ci_poll w o Hi p k Hk). split_and!; [done..|].
  pose proof (ci_loop w o Hi p) as Hl. unfold loop_right in Hl. by rewrite Hk in Hl.
Qed.

(** Client [c] has a transport that was made. *)
Definition bound w c p : Prop :=
  is_Some (cpolls w !! p) ∧ ∃ k, clis w !! c = Some k ∧ tport_le (Some (CPolling p)) (c_tport k).

Lemma bound_hist w w' c p : hist w w' → bound w c p → bound w' c p.
Proof.
  intros Hh ([kp Hkp] & k & Hk & Hle). destruct (ch_poll w w' Hh p kp Hkp) as (kp' & ? & _).
  destruct (ch_cli w w' Hh c k Hk) as (k' & ? & Hle' & _). split; [by eexists|].
  exists k'. split; [done|by etransitivity].
Qed.

(** Giving it a handler makes it usable. *)
Lemma cgood_handler c p w o : bound w c p → inv w o →
  let w' := upd_cpoll p (set_cp_handler (Some (mkBinding c (CPolling p)))) w in
  inv w' o ∧ hist w w' ∧ usable w' c ∧ callable w' (CPolling p).
Proof.
  intros ([kp Hkp] & k & Hk & Hle) Hi w'. unfold w'. rewrite (upd_poll_as_set p kp) by done.
  destruct (poll_numbers p kp w o Hkp Hi) as (N1 & N2 & N3).
  set (kp' := set_cp_handler (Some (mkBinding c (CPolling p))) kp).
  assert (callable (set_cpolls <[p := kp']> w) (CPolling p)) as Hc.
  { exists kp'. split; [|by eexists]. apply list_lookup_insert_eq. by eapply lookup_lt_Some. }
  assert (usable (set_cpolls <[p := kp']> w) c) as Hu.
  { destruct (callable_le _ _ _ Hc Hle) as (t & Ht & Hc'). by exists k, t. }
  assert (cpoll_le kp kp') as Hle' by (split_and!; simpl; [done|done|by eexists|done]).
  destruct (inv_cpoll p kp kp' w o o Hkp Hle' Hi) as [H1 H2]; try done.
  intros b [= <-]. exact Hu.
Qed.

(** Its bound client stays usable when the counters change. *)
Lemma handler_usable p k k' w o :
  cpolls w !! p = Some k → cpoll_le k k' → cp_handler k' = cp_handler k → inv w o →
  ∀ b, cp_handler k' = Some b → usable (set_cpolls <[p := k']> w) (b_client b).
Proof.
  intros Hk Hle Hb Hi b. rewrite Hb. intros Hb'. eapply usable_hist; [|by eapply (ci_poll w o Hi p k Hk)].
  split; [intros c k0 Hk0; exists k0; by split| |done]. intros q k0 Hk0.
  destruct (decide (p = q)) as [<-|Hne]; simpl.
  - rewrite list_lookup_insert_eq by by eapply lookup_lt_Some. simplify_eq. eauto.
  - rewrite list_lookup_insert_ne by done. by exists k0.
Qed.

Lemma cgood_upd_poll p (f : cpolling → cpolling) w :
  (∀ k, cpoll_le k (f k) ∧ cp_pauseCh (f k) = cp_pauseCh k ∧ cp_sendInflight (f k) = cp_sendInflight k
        ∧ cp_inflight (f k) = cp_inflight k ∧ cp_polling (f k) = cp_polling k
        ∧ cp_handler (f k) = cp_handler k) →
  good w (upd_cpoll p f w).
Proof.
  intros Hf. destruct (cpolls w !! p) as [k|] eqn:Hk; [|by rewrite upd_poll_none; [apply harmless_refl|]].
  rewrite (upd_poll_as_set p k) by done. destruct (Hf k) as (F1 & F2 & F3 & F4 & F5 & F6).
  intros o Hi. destruct (poll_numbers p k w o Hk Hi) as (N1 & N2 & N3).
  apply (inv_cpoll p k (f k) w o o); rewrite ?F3, ?F4, ?F5; try done. by eapply handler_usable.
Qed.

(** The tokens of transport [p]. *)
Definition token_of (p : nat) (t : ctoken) : Prop := t = CTSend p ∨ t = CTGet p ∨ t = CTLoop p.

Lemma trade_counters p k k' w F (o o' : gmultiset ctoken) :
  cpolls w !! p = Some k → cpoll_le k k' → inv w (o ⊎ F) →
  cp_pauseCh k' = cp_pauseCh k → cp_handler k' = cp_handler k → cp_polling k' = cp_polling k →
  (∀ t, t ∈ o ∨ t ∈ o' → token_of p t) →
  cp_sendInflight k' - cp_sendInflight k
    = Z.of_nat (multiplicity (CTSend p) o') - Z.of_nat (multiplicity (CTSend p) o) →
  cp_inflight k' - cp_inflight k
    = Z.of_nat (multiplicity (CTGet p) o') - Z.of_nat (multiplicity (CTGet p) o) →
  (multiplicity (CTLoop p) o' + multiplicity (CTGet p) o'
   ≤ multiplicity (CTLoop p) o + multiplicity (CTGet p) o)%nat →
  inv (set_cpolls <[p := k']> w) (o' ⊎ F) ∧ hist w (set_cpolls <[p := k']> w).
Proof.
  intros Hk Hle Hi Hch Hb Hpl Ht Hs Hg Hl. destruct (poll_numbers p k w _ Hk Hi) as (N1 & N2 & N3).
  rewrite !multiplicity_disj_union in *.
  apply (inv_cpoll p k k' w (o ⊎ F)); try done; rewrite ?multiplicity_disj_union; try lia.
  - rewrite Hpl. lia.
  - by eapply handler_usable.
  - intros t Hne. rewrite !multiplicity_disj_union.
    assert (∀ o0, (t ∈ o0 → token_of p t) → multiplicity t o0 = 0%nat) as Hz.
    { intros o0 H0. destruct (decide (t ∈ o0)) as [Hin|Hin]; [|multiset_solver].
      exfalso. destruct (H0 Hin) as [->|[->| ->]]; tauto. }
    rewrite (Hz o), (Hz o') by auto. done.
Qed.

(** The loop is started once. *)
Lemma trade_start p w F :
  let w' := upd_cpoll p (set_cp_polling true) w in
  let first := match cpolls w !! p with Some k => negb (cp_polling k) | None => false end in
  inv w F → inv w' ((if first then {[+ CTLoop p +]} else ∅) ⊎ F) ∧ hist w w'.
Proof.
  intros w' first Hi. unfold w', first.
  destruct (cpolls w !! p) as [k|] eqn:Hk.
  2: { rewrite (left_id_L ∅ (⊎)), upd_poll_none by done. by apply harmless_refl. }
  destruct (poll_numbers p k w F Hk Hi) as (N1 & N2 & N3).
  assert (cpoll_le k (set_cp_polling true k)) as Hle by by split_and!.
  assert (∀ b, cp_handler (set_cp_polling true k) = Some b →
    usable (set_cpolls <[p := set_cp_polling true k]> w) (b_client b)) as Hu by by eapply handler_usable.
  rewrite (upd_poll_as_set p k) by done. apply (inv_cpoll p k _ w F); try done; simpl.
  - destruct (cp_polling k); simpl; mults.
  - destruct (cp_polling k); simpl; mults.
  - destruct (cp_polling k); simpl; mults.
  - intros t (H1 & H2 & H3). destruct (cp_polling k); simpl; [by rewrite (left_id_L ∅ (⊎))|].
    rewrite multiplicity_disj_union, multiplicity_singleton_ne by done. done.
Qed.

(** A request is counted, and no longer. *)
Definition counted_send n (k : cpolling) : cpolling := set_cp_sendInflight (cp_sendInflight k + n) k.
Definition counted_get n (k : cpolling) : cpolling := set_cp_inflight (cp_inflight k + n) k.

Ltac counters p k Hk Hi :=
  rewrite (upd_poll_as_set p k) by done;
  eapply (trade_counters p k _ _ _ _ _ Hk); [by split_and!|exact Hi|done|done|done|..];
  [intros t [Ht|Ht]; unfold token_of; multiset_solver|simpl; mults..].

Lemma trade_send p w F : is_Some (cpolls w !! p) → inv w F →
  inv (upd_cpoll p (counted_send 1) w) ({[+ CTSend p +]} ⊎ F) ∧ hist w (upd_cpoll p (counted_send 1) w).
Proof. intros [k Hk] Hi. rewrite <- (left_id_L ∅ (⊎) F) in Hi. counters p k Hk Hi. Qed.

Lemma trade_sent p w F : is_Some (cpolls w !! p) → inv w ({[+ CTSend p +]} ⊎ F) →
  inv (upd_cpoll p (counted_send (-1)) w) F ∧ hist w (upd_cpoll p (counted_send (-1)) w).
Proof. intros [k Hk] Hi. rewrite <- (left_id_L ∅ (⊎) F) at 1. counters p k Hk Hi. Qed.

Lemma trade_get p w F : is_Some (cpolls w !! p) → inv w ({[+ CTLoop p +]} ⊎ F) →
  inv (upd_cpoll p (counted_get 1) w) ({[+ CTGet p +]} ⊎ F) ∧ hist w (upd_cpoll p (counted_get 1) w).
Proof. intros [k Hk] Hi. counters p k Hk Hi. Qed.

Lemma trade_got p w F : is_Some (cpolls w !! p) → inv w ({[+ CTGet p +]} ⊎ F) →
  inv (upd_cpoll p (counted_get (-1)) w) ({[+ CTLoop p +]} ⊎ F)
  ∧ hist w (upd_cpoll p (counted_get (-1)) w).
Proof. intros [k Hk] Hi. counters p k Hk Hi. Qed.

(** A paused transport goes on, with a new channel. *)
Definition resumed (d : chanp) (k : cpolling) : cpolling := set_cp_pauseCh d (set_cp_paused false k).

Lemma resume_locked_eq p k w o : cpolls w !! p = Some k → inv w o →
  resume_locked p w
  = if cp_paused k then
      set_cpolls <[p := resumed (length (cchans w)) k]>
        (set_cchans (λ l, <[cp_pauseCh k := true]> l ++ [false]) w)
    else w.
Proof.
  intros Hk Hi. destruct (ci_poll w o Hi p k Hk) as [_ _ Hch _].
  unfold resume_locked, close_cchan. rewrite Hk. destruct (cp_paused k); [|done].
  rewrite (upd_poll_as_set p k) by done.
  change (cchans (set_cpolls _ w)) with (cchans w). rewrite Hch.
  unfold add_cchan, upd_cpoll, set_cpolls, set_cchans. simpl. f_equal; rewrite length_insert.
  - rewrite (alter_as_insert _ _ _ (set_cp_paused false k)).
    + by rewrite list_insert_insert_eq.
    + apply list_lookup_insert_eq. by eapply lookup_lt_Some.
Qed.

Lemma cgood_resume p w : good w (resume_locked p w).
Proof.
  intros o Hi. destruct (cpolls w !! p) as [k|] eqn:Hk.
  2: { unfold resume_locked. rewrite Hk. by apply harmless_refl. }
  rewrite (resume_locked_eq p k w o) by done. destruct (cp_paused k); [|by apply harmless_refl].
  set (d := length (cchans w)). set (k' := resumed d k). set (w' := set_cpolls _ _).
  assert (∀ q, cpolls w' !! q = if decide (p = q) then Some k' else cpolls w !! q) as Hlk.
  { intros q. simpl. destruct (decide (p = q)) as [<-|E]; [|by apply list_lookup_insert_ne].
    apply list_lookup_insert_eq. by eapply lookup_lt_Some. }
  assert (hist w w') as Hh.
  { split; [intros c k0 Hk0; exists k0; by split| |done]. intros q k0 Hk0. rewrite Hlk.
    case_decide; [|by exists k0; split]. simplify_eq. exists k'. by split. }
  assert (cchans w' !! d = Some false) as Hd.
  { simpl. apply list_lookup_middle. by rewrite length_insert. }
  assert (∀ q kq, cpolls w !! q = Some kq → p ≠ q →
            cchans w' !! cp_pauseCh kq = Some false ∧ cp_pauseCh kq ≠ d) as Hother.
  { intros q kq Hq Hne. destruct (ci_poll w o Hi q kq Hq) as [_ _ Hc _].
    pose proof (lookup_lt_Some _ _ _ Hc) as Hlt. split; [|unfold d; lia]. simpl.
    rewrite lookup_app_l by (by rewrite length_insert). rewrite list_lookup_insert_ne; [done|].
    intros Heq. apply Hne. by eapply (ci_pause w o Hi). }
  split; [|done]. apply (inv_polls w w' o o Hi Hh); try done.
  - intros q k0. rewrite Hlk. case_decide as E; [subst q|]; intros Hk0.
    + simplify_eq. destruct (ci_poll w o Hi p k Hk) as [P1 P2 P3 P4].
      split; try done. intros b Hb. eapply usable_hist; [done|]. by apply P4.
    + destruct (ci_poll w o Hi q k0 Hk0) as [P1 P2 P3 P4]. split; try done.
      * by apply (Hother q).
      * intros b Hb. eapply usable_hist; [done|]. by apply P4.
  - intros q. unfold loop_right. rewrite Hlk. pose proof (ci_loop w o Hi q) as Hl. unfold loop_right in Hl.
    case_decide; [subst; by rewrite Hk in Hl|done].
  - intros q. rewrite Hlk. case_decide; [done|apply (ci_send w o Hi q)].
  - intros q q' k1 k2. rewrite !Hlk. pose proof (ci_pause w o Hi) as Hp.
    repeat case_decide; intros H1 H2 Heq; simplify_eq; eauto.
    + by destruct (Hother q' k2 H2).
    + by destruct (Hother q k1 H1).
Qed.

(** A new transport. *)
Lemma cgood_new_cpolling c u w :
  good w (new_cpolling c u w).2 ∧ (new_cpolling c u w).1 = length (cpolls w)
  ∧ is_Some (cpolls (new_cpolling c u w).2 !! length (cpolls w)).
Proof.
  set (w' := (new_cpolling c u w).2).
  set (k' := mkCPolling u c None (length (ctxs w)) false false (length (cchans w)) 0 0 false).
  assert (cpolls w' = cpolls w ++ [k'] ∧ cchans w' = cchans w ++ [false]) as [E1 E2] by done.
  assert (∀ q kq, cpolls w' !! q = Some kq → cpolls w !! q = Some kq ∨ q = length (cpolls w) ∧ kq = k') as Hnew.
  { intros q kq. rewrite E1. intros [?|[Hge Hq]]%lookup_app_Some; [by left|].
    apply list_lookup_singleton_Some in Hq as [? <-]. right. split; [lia|done]. }
  assert (∀ q kq, cpolls w !! q = Some kq → cpolls w' !! q = Some kq) as Hold.
  { intros q kq Hq. rewrite E1. by apply lookup_app_l_Some. }
  split_and!; [|done|rewrite E1, list_lookup_middle by done; by eexists].
  intros o Hi. assert (hist w w') as Hh.
  { split; [intros c0 k Hk; exists k; by split| |done]. intros q kq Hq. exists kq. split; [auto|done]. }
  assert (∀ t, t = CTSend (length (cpolls w)) ∨ t = CTGet (length (cpolls w)) → multiplicity t o = 0%nat) as Hz.
  { pose proof (ci_loop w o Hi (length (cpolls w))) as Hl. unfold loop_right in Hl.
    rewrite lookup_ge_None_2 in Hl by done. intros t [->| ->]; [|lia].
    apply (ci_send w o Hi). by apply lookup_ge_None_2. }
  split; [|done]. apply (inv_polls w w' o o Hi Hh); try done.
  - intros q kq [Hq|[-> ->]]%Hnew.
    + destruct (ci_poll w o Hi q kq Hq) as [P1 P2 P3 P4]. split; try done.
      * rewrite E2. by apply lookup_app_l_Some.
      * intros b Hb. eapply usable_hist; [done|]. by apply P4.
    + split; simpl; [by rewrite Hz by auto..| |done]. by apply list_lookup_middle.
  - intros q. pose proof (ci_loop w o Hi q) as Hl. unfold loop_right in Hl |- *.
    destruct (cpolls w !! q) as [kq|] eqn:Hq; [by rewrite (Hold q kq Hq)|].
    destruct (cpolls w' !! q) as [kq|]; [|done]. destruct (cp_polling kq); lia.
  - intros q Hq. apply (ci_send w o Hi). destruct (cpolls w !! q) as [kq|] eqn:E; [|done].
    by rewrite (Hold q kq E) in Hq.
  - assert (∀ q kq, cpolls w !! q = Some kq → cp_pauseCh kq ≠ length (cchans w)) as Hne.
    { intros q kq Hq. destruct (ci_poll w o Hi q kq Hq) as [_ _ Hc _]. apply lookup_lt_Some in Hc. lia. }
    intros q q' k1 k2 [H1|[-> ->]]%Hnew [H2|[-> ->]]%Hnew Heq; simpl in Heq.
    + by eapply (ci_pause w o Hi).
    + by destruct (Hne q k1).
    + by destruct (Hne q' k2).
    + done.
Qed.

(** ** WebSocket transports *)

(** The WebSocket transports may change as long as handlers lead to usable
    clients. *)
Lemma cgood_cwss f w :
  (∀ o i k b, inv w o → f (cwss w) !! i = Some k → cw_handler k = Some b → usable w (b_client b)) →
  good w (set_cwss f w).
Proof.
  intros Hf o Hi. assert (hist w (set_cwss f w)) as Hh by by apply hist_same. split; [|done].
  pose proof Hi as [I1 I2 I3 I4 I5 I6 I7 I8 I9 I10 I11]. split; try done.
  - intros p k Hk. by destruct (I3 p k Hk).
  - intros i k b Hk Hb. by eapply Hf.
Qed.

Lemma cgood_new_ws conn ctx w : good w (set_cwss (λ l, l ++ [mkCWebsocket conn ctx None false]) w).
Proof.
  apply cgood_cwss. intros o i k b Hi [Hk|[_ Hk]]%lookup_app_Some Hb; [by eapply (ci_ws w o Hi)|].
  by apply list_lookup_singleton_Some in Hk as [_ <-].
Qed.

Lemma cgood_upd_cws i (f : cwebsocket → cwebsocket) w :
  (∀ k b, cw_handler (f k) = Some b → cw_handler k = Some b ∨ usable w (b_client b)) →
  good w (upd_cws i f w).
Proof.
  intros Hf. apply cgood_cwss. intros o j k b Hi Hk Hb.
  destruct (decide (i = j)) as [->|Hne].
  - rewrite list_lookup_alter_eq in Hk. apply fmap_Some in Hk as (k0 & Hk0 & ->).
    destruct (Hf k0 b Hb); [by eapply (ci_ws w o Hi)|done].
  - rewrite list_lookup_alter_ne in Hk by done. by eapply (ci_ws w o Hi).
Qed.
End Invariant.
