(* ===== verification/ClientRequests.v ===== *)
(** * ClientRequests: the requests that are in flight

    Continues ClientInvariant.  A goroutine that has sent a request and waits
    for its answer keeps the request with its token: [(CTSend p, Some (i, x))]
    is a POST counted by transport [p] that is request [i] under the context
    [x], and [(CTSend p, None)] a POST that is counted and not under way.
    [counted] says that every request that is not answered, of a transport that
    still wants it, has a goroutine that counts it; so the counters are never
    below the number of these requests. *)

From stdpp Require Import gmultiset.
From S2P Require Import Prelude.
From S2P Require Import EnginePacket.
From S2P Require Import Sched.
From S2P Require Import Safety.
From S2P Require Import EngineTypes.
From S2P Require Import EngineOptions.
From S2P Require Import ClientTypes.
From S2P Require Import ClientTransport.
From S2P Require Import ClientEngine.
From S2P Require Import ClientInvariant.

Abbreviation owned := (ctoken * option (nat * ctxp))%type.

(** A goroutine that is over counts no request. *)
#[export] Instance client_lasting : Lasting owned | 10 :=
  λ t, match t.1 with CTSend _ | CTGet _ => False | _ => True end.

Definition kinds (o : gmultiset owned) : gmultiset ctoken := gmultiset_map fst o.

(** Tokens without a request. *)
Definition idle (t : ctoken) : owned := (t, None).
Definition idles (o : gmultiset ctoken) : gmultiset owned := gmultiset_map idle o.

(** The token of a request that transport [p] counts. *)
Definition request_token (p : nat) (meth : string) : ctoken :=
  if decide (meth = "POST") then CTSend p else CTGet p.

Lemma kinds_union o o' : kinds (o ⊎ o') = kinds o ⊎ kinds o'.
Proof. apply gmultiset_map_disj_union. Qed.

Lemma kinds_singleton t : kinds {[+ t +]} = {[+ t.1 +]}.
Proof. apply gmultiset_map_singleton. Qed.

Lemma idles_empty : idles ∅ = ∅.
Proof. apply gmultiset_map_empty. Qed.

Lemma idles_singleton t : idles {[+ t +]} = {[+ idle t +]}.
Proof. apply gmultiset_map_singleton. Qed.

Lemma kinds_idles o : kinds (idles o) = o.
Proof.
  unfold kinds, idles. induction o as [|t o IH] using gmultiset_ind.
  - by rewrite !gmultiset_map_empty.
  - by rewrite !gmultiset_map_disj_union, !gmultiset_map_singleton, IH.
Qed.

Lemma idles_plain t r o : (t, Some r) ∉ idles o.
Proof. unfold idles. rewrite elem_of_gmultiset_map. by intros (x & ? & _). Qed.

(** ** Counting *)

(** The indices of the elements that satisfy [P]. *)
Lemma filter_indices {A : Type} (P : A → Prop) `{!∀ x, Decision (P x)} (l : list A) :
  ∃ ix, NoDup ix ∧ length ix = length (filter P l) ∧ ∀ i, i ∈ ix → ∃ x, l !! i = Some x ∧ P x.
Proof.
  induction l as [|x l (ix & H1 & H2 & H3)].
  { exists []. split_and!; [constructor|done|]. by intros i Hi%elem_of_nil. }
  assert (∀ i, i ∈ S <$> ix → ∃ j, i = S j ∧ j ∈ ix) as HS by (intros i Hi; by apply list_elem_of_fmap in Hi).
  rewrite filter_cons. destruct (decide (P x)) as [Hx|Hx].
  - exists (0%nat :: (S <$> ix)). split_and!.
    + constructor; [|by apply NoDup_fmap_2; [intros ?? [=]|]]. intros (j & ? & _)%HS. done.
    + simpl. by rewrite length_fmap, H2.
    + intros i [->|(j & -> & Hj)%HS]%elem_of_cons; [by exists x|]. by apply H3.
  - exists (S <$> ix). split_and!.
    + by apply NoDup_fmap_2; [intros ?? [=]|].
    + by rewrite length_fmap, H2.
    + intros i (j & -> & Hj)%HS. by apply H3.
Qed.

(** As many tokens of kind [t] as there are different requests. *)
Lemma kinds_count (t : ctoken) (x : ctxp) (ix : list nat) (o : gmultiset owned) :
  NoDup ix → (∀ i, i ∈ ix → (t, Some (i, x)) ∈ o) → (length ix ≤ multiplicity t (kinds o))%nat.
Proof.
  intros Hnd. revert o. induction Hnd as [|i ix Hi Hnd IH]; intros o Hin; simpl; [lia|].
  assert (o = {[+ (t, Some (i, x)) +]} ⊎ (o ∖ {[+ (t, Some (i, x)) +]})) as ->.
  { apply gmultiset_disj_union_difference. apply gmultiset_singleton_subseteq_l, Hin. left. }
  rewrite kinds_union, kinds_singleton, multiplicity_disj_union, multiplicity_singleton_eq. simpl.
  apply le_n_S, IH. intros j Hj.
  assert (j ≠ i) by (by intros ->). assert ((t, Some (j, x)) ∈ o) by (apply Hin; by right).
  multiset_solver.
Qed.

Section Requests.
Context {C U : Type} `{WS : !WebsocketConn C} (choose : nat → bool).
Abbreviation W := (cworld C U).
Implicit Types (w : W) (c : clientp) (p : nat) (o F : gmultiset owned).

(** ** The invariant *)

Record counted w o : Prop := {
  wt_ctx p k : cpolls w !! p = Some k → (cp_ctx k < length (ctxs w))%nat;
  wt_inj p p' k k' : cpolls w !! p = Some k → cpolls w !! p' = Some k' → cp_ctx k = cp_ctx k' → p = p';
  wt_http i h : https w !! i = Some h → (h_ctx h < length (ctxs w))%nat;
  wt_wait i h p k : https w !! i = Some h → h_answer h = None → ctx_done (h_ctx h) w = false →
    cpolls w !! p = Some k → cp_ctx k = h_ctx h → (request_token p (h_method h), Some (i, h_ctx h)) ∈ o
}.

Definition cinv w o : Prop := inv w (kinds o) ∧ counted w o.

(** The requests of a transport that are not answered. *)
Definition in_flight (k : cpolling) (meth : string) (h : http_call) : bool :=
  bool_decide (h_method h = meth) && bool_decide (h_ctx h = cp_ctx k)
  && match h_answer h with None => true | Some _ => false end.

Definition unanswered w (k : cpolling) (meth : string) : nat :=
  length (filter (λ h, in_flight k meth h) (https w)).

Lemma requests_counted w o p k meth :
  counted w o → cpolls w !! p = Some k → ctx_done (cp_ctx k) w = false →
  (unanswered w k meth ≤ multiplicity (request_token p meth) (kinds o))%nat.
Proof.
  intros Hw Hk Hc. unfold unanswered.
  destruct (filter_indices (λ h, in_flight k meth h) (https w)) as (ix & Hnd & <- & His).
  apply (kinds_count _ (cp_ctx k)); [done|]. intros i Hi. destruct (His i Hi) as (h & Hh & Hf).
  unfold in_flight in Hf. rewrite !andb_True, !bool_decide_spec in Hf. destruct Hf as ((Hm & Hx) & Ha).
  destruct (h_answer h) eqn:E; [done|]. rewrite <- Hm, <- Hx. eapply (wt_wait w o Hw i h p k); try done.
  by rewrite Hx.
Qed.

(** Goroutines that are over count nothing. *)
Lemma leaves_none o p : leaves o → multiplicity (CTSend p) (kinds o) = 0%nat ∧ multiplicity (CTGet p) (kinds o) = 0%nat.
Proof.
  intros Ho. assert (∀ t, (∀ r, ¬ lasting (t, r)) → multiplicity t (kinds o) = 0%nat) as Hz.
  { intros t Ht. destruct (decide (multiplicity t (kinds o) = 0%nat)) as [|Hn]; [done|]. exfalso.
    assert (t ∈ kinds o) as Hin by (apply elem_of_multiplicity; lia).
    unfold kinds in Hin. apply elem_of_gmultiset_map in Hin as ([t' r] & -> & Hin). eapply Ht, (Ho _ Hin). }
  split; apply Hz; by intros r H.
Qed.

(** ** Steps that leave the requests alone *)

Definition calm w w' : Prop := ∀ o, counted w o → counted w' o.

Lemma calm_polls w w' :
  (https w', ctxs w') = (https w, ctxs w) → cp_ctx <$> cpolls w' = cp_ctx <$> cpolls w → calm w w'.
Proof.
  intros [= E1 E2] E3 o [H1 H2 H3 H4].
  assert (∀ p k, cpolls w' !! p = Some k → ∃ k0, cpolls w !! p = Some k0 ∧ cp_ctx k0 = cp_ctx k) as Hk.
  { intros p k Hk. assert ((cp_ctx <$> cpolls w') !! p = Some (cp_ctx k)) as Hl by by rewrite list_lookup_fmap, Hk.
    rewrite E3, list_lookup_fmap in Hl. by apply fmap_Some in Hl as (k0 & ? & ?); exists k0. }
  split; rewrite ?E1, ?E2.
  - intros p k (k0 & ? & <-)%Hk. eauto.
  - intros p p' k k' (k0 & ? & <-)%Hk (k1 & ? & <-)%Hk. eauto.
  - done.
  - intros i h p k Hh Ha Hd (k0 & ? & <-)%Hk. apply (H4 i h p k0); try done.
    unfold ctx_done in *. by rewrite E2 in Hd.
Qed.

Lemma calm_same w w' : (https w', ctxs w', cpolls w') = (https w, ctxs w, cpolls w) → calm w w'.
Proof. intros [= E1 E2 E3]. apply calm_polls; congruence. Qed.

Lemma fmap_alter_same {A B : Type} (g : A → B) (f : A → A) i (l : list A) :
  (∀ x, g (f x) = g x) → g <$> alter f i l = g <$> l.
Proof.
  intros Hf. apply list_eq. intros j. rewrite !list_lookup_fmap. destruct (decide (i = j)) as [->|Hne].
  - rewrite list_lookup_alter_eq. destruct (l !! j); simpl; [by rewrite Hf|done].
  - by rewrite list_lookup_alter_ne.
Qed.

Lemma calm_upd_poll p (f : cpolling → cpolling) w : (∀ k, cp_ctx (f k) = cp_ctx k) → calm w (upd_cpoll p f w).
Proof. intros Hf. apply calm_polls; [done|]. by apply fmap_alter_same. Qed.

Lemma lift_trade w w' (ts ts' : gmultiset ctoken) F :
  (inv w (ts ⊎ kinds F) → inv w' (ts' ⊎ kinds F) ∧ hist w w') → calm w w' →
  cinv w (idles ts ⊎ F) → cinv w' (idles ts' ⊎ F) ∧ hist w w'.
Proof.
  intros Hi Hc [H1 H2]. rewrite kinds_union, kinds_idles in H1. destruct (Hi H1) as [H3 H4].
  split; [|done]. split; [by rewrite kinds_union, kinds_idles|]. apply Hc.
  destruct H2 as [W1 W2 W3 W4]. split; [done..|]. intros i h p k Hh Ha Hd Hk Hx.
  pose proof (W4 i h p k Hh Ha Hd Hk Hx) as Hin. rewrite gmultiset_elem_of_disj_union in *.
  destruct Hin as [Hin|Hin]; [by apply idles_plain in Hin|by right].
Qed.

Lemma lift_good w w' : harmless inv hist w w' → calm w w' → harmless cinv hist w w'.
Proof. intros Hg Hc o [H1 H2]. destruct (Hg _ H1) as [H3 H4]. split; [|done]. split; [done|by apply Hc]. Qed.

(** ** Contexts *)

Lemma calm_cancel x w : calm w (cancel_ctx x w).
Proof.
  intros o [H1 H2 H3 H4]. assert (length (ctxs (cancel_ctx x w)) = length (ctxs w)) as Hl by apply length_insert.
  split; rewrite ?Hl; try done. intros i h p k Hh Ha Hd. apply H4; try done.
  revert Hd. unfold ctx_done, cancel_ctx. simpl. destruct (decide (x = h_ctx h)) as [->|Hne].
  - by rewrite list_lookup_insert_eq by exact (H3 i h Hh).
  - by rewrite list_lookup_insert_ne.
Qed.

Lemma ctx_done_app x l w : (x < length (ctxs w))%nat → ctx_done x (set_ctxs (λ cs, cs ++ l) w) = ctx_done x w.
Proof. intros Hx. unfold ctx_done. simpl. by rewrite lookup_app_l. Qed.

Lemma calm_add_ctx w : calm w (add_ctx w).2.
Proof.
  intros o [H1 H2 H3 H4]. unfold add_ctx. simpl.
  assert (length (ctxs (set_ctxs (λ l, l ++ [false]) w)) = S (length (ctxs w))) as Hl
    by (simpl; rewrite length_app; simpl; lia).
  split; rewrite ?Hl; try done.
  - intros p k Hk. specialize (H1 p k Hk). lia.
  - intros i h Hh. specialize (H3 i h Hh). lia.
  - intros i h p k Hh Ha. rewrite ctx_done_app by eauto. by apply H4.
Qed.

(** ** Requests *)

Lemma calm_answered i a w : calm w (answered i a w).
Proof.
  intros o [H1 H2 H3 H4].
  assert (∀ j h, https (answered i a w) !! j = Some h →
    ∃ h0, https w !! j = Some h0 ∧ h_method h0 = h_method h ∧ h_ctx h0 = h_ctx h
          ∧ (h_answer h = None → h_answer h0 = None)) as Hh.
  { intros j h. unfold answered. simpl. destruct (decide (i = j)) as [->|Hne].
    - rewrite list_lookup_alter_eq. intros (h0 & Hh0 & ->)%fmap_Some. exists h0.
      split_and!; try done. simpl. by destruct (h_answer h0).
    - rewrite list_lookup_alter_ne by done. intros Hj. by exists h. }
  split; try done.
  - intros j h (h0 & Hj & _ & <- & _)%Hh. eauto.
  - intros j h p k (h0 & Hj & <- & <- & Ha)%Hh. intros. apply (H4 j h0 p k); auto.
Qed.

Lemma calm_new_cpolling c u w : calm w (new_cpolling c u w).2.
Proof.
  intros o [H1 H2 H3 H4]. set (w' := (new_cpolling c u w).2).
  assert (length (ctxs w') = S (length (ctxs w))) as Hl
    by (unfold w'; simpl; rewrite length_app; simpl; lia).
  assert (∀ p k, cpolls w' !! p = Some k →
    cpolls w !! p = Some k ∨ p = length (cpolls w) ∧ cp_ctx k = length (ctxs w)) as Hk.
  { intros p k [?|[Hge Hk]]%lookup_app_Some; [by left|]. right.
    apply list_lookup_singleton_Some in Hk as [? <-]. simpl in *. split; [lia|done]. }
  assert (https w' = https w) as Eh by done. split; rewrite ?Hl, ?Eh.
  - intros p k [Hp|[-> ->]]%Hk; [specialize (H1 p k Hp)|]; lia.
  - intros p p' k k' [Hp|[-> E]]%Hk [Hp'|[-> E']]%Hk Hx; eauto.
    + specialize (H1 p k Hp). lia.
    + specialize (H1 p' k' Hp'). lia.
  - intros i h Hh. specialize (H3 i h Hh). lia.
  - intros i h p k Hh Ha Hd [Hp|[-> E]]%Hk Hx; [|specialize (H3 i h Hh); lia]. apply (H4 i h p k); try done.
    rewrite <- Hd. unfold ctx_done, w'. simpl. by rewrite lookup_app_l by eauto.
Qed.

(** A goroutine that counts a request sends it, and is answered. *)
Lemma trade_request p k meth u body ctx w F :
  cpolls w !! p = Some k → cp_ctx k = ctx → cinv w ({[+ idle (request_token p meth) +]} ⊎ F) →
  cinv (send_request meth u body ctx w).2 ({[+ (request_token p meth, Some (length (https w), ctx)) +]} ⊎ F)
  ∧ hist w (send_request meth u body ctx w).2.
Proof.
  intros Hk Hx [Hi [H1 H2 H3 H4]]. set (w' := (send_request meth u body ctx w).2).
  rewrite kinds_union, kinds_singleton in Hi.
  destruct (cgood_same w w' eq_refl _ Hi) as [Hi' Hh]. split; [|done].
  split; [by rewrite kinds_union, kinds_singleton|].
  assert (∀ i h, https w' !! i = Some h →
    https w !! i = Some h ∨ i = length (https w) ∧ h = mkHttp meth u body ctx None) as Hn.
  { intros i h [?|[Hge Hl]]%lookup_app_Some; [by left|]. right.
    apply list_lookup_singleton_Some in Hl as [? <-]. split; [lia|done]. }
  split; [done|done|..].
  - intros i h [Hi0|[-> ->]]%Hn; [by eapply H3|]. simpl. rewrite <- Hx. by eapply H1.
  - intros i h q kq [Hi0|[-> ->]]%Hn Ha Hd Hq Hc.
    + pose proof (H4 i h q kq Hi0 Ha Hd Hq Hc). multiset_solver.
    + simpl in *. assert (q = p) as -> by (eapply H2; [done..|congruence]). multiset_solver.
Qed.

Lemma trade_answer (t : ctoken) i ctx w r w' F :
  match https w !! i with Some h => take_answer choose ctx (h_answer h) w | None => None end = Some (r, w') →
  cinv w ({[+ (t, Some (i, ctx)) +]} ⊎ F) → cinv w' ({[+ idle t +]} ⊎ F) ∧ hist w w'.
Proof.
  intros Ht [Hi [H1 H2 H3 H4]]. rewrite kinds_union, kinds_singleton in Hi.
  destruct (https w !! i) as [h|] eqn:Hh; [|done].
  assert (w' = set_ctick S w ∧ (h_answer h = None → ctx_done ctx w = true)) as [-> Hd].
  { unfold take_answer in Ht. destruct (h_answer h); [by simplify_eq|]. by destruct (ctx_done ctx w); simplify_eq. }
  destruct (cgood_same w (set_ctick S w) eq_refl _ Hi) as [Hi' Hh']. split; [|done].
  split; [by rewrite kinds_union, kinds_singleton|]. split; [done..|].
  intros j hj p k Hj Ha Hc Hk Hx. pose proof (H4 j hj p k Hj Ha Hc Hk Hx) as Hin.
  change (ctx_done (h_ctx hj) w = false) in Hc. change (https w !! j = Some hj) in Hj.
  apply gmultiset_elem_of_disj_union in Hin as [Hin|Hin]; [|multiset_solver].
  apply gmultiset_elem_of_singleton in Hin. simplify_eq. exfalso. rewrite Hd in Hc by done. done.
Qed.

(** ** The steps of the client, again *)

Abbreviation good := (harmless cinv hist).

Lemma cl_good_same w w' :
  (clis w', cpolls w', cuplog w', cwss w', cchans w', handles w', cpanicked w', ctimers w', https w', ctxs w')
  = (clis w, cpolls w, cuplog w, cwss w, cchans w, handles w, cpanicked w, ctimers w, https w, ctxs w) →
  good w w'.
Proof. intros [=]. apply lift_good; [apply cgood_same|apply calm_same]; congruence. Qed.

Lemma cl_good_cancel x w : good w (cancel_ctx x w).
Proof. apply lift_good; [by apply cgood_same|apply calm_cancel]. Qed.

Lemma cl_good_add_ctx w : good w (add_ctx w).2.
Proof. apply lift_good; [by apply cgood_same|apply calm_add_ctx]. Qed.

Lemma cl_good_answered i a w : good w (answered i a w).
Proof. apply lift_good; [by apply cgood_same|apply calm_answered]. Qed.

Lemma cl_good_fire tm u w w' : fire_ctimer tm w = Some (u, w') → good w w'.
Proof.
  intros Hf. apply lift_good; [by eapply cgood_fire|]. unfold fire_ctimer in Hf.
  destruct (ctimers w !! tm) as [[d []]|]; simplify_eq. by apply calm_same.
Qed.

Lemma cl_good_upd_cli c (f : client → client) w : (∀ k, core (f k) = core k) → good w (upd_cli c f w).
Proof. intros Hf. apply lift_good; [by apply cgood_upd_cli|by apply calm_same]. Qed.

Lemma cl_good_switch c i w : usable w c → good w (cl_switch c (CWebsocket i) w).2.
Proof.
  intros Hu. apply lift_good; [by apply cgood_switch|]. unfold cl_switch.
  destruct (clis w !! c) as [k|]; [destruct (c_closed k)|]; by apply calm_same.
Qed.

Lemma cl_good_handshake c v w : usable w c →
  good w (match clis w !! c with
          | Some k => if c_handshakeOnce k then w
                      else upd_cli c (λ k, set_c_handshakeDone (Some v) (set_c_handshakeOnce true k)) w
          | None => w
          end).
Proof.
  intros Hu. apply lift_good; [by apply cgood_handshake|].
  destruct (clis w !! c) as [k|]; [destruct (c_handshakeOnce k)|]; by apply calm_same.
Qed.

Lemma cl_good_received c w : good w (upd_cli c (set_c_handshakeDone None) w).
Proof. apply lift_good; [apply cgood_received|by apply calm_same]. Qed.

Lemma cl_good_arm c d w : good w (arm_watchdog c d w).2.
Proof.
  apply lift_good; [apply cgood_arm|]. unfold arm_watchdog.
  destruct (clis w !! c) as [k|]; [destruct (c_closed k), (c_noPing k)|]; by apply calm_same.
Qed.

Lemma cl_good_handle c w : usable w c → good w (set_handles (λ l, l ++ [c]) w).
Proof. intros Hu. apply lift_good; [by apply cgood_handle|by apply calm_same]. Qed.

Lemma cl_good_upd_poll p (f : cpolling → cpolling) w :
  (∀ k, cpoll_le k (f k) ∧ cp_pauseCh (f k) = cp_pauseCh k ∧ cp_sendInflight (f k) = cp_sendInflight k
        ∧ cp_inflight (f k) = cp_inflight k ∧ cp_polling (f k) = cp_polling k
        ∧ cp_handler (f k) = cp_handler k) →
  good w (upd_cpoll p f w).
Proof.
  intros Hf. apply lift_good; [by apply cgood_upd_poll|]. apply calm_upd_poll. intros k.
  by destruct (Hf k) as [(_ & _ & _ & ?) _].
Qed.

Lemma cl_good_resume p w : good w (resume_locked p w).
Proof.
  apply lift_good; [apply cgood_resume|]. unfold resume_locked, close_cchan.
  destruct (cpolls w !! p) as [k|]; [|by apply calm_same]. destruct (cp_paused k); [|by apply calm_same].
  intros o Hw. simpl.
  assert (∀ w1 (f : cpolling → cpolling), (∀ k0, cp_ctx (f k0) = cp_ctx k0) →
    counted w1 o → counted (upd_cpoll p f w1) o) as Hu by (intros w1 f Hf; by apply calm_upd_poll).
  apply Hu; [done|]. apply (calm_same (upd_cpoll p (set_cp_paused false) w)); [|by apply Hu].
  by destruct (cchans w !! cp_pauseCh k) as [[]|].
Qed.

Lemma cl_good_new_ws conn ctx w : good w (set_cwss (λ l, l ++ [mkCWebsocket conn ctx None false]) w).
Proof. apply lift_good; [apply cgood_new_ws|by apply calm_same]. Qed.

Lemma cl_good_upd_cws i (f : cwebsocket → cwebsocket) w :
  (∀ k b, cw_handler (f k) = Some b → cw_handler k = Some b ∨ usable w (b_client b)) →
  good w (upd_cws i f w).
Proof. intros Hf. apply lift_good; [by apply cgood_upd_cws|by apply calm_same]. Qed.

Lemma cl_good_handler c p w o : bound w c p → cinv w o →
  let w' := upd_cpoll p (set_cp_handler (Some (mkBinding c (CPolling p)))) w in
  cinv w' o ∧ hist w w' ∧ usable w' c ∧ callable w' (CPolling p).
Proof.
  intros Hb [H1 H2]. destruct (cgood_handler c p w _ Hb H1) as (H3 & H4 & H5 & H6). split_and!; [|done..].
  split; [done|]. by apply calm_upd_poll.
Qed.

Lemma cl_good_new_cpolling c u w :
  good w (new_cpolling c u w).2 ∧ (new_cpolling c u w).1 = length (cpolls w)
  ∧ is_Some (cpolls (new_cpolling c u w).2 !! length (cpolls w)).
Proof.
  destruct (cgood_new_cpolling c u w) as (H1 & H2 & H3). split_and!; [|done..].
  apply lift_good; [done|apply calm_new_cpolling].
Qed.

(** *** Tokens *)

Lemma cinv_empty w F : cinv w F → cinv w (idles ∅ ⊎ F).
Proof. by rewrite idles_empty, (left_id_L ∅ (⊎)). Qed.

(** [lift_trade] for the step whose lemma is [L]; one without tokens. *)
Ltac lifting :=
  eapply lift_trade; [|first [by apply calm_upd_poll | by apply calm_same]|done].

Lemma take_send p w F : is_Some (cpolls w !! p) → cinv w F →
  cinv (upd_cpoll p (counted_send 1) w) (idles {[+ CTSend p +]} ⊎ F) ∧ hist w (upd_cpoll p (counted_send 1) w).
Proof.
  intros Hp Hi%cinv_empty. lifting. rewrite (left_id_L ∅ (⊎)). by apply trade_send.
Qed.

Lemma drop_send p w F : is_Some (cpolls w !! p) → cinv w (idles {[+ CTSend p +]} ⊎ F) →
  cinv (upd_cpoll p (counted_send (-1)) w) F ∧ hist w (upd_cpoll p (counted_send (-1)) w).
Proof.
  intros Hp Hi. assert (F = idles ∅ ⊎ F) as -> by by rewrite idles_empty, (left_id_L ∅ (⊎)).
  lifting. rewrite (left_id_L ∅ (⊎)). by apply trade_sent.
Qed.

Lemma take_get p w F : is_Some (cpolls w !! p) → cinv w (idles {[+ CTLoop p +]} ⊎ F) →
  cinv (upd_cpoll p (counted_get 1) w) (idles {[+ CTGet p +]} ⊎ F) ∧ hist w (upd_cpoll p (counted_get 1) w).
Proof. intros Hp Hi. lifting. by apply trade_get. Qed.

Lemma drop_get p w F : is_Some (cpolls w !! p) → cinv w (idles {[+ CTGet p +]} ⊎ F) →
  cinv (upd_cpoll p (counted_get (-1)) w) (idles {[+ CTLoop p +]} ⊎ F)
  ∧ hist w (upd_cpoll p (counted_get (-1)) w).
Proof. intros Hp Hi. lifting. by apply trade_got. Qed.

Lemma take_start p w F :
  let w' := upd_cpoll p (set_cp_polling true) w in
  let first := match cpolls w !! p with Some k => negb (cp_polling k) | None => false end in
  cinv w F → cinv w' (idles (if first then {[+ CTLoop p +]} else ∅) ⊎ F) ∧ hist w w'.
Proof.
  intros w' first Hi%cinv_empty. lifting. rewrite (left_id_L ∅ (⊎)). apply trade_start.
Qed.

Lemma take_new_client u op w F :
  let w' := set_clis (λ l, l ++ [new_client u op]) w in
  cinv w F → cinv w' (idles {[+ CTDial (length (clis w)) +]} ⊎ F) ∧ hist w w'.
Proof. intros w' Hi%cinv_empty. lifting. rewrite (left_id_L ∅ (⊎)). apply trade_new_client. Qed.

Lemma drop_dial c t w F :
  let w' := upd_cli c (set_c_tport (Some t)) w in
  cinv w (idles {[+ CTDial c +]} ⊎ F) →
  cinv w' F ∧ hist w w' ∧ ∃ k, clis w' !! c = Some k ∧ c_tport k = Some t.
Proof.
  intros w' Hi. assert (cinv w' (idles ∅ ⊎ F) ∧ hist w w') as [H1 H2].
  { lifting. rewrite (left_id_L ∅ (⊎)). intros (? & ? & _)%(trade_dial c t). done. }
  rewrite idles_empty, (left_id_L ∅ (⊎)) in H1. split_and!; [done..|].
  destruct Hi as [Hi _]. rewrite kinds_union, kinds_idles in Hi. by apply (trade_dial c t) in Hi as (_ & _ & ?).
Qed.

Lemma take_mark_closed c w F :
  cinv w F →
  cinv (mark_closed c w).2
    (idles (match (mark_closed c w).1 with Some _ => {[+ CTClosing c +]} | None => ∅ end) ⊎ F)
  ∧ hist w (mark_closed c w).2.
Proof.
  intros Hi%cinv_empty. eapply lift_trade; [| |done].
  - rewrite (left_id_L ∅ (⊎)). apply trade_mark_closed.
  - unfold mark_closed. destruct (clis w !! c) as [k|]; [destruct (c_closed k), (c_noPing k)|]; by apply calm_same.
Qed.

Lemma drop_log e w F :
  let w' := set_cuplog (λ l, l ++ [e]) w in
  cinv w (idles (match closed_client e with Some c => {[+ CTClosing c +]} | None => ∅ end) ⊎ F) →
  cinv w' F ∧ hist w w'.
Proof.
  intros w' Hi. assert (cinv w' (idles ∅ ⊎ F) ∧ hist w w') as [H1 H2].
  { lifting. rewrite (left_id_L ∅ (⊎)). apply trade_log. }
  by rewrite idles_empty, (left_id_L ∅ (⊎)) in H1.
Qed.

(** Permissions that are not used. *)
Lemma drop_closing c w F : cinv w (idles {[+ CTClosing c +]} ⊎ F) → cinv w F.
Proof.
  intros [H1 H2]. rewrite kinds_union, kinds_idles in H1. split.
  - eapply cinv_less; [| |exact H1]; intros; [|split]; mults.
  - destruct H2 as [W1 W2 W3 W4]. split; [done..|]. intros i h p k Hh Ha Hd Hk Hx.
    pose proof (W4 i h p k Hh Ha Hd Hk Hx) as [Hin|Hin]%gmultiset_elem_of_disj_union; [|done].
    by apply idles_plain in Hin.
Qed.
End Requests.
