(* ===== verification/ClientSafety.v ===== *)
(** * ClientSafety: every operation of the Engine.IO client keeps the invariant

    One lemma per operation of ClientTransport and ClientEngine, and the
    theorem for any interleaving of dials, calls of the API, timers and
    answers of the network. *)

From stdpp Require Import gmultiset.
From S2P Require Import Prelude.
From S2P Require Import EnginePacket.
From S2P Require Import Sched.
From S2P Require Import Safety.
From S2P Require Import EngineTypes.
From S2P Require Import EngineOptions.
From S2P Require Import OpenPacket.
From S2P Require Import ClientTypes.
From S2P Require Import ClientTransport.
From S2P Require Import ClientEngine.
From S2P Require Import EngineDemo.
From S2P Require Import ClientDemo.
From S2P Require Import ClientInvariant.
From S2P Require Import ClientRequests.

Section Safety.
Context {C U : Type} `{WS : !WebsocketConn C} (choose : nat → bool).
Abbreviation W := (cworld C U).
Abbreviation P := (mprog W cl_method).
Implicit Types (w : W) (c : clientp) (p : nat) (o F : gmultiset owned).

(** What a caller of a method must know. *)
Definition pre (m : cl_method) w o : Prop :=
  o = ∅ ∧ match m with
          | CMSend t _ => callable w t
          | CMClose _ => True
          | CMOnPacket b _ | CMOnError b _ | CMOnClose b => usable w (b_client b)
          | CMProbe c _ _ _ => usable w c
          end.

Abbreviation good := (harmless cinv hist).
Abbreviation kp w p Q := (keeps cinv hist pre w p Q).
Abbreviation sf w p := (keeps cinv hist pre w p (λ _ _, True)).
Abbreviation ow w o p Q := (own cinv hist pre w o p Q).

Lemma kp_gets {B : Type} w (f : W → B) (Q : B → W → Prop) :
  (∀ w1 w3 F, hist w w1 → cinv w1 F → hist w1 w3 → Q (f w1) w3) → kp w (gets f) Q.
Proof. intros H. apply (keeps_gets cinv hist pre). intros w1 w3 F F' H1 H2 H3 _. by eapply H. Qed.

Lemma sf_same {B : Type} w (f : W → B * W) :
  (∀ w1, let w' := (f w1).2 in
    (clis w', cpolls w', cuplog w', cwss w', cchans w', handles w', cpanicked w', ctimers w', https w', ctxs w')
    = (clis w1, cpolls w1, cuplog w1, cwss w1, cchans w1, handles w1, cpanicked w1, ctimers w1, https w1,
       ctxs w1)) →
  sf w (atomic f).
Proof. intros Hf. apply sf_atomic. intros w1 _. apply cl_good_same, Hf. Qed.

(** ** The network *)

(** Transport [p] makes its requests under the context [ctx]. *)
Definition own_context w p ctx : Prop := ∃ k, cpolls w !! p = Some k ∧ cp_ctx k = ctx.

Lemma own_context_hist w w' p ctx : hist w w' → own_context w p ctx → own_context w' p ctx.
Proof.
  intros Hh (k & Hk & <-). destruct (ch_poll w w' Hh p k Hk) as (k' & Hk' & _ & _ & _ & Hc). by exists k'.
Qed.

Lemma kp_context w p : is_Some (cpolls w !! p) →
  kp w (cpoll_get p 0%nat cp_ctx) (λ ctx w', own_context w' p ctx).
Proof.
  intros [k0 Hk0]. apply kp_gets. intros w1 w3 F H1 _ H3.
  destruct (ch_poll w w1 H1 p k0 Hk0) as (k & Hk & _). rewrite Hk. eapply own_context_hist; [done|]. by exists k.
Qed.

(** A request that is counted is counted until it is over. *)
Lemma own_http_do w p meth u body ctx : own_context w p ctx →
  ow w (idles {[+ request_token p meth +]}) (http_do choose meth u body ctx)
    (λ _ _ o', o' = idles {[+ request_token p meth +]}).
Proof.
  intros Hp. unfold http_do. rewrite idles_singleton.
  eapply (own_bind cinv hist pre) with (Q := λ i _ o', o' = {[+ (request_token p meth, Some (i, ctx)) +]}).
  { apply (own_atomic cinv hist pre). intros w1 F H1 Hi.
    destruct (own_context_hist w w1 p ctx H1 Hp) as (k & Hk & Hx).
    destruct (trade_request choose p k meth u body ctx w1 F Hk Hx Hi) as [Hi' Hh']. eexists. by split_and!. }
  intros i w1 o1 F1 _ _ ->. apply (own_await cinv hist pre). intros w2 F r w3 _ Hi Ht.
  destruct (trade_answer choose _ i ctx w2 r w3 F Ht Hi) as [Hi' Hh']. eexists. by split_and!.
Qed.

Lemma sf_dial w u ctx : sf w (dial_websocket choose u ctx).
Proof.
  apply sf_then; [by apply sf_same|]. intros i w1 _.
  apply sf_await. intros w2 b w3 _. unfold take_answer. intros; bust; by apply cl_good_same.
Qed.

Lemma sf_read_body w ctx resp : sf w (read_body choose ctx resp).
Proof. by apply sf_same. Qed.

Lemma sf_cconn_read w i ctx : sf w (cconn_read i ctx).
Proof. apply sf_await. intros; bust; by apply cl_good_same. Qed.

Lemma sf_cconn_write w i ctx b data : sf w (cconn_write i ctx b data).
Proof. apply sf_await. intros; bust; by apply cl_good_same. Qed.

Lemma sf_update_same w (f : W → W) :
  (∀ w1, let w' := f w1 in
    (clis w', cpolls w', cuplog w', cwss w', cchans w', handles w', cpanicked w', ctimers w', https w', ctxs w')
    = (clis w1, cpolls w1, cuplog w1, cwss w1, cchans w1, handles w1, cpanicked w1, ctimers w1, https w1,
       ctxs w1)) →
  sf w (update f).
Proof. intros Hf. apply sf_update. intros w1 _. apply cl_good_same, Hf. Qed.

Lemma sf_cancel w x : sf w (update (cancel_ctx x)).
Proof. apply sf_update. intros. apply cl_good_cancel. Qed.

Lemma sf_add_ctx w : sf w (atomic add_ctx).
Proof. apply sf_atomic. intros. apply cl_good_add_ctx. Qed.

#[local] Hint Resolve sf_dial sf_read_body sf_cconn_read sf_cconn_write : sf.

(** ** Polling *)

(** A call through the handler of a transport that has one. *)
Lemma sf_cp_notify w p (m : binding → cl_method) :
  (∀ b w', usable w' (b_client b) → pre (m b) w' ∅) → callable w (CPolling p) → sf w (cp_notify p m).
Proof.
  intros Hm Hc. unfold cp_notify.
  eapply (keeps_bind cinv hist pre) with (Q := λ h w', ∃ b, h = Some b ∧ usable w' (b_client b)).
  - apply kp_gets. intros w1 w3 F Hh Hi Hh3.
    destruct (callable_hist w w1 _ Hh Hc) as (k & Hk & [b Hb]). rewrite Hk. exists b.
    split; [done|]. eapply usable_hist; [done|]. by eapply (ci_poll w1 _ (proj1 Hi) p k Hk).
  - intros h w1 F _ _ (b & -> & Hb). apply sf_call. intros w2 Hh2. apply Hm. by eapply usable_hist.
Qed.

Lemma sf_notify_error w p f : callable w (CPolling p) → sf w (cp_notify p (λ b, CMOnError b f)).
Proof. apply sf_cp_notify. by split. Qed.

Lemma sf_urlWithSID w p : sf w (urlWithSID p).
Proof.
  apply sf_then; [apply sf_gets|]. intros [[u c]|] w1 _; [|apply sf_ret].
  apply sf_then; [apply sf_gets|]. intros; apply sf_ret.
Qed.

Lemma good_flag p (f : cpolling → cpolling) w :
  (∀ k, f k = set_cp_closed true k ∨ f k = set_cp_paused true k) → good w (upd_cpoll p f w).
Proof. intros Hf. apply cl_good_upd_poll. intros k. by destruct (Hf k) as [-> | ->]; split_and!. Qed.

Lemma sf_pause w p : sf w (cp_pause p).
Proof.
  apply sf_then.
  - apply sf_atomic. intros w1 _. apply good_flag. auto.
  - intros busy w1 _. apply sf_when. intros _. apply sf_await. intros; bust; apply harmless_refl.
Qed.

Lemma sf_stopForUpgrade w p : sf w (stopForUpgrade p).
Proof. apply sf_update. intros. apply good_flag. auto. Qed.

Lemma sf_resume w p : sf w (cp_resume p).
Proof. apply sf_update. intros. apply cl_good_resume. Qed.

Lemma callable_exists w p : callable w (CPolling p) → is_Some (cpolls w !! p).
Proof. intros (k & Hk & _). by eexists. Qed.

Lemma sf_cp_Send w p pkts : callable w (CPolling p) → sf w (cp_Send choose p pkts).
Proof.
  intros Hc. unfold cp_Send. apply sf_then; [apply sf_urlWithSID|]. intros u w1 H1.
  eapply (keeps_bind cinv hist pre).
  { apply kp_context. eapply callable_exists, callable_hist; eauto. }
  intros ctx w2 F2 H2 _ Hx.
  assert (callable w2 (CPolling p)) as Hc2 by (eapply callable_hist; [|exact Hc]; by etransitivity).
  eapply (own_bind cinv hist pre) with (Q := λ _ _ o', o' = idles {[+ CTSend p +]}).
  { apply (own_update cinv hist pre). intros w3 F H3 Hi. rewrite (left_id_L ∅ (⊎)) in Hi.
    destruct (take_send p w3 F) as [Hi' Hh']; [eapply callable_exists, callable_hist; eauto|done|].
    eexists. by split_and!. }
  intros _ w3 o3 F3 H3 _ ->.
  eapply (own_bind cinv hist pre); [apply (own_http_do w3 p "POST"); by eapply own_context_hist|].
  intros r w4 o4 F4 H4 _ ->. change (request_token p "POST") with (CTSend p).
  assert (callable w4 (CPolling p)) as Hc4 by (eapply callable_hist; [|exact Hc2]; by etransitivity).
  eapply own_then_keeps.
  { apply (own_update cinv hist pre). intros w5 F H5 Hi.
    destruct (drop_send p w5 F) as [Hi' Hh']; [eapply callable_exists, callable_hist; eauto|done|].
    exists ∅. rewrite (left_id_L ∅ (⊎)). by split_and!. }
  intros w5 H5. assert (callable w5 (CPolling p)) as Hc5 by by eapply callable_hist.
  destruct r as [resp|e].
  - apply sf_when. intros _. by apply sf_notify_error.
  - apply sf_then; [apply sf_gets|]. intros [] w6 H6; [apply sf_skip|].
    apply sf_notify_error. by eapply callable_hist.
Qed.

(** ** The loop of a polling transport *)

Lemma sf_notify_false w p f : callable w (CPolling p) →
  sf w (cp_notify p (λ b, CMOnError b f) ≫= λ _, mret false).
Proof. intros Hc. apply sf_then; [by apply sf_notify_error|]. intros. apply sf_ret. Qed.

Lemma sf_poll_body w p ctx resp : callable w (CPolling p) → sf w (poll_body choose p ctx resp).
Proof.
  intros Hc. unfold poll_body. apply sf_then; [apply sf_read_body|]. intros body w1 H1.
  assert (callable w1 (CPolling p)) as Hc1 by by eapply callable_hist.
  case_decide; [by apply sf_notify_false|]. destruct body as [body|e]; [|by apply sf_notify_false].
  destruct (DecodePayloadWithLimit body 0) as [pkts [e|]]; [by apply sf_notify_false|].
  apply sf_then; [|intros; apply sf_ret]. apply (keeps_for_each cinv hist pre). intros pk w2 _ H2.
  apply sf_cp_notify; [by split|by eapply callable_hist].
Qed.

(** The loop goes on with its token, and owns nothing else when it ends. *)
Abbreviation rounds p := (λ b (_ : W) o', round_ends (idles {[+ CTLoop p +]}) b o').

Lemma rounds_loop p (b : bool) : round_ends (idles {[+ CTLoop p +]}) b (idles {[+ CTLoop p +]}).
Proof.
  destruct b; unfold round_ends.
  - exists ∅. split; [by rewrite (right_id_L ∅ (⊎))|apply leaves_empty].
  - rewrite idles_singleton. by intros t ->%gmultiset_elem_of_singleton.
Qed.

Lemma own_round_ret w p (b : bool) : ow w (idles {[+ CTLoop p +]}) (mret b) (rounds p).
Proof. apply (own_ret cinv hist pre). intros. apply rounds_loop. Qed.

Lemma own_round_sf w p (q : P bool) : sf w q → ow w (idles {[+ CTLoop p +]}) q (rounds p).
Proof.
  intros Hq. rewrite <- (left_id_L ∅ (⊎) (idles {[+ CTLoop p +]})) at 1.
  eapply (own_mono cinv hist pre); [by apply own_frame|]. simpl.
  intros b w' o' F _ _ (o2 & -> & -> & _). rewrite (left_id_L ∅ (⊎)). apply rounds_loop.
Qed.

Lemma own_poll_round w p :
  callable w (CPolling p) → ow w (idles {[+ CTLoop p +]}) (poll_round choose p) (rounds p).
Proof.
  intros Hc. unfold poll_round. apply own_keeps_then; [apply sf_gets|].
  intros [[closed paused] ch] w1 H1. destruct closed; [by apply own_round_ret|].
  destruct paused.
  { apply own_round_sf. apply sf_then; [apply sf_gets|]. intros ctx w2 _.
    apply sf_await. intros; bust; by apply cl_good_same. }
  apply own_keeps_then; [apply sf_gets|]. intros [] w2 H2; [by apply own_round_ret|].
  apply own_keeps_then; [apply sf_urlWithSID|]. intros u w3 H3.
  assert (callable w3 (CPolling p)) as Hc3.
  { eapply callable_hist; [|exact Hc]. by do 2 (etransitivity; [done|]). }
  eapply (keeps_seq cinv hist pre); [by apply kp_context, callable_exists|]. intros ctx w4 F4 H4 _ Hx.
  assert (callable w4 (CPolling p)) as Hc4 by by eapply callable_hist.
  eapply (own_bind cinv hist pre) with (Q := λ _ _ o', o' = idles {[+ CTGet p +]}).
  { apply (own_update cinv hist pre). intros w5 F H5 Hi.
    destruct (take_get p w5 F) as [Hi' Hh']; [eapply callable_exists, callable_hist; eauto|done|].
    eexists. by split_and!. }
  intros _ w5 o5 F5 H5 _ ->.
  eapply (own_bind cinv hist pre); [apply (own_http_do w5 p "GET"); by eapply own_context_hist|].
  intros r w6 o6 F6 H6 _ ->. change (request_token p "GET") with (CTGet p).
  assert (callable w6 (CPolling p)) as Hc6 by (eapply callable_hist; [|exact Hc4]; by etransitivity).
  eapply (own_bind cinv hist pre) with (Q := λ _ _ o', o' = idles {[+ CTLoop p +]}).
  { apply (own_update cinv hist pre). intros w7 F H7 Hi.
    destruct (drop_get p w7 F) as [Hi' Hh']; [eapply callable_exists, callable_hist; eauto|done|].
    eexists. by split_and!. }
  intros _ w7 o7 F7 H7 _ ->. assert (callable w7 (CPolling p)) as Hc7 by by eapply callable_hist.
  destruct r as [resp|e]; [by apply own_round_sf, sf_poll_body|].
  apply own_keeps_then; [apply sf_gets|]. intros [] w8 H8; [by apply own_round_ret|].
  apply own_round_sf, sf_notify_false. by eapply callable_hist.
Qed.

Lemma kp_cp_SetHandler w p c :
  bound w c p → kp w (cp_SetHandler choose p (mkBinding c (CPolling p))) (λ _ w', usable w' c).
Proof.
  intros Hb. unfold cp_SetHandler.
  eapply (keeps_bind cinv hist pre) with (Q := λ _ w', usable w' c ∧ callable w' (CPolling p)).
  { apply (keeps_update cinv hist pre). intros w1 F H1 Hi.
    destruct (cl_good_handler c p w1 F) as (Hi' & Hh' & Hu & Hc); [by eapply bound_hist|done|].
    split_and!; [done..|]. intros w3 F' H3 _. split; [by eapply usable_hist|by eapply callable_hist]. }
  intros _ w1 F1 _ _ [Hu Hc].
  eapply (own_bind cinv hist pre) with
    (Q := λ first _ o', o' = idles (if first : bool then {[+ CTLoop p +]} else ∅)).
  { apply (own_atomic cinv hist pre). intros w2 F H2 Hi. rewrite (left_id_L ∅ (⊎)) in Hi.
    destruct (take_start p w2 F Hi) as [Hi' Hh']. eexists. by split_and!. }
  intros [] w2 o2 F2 H2 _ ->.
  - rewrite <- (right_id_L ∅ (⊎) (idles {[+ CTLoop p +]})). apply (own_go_loop cinv hist pre).
    + apply own_poll_round. by eapply callable_hist.
    + intros w3 F' H3 _. split; [done|]. do 2 (eapply usable_hist; [done|]). done.
  - rewrite idles_empty. apply (keeps_ret cinv hist pre). intros w3 F' H3 _. do 2 (eapply usable_hist; [done|]). done.
Qed.

Lemma sf_cp_Close w p : sf w (cp_Close p).
Proof.
  apply sf_then; [apply sf_atomic; intros; apply good_flag; auto|].
  intros [ctx|] w1 _; [apply sf_cancel|apply sf_skip].
Qed.

(** ** WebSocket *)

Lemma sf_cw_notify w i (m : binding → cl_method) :
  (∀ b w', usable w' (b_client b) → pre (m b) w' ∅) → sf w (cw_notify i m).
Proof.
  intros Hm. unfold cw_notify.
  eapply (keeps_bind cinv hist pre) with
    (Q := λ h w', match h with Some b => usable w' (b_client b) | None => True end).
  - apply kp_gets. intros w1 w3 F _ Hi H3. destruct (cwss w1 !! i) as [k|] eqn:Hk; [|done].
    destruct (cw_handler k) as [b|] eqn:Hb; [|done]. eapply usable_hist; [done|]. by eapply (ci_ws w1 _ (proj1 Hi)).
  - intros [b|] w1 F _ _ Hb; [|apply sf_skip]. apply sf_call. intros w2 H2. apply Hm. by eapply usable_hist.
Qed.

Lemma sf_cw_round w i : sf w (cw_round i).
Proof.
  unfold cw_round. apply sf_then; [apply sf_gets|]. intros cx w1 _.
  apply sf_then; [apply sf_cconn_read|]. intros r w2 _.
  assert (∀ (m : binding → cl_method) (a : bool) w', (∀ b w', usable w' (b_client b) → pre (m b) w' ∅) →
            sf w' (cw_notify i m ≫= λ _, mret a)) as Hn.
  { intros m b w' Hm. apply sf_then; [by apply sf_cw_notify|]. intros. apply sf_ret. }
  destruct r as [[[] data]|]; [|destruct (DecodePacket data false)|]; apply Hn; by split.
Qed.

Lemma sf_cw_SetHandler w i b : usable w (b_client b) → sf w (cw_SetHandler i b).
Proof.
  intros Hu. unfold cw_SetHandler. apply sf_then.
  { apply sf_update. intros w1 H1. apply cl_good_upd_cws. intros k b' [= <-]. right. by eapply usable_hist. }
  intros _ w1 _. apply sf_then.
  { apply sf_atomic. intros w2 _. apply cl_good_upd_cws. intros k b' Hb'. by left. }
  intros first w2 _. apply sf_when. intros _. apply (keeps_go_loop cinv hist pre); [apply sf_cw_round|done].
Qed.

Lemma sf_cw_Send w i pkts : sf w (cw_Send i pkts).
Proof.
  revert w. induction pkts as [|pk pkts IH]; intros w; [apply sf_skip|]. cbn [cw_Send].
  apply sf_then; [apply sf_gets|]. intros cx w1 _.
  apply sf_then; [apply sf_cconn_write|]. intros [msg|] w2 _; [|apply IH].
  apply sf_cw_notify. by split.
Qed.

Lemma sf_cw_Close w i : sf w (cw_Close i).
Proof.
  apply sf_then; [apply sf_gets|]. intros cx w1 _.
  apply sf_seq; [by apply sf_update_same|]. intros w2 _. apply sf_cancel.
Qed.
(** ** The client *)

(** The user's callbacks are given usable clients. *)
Context (usr : cl_user (C := C) (U := U)).
Record safe_user : Prop := {
  scu_open f c w : usable w c → sf w (cu_open usr f c);
  scu_data f c data b w : usable w c → sf w (cu_data usr f c data b);
  scu_close f c err w : usable w c → sf w (cu_close usr f c err)
}.
Context (Husr : safe_user).

Lemma sf_upd_cli w c (f : client → client) : (∀ k, core (f k) = core k) → sf w (update (upd_cli c f)).
Proof. intros Hf. apply sf_update. intros. by apply cl_good_upd_cli. Qed.

Lemma good_cli_atomic {B : Type} w c (f : W → B * W) g :
  (∀ k, core (g k) = core k) → (∀ w1, (f w1).2 = w1 ∨ (f w1).2 = upd_cli c g w1) → sf w (atomic f).
Proof.
  intros Hg Hf. apply sf_atomic. intros w1 _.
  destruct (Hf w1) as [-> | ->]; [apply harmless_refl|by apply cl_good_upd_cli].
Qed.

Lemma sf_flushSends w c : usable w c → sf w (flushSends c).
Proof.
  intros Hu. unfold flushSends.
  eapply (keeps_bind cinv hist pre) with
    (Q := λ r w', match r with Some (Some t, _) => callable w' t | _ => True end).
  - apply (keeps_atomic cinv hist pre). intros w1 F H1 Hi.
    destruct (usable_hist w w1 c H1 Hu) as (k & t & Hk & Ht & Hc).
    unfold flushSends_locked. rewrite Hk, Ht.
    destruct (c_closed k || c_upgrading k); simpl; [by split_and!; [|reflexivity|]|].
    destruct (cl_good_upd_cli c (set_c_writeBuffer []) w1) with (o := F) as [Hi' Hh']; [done|done|].
    split_and!; [done..|]. intros w3 F' H3 _. eapply callable_hist; [|exact Hc]. by etransitivity.
  - intros [[[t|] [|pk pkts]]|] w1 F _ _ Hc; try apply sf_skip.
    apply sf_call. intros w2 H2. split; [done|]. by eapply callable_hist.
Qed.

Lemma sf_push w c pk : sf w (atomic (cl_push c pk)).
Proof.
  apply sf_atomic. intros w1 _. unfold cl_push. destruct (clis w1 !! c) as [k|] eqn:Hk; [|apply harmless_refl].
  destruct (c_closed k); [apply harmless_refl|]. by apply cl_good_upd_cli.
Qed.

Lemma sf_cl_sendPacket w c ty data b : usable w c → sf w (cl_sendPacket c ty data b).
Proof.
  intros Hu. apply sf_then; [apply sf_push|]. intros ok w1 H1. apply sf_when. intros _.
  apply sf_flushSends. by eapply usable_hist.
Qed.

Lemma sf_cl_SendMessage w c data b : usable w c → sf w (cl_SendMessage c data b).
Proof.
  intros Hu. apply sf_then; [apply sf_push|]. intros [] w1 H1; [|apply sf_ret].
  apply sf_seq; [apply sf_flushSends; by eapply usable_hist|]. intros. apply sf_ret.
Qed.

(** Closing: the first one is given the permission to tell, if there is
    somebody to be told. *)
Definition telling c (r : option client) : gmultiset ctoken :=
  match r with
  | Some k => match c_onClose k with Some _ => {[+ CTClosing c +]} | None => ∅ end
  | None => ∅
  end.

Lemma own_mark_closed w c : ow w ∅ (atomic (mark_closed c)) (λ r _ o', o' = idles (telling c r)).
Proof.
  apply (own_atomic cinv hist pre). intros w1 F _ Hi. rewrite (left_id_L ∅ (⊎)) in Hi.
  destruct (take_mark_closed c w1 F Hi) as [Hi' Hh']. exists (idles (telling c (mark_closed c w1).1)).
  split_and!; [|done..]. destruct (mark_closed c w1).1 as [k|]; [|done]. simpl.
  destruct (c_onClose k); [done|]. by eapply cinv_empty, drop_closing.
Qed.

Lemma sf_mark_closed w c : sf w (atomic (mark_closed c)).
Proof.
  apply sf_atomic. intros w1 _ o Hi. destruct (take_mark_closed c w1 o Hi) as [Hi' Hh']. split; [|done].
  destruct (mark_closed c w1).1; [by eapply drop_closing|]. by rewrite idles_empty, (left_id_L ∅ (⊎)) in Hi'.
Qed.

Lemma sf_cl_Close w c : sf w (cl_Close c).
Proof.
  apply sf_then; [apply sf_mark_closed|]. intros [k|] w1 _; [|apply sf_skip].
  destruct (c_tport k) as [t|]; [|apply sf_skip]. by apply sf_call.
Qed.

Lemma sf_handshake_done w c v : usable w c → sf w (handshake_done c v).
Proof. intros Hu. apply sf_update. intros w1 H1. apply cl_good_handshake. by eapply usable_hist. Qed.

Lemma sf_callback w r e (q : fn → P unit) : closed_client e = None → (∀ f w', hist w w' → sf w' (q f)) →
  sf w (run_callback r e q).
Proof.
  intros He Hp. destruct r as [f|]; [|apply sf_skip]. apply sf_seq; [|auto].
  apply sf_update. intros w1 _ o Hi. apply drop_log. rewrite He. by apply cinv_empty.
Qed.

Lemma sf_closeWithError w c err : usable w c → sf w (closeWithError usr c err).
Proof.
  intros Hu. unfold closeWithError. eapply (own_bind cinv hist pre); [apply own_mark_closed|].
  intros [k|] w1 o1 F1 H1 _ ->; [|exact (sf_skip w1)].
  apply own_keeps_then.
  { destruct err; [|apply sf_skip]. apply sf_handshake_done. by eapply usable_hist. }
  intros _ w2 H2. unfold run_callback, telling. destruct (c_onClose k) as [f|]; [|exact (sf_skip w2)].
  eapply own_then_keeps.
  - apply (own_update cinv hist pre). intros w3 F _ Hi.
    destruct (drop_log (CUpClose c err) w3 F) as [Hi' Hh']; [done|].
    exists ∅. rewrite (left_id_L ∅ (⊎)). by split_and!.
  - intros w3 H3. apply Husr. do 3 (eapply usable_hist; [done|]). done.
Qed.

Lemma sf_active w c t (q : P unit) :
  (∀ w', hist w w' → sf w' q) → sf w (cl_active c t ≫= λ a, when a q).
Proof. intros Hp. apply sf_then; [apply sf_gets|]. intros a w1 H1. apply sf_when. auto. Qed.

Lemma sf_reset w c : usable w c → sf w (resetNoPingTimeout usr c).
Proof.
  intros Hu. unfold resetNoPingTimeout. apply sf_then; [apply sf_gets|]. intros d w1 H1.
  apply sf_then; [apply sf_atomic; intros; apply cl_good_arm|]. intros [tm|] w2 H2; [|apply sf_skip].
  apply sf_go, sf_then; [apply sf_await; intros w3 b w4 _; apply cl_good_fire|].
  intros _ w3 H3. apply sf_closeWithError. do 3 (eapply usable_hist; [done|]). done.
Qed.

(** ** The upgrade *)

Lemma sf_upgrade_fail w c t : usable w c → sf w (upgrade_fail c t).
Proof.
  intros Hu. apply sf_seq; [by apply sf_upd_cli|]. intros w1 H1.
  apply sf_seq; [apply sf_flushSends; by eapply usable_hist|]. intros w2 _.
  destruct t as [[p|i]|]; [apply sf_resume|apply sf_skip..].
Qed.

Lemma sf_upgrade_broken w c t i ctx : usable w c → sf w (upgrade_broken c t i ctx).
Proof.
  intros Hu. apply sf_seq; [by apply sf_update_same|]. intros w1 H1.
  apply sf_seq; [apply sf_upgrade_fail; by eapply usable_hist|]. intros w2 _. apply sf_cancel.
Qed.

Lemma sf_finish_upgrade w c i ctx : usable w c → sf w (finish_upgrade c i ctx).
Proof.
  intros Hu. unfold finish_upgrade, new_cwebsocket. apply sf_then.
  { apply sf_atomic. intros w1 _. simpl.
    eapply harmless_trans; [|apply cl_good_new_ws]. apply cl_good_add_ctx. }
  intros j w1 H1.
  eapply (keeps_bind cinv hist pre) with
    (Q := λ r w', match r with Some t => is_Some t | None => True end).
  - apply (keeps_atomic cinv hist pre). intros w2 F H2 Hi.
    assert (usable w2 c) as Hu2 by (eapply usable_hist; [|exact Hu]; by etransitivity).
    destruct (cl_good_switch c j w2 Hu2 F Hi) as [Hi' Hh']. split_and!; [done..|]. intros _ _ _ _.
    destruct Hu2 as (k & t & Hk & Ht & _). unfold cl_switch. rewrite Hk, Ht.
    destruct (c_closed k); [done|by eexists].
  - intros r w2 F H2 _ Hr. apply sf_seq; [|intros; apply sf_cancel].
    destruct r as [r|]; [|by apply sf_update_same]. destruct Hr as [t ->].
    assert (usable w2 c) as Hu2 by (eapply usable_hist; [|exact Hu]; by etransitivity).
    apply sf_seq; [destruct t; [apply sf_stopForUpgrade|by apply sf_call]|]. intros w3 H3.
    apply sf_seq; [apply sf_cw_SetHandler; by eapply usable_hist|]. intros w4 H4.
    apply sf_flushSends. do 2 (eapply usable_hist; [done|]). done.
Qed.

Lemma sf_probe_loop w c t i ctx : usable w c → sf w (probe_loop c t i ctx).
Proof.
  intros Hu. unfold probe_loop. apply sf_then; [apply sf_cconn_read|]. intros r w1 H1.
  assert (usable w1 c) as Hu1 by by eapply usable_hist.
  destruct r as [[b data]|]; [|by apply sf_upgrade_broken]. destruct (_ && _).
  - apply sf_then; [apply sf_cconn_write|]. intros e w2 H2.
    assert (usable w2 c) as Hu2 by by eapply usable_hist.
    destruct e; [by apply sf_upgrade_broken|by apply sf_finish_upgrade].
  - apply sf_call. intros w2 H2. split; [done|]. by eapply usable_hist.
Qed.

Lemma sf_upgradeToWebsocket w c : usable w c → sf w (upgradeToWebsocket choose c).
Proof.
  intros Hu. unfold upgradeToWebsocket. apply sf_then; [apply sf_gets|]. intros [sid t] w1 H1.
  case_decide; [apply sf_skip|]. apply sf_seq; [by apply sf_upd_cli|]. intros w2 H2.
  apply sf_seq; [destruct t as [[p|i]|]; [apply sf_pause|apply sf_skip..]|]. intros w3 H3.
  apply sf_then; [apply sf_gets|]. intros u w4 H4.
  apply sf_then; [apply sf_add_ctx|]. intros ctx w5 H5.
  apply sf_then; [apply sf_dial|]. intros r w6 H6.
  assert (usable w6 c) as Hu6 by (do 6 (eapply usable_hist; [done|]); done).
  destruct r as [conn|e].
  - apply sf_then; [apply sf_cconn_write|]. intros e w7 H7.
    assert (usable w7 c) as Hu7 by by eapply usable_hist.
    destruct e; [by apply sf_upgrade_broken|by apply sf_probe_loop].
  - apply sf_seq; [by apply sf_upgrade_fail|]. intros. apply sf_cancel.
Qed.

(** ** Packets *)

Lemma sf_handleOpen w c data : usable w c → sf w (handleOpen choose usr c data).
Proof.
  intros Hu. unfold handleOpen. destruct (decode_open data) as [op|]; [|by apply sf_closeWithError].
  apply sf_seq; [by apply sf_upd_cli|]. intros w1 H1.
  assert (usable w1 c) as Hu1 by by eapply usable_hist.
  apply sf_seq; [by apply sf_reset|]. intros w2 H2.
  apply sf_then; [apply sf_gets|]. intros up w3 H3.
  assert (usable w3 c) as Hu3 by (do 2 (eapply usable_hist; [done|]); done).
  apply sf_seq; [apply sf_when; intros _; by apply sf_go, sf_upgradeToWebsocket|]. intros w4 H4.
  apply sf_then; [apply sf_gets|]. intros f w5 H5.
  assert (usable w5 c) as Hu5 by (do 2 (eapply usable_hist; [done|]); done).
  apply sf_seq; [by apply sf_handshake_done|]. intros w6 H6.
  apply sf_callback; [done|]. intros g w7 H7. apply Husr. do 2 (eapply usable_hist; [done|]). done.
Qed.

Lemma sf_cl_onPacket w c pk : usable w c → sf w (cl_onPacket choose usr c pk).
Proof.
  intros Hu. unfold cl_onPacket. destruct (Type_of pk); try apply sf_skip.
  - by apply sf_handleOpen.
  - by apply sf_closeWithError.
  - apply sf_seq; [by apply sf_cl_sendPacket|]. intros w1 H1. apply sf_reset. by eapply usable_hist.
  - apply sf_then; [apply sf_gets|]. intros f w1 H1. apply sf_callback; [done|].
    intros g w2 H2. apply Husr. do 2 (eapply usable_hist; [done|]). done.
Qed.

Lemma client_methods_own :
  @methods_own W cl_method owned _ _ _ cinv hist pre (client_methods choose usr).
Proof.
  intros m w o [-> Hm].
  assert (∀ p : P unit, sf w p → ow w ∅ p (λ _ _ o', o' = ∅)) as Hsf.
  { intros p Hp. eapply (own_mono cinv hist pre); [exact Hp|]. by intros u w' o' F _ _ [-> _]. }
  apply Hsf. clear Hsf. destruct m as [[p|i] pkts|[p|i]|b pk|b e|b|c t conn ctx]; simpl in *.
  - by apply sf_cp_Send.
  - apply sf_cw_Send.
  - apply sf_cp_Close.
  - apply sf_cw_Close.
  - apply sf_then; [apply sf_gets|]. intros active w1 H1.
    destruct (negb active && _); [apply sf_skip|]. apply sf_cl_onPacket. by eapply usable_hist.
  - apply sf_active. intros w1 H1. apply sf_closeWithError. by eapply usable_hist.
  - apply sf_active. intros w1 H1. apply sf_closeWithError. by eapply usable_hist.
  - by apply sf_probe_loop.
Qed.
(** ** Dialling *)

(** Setting the transport for the first time. *)
Lemma own_set_tport w c t :
  ow w (idles {[+ CTDial c +]}) (update (upd_cli c (set_c_tport (Some t))))
    (λ _ w' o', o' = ∅ ∧ ∃ k, clis w' !! c = Some k ∧ tport_le (Some t) (c_tport k)).
Proof.
  apply (own_update cinv hist pre). intros w1 F _ Hi.
  destruct (drop_dial c t w1 F Hi) as (Hi' & Hh' & k & Hk & Ht). exists ∅.
  rewrite (left_id_L ∅ (⊎)). split_and!; [done..|]. intros w3 F' H3 _. split; [done|].
  destruct (ch_cli _ _ H3 c k Hk) as (k' & Hk' & Hle & _). exists k'. split; [done|].
  by rewrite Ht in Hle.
Qed.

Lemma leaves_dial c : leaves (idles {[+ CTDial c +]}).
Proof. rewrite idles_singleton. by intros t ->%gmultiset_elem_of_singleton. Qed.

Lemma own_beside {B : Type} w o (q : P B) (Q : B → W → Prop) :
  leaves o → kp w q Q → ow w o q (λ b w' o', leaves o' ∧ Q b w').
Proof.
  intros Ho Hq. rewrite <- (left_id_L ∅ (⊎) o). eapply (own_mono cinv hist pre); [by apply own_frame|].
  simpl. intros b w' o' F _ _ (o2 & -> & -> & HQ). by rewrite (left_id_L ∅ (⊎)).
Qed.

Lemma own_dialPolling w c : ow w (idles {[+ CTDial c +]}) (dialPolling choose c) (λ _ _ o', leaves o').
Proof.
  unfold dialPolling. apply own_keeps_then; [apply sf_gets|]. intros u w1 _.
  eapply (keeps_seq cinv hist pre) with (Q := λ p w', is_Some (cpolls w' !! p)).
  { apply (keeps_atomic cinv hist pre). intros w2 F _ Hi. set (u' := query_set _ _ _).
    destruct (cl_good_new_cpolling c u' w2) as (Hg & Hp & [k Hk]). destruct (Hg F Hi) as [Hi' Hh'].
    split_and!; [done..|]. intros w3 F' H3 _. rewrite Hp.
    destruct (ch_poll _ _ H3 _ k Hk) as (k' & Hk' & _). by eexists. }
  intros p w2 F2 _ _ [kp Hkp]. eapply (own_bind cinv hist pre); [apply own_set_tport|].
  intros _ w3 o3 F3 H3 _ (-> & k & Hk & Hle).
  eapply (keeps_leaves cinv hist pre), kp_cp_SetHandler.
  destruct (ch_poll _ _ H3 _ kp Hkp) as (kp' & Hkp' & _). split; [by eexists|]. by exists k.
Qed.

Lemma own_dialWebsocket w c ctx : ow w (idles {[+ CTDial c +]}) (dialWebsocket choose c ctx)
  (λ _ _ o', leaves o').
Proof.
  unfold dialWebsocket, new_cwebsocket. apply own_keeps_then; [apply sf_gets|]. intros u w1 _.
  apply own_keeps_then; [apply sf_dial|]. intros [conn|e] w2 _;
    [|apply (own_ret cinv hist pre); intros; apply leaves_dial].
  apply own_keeps_then.
  { apply sf_atomic. intros w3 _. simpl. eapply harmless_trans; [|apply cl_good_new_ws]. apply cl_good_add_ctx. }
  intros i w3 _. eapply (own_bind cinv hist pre); [apply own_set_tport|].
  intros _ w4 o4 F4 H4 _ (-> & k & Hk & [j Ht]). eapply (keeps_leaves cinv hist pre).
  apply sf_seq; [|intros; apply sf_ret]. apply sf_cw_SetHandler. by exists k, (CWebsocket j).
Qed.

(** A client whose handshake gave a result is usable. *)
Lemma kp_handshake w c ctx :
  kp w (await (handshake_or_ctx choose c ctx))
    (λ v w', match v with Some _ => usable w' c | None => True end).
Proof.
  apply (keeps_await cinv hist pre). intros w1 F v w2 _ Hi Hs. unfold handshake_or_ctx in Hs.
  destruct (clis w1 !! c) as [k|] eqn:Hk; [|done]. destruct (ci_client w1 _ (proj1 Hi) c k Hk) as [Ho Hd].
  assert (good w1 (set_ctick S w1)) as Ht by by apply cl_good_same.
  destruct (c_handshakeDone k) as [v0|] eqn:Hv.
  - assert (usable w1 c) as Hu by auto. destruct (_ && _); simplify_eq; [by destruct (Ht F Hi)|].
    destruct (harmless_trans _ _ _ Ht (cl_good_received c (set_ctick S w1)) F Hi) as [Hi' Hh'].
    split_and!; [done..|]. intros w3 F' H3 _. do 2 (eapply usable_hist; [done|]). done.
  - destruct (ctx_done ctx w1); simplify_eq. by destruct (Ht F Hi).
Qed.

Lemma own_Dial w ctx u opts :
  ow w ∅ (Dial choose ctx u opts) (λ r w' o', leaves o' ∧ ∀ c, r = Ok c → usable w' c).
Proof.
  assert (∀ w' o' (e : cl_error), leaves o' →
    ow w' o' (mret (Err e)) (λ r w' o', leaves o' ∧ ∀ c, r = Ok c → usable w' c)) as He.
  { intros w' o' e Ho. by apply (own_ret cinv hist pre). }
  unfold Dial. destruct u as [u|e]; [|by apply He, leaves_empty].
  set (op := withDefaults _).
  assert (is_Some (head (Transports op))) as [t Ht].
  { unfold op, withDefaults. simpl. case_decide as E; [by eexists|]. destruct (Transports _); [done|by eexists]. }
  eapply (own_bind cinv hist pre) with (Q := λ c _ o', o' = (idles {[+ CTDial c +]})).
  { apply (own_atomic cinv hist pre). intros w1 F _ Hi. rewrite (left_id_L ∅ (⊎)) in Hi.
    destruct (take_new_client u op w1 F Hi). eexists. by split_and!. }
  intros c w1 o1 F1 _ _ ->. rewrite Ht.
  eapply (own_bind cinv hist pre) with (Q := λ _ _ o', leaves o').
  { case_decide.
    - eapply (own_bind cinv hist pre); [apply own_dialPolling|]. intros. by apply (own_ret cinv hist pre).
    - case_decide; [apply own_dialWebsocket|apply (own_ret cinv hist pre); intros; apply leaves_dial]. }
  intros [e|] w2 o2 F2 _ _ Ho; [by apply He|].
  apply own_beside; [done|]. eapply (keeps_bind cinv hist pre); [apply kp_handshake|].
  intros [[e|]|] w3 F3 _ _ Hu.
  - by apply (keeps_ret cinv hist pre).
  - apply (keeps_ret cinv hist pre). intros w4 F4 H4 _ c' [= <-]. by eapply usable_hist.
  - apply sf_seq; [apply sf_cl_Close|]. intros. by apply (keeps_ret cinv hist pre).
Qed.

(** ** Every reachable state *)

Inductive entry : P unit → Prop :=
| entry_dial u opts : entry (dials_server choose u opts)
| entry_send i data b : entry (with_client i (λ c, cl_SendMessage c data b ≫= λ _, skip))
| entry_close i : entry (with_client i cl_Close)
| entry_OnOpen i f : entry (with_client i (λ c, cl_OnOpen c f))
| entry_OnData i f : entry (with_client i (λ c, cl_OnData c f))
| entry_OnClose i f : entry (with_client i (λ c, cl_OnClose c f))
| entry_answer i a : entry (answers i a)
| entry_dial_answer i a : entry (dial_answers i a)
| entry_ctx x : entry (ctx_expires x)
| entry_peer i (f : C → C) : entry (cpeer_acts i f).

Lemma sf_with_client w i (f : clientp → P unit) :
  (∀ c w', usable w' c → sf w' (f c)) → sf w (with_client i f).
Proof.
  intros Hf. unfold with_client. eapply (keeps_bind cinv hist pre) with (Q := λ c w', usable w' c).
  - apply (keeps_await cinv hist pre). intros w1 F c w2 _ Hi Hs.
    destruct (handles w1 !! i) as [c'|] eqn:Hc; simplify_eq. split_and!; [done|reflexivity|].
    intros w3 F' H3 _. eapply usable_hist; [done|]. eapply (ci_handles w2 _ (proj1 Hi)).
    by eapply list_elem_of_lookup_2.
  - intros c w1 F _ _ Hu. by apply Hf.
Qed.

Lemma own_entry (q : P unit) w : entry q → ow w ∅ q (λ _ _ o', leaves o').
Proof.
  assert (∀ p : P unit, sf w p → ow w ∅ p (λ _ _ o', leaves o')) as Hsf.
  { intros q0 Hq. by apply (keeps_leaves cinv hist pre _ _ _ Hq). }
  intros [u opts|i data b|i|i f|i f|i f|i a|i a|x|i f].
  - unfold dials_server. apply own_keeps_then; [apply sf_add_ctx|]. intros ctx w1 _.
    eapply (own_bind cinv hist pre); [apply own_Dial|]. intros [c|e] w2 o2 F2 _ _ [Ho Hr];
      [|by apply (own_ret cinv hist pre)].
    eapply (own_mono cinv hist pre) with (Q := λ _ _ o', leaves o' ∧ True); [|by intros ? ? ? ? _ _ []].
    apply own_beside; [done|]. apply sf_update. intros w3 H3. apply cl_good_handle. eapply usable_hist; [done|]. by apply Hr.
  - apply Hsf, sf_with_client. intros c w' Hu. apply sf_seq; [by apply sf_cl_SendMessage|].
    intros. apply sf_skip.
  - apply Hsf, sf_with_client. intros c w' Hu. apply sf_cl_Close.
  - apply Hsf, sf_with_client. intros c w' Hu. by apply sf_upd_cli.
  - apply Hsf, sf_with_client. intros c w' Hu. by apply sf_upd_cli.
  - apply Hsf, sf_with_client. intros c w' Hu. by apply sf_upd_cli.
  - apply Hsf, sf_update. intros. apply cl_good_answered.
  - apply Hsf, sf_update. intros w1 _. unfold dial_answered. destruct (dials w1 !! i) as [[u ctx [a'|]]|]; try apply harmless_refl.
    destruct a; by apply cl_good_same.
  - apply Hsf, sf_cancel.
  - by apply Hsf, sf_update_same.
Qed.

Definition no_clients (u : U) : W := mkCWorld [] [] [] [] [] [] [] [] [] [] [] 0 false u.

Lemma inv_no_clients u : cinv (no_clients u) ∅.
Proof.
  split; [|by split]. rewrite <- idles_empty, kinds_idles. split; try done. by intros c Hc%elem_of_nil.
Qed.

Definition running (u : U) (ps : list (P unit)) : config W cl_method := (no_clients u, Once <$> ps).

Lemma running_client u ps cf cf' :
  Forall entry ps →
  reachable (H := client_methods choose usr) (running u ps) cf →
  reachable (H := client_methods choose usr) cf cf' →
  (∃ o, cinv cf.1 o ∧ (Forall (λ t, finished t = true) cf.2 → leaves o)) ∧ hist cf.1 cf'.1.
Proof.
  intros Hps Hr Hr'.
  eapply (reachable_twice cinv hist pre client_methods_own); [exact Hr|exact Hr'|apply inv_no_clients|].
  simpl. apply Forall_fmap. eapply Forall_impl; [exact Hps|]. intros p Hp. by apply own_entry.
Qed.
End Safety.

(** C3. Whatever dials, calls of the client's API, timers, answers of the
    server, failures and ends of contexts run beside each other, in any
    interleaving: nothing panics.  The counters of a polling transport are
    never negative, and there is never more than one GET in flight; while the
    transport's context is not cancelled they count at least the POSTs and
    GETs it has sent that are not answered, so no request is missed; and when
    every goroutine is over they are back to zero.  The result of the
    handshake is sent at most once; the user is told of the end of a session
    at most once, and of a closed session only; an armed timer is the watchdog
    of a session that is open, so none outlives its session; a client that
    [Dial] returned has a transport; and no step reopens a session or a
    transport, goes back from WebSocket to polling, or takes back what the
    user was told. *)
Theorem client_invariant {C U} `{WS : !WebsocketConn C} (choose : nat → bool)
    (usr : cl_user (C := C) (U := U)) u ps w ts :
  safe_user usr → Forall (entry choose) ps →
  reachable (H := client_methods choose usr) (running u ps) (w, ts) →
  cpanicked w = false
  ∧ (∀ p k, cpolls w !! p = Some k →
      0 <= cp_inflight k <= 1 ∧ 0 <= cp_sendInflight k
      ∧ (ctx_done (cp_ctx k) w = false →
          Z.of_nat (unanswered w k "POST") <= cp_sendInflight k
          ∧ Z.of_nat (unanswered w k "GET") <= cp_inflight k)
      ∧ (Forall (λ t, finished t = true) ts → cp_inflight k = 0 ∧ cp_sendInflight k = 0))
  ∧ (∀ c k, clis w !! c = Some k → is_Some (c_handshakeDone k) → c_handshakeOnce k = true)
  ∧ (∀ c, (cnt closed_client c (cuplog w) ≤ closed_right w c)%nat)
  ∧ (∀ tm d, ctimers w !! tm = Some (mkTimer d Armed) → watches w tm)
  ∧ (∀ c, c ∈ handles w → usable w c)
  ∧ (∀ w' ts', reachable (H := client_methods choose usr) (w, ts) (w', ts') → hist w w').
Proof.
  intros Husr Hps Hr.
  pose proof (λ cf, running_client choose usr Husr u ps (w, ts) cf Hps Hr) as Hall.
  destruct (Hall (w, ts)) as [(o & [Hi Hw] & Hend) _]; [apply rtc_refl|]. simpl in *.
  split_and!.
  - apply Hi.
  - intros p k Hk. destruct (poll_numbers p k w _ Hk Hi) as (N1 & N2 & N3). split_and!.
    + lia.
    + destruct (cp_polling k); lia.
    + lia.
    + intros Hc. pose proof (requests_counted w o p k "POST" Hw Hk Hc) as C1.
      pose proof (requests_counted w o p k "GET" Hw Hk Hc) as C2. unfold request_token in *. simpl in *. lia.
    + intros Hf. destruct (leaves_none o p (Hend Hf)). lia.
  - intros c k Hk. apply (ci_client w _ Hi c k Hk).
  - intros c. pose proof (ci_closing w _ Hi c). lia.
  - apply Hi.
  - apply Hi.
  - intros w' ts' Hr'. by apply (Hall (w', ts')).
Qed.

Lemma safe_keeper : safe_user keeper.
Proof. split; intros; [apply sf_skip|by apply sf_update_same|apply sf_skip]. Qed.

(** A session that is dialled by polling, upgrades, and receives a message on
    either transport. *)
Definition session_calls : list cdprog :=
  [dials_server choose (Ok server_url) None;
   answers 0 (opens ["websocket"]);
   with_client 0 (λ c, cl_OnData c 0);
   with_client 0 (λ c, cl_SendMessage c (bytes_of "one") false ≫= λ _, skip);
   answers 1 (sends [says "first"]); answers 2 accepted;
   dial_answers 0 (Ok (mkPipe [(false, bytes_of "3probe"); (false, bytes_of "4second")] [] false));
   with_client 0 (λ c, cl_SendMessage c (bytes_of "two") false ≫= λ _, skip)].

Definition session : cdconfig :=
  turns [0; 8; 1; 8; 0; 2; 3; 5; 3; 10; 4; 8; 7; 6; 10; 11; 8]%nat (running [] session_calls).

Lemma session_reachable : reachable (running [] session_calls) session.
Proof. apply turns_reachable. Qed.

(** Both messages arrived, and what was sent during the upgrade went over the
    WebSocket after it. *)
Example session_traffic :
  string_of <$> capp session.1 = ["first"; "second"] ∧
  ((λ h, (h_method h, string_of (h_body h))) <$> https session.1)
  = [("GET", ""); ("GET", ""); ("POST", "4one")] ∧
  ((λ k, (λ f, string_of f.2) <$> outbox k) <$> cconns session.1) = [["2probe"; "5"; "4two"]].
Proof. split_and!; by vm_compute. Qed.

Lemma session_entries : Forall (entry choose) session_calls.
Proof. repeat constructor. Qed.

(** A session over polling that sends, loses its server and is ended by its
    watchdog: with a POST and a GET in flight, and when all is over. *)
Definition ended_calls : list cdprog :=
  [dials_server choose (Ok server_url) (Some polling_only);
   answers 0 (opens []);
   with_client 0 (λ c, cl_SendMessage c (bytes_of "one") false ≫= λ _, skip);
   answers 1 (Err "connection refused"); answers 2 accepted].

Definition in_use : cdconfig := turns [0; 5; 1; 5; 0; 2]%nat (running [] ended_calls).
Definition run_over : cdconfig := turns [0; 5; 1; 5; 0; 2; 4; 2; 6; 3; 5]%nat (running [] ended_calls).

(** What transport 0 looks like in a state. *)
Definition requests_of (w : cdworld) (k : cpolling) : bool * nat * nat :=
  (ctx_done (cp_ctx k) w, unanswered w k "POST", unanswered w k "GET").

Lemma requests_of_eq w k b m n :
  (b, m, n) = requests_of w k →
  ctx_done (cp_ctx k) w = b ∧ unanswered w k "POST" = m ∧ unanswered w k "GET" = n.
Proof. unfold requests_of. by intros [= -> -> ->]. Qed.

Lemma busy_requests : requests_of in_use.1 <$> cpolls in_use.1 !! 0%nat = Some (false, 1%nat, 1%nat).
Proof. vm_compute. reflexivity. Qed.

Lemma ended_requests : requests_of run_over.1 <$> cpolls run_over.1 !! 0%nat = Some (false, 0%nat, 0%nat).
Proof. vm_compute. reflexivity. Qed.

Lemma all_over (ts : list (thread cdworld cl_method)) :
  forallb finished ts = true → Forall (λ t, finished t = true) ts.
Proof. induction ts as [|t ts IH]; simpl; [constructor|]. intros [? ?]%andb_prop. constructor; auto. Qed.

Lemma ended_over : Forall (λ t, finished t = true) run_over.2.
Proof. apply all_over. vm_compute. reflexivity. Qed.

Abbreviation runs calls cf := (reachable (H := client_methods choose keeper) (running [] calls) (cf.1, cf.2)).

Lemma session_runs : runs session_calls session.
Proof. pose proof session_reachable as Hr. by destruct session. Qed.

Lemma busy_runs : runs ended_calls in_use.
Proof.
  assert (reachable (running [] ended_calls) in_use) as Hr by apply turns_reachable. by destruct in_use.
Qed.

Lemma ended_runs : runs ended_calls run_over.
Proof.
  assert (reachable (running [] ended_calls) run_over) as Hr by apply turns_reachable. by destruct run_over.
Qed.

Lemma ended_entries : Forall (entry choose) ended_calls.
Proof. repeat constructor. Qed.

Lemma client_invariant_witness :
  cpanicked session.1 = false ∧ length (capp session.1) = 2%nat
  ∧ (∃ k, cpolls in_use.1 !! 0%nat = Some k ∧ 1 <= cp_sendInflight k ∧ cp_inflight k = 1)
  ∧ (∃ k, cpolls run_over.1 !! 0%nat = Some k ∧ cp_sendInflight k = 0 ∧ cp_inflight k = 0).
Proof.
  split; [|split; [vm_compute; reflexivity|split]].
  - exact (proj1 (client_invariant choose keeper [] session_calls session.1 session.2
      safe_keeper session_entries session_runs)).
  - pose proof busy_requests as (k & Hk & Hv)%fmap_Some. exists k.
    pose proof (proj1 (proj2 (client_invariant choose keeper [] ended_calls in_use.1 in_use.2
      safe_keeper ended_entries busy_runs)) 0%nat k Hk) as (H1 & H2 & H3 & _).
    destruct (requests_of_eq in_use.1 k _ _ _ Hv) as (V1 & V2 & V3).
    destruct (H3 V1) as [H4 H5]. rewrite V2 in H4. rewrite V3 in H5.
    clear -H1 H4 H5 Hk. split; [exact Hk|]. split; lia.
  - pose proof ended_requests as (k & Hk & _)%fmap_Some. exists k.
    pose proof (proj1 (proj2 (client_invariant choose keeper [] ended_calls run_over.1 run_over.2
      safe_keeper ended_entries ended_runs)) 0%nat k Hk) as (_ & _ & _ & H4).
    destruct (H4 ended_over) as [H5 H6]. split; [exact Hk|]. split; [exact H6|exact H5].
Defined.
