(* ===== verification/ClientHandlers.v ===== *)
(** * ClientHandlers: what the operations of the Engine.IO client do

    The functional behaviour of the client's methods, run against a network
    that answers: [ev n p w es] runs [p], named methods nested at most [n]
    deep, and where it waits for the network the next of the environment's
    steps [es] is taken. *)

From S2P Require Import Prelude.
From S2P Require Import EnginePacket.
From S2P Require Import AckTable.
From S2P Require Import Sched.
From S2P Require Import EngineTypes.
From S2P Require Import EngineOptions.
From S2P Require Import OpenPacket.
From S2P Require Import EngineServer.
From S2P Require Import ClientTypes.
From S2P Require Import ClientTransport.
From S2P Require Import ClientEngine.
From S2P Require Import EngineDemo.
From S2P Require Import ClientDemo.

#[local] Opaque EncodePayload handshake_json decode_open.

Section Handlers.
Context {C U : Type} `{WS : !WebsocketConn C} (choose : nat → bool).
Context (usr : cl_user (C := C) (U := U)).
Abbreviation W := (cworld C U).
Abbreviation P := (mprog W cl_method).
Implicit Types (w : W) (c : clientp) (p i : nat) (es : list (W → W)).

Abbreviation ex n q w :=
  (@exec W cl_method (@calls W cl_method (client_methods choose usr) n) _ q w).
Abbreviation ev n q w es :=
  (@exec_env W cl_method (@env_calls W cl_method (client_methods choose usr) n) _ q w es).

(** ** Reading and updating the state *)

Lemma ex_cli_get {B} n c (d : B) f k w :
  clis w !! c = Some k → ex n (cli_get c d f) w = Some (f k, w, []).
Proof. intros Hk. unfold cli_get. rewrite ex_gets. by rewrite Hk. Qed.

Lemma ex_cpoll_get {B} n p (d : B) f k w :
  cpolls w !! p = Some k → ex n (cpoll_get p d f) w = Some (f k, w, []).
Proof. intros Hk. unfold cpoll_get. rewrite ex_gets. by rewrite Hk. Qed.

(** The URL of a transport's requests. *)
Definition poll_url (kp : cpolling) (sid : string) : url :=
  if decide (sid = "") then cp_u kp else query_set "sid" sid (cp_u kp).

Lemma ex_urlWithSID n p kp k w :
  cpolls w !! p = Some kp → clis w !! cp_sid kp = Some k →
  ex n (urlWithSID p) w = Some (poll_url kp (c_sid k), w, []).
Proof.
  intros Hp Hk. unfold urlWithSID. eapply ex_first; [by apply ex_cpoll_get|].
  cbn beta iota. eapply ex_first; [by apply ex_cli_get|]. done.
Qed.

(** ** Requests *)

(** The request that is sent last is answered next. *)
Lemma ev_http n meth u body ctx a w es :
  ctx_done ctx w = false →
  ev n (http_do choose meth u body ctx) w (answered (length (https w)) a :: es)
  = Some (a, set_ctick S (set_https (λ l, l ++ [mkHttp meth u body ctx (Some a)]) w), [], es).
Proof.
  intros Hctx. unfold http_do. eapply ev_quiet; [by rewrite exec_atomic|]. cbn [fst snd send_request].
  assert (∀ o, (https w ++ [mkHttp meth u body ctx o]) !! length (https w) = Some (mkHttp meth u body ctx o))
    as Hl by (intros o; by apply list_lookup_middle).
  apply ev_wait.
  - simpl. rewrite Hl. unfold take_answer. simpl. unfold ctx_done in *. simpl. by rewrite Hctx.
  - unfold answered. simpl. rewrite alter_snoc. simpl. rewrite lookup_snoc. unfold take_answer.
    unfold ctx_done in *. simpl. rewrite Hctx. unfold set_ctick, set_https. simpl.
    by rewrite alter_snoc.
Qed.
(** ** Sending *)

(** The session of an open client that is not upgrading, over [t]. *)
Definition sending_over w c k t : Prop :=
  clis w !! c = Some k ∧ c_closed k = false ∧ c_upgrading k = false ∧ c_tport k = Some t.

Definition message (data : bytes) (binary : bool) : Packet := mkPacket Message data binary.

Lemma ev_flushSends n c k t w es w' ts es' :
  sending_over w c k t → c_writeBuffer k ≠ [] →
  ev n (@method _ _ (client_methods choose usr) (CMSend t (c_writeBuffer k)))
    (upd_cli c (set_c_writeBuffer []) w) es = Some (tt, w', ts, es') →
  ev (S n) (flushSends c) w es = Some (tt, w', ts, es').
Proof.
  intros (Hk & Ho & Hu & Ht) Hb Hs. unfold flushSends. eapply ev_quiet.
  { rewrite exec_atomic. unfold flushSends_locked. by rewrite Hk, Ho, Hu. }
  cbn [fst snd]. rewrite Ht. destruct (c_writeBuffer k) as [|pk pks]; [done|]. by apply ev_call.
Qed.

(** Nothing to send. *)
Lemma ex_flush_empty n c k w :
  clis w !! c = Some k → c_writeBuffer k = [] →
  ∃ w', ex n (flushSends c) w = Some (tt, w', []) ∧ (w' = w ∨ w' = upd_cli c (set_c_writeBuffer []) w).
Proof.
  intros Hk Hb. unfold flushSends. rewrite exec_bind, exec_atomic. unfold flushSends_locked.
  rewrite Hk. destruct (c_closed k || c_upgrading k); simpl; [by eauto|]. rewrite Hb.
  destruct (c_tport k); by eauto.
Qed.

Lemma upd_cli_twice c (f g h : client → client) w :
  (∀ k, g (f k) = h k) → upd_cli c g (upd_cli c f w) = upd_cli c h w.
Proof.
  intros Hfg. unfold upd_cli, set_clis. simpl. f_equal. apply list_eq. intros i.
  destruct (decide (c = i)) as [->|Hne].
  - rewrite !list_lookup_alter_eq. destruct (clis w !! i); simpl; [by rewrite Hfg|done].
  - by rewrite !list_lookup_alter_ne.
Qed.

Lemma ev_SendMessage n c k t w data b es w' ts es' :
  sending_over w c k t →
  ev n (@method _ _ (client_methods choose usr) (CMSend t (c_writeBuffer k ++ [message data b])))
    (upd_cli c (set_c_writeBuffer []) w) es = Some (tt, w', ts, es') →
  ev (S n) (cl_SendMessage c data b) w es = Some (None, w', ts, es').
Proof.
  intros (Hk & Ho & Hu & Ht) Hs. unfold cl_SendMessage. eapply ev_quiet.
  { rewrite exec_atomic. unfold cl_push. by rewrite Hk, Ho. }
  cbn [fst snd].
  set (f := λ l k, set_c_writeBuffer l k). set (l := c_writeBuffer k ++ [message data b]).
  change (set_c_writeBuffer (c_writeBuffer k ++ [mkPacket Message data b])) with (set_c_writeBuffer l).
  eapply ev_seq; [|done|by rewrite app_nil_r].
  apply (ev_flushSends n c (set_c_writeBuffer l k) t).
  - split_and!; [|done..]. simpl. by rewrite list_lookup_alter_eq, Hk.
  - simpl. unfold l. by destruct (c_writeBuffer k).
  - simpl. by rewrite (upd_cli_twice c _ _ (set_c_writeBuffer [])).
Qed.

(** A transport that counts one more request, and one less. *)
Lemma upd_cpoll_back p (f g : cpolling → cpolling) w (e : W → W) :
  (∀ k, g (f k) = k) → (∀ f' w, cpolls (e (set_cpolls f' w)) = f' (cpolls w)) →
  (∀ f' w, e (set_cpolls f' w) = set_cpolls f' (e w)) →
  upd_cpoll p g (e (upd_cpoll p f w)) = e w.
Proof.
  intros Hgf He1 He2. unfold upd_cpoll. rewrite He2.
  assert (alter g p (alter f p (cpolls (e w))) = cpolls (e w)) as Hid.
  { apply list_eq. intros i. destruct (decide (p = i)) as [->|Hne].
    - rewrite !list_lookup_alter_eq. destruct (cpolls (e w) !! i); simpl; [by rewrite Hgf|done].
    - by rewrite !list_lookup_alter_ne. }
  destruct (e w) eqn:Hw. unfold set_cpolls. simpl in *. by rewrite Hid.
Qed.

(** The world after a request that was answered. *)
Definition requested (meth : string) (u : url) (body : bytes) (ctx : ctxp) a w : W :=
  set_ctick S (set_https (λ l, l ++ [mkHttp meth u body ctx (Some a)]) w).

(** A polling transport that can send for client [c]. *)
Definition polls_for w p kp c : Prop :=
  cpolls w !! p = Some kp ∧ cp_sid kp = c ∧ ctx_done (cp_ctx kp) w = false.

Lemma ev_cp_Send_ok n p kp c k w pkts body es :
  polls_for w p kp c → clis w !! c = Some k →
  let resp := mkResponse 200 body None in
  ev n (cp_Send choose p pkts) w (answered (length (https w)) (Ok resp) :: es)
  = Some (tt, requested "POST" (poll_url kp (c_sid k)) (EncodePayload pkts) (cp_ctx kp) (Ok resp) w, [], es).
Proof.
  intros (Hp & <- & Hctx) Hk resp. unfold cp_Send.
  eapply ev_quiet; [by eapply ex_urlWithSID|].
  eapply ev_quiet; [by apply ex_cpoll_get|].
  set (w1 := upd_cpoll p (λ k0, set_cp_sendInflight (cp_sendInflight k0 + 1) k0) w).
  eapply ev_quiet; [apply ex_update|]. fold w1.
  eapply ev_seq; [by apply (ev_http n "POST" _ _ (cp_ctx kp) (Ok resp) w1 es)| |done].
  set (e := requested "POST" (poll_url kp (c_sid k)) (EncodePayload pkts) (cp_ctx kp) (Ok resp)).
  eapply (ev_quiet _ _ _ _ _ tt (e w)); [|done].
  unfold add_sends. rewrite ex_update. change (set_ctick S _) with (e w1). unfold w1.
  rewrite (upd_cpoll_back p _ _ w e); [done| |done|done].
  intros []; unfold set_cp_sendInflight; simpl; f_equal; lia.
Qed.
(** A WebSocket transport whose connection is open. *)
Definition connected w i ki conn : Prop :=
  cwss w !! i = Some ki ∧ ctx_done (cw_ctx ki) w = false ∧ cconns w !! cw_conn ki = Some conn.

Lemma ex_cconn_write n j ctx b data conn conn' w :
  cconns w !! j = Some conn → ctx_done ctx w = false → ws_write conn false b data = Some (None, conn') →
  ex n (cconn_write j ctx b data) w = Some (None, set_cconns <[j := conn']> w, []).
Proof. intros Hj Hctx Hw. apply ex_await. by rewrite Hj, Hctx, Hw. Qed.

Lemma ex_cconn_read n j ctx conn r w :
  cconns w !! j = Some conn → ws_read conn (ctx_done ctx w) = Some r →
  ex n (cconn_read j ctx) w = Some (r.1, set_cconns <[j := r.2]> w, []).
Proof. intros Hj Hr. apply ex_await. rewrite Hj, Hr. by destruct r. Qed.

Lemma ex_cw_conn_ctx n i ki w :
  cwss w !! i = Some ki → ex n (cw_conn_ctx i) w = Some ((cw_conn ki, cw_ctx ki), w, []).
Proof. intros Hi. unfold cw_conn_ctx, cws_get. rewrite ex_gets. by rewrite Hi. Qed.

Lemma ex_cw_Send n i ki conn conn' pkts w :
  connected w i ki conn → accepts conn (frame_of <$> pkts) conn' →
  ex n (cw_Send i pkts) w = Some (tt, set_cconns <[cw_conn ki := conn']> w, []).
Proof.
  revert conn w. induction pkts as [|pk pkts IH]; intros conn w (Hi & Hctx & Hc) Ha; simpl in Ha.
  - subst. unfold set_cconns. rewrite list_insert_id by done. by destruct w.
  - destruct Ha as (c1 & Hw & Ha). cbn [cw_Send]. eapply ex_first; [by apply ex_cw_conn_ctx|].
    cbn [fst snd]. eapply ex_first; [by eapply ex_cconn_write|]. cbn beta iota.
    rewrite (IH c1); [|split_and!; [done..|]|done].
    + unfold set_cconns. simpl. by rewrite list_insert_insert_eq.
    + simpl. apply list_lookup_insert_eq. by eapply lookup_lt_Some.
Qed.

(** C22. A message sent by an open client that is not upgrading goes to its
    transport at once, behind what was buffered: over polling it is one POST
    of the payload of all of it, which counts as in flight until it is answered
    and whose answer 200 changes nothing else; over WebSocket the frames are
    written to the connection in order.  The buffer is empty afterwards and
    nothing is told to the user. *)
Theorem send_delivers n c k w data b :
  let pkts := c_writeBuffer k ++ [message data b] in
  (∀ p kp body, sending_over w c k (CPolling p) → polls_for w p kp c →
     let resp := Ok (mkResponse 200 body None) in
     ∃ w', ev (S n) (cl_SendMessage c data b) w [answered (length (https w)) resp] = Some (None, w', [], [])
       ∧ https w' = https w ++
           [mkHttp "POST" (poll_url kp (c_sid k)) (EncodePayload pkts) (cp_ctx kp) (Some resp)]
       ∧ clis w' !! c = Some (set_c_writeBuffer [] k) ∧ cpolls w' = cpolls w ∧ cuplog w' = cuplog w) ∧
  (∀ i ki conn conn', sending_over w c k (CWebsocket i) → connected w i ki conn →
     accepts conn (frame_of <$> pkts) conn' →
     ∃ w', ev (S n) (cl_SendMessage c data b) w [] = Some (None, w', [], [])
       ∧ cconns w' !! cw_conn ki = Some conn' ∧ https w' = https w
       ∧ clis w' !! c = Some (set_c_writeBuffer [] k) ∧ cuplog w' = cuplog w).
Proof.
  intros pkts. set (w1 := upd_cli c (set_c_writeBuffer []) w). split.
  - intros p kp body Hs Hp resp. assert (clis w1 !! c = Some (set_c_writeBuffer [] k)) as Hk1.
    { destruct Hs as (Hk & _). unfold w1. simpl. by rewrite list_lookup_alter_eq, Hk. }
    eexists. split.
    + apply (ev_SendMessage n c k (CPolling p)); [done|]. fold w1.
      by apply (ev_cp_Send_ok n p kp c (set_c_writeBuffer [] k) w1 pkts body []).
    + by split_and!.
  - intros i ki conn conn' Hs Hc Ha. exists (set_cconns <[cw_conn ki := conn']> w1). split_and!.
    + apply (ev_SendMessage n c k (CWebsocket i)); [done|]. fold w1. apply exec_env_alone.
      by apply (ex_cw_Send n i ki conn).
    + destruct Hc as (_ & _ & Hc). simpl. apply list_lookup_insert_eq. by eapply lookup_lt_Some.
    + done.
    + destruct Hs as (Hk & _). simpl. by rewrite list_lookup_alter_eq, Hk.
    + done.
Qed.

(** ** Closing *)

Definition failed_client (err : option cl_error) (k : client) : client :=
  match err with
  | Some _ => if c_handshakeOnce k then k else set_c_handshakeDone (Some err) (set_c_handshakeOnce true k)
  | None => k
  end.

(** The state a session that ends by itself leaves: its transport is not
    touched. *)
Definition ended c (err : option cl_error) (k : client) w : W :=
  stop_ctimer (c_noPing k) (set_clis <[c := failed_client err (set_c_closed true k)]> w).

Lemma ended_client c err k w :
  clis w !! c = Some k → clis (ended c err k w) !! c = Some (failed_client err (set_c_closed true k)).
Proof.
  intros Hk. apply lookup_lt_Some in Hk.
  unfold ended. destruct (c_noPing k); simpl; by apply list_lookup_insert_eq.
Qed.

Lemma handshake_ended c err k w :
  clis w !! c = Some k →
  match clis (ended c None k w) !! c with
  | Some k' => if c_handshakeOnce k' then ended c None k w
               else upd_cli c (λ k, set_c_handshakeDone (Some (Some err)) (set_c_handshakeOnce true k))
                      (ended c None k w)
  | None => ended c None k w
  end = ended c (Some err) k w.
Proof.
  intros Hk. rewrite (ended_client c None k w Hk). simpl. unfold ended. simpl.
  destruct (c_handshakeOnce k); [done|].
  assert (∀ f g (l : list client), l !! c = Some k → alter g c (<[c := f k]> l) = <[c := g (f k)]> l) as Hag.
  { intros f g l Hl. rewrite (alter_as_insert g c _ (f k)); [by rewrite list_insert_insert_eq|].
    apply list_lookup_insert_eq. by eapply lookup_lt_Some. }
  destruct (c_noPing k); unfold upd_cli, set_clis; simpl; unfold set_ctimers; simpl; f_equal;
    by apply (Hag (set_c_closed true)).
Qed.

Lemma ex_closeWithError n c err k w :
  clis w !! c = Some k → c_closed k = false →
  ex n (closeWithError usr c err) w
  = ex n (run_callback (c_onClose k) (CUpClose c err) (λ f, cu_close usr f c err)) (ended c err k w).
Proof.
  intros Hk Ho. unfold closeWithError. rewrite exec_bind, exec_atomic. unfold mark_closed.
  rewrite Hk, Ho. cbn [fst snd]. rewrite (upd_as_set c k) by done. rewrite exec_bind.
  change (stop_ctimer (c_noPing k) (set_clis <[c:=set_c_closed true k]> w)) with (ended c None k w).
  destruct err as [e|].
  - unfold handshake_done. rewrite ex_update. rewrite (handshake_ended c e k w Hk).
    by destruct (ex n _ (ended c (Some e) k w)) as [[[[] ?] ?]|].
  - cbn [skip exec]. by destruct (ex n _ _) as [[[[] ?] ?]|].
Qed.

(** C37. A session that ends by itself (an error of its transport, a timeout of
    the watchdog, the server's close): the client is closed, its watchdog is
    stopped, a [Dial] that still waits gets the error (and nothing when the
    server closes without one), and the user's close callback is what is left
    to run.  The transport is not closed: its loop, its context and its
    connection stay as they are; and since the client is closed, no call made
    afterwards closes them: [Close] does nothing, no more than a second end
    of the session, and [SendMessage] reports that the client is closed. *)
Theorem session_ends n c err k w :
  clis w !! c = Some k → c_closed k = false →
  let w1 := ended c err k w in
  ex n (closeWithError usr c err) w
  = ex n (run_callback (c_onClose k) (CUpClose c err) (λ f, cu_close usr f c err)) w1 ∧
  (∃ k1, clis w1 !! c = Some k1 ∧ c_closed k1 = true ∧
     c_handshakeDone k1 = (match err with
                           | Some _ => if c_handshakeOnce k then c_handshakeDone k else Some err
                           | None => c_handshakeDone k
                           end)) ∧
  (∀ tm d, c_noPing k = Some tm → ctimers w1 !! tm ≠ Some (mkTimer d Armed)) ∧
  (cpolls w1, cwss w1, cconns w1, ctxs w1, cchans w1) = (cpolls w, cwss w, cconns w, ctxs w, cchans w) ∧
  (∀ m w2 k2 err' data b, clis w2 !! c = Some k2 → c_closed k2 = true →
     ex m (cl_Close c) w2 = Some (tt, w2, []) ∧
     ex m (closeWithError usr c err') w2 = Some (tt, w2, []) ∧
     ex m (cl_SendMessage c data b) w2 = Some (Some CErrClientClosed, w2, [])).
Proof.
  intros Hk Ho w1. split_and!.
  - by apply ex_closeWithError.
  - eexists. split; [by apply ended_client|]. unfold failed_client.
    destruct err; [destruct (c_handshakeOnce k) eqn:E; simpl; by rewrite ?E|done].
  - intros tm d Hn. unfold w1, ended. rewrite Hn. cbn [stop_ctimer ctimers set_ctimers].
    rewrite list_lookup_alter_eq. destruct (ctimers _ !! tm) as [[d' []]|]; simpl; congruence.
  - unfold w1, ended. by destruct (c_noPing k).
  - intros m w2 k2 err' data b Hk2 Ho2. unfold cl_Close, closeWithError, cl_SendMessage.
    rewrite !exec_bind, !exec_atomic. unfold mark_closed, cl_push. by rewrite Hk2, Ho2.
Qed.
(** ** Polling *)

(** A polling transport [p] whose loop is about to poll for client [c], which
    uses it. *)
Record polling_for w c k p kp : Prop := {
  pf_poll : polls_for w p kp c;
  pf_open : cp_closed kp = false;
  pf_running : cp_paused kp = false;
  pf_handler : cp_handler kp = Some (mkBinding c (CPolling p));
  pf_client : clis w !! c = Some k;
  pf_tport : c_tport k = Some (CPolling p)
}.

Lemma ev_poll_round n w c k p kp a es r w' ts es' :
  polling_for w c k p kp →
  ev n (poll_body choose p (cp_ctx kp) a)
    (requested "GET" (poll_url kp (c_sid k)) [] (cp_ctx kp) (Ok a) w) es = Some (r, w', ts, es') →
  ev n (poll_round choose p) w (answered (length (https w)) (Ok a) :: es) = Some (r, w', ts, es').
Proof.
  intros [(Hp & Hs & Hctx) Hopen Hrun Hh Hk Ht] Hbody. unfold poll_round.
  eapply ev_quiet; [by apply ex_cpoll_get|]. cbn beta iota. rewrite Hopen, Hrun.
  eapply ev_quiet; [unfold cp_cancelled; rewrite ex_gets; by rewrite Hp, Hctx|]. cbn beta iota.
  eapply ev_quiet; [eapply ex_urlWithSID; [done|by rewrite Hs]|].
  eapply ev_quiet; [by apply ex_cpoll_get|].
  set (w1 := upd_cpoll p (λ k0, set_cp_inflight (cp_inflight k0 + 1) k0) w).
  eapply ev_quiet; [apply ex_update|]. fold w1.
  eapply ev_seq; [by apply (ev_http n "GET" _ _ (cp_ctx kp) (Ok a) w1 es)| |done].
  set (e := requested "GET" (poll_url kp (c_sid k)) [] (cp_ctx kp) (Ok a)) in *.
  eapply (ev_quiet _ _ _ _ _ tt (e w)).
  { unfold add_polls. rewrite ex_update. change (set_ctick S _) with (e w1). unfold w1.
    rewrite (upd_cpoll_back p _ _ w e); [done| |done|done].
    intros []; unfold set_cp_inflight; simpl; f_equal; lia. }
  exact Hbody.
Qed.

(** The packets of a body that was read whole. *)
Lemma ev_poll_body n w p ctx body pkts es w' ts es' :
  ctx_done ctx w = false → DecodePayloadWithLimit body 0 = (pkts, None) →
  ev n (for_each pkts (λ pk, cp_notify p (λ b, CMOnPacket b pk))) (set_ctick S w) es
  = Some (tt, w', ts, es') →
  ev n (poll_body choose p ctx (mkResponse 200 body None)) w es = Some (true, w', ts, es').
Proof.
  intros Hctx Hdec Hev. unfold poll_body. eapply ev_quiet.
  { unfold read_body. rewrite exec_atomic. by rewrite Hctx. }
  cbn [fst snd rs_fails rs_body andb]. rewrite decide_False by (by intros []). rewrite Hdec.
  eapply ev_seq; [exact Hev|done|by rewrite app_nil_r].
Qed.

(** A packet of the transport in use. *)
Lemma ev_notify n w c k p kp pk es w' ts es' :
  cpolls w !! p = Some kp → cp_handler kp = Some (mkBinding c (CPolling p)) →
  clis w !! c = Some k → c_tport k = Some (CPolling p) →
  ev n (cl_onPacket choose usr c pk) w es = Some (tt, w', ts, es') →
  ev (S n) (cp_notify p (λ b, CMOnPacket b pk)) w es = Some (tt, w', ts, es').
Proof.
  intros Hp Hh Hk Ht Hev. unfold cp_notify. eapply ev_quiet; [by apply ex_cpoll_get|].
  rewrite Hh. apply ev_call. change (method (CMOnPacket ?b ?q)) with (binding_OnPacket choose usr b q).
  unfold binding_OnPacket. eapply ev_quiet; [by apply ex_cli_get|]. simpl b_client. simpl b_transport.
  rewrite bool_decide_true by done. exact Hev.
Qed.

(** The user's callback for messages: what it does to the state that is the
    user's. *)
Definition data_effect (f : fn) (g : bytes → bool → U → U) : Prop :=
  ∀ n c data b w, ex n (cu_data usr f c data b) w = Some (tt, set_capp (g data b) w, []).

Lemma ex_message n w c k f g pk :
  clis w !! c = Some k → c_onData k = Some f → data_effect f g → Type_of pk = Message →
  ex n (cl_onPacket choose usr c pk) w
  = Some (tt, set_capp (g (Data pk) (IsBinary pk))
                (set_cuplog (λ l, l ++ [CUpData c (Data pk) (IsBinary pk)]) w), []).
Proof.
  intros Hk Hf Hg Hm. unfold cl_onPacket. rewrite Hm. eapply ex_first; [by apply ex_cli_get|].
  rewrite Hf. unfold run_callback. eapply ex_first; [apply ex_update|]. apply Hg.
Qed.

(** The state after the user was handed the messages. *)
Definition told_data c (g : bytes → bool → U → U) (pkts : list Packet) w : W :=
  set_capp (λ u, foldl (λ u pk, g (Data pk) (IsBinary pk) u) u pkts)
    (set_cuplog (λ l, l ++ ((λ pk, CUpData c (Data pk) (IsBinary pk)) <$> pkts)) w).

Lemma ev_messages n w c k p kp f g pkts es :
  cpolls w !! p = Some kp → cp_handler kp = Some (mkBinding c (CPolling p)) →
  clis w !! c = Some k → c_tport k = Some (CPolling p) → c_onData k = Some f → data_effect f g →
  Forall (λ pk, Type_of pk = Message) pkts →
  ev (S n) (for_each pkts (λ pk, cp_notify p (λ b, CMOnPacket b pk))) w es
  = Some (tt, told_data c g pkts w, [], es).
Proof.
  intros Hp Hh Hk Ht Hf Hg Hall. revert w Hp Hk. induction Hall as [|pk pkts Hm _ IH]; intros w Hp Hk.
  - unfold told_data, set_capp, set_cuplog. simpl. rewrite app_nil_r. by destruct w.
  - cbn [for_each]. eapply ev_first.
    { eapply (ev_notify n w c k p kp); [done..|]. apply exec_env_alone. by eapply ex_message. }
    rewrite IH by done. unfold told_data, set_capp, set_cuplog. simpl. by rewrite <- app_assoc.
Qed.

(** A poll that the server answers with a payload of messages hands each
    of them to the user's callback, once and in the order of the payload; the
    loop goes on with the next poll; the request was one GET with the session
    id, and nothing else changes, the buffer of what is to be sent and the
    counters of the transport among it. *)
Theorem poll_receives n w c k p kp f g body pkts :
  polling_for w c k p kp → c_onData k = Some f → data_effect f g →
  DecodePayloadWithLimit body 0 = (pkts, None) → Forall (λ pk, Type_of pk = Message) pkts →
  let a := mkResponse 200 body None in
  ∃ w', ev (S n) (poll_round choose p) w [answered (length (https w)) (Ok a)] = Some (true, w', [], []) ∧
    cuplog w' = cuplog w ++ ((λ pk, CUpData c (Data pk) (IsBinary pk)) <$> pkts) ∧
    capp w' = foldl (λ u pk, g (Data pk) (IsBinary pk) u) (capp w) pkts ∧
    https w' = https w ++ [mkHttp "GET" (poll_url kp (c_sid k)) [] (cp_ctx kp) (Some (Ok a))] ∧
    clis w' = clis w ∧ cpolls w' = cpolls w ∧ polling_for w' c k p kp.
Proof.
  intros Hpf Hf Hg Hdec Hall a. pose proof Hpf as [(Hp & Hs & Hctx) Hopen Hrun Hh Hk Ht].
  eexists. split.
  { eapply ev_poll_round; [done|]. eapply ev_poll_body; [done..|]. by eapply ev_messages. }
  by split_and!.
Qed.
(** ** The watchdog *)

(** How long the watchdog of a session waits: the server's intervals, or the
    client's own for those it did not give. *)
Definition watch_duration (k : client) : Z :=
  wrap64 ((if decide (c_pingInterval k = 0) then PingInterval (c_opts k) else c_pingInterval k)
          + (if decide (c_pingTimeout k = 0) then PingTimeout (c_opts k) else c_pingTimeout k)).

Definition watchdog c (tm : timerp) : P unit :=
  await (fire_ctimer tm) ≫= λ _, closeWithError usr c (Some CErrPingTimeout).

(** The state after the watchdog was armed: the old timer is stopped. *)
Definition armed c (k : client) w : W :=
  set_ctimers (λ l, l ++ [mkTimer (watch_duration k) Armed])
    (upd_cli c (set_c_noPing (Some (length (ctimers w)))) (stop_ctimer (c_noPing k) w)).

Lemma ex_reset n w c k :
  clis w !! c = Some k → c_closed k = false →
  ex n (resetNoPingTimeout usr c) w
  = Some (tt, armed c k w, [Once (watchdog c (length (ctimers w)))]).
Proof.
  intros Hk Ho. unfold resetNoPingTimeout.
  assert (length (ctimers (stop_ctimer (c_noPing k) w)) = length (ctimers w)) as Hlen.
  { destruct (c_noPing k); [|done]. simpl. apply length_alter. }
  eapply ex_first; [unfold watchdog_time; by apply ex_cli_get|].
  fold (watch_duration k). eapply ex_first.
  { rewrite exec_atomic. unfold arm_watchdog. rewrite Hk, Ho. cbn [fst snd add_ctimer]. rewrite Hlen.
    change (upd_cli c (set_c_noPing (Some (length (ctimers w))))
      (set_ctimers (λ l, l ++ [mkTimer (watch_duration k) Armed]) (stop_ctimer (c_noPing k) w)))
      with (armed c k w). done. }
  done.
Qed.

Lemma armed_client w c k : clis w !! c = Some k →
  clis (armed c k w) !! c = Some (set_c_noPing (Some (length (ctimers w))) k).
Proof. intros Hk. unfold armed. destruct (c_noPing k); simpl; by rewrite list_lookup_alter_eq, Hk. Qed.

Lemma armed_timer w c k :
  ctimers (armed c k w) !! length (ctimers w) = Some (mkTimer (watch_duration k) Armed).
Proof.
  unfold armed. destruct (c_noPing k); simpl; apply list_lookup_middle; by rewrite ?length_alter.
Qed.

(** ** The handshake *)

(** A client that is being dialled over polling. *)
Record dialling w c k p kp : Prop := {
  dg_polling : polling_for w c k p kp;
  dg_open : c_closed k = false;
  dg_once : c_handshakeOnce k = false;
  dg_onOpen : c_onOpen k = None
}.

(** The first poll of a client that is being dialled, answered with an open
    packet: the client takes the session id and the intervals of the packet,
    arms its watchdog with their sum (its own default for an interval that is
    0), starts the upgrade exactly when the server offers WebSocket and the
    client's options allow it, and the [Dial] that waits for the handshake
    gets its success.  The next poll carries the session id. *)
Theorem handshake_completes n w c k p kp body data o :
  dialling w c k p kp →
  DecodePayloadWithLimit body 0 = ([mkPacket Open data false], None) → decode_open data = Some o →
  let k1 := opened_client o k in
  let tm := length (ctimers w) in
  let k2 := set_c_handshakeDone (Some None) (set_c_handshakeOnce true (set_c_noPing (Some tm) k1)) in
  let resp := Ok (mkResponse 200 body None) in
  ∃ w', ev (S n) (poll_round choose p) w [answered (length (https w)) resp]
      = Some (true, w', Once (watchdog c tm) ::
               (if wants_upgrade o k1 then [Once (upgradeToWebsocket choose c)] else []), []) ∧
    https w' = https w ++ [mkHttp "GET" (poll_url kp (c_sid k)) [] (cp_ctx kp) (Some resp)] ∧
    ctimers w' !! tm = Some (mkTimer (watch_duration k1) Armed) ∧
    polling_for w' c k2 p kp ∧ cuplog w' = cuplog w ∧ capp w' = capp w ∧
    (∀ ctx, ctx_done ctx w' = false →
       ∃ w'', handshake_or_ctx choose c ctx w' = Some (Some None, w'')).
Proof.
  intros [Hpf Ho Honce Hopen] Hdec Hjson k1 tm kn resp. pose proof Hpf as [(Hp & Hs & Hctx) _ _ Hh Hk Ht].
  set (w1 := set_ctick S (requested "GET" (poll_url kp (c_sid k)) [] (cp_ctx kp)
               (Ok (mkResponse 200 body None)) w)).
  set (w2 := upd_cli c (opened_client o) w1).
  assert (clis w2 !! c = Some k1) as Hk2.
  { unfold w2. simpl. rewrite list_lookup_alter_eq. change (clis w1) with (clis w). by rewrite Hk. }
  set (w3 := armed c k1 w2). pose proof (armed_client w2 c k1 Hk2) as Hk3. fold w3 in Hk3.
  change (length (ctimers w2)) with tm in Hk3. set (k3 := set_c_noPing (Some tm) k1) in Hk3.
  assert (cpolls w3 = cpolls w2 ∧ cuplog w3 = cuplog w2 ∧ https w3 = https w2 ∧ capp w3 = capp w2 ∧ ctxs w3 = ctxs w2)
    as (R1 & R2 & R3 & R4 & R5) by (unfold w3, armed; by destruct (c_noPing k1)).
  set (w4 := upd_cli c (λ k, set_c_handshakeDone (Some None) (set_c_handshakeOnce true k)) w3).
  set (k4 := set_c_handshakeDone (Some None) (set_c_handshakeOnce true k3)).
  assert (clis w4 !! c = Some k4) as Hk4.
  { unfold w4, upd_cli. cbn [clis set_clis]. by rewrite list_lookup_alter_eq, Hk3. }
  exists w4. split_and!; try done.
  - eapply ev_poll_round; [done|]. eapply ev_poll_body; [done..|]. fold w1. cbn [for_each].
    eapply ev_seq; [|done|by rewrite app_nil_r].
    eapply (ev_notify n w1 c k p kp); [done..|]. apply exec_env_alone.
    change (cl_onPacket choose usr c (mkPacket Open data false)) with (handleOpen choose usr c data).
    unfold handleOpen. rewrite Hjson. eapply ex_first; [apply ex_update|]. fold w2.
    eapply ex_seq; [apply (ex_reset n w2 c k1); [done|by simpl]| |].
    { fold w3. eapply ex_first; [by apply (ex_cli_get n c false (wants_upgrade o) k3)|].
      eapply ex_last with (w1 := w3) (a := tt) (ts := if wants_upgrade o k1 then [Once (upgradeToWebsocket choose c)] else []).
      - change (wants_upgrade o k3) with (wants_upgrade o k1). by destruct (wants_upgrade o k1).
      - eapply ex_first; [by apply (ex_cli_get n c None c_onOpen k3)|].
        change (c_onOpen k3) with (c_onOpen k). rewrite Hopen. cbn [run_callback].
        eapply ex_first; [|done]. unfold handshake_done. rewrite ex_update, Hk3.
        change (c_handshakeOnce k3) with (c_handshakeOnce k). by rewrite Honce. }
    done.
  - change (ctimers w4) with (ctimers w3). apply (armed_timer w2 c k1).
  - destruct Hpf as [_ Hopen' Hrun' _ _ _]. split; try done.
    split_and!; [change (cpolls w4) with (cpolls w3); by rewrite R1|done|].
    unfold ctx_done in *. change (ctxs w4) with (ctxs w3). by rewrite R5.
  - intros ctx Hctx'. unfold handshake_or_ctx. rewrite Hk4. simpl. rewrite Hctx'. by eexists.
Qed.
(** ** The heartbeat *)

Lemma ex_SendPacket n c k i ki conn conn' w ty data :
  sending_over w c k (CWebsocket i) → connected w i ki conn →
  accepts conn (frame_of <$> (c_writeBuffer k ++ [mkPacket ty data false])) conn' →
  ex (S n) (cl_sendPacket c ty data false) w
  = Some (tt, set_cconns <[cw_conn ki := conn']> (upd_cli c (set_c_writeBuffer []) w), []).
Proof.
  intros (Hk & Ho & Hu & Ht) Hc Ha. unfold cl_sendPacket. eapply ex_first.
  { rewrite exec_atomic. unfold cl_push. by rewrite Hk, Ho. }
  cbn [fst snd when]. set (l := c_writeBuffer k ++ [mkPacket ty data false]) in *.
  set (w1 := upd_cli c (set_c_writeBuffer l) w).
  assert (clis w1 !! c = Some (set_c_writeBuffer l k)) as Hk1.
  { unfold w1, upd_cli. cbn [clis set_clis]. by rewrite list_lookup_alter_eq, Hk. }
  unfold flushSends. eapply ex_first.
  { rewrite exec_atomic. unfold flushSends_locked. rewrite Hk1. cbn [c_closed c_upgrading set_c_writeBuffer].
    by rewrite Ho, Hu. }
  cbn [fst snd c_tport c_writeBuffer set_c_writeBuffer]. rewrite Ht.
  replace (upd_cli c (set_c_writeBuffer []) w1) with (upd_cli c (set_c_writeBuffer []) w)
    by (symmetry; by apply upd_cli_twice).
  set (w2 := upd_cli c (set_c_writeBuffer []) w).
  assert (l ≠ []) as Hne by (unfold l; by destruct (c_writeBuffer k)).
  destruct l as [|pk pks]; [done|]. apply ex_call. by apply (ex_cw_Send n i ki conn conn' (pk :: pks) w2).
Qed.

Lemma ex_ping_round n w c k i ki conn conn1 conn2 frame data :
  sending_over w c k (CWebsocket i) → connected w i ki conn → c_writeBuffer k = [] →
  cw_handler ki = Some (mkBinding c (CWebsocket i)) →
  ws_read conn false = Some (Some (false, frame), conn1) →
  DecodePacket frame false = Ok (mkPacket Ping data false) →
  accepts conn1 [frame_of (mkPacket Pong data false)] conn2 →
  let w1 := set_cconns <[cw_conn ki := conn1]> w in
  let w2 := set_cconns <[cw_conn ki := conn2]> (upd_cli c (set_c_writeBuffer []) w1) in
  clis w2 !! c = Some (set_c_writeBuffer [] k) ∧ cconns w2 !! cw_conn ki = Some conn2 ∧
  ex (S (S n)) (cw_round i) w
  = Some (true, armed c (set_c_writeBuffer [] k) w2, [Once (watchdog c (length (ctimers w)))]).
Proof.
  intros Hs Hc Hb Hh Hr Hdec Ha w1 w2. pose proof Hs as (Hk & Ho & Hu & Ht). pose proof Hc as (Hi & Hctx & Hcn).
  assert (connected w1 i ki conn1) as Hc1.
  { split_and!; [done..|]. unfold w1. cbn [cconns set_cconns]. apply list_lookup_insert_eq.
    by eapply lookup_lt_Some. }
  set (k2 := set_c_writeBuffer [] k).
  assert (clis w2 !! c = Some k2) as Hk2.
  { unfold w2, upd_cli. cbn [clis set_clis set_cconns]. rewrite list_lookup_alter_eq.
    change (clis w1) with (clis w). by rewrite Hk. }
  split; [done|]. split.
  { unfold w2. cbn [cconns set_cconns]. apply list_lookup_insert_eq.
    change (cconns (upd_cli c (set_c_writeBuffer []) w1)) with (cconns w1).
    destruct Hc1 as (_ & _ & Hc1). by eapply lookup_lt_Some. }
  unfold cw_round. eapply ex_first; [by apply ex_cw_conn_ctx|]. cbn [fst snd].
  eapply ex_first; [eapply ex_cconn_read; [done|by rewrite Hctx]|]. cbn [fst snd]. fold w1. rewrite Hdec.
  eapply ex_last; [|done]. unfold cw_notify. eapply ex_first.
  { unfold cws_get. rewrite ex_gets. change (cwss w1) with (cwss w). rewrite Hi, Hh. done. }
  cbn beta iota. apply ex_call.
  change (method (CMOnPacket ?b ?q)) with (binding_OnPacket choose usr b q).
  unfold binding_OnPacket. eapply ex_first; [by apply ex_cli_get|]. simpl b_client. simpl b_transport.
  rewrite bool_decide_true by done. cbn [negb andb].
  change (cl_onPacket choose usr c (mkPacket Ping data false))
    with (cl_sendPacket (C := C) (U := U) c Pong data false ≫= λ _, resetNoPingTimeout usr c).
  eapply ex_first; [apply (ex_SendPacket n c k i ki conn1 conn2 w1); [by split_and!|done|by rewrite Hb]|].
  fold w2. by apply (ex_reset (S n) w2 c k2).
Qed.

(** A ping that arrives over WebSocket is answered at once with a pong of
    the same data, and the watchdog starts anew: the old timer is stopped and a
    new one armed for the whole duration.  When a watchdog fires while the
    session is open, the session ends with a ping timeout; when it was
    stopped, it can never fire. *)
Theorem ping_answered n w c k i ki conn conn1 conn2 frame data :
  sending_over w c k (CWebsocket i) → connected w i ki conn → c_writeBuffer k = [] →
  cw_handler ki = Some (mkBinding c (CWebsocket i)) →
  ws_read conn false = Some (Some (false, frame), conn1) →
  DecodePacket frame false = Ok (mkPacket Ping data false) →
  accepts conn1 [frame_of (mkPacket Pong data false)] conn2 →
  let tm := length (ctimers w) in
  ∃ w' k', ex (S (S n)) (cw_round i) w = Some (true, w', [Once (watchdog c tm)]) ∧
    cconns w' !! cw_conn ki = Some conn2 ∧
    clis w' !! c = Some k' ∧ c_noPing k' = Some tm ∧ c_closed k' = false ∧ c_writeBuffer k' = [] ∧
    ctimers w' !! tm = Some (mkTimer (watch_duration k) Armed) ∧
    (∀ tm' d, c_noPing k = Some tm' → (tm' < tm)%nat → ctimers w' !! tm' ≠ Some (mkTimer d Armed)) ∧
    (∀ d m w1 k1, ctimers w1 !! tm = Some (mkTimer d Armed) → clis w1 !! c = Some k1 → c_closed k1 = false →
       let w2 := set_ctimers <[tm := mkTimer d Fired]> w1 in
       ex m (watchdog c tm) w1
       = ex m (run_callback (c_onClose k1) (CUpClose c (Some CErrPingTimeout))
                 (λ f, cu_close usr f c (Some CErrPingTimeout))) (ended c (Some CErrPingTimeout) k1 w2)) ∧
    (∀ d w1, ctimers w1 !! tm = Some (mkTimer d Stopped) → fire_ctimer tm w1 = None).
Proof.
  intros Hs Hc Hb Hh Hr Hdec Ha tm.
  destruct (ex_ping_round n w c k i ki conn conn1 conn2 frame data Hs Hc Hb Hh Hr Hdec Ha) as (Hk2 & Hcn2 & He).
  set (w2 := set_cconns _ (upd_cli _ _ _)) in *. set (k2 := set_c_writeBuffer [] k) in *.
  set (w3 := armed c k2 w2) in *. destruct Hs as (_ & Ho & _).
  assert (cconns w3 = cconns w2) as R3 by (unfold w3, armed; by destruct (c_noPing k2)).
  eexists w3, _. split_and!; [exact He|by rewrite R3|..].
  - by apply armed_client.
  - done.
  - done.
  - done.
  - apply (armed_timer w2 c k2).
  - intros tm' d Hn Hlt. unfold w3, armed. change (c_noPing k2) with (c_noPing k). rewrite Hn.
    cbn [stop_ctimer ctimers set_ctimers upd_cli set_clis]. rewrite lookup_app_l by (by rewrite length_alter).
    rewrite list_lookup_alter_eq. destruct (ctimers w2 !! tm') as [[d' []]|]; simpl; congruence.
  - intros d m w1' k1 Htm Hk1 Ho1. unfold watchdog. rewrite exec_bind.
    rewrite (ex_await (fire_ctimer tm) w1' tt (set_ctimers <[tm := mkTimer d Fired]> w1'))
      by (unfold fire_ctimer; by rewrite Htm).
    rewrite (ex_closeWithError m c _ k1) by done. by destruct (ex m _ _) as [[[[] ?] ?]|].
  - intros d w1' Htm. unfold fire_ctimer. by rewrite Htm.
Qed.
(** ** The upgrade *)

(** A dial that is answered while nothing ended its context. *)
Lemma ev_dial n u ctx conn w es :
  ctx_done ctx w = false →
  ev n (dial_websocket choose u ctx) w (dial_answered (length (dials w)) (Ok conn) :: es)
  = Some (Ok (length (cconns w)),
          set_ctick S (set_cconns (λ l, l ++ [conn])
            (set_dials (λ l, l ++ [mkDial u ctx (Some (Ok (length (cconns w))))]) w)), [], es).
Proof.
  intros Hctx. unfold dial_websocket. eapply ev_quiet; [by rewrite exec_atomic|]. cbn [fst snd].
  apply ev_wait.
  - cbn [dials set_dials]. rewrite lookup_snoc. unfold take_answer, ctx_done in *. simpl. by rewrite Hctx.
  - unfold dial_answered. cbn [dials set_dials]. rewrite lookup_snoc. cbn [dials set_dials set_cconns].
    rewrite list_lookup_insert_eq by (rewrite length_app; simpl; lia).
    unfold take_answer, ctx_done in *. simpl. rewrite Hctx. simpl. do 2 f_equal.
    unfold set_ctick, set_cconns, set_dials. simpl. f_equal. by apply insert_snoc.
Qed.

(** The first steps of an upgrade: sends are buffered from now on, polling is
    paused, and the dial has a context of its own. *)
Definition begun c p w : W :=
  set_ctxs (λ l, l ++ [false]) (upd_cpoll p (set_cp_paused true) (upd_cli c (set_c_upgrading true) w)).

Record upgrades_from w c k p kp : Prop := {
  uf_client : clis w !! c = Some k;
  uf_open : c_closed k = false;
  uf_sid : c_sid k ≠ "";
  uf_tport : c_tport k = Some (CPolling p);
  uf_poll : cpolls w !! p = Some kp;
  uf_idle : cp_sendInflight kp = 0
}.

Lemma begun_client w c k p kp : upgrades_from w c k p kp →
  clis (begun c p w) !! c = Some (set_c_upgrading true k) ∧
  cpolls (begun c p w) !! p = Some (set_cp_paused true kp).
Proof.
  intros [Hk _ _ _ Hp _]. unfold begun, upd_cpoll, upd_cli. cbn [clis cpolls set_clis set_cpolls set_ctxs].
  by rewrite !list_lookup_alter_eq, Hk, Hp.
Qed.

Lemma ev_upgrade n w c k p kp r w' ts es es' rest :
  upgrades_from w c k p kp →
  let ctx := length (ctxs w) in
  ev n (dial_websocket choose (upgrade_url (c_u k) (c_sid k)) ctx) (begun c p w) es
  = Some (r, w', [], es') →
  (∀ q, q = match r with
       | Err _ => upgrade_fail c (Some (CPolling p)) ≫= λ _, update (cancel_ctx ctx)
       | Ok conn =>
           cconn_write conn ctx false (bytes_of "2probe") ≫= λ e,
           match e with
           | Some _ => upgrade_broken c (Some (CPolling p)) conn ctx
           | None => probe_loop c (Some (CPolling p)) conn ctx
           end
       end → ev n q w' es' = Some (tt, rest, ts, [])) →
  ev n (upgradeToWebsocket choose c) w es = Some (tt, rest, ts, []).
Proof.
  intros Huf ctx Hd Hrest. pose proof Huf as [Hk Ho Hsid Ht Hp Hidle].
  unfold upgradeToWebsocket. eapply ev_quiet; [by apply ex_cli_get|]. cbn beta iota.
  rewrite Ht, decide_False by done.
  eapply ev_quiet; [apply ex_update|].
  set (w1 := upd_cli c (set_c_upgrading true) w).
  eapply ev_quiet.
  { unfold cp_pause. eapply ex_first; [rewrite exec_atomic; unfold pause_locked|].
    - change (cpolls w1) with (cpolls w). by rewrite Hp, Hidle.
    - done. }
  cbn [snd]. set (w2 := upd_cpoll p (set_cp_paused true) w1).
  assert (clis w2 !! c = Some (set_c_upgrading true k)) as Hk2.
  { unfold w2, w1, upd_cpoll, upd_cli. cbn [clis set_clis set_cpolls]. by rewrite list_lookup_alter_eq, Hk. }
  eapply ev_quiet; [by apply ex_cli_get|]. cbn [c_u set_c_upgrading].
  eapply ev_quiet; [by rewrite exec_atomic|].
  eapply ev_first; [exact Hd|]. by apply Hrest.
Qed.
(** What is buffered goes over the WebSocket; when nothing is, nothing does. *)
Lemma ex_flush_ws n w c k i ki conn conn' :
  sending_over w c k (CWebsocket i) → connected w i ki conn →
  accepts conn (frame_of <$> c_writeBuffer k) conn' →
  ex (S n) (flushSends c) w
  = Some (tt, set_cconns <[cw_conn ki := conn']> (upd_cli c (set_c_writeBuffer []) w), []).
Proof.
  intros (Hk & Ho & Hu & Ht) Hc Ha. unfold flushSends. eapply ex_first.
  { rewrite exec_atomic. unfold flushSends_locked. rewrite Hk, Ho, Hu. done. }
  cbn [fst snd]. rewrite Ht. set (w1 := upd_cli c (set_c_writeBuffer []) w).
  destruct (c_writeBuffer k) as [|pk pks].
  - simpl in Ha. subst. destruct Hc as (_ & _ & Hc). unfold set_cconns. rewrite list_insert_id by done. by destruct w.
  - apply ex_call. by apply (ex_cw_Send n i ki conn conn' (pk :: pks) w1).
Qed.

(** The client as it is after an upgrade. *)
Definition upgraded_client i (k : client) : client :=
  set_c_writeBuffer [] (set_c_tport (Some (CWebsocket i)) (set_c_upgrading false k)).

Lemma ex_finish n w c k p kp j conn conn' ctx :
  clis w !! c = Some k → c_closed k = false → c_tport k = Some (CPolling p) →
  cpolls w !! p = Some kp → cconns w !! j = Some conn →
  accepts conn (frame_of <$> c_writeBuffer k) conn' → (ctx < length (ctxs w))%nat →
  let i := length (cwss w) in
  ∃ w', ex (S n) (finish_upgrade c j ctx) w
        = Some (tt, w', [Forever (cw_round (C := C) (U := U) i) (cw_round i)]) ∧
    clis w' !! c = Some (upgraded_client i k) ∧ cpolls w' !! p = Some (set_cp_closed true kp) ∧
    connected w' i (mkCWebsocket j (length (ctxs w)) (Some (mkBinding c (CWebsocket i))) true) conn' ∧
    dials w' = dials w ∧ https w' = https w ∧ cuplog w' = cuplog w ∧ cpanicked w' = cpanicked w.
Proof.
  intros Hk Ho Ht Hp Hj Ha Hctx i. set (x := length (ctxs w)).
  set (w1 := set_cwss (λ l, l ++ [mkCWebsocket j x None false]) (set_ctxs (λ l, l ++ [false]) w)).
  set (k2 := set_c_tport (Some (CWebsocket i)) (set_c_upgrading false k)).
  set (w2 := upd_cli c (λ k, set_c_tport (Some (CWebsocket i)) (set_c_upgrading false k)) w1).
  set (w3 := upd_cpoll p (set_cp_closed true) w2).
  set (b := mkBinding c (CWebsocket i)).
  set (w4 := upd_cws i (set_cw_handler (Some b)) w3).
  set (w5 := upd_cws i (set_cw_reading true) w4).
  set (ki := mkCWebsocket j x (Some b) true).
  assert (clis w2 !! c = Some k2) as Hk2.
  { unfold w2, upd_cli. cbn [clis set_clis]. rewrite list_lookup_alter_eq. change (clis w1) with (clis w). by rewrite Hk. }
  assert (cwss w4 !! i = Some (mkCWebsocket j x (Some b) false)) as Hi4.
  { unfold w4, upd_cws. cbn [cwss set_cwss]. change (cwss w3) with (cwss w ++ [mkCWebsocket j x None false]).
    unfold i. by rewrite list_lookup_alter_eq, lookup_snoc. }
  assert (cwss w5 !! i = Some ki) as Hi5.
  { unfold w5, upd_cws. cbn [cwss set_cwss]. by rewrite list_lookup_alter_eq, Hi4. }
  assert (connected w5 i ki conn) as Hc5.
  { split_and!; [done| |done]. unfold ctx_done. change (ctxs w5) with (ctxs w ++ [false]). cbn [cw_ctx ki].
    unfold x. by rewrite lookup_snoc. }
  assert (sending_over w5 c k2 (CWebsocket i)) as Hs5 by by split_and!.
  set (w6 := set_cconns <[j := conn']> (upd_cli c (set_c_writeBuffer []) w5)).
  exists (cancel_ctx ctx w6). split_and!; try done.
  - unfold finish_upgrade. eapply ex_first; [unfold new_cwebsocket; rewrite exec_atomic; done|].
    cbn [fst snd add_ctx]. fold x. fold i. fold w1. eapply ex_first.
    { rewrite exec_atomic. unfold cl_switch. change (clis w1) with (clis w). rewrite Hk, Ho, Ht. done. }
    cbn [fst snd]. fold w2. eapply ex_last; [|apply ex_update].
    eapply ex_first; [unfold stopForUpgrade; apply ex_update|]. fold w3.
    eapply ex_seq; [|apply (ex_flush_ws n w5 c k2 i ki conn conn'); done|by rewrite app_nil_r].
    unfold cw_SetHandler. eapply ex_first; [apply ex_update|]. fold b. fold w4.
    eapply ex_first; [by rewrite exec_atomic, Hi4|]. done.
  - change (clis (cancel_ctx ctx w6)) with (clis (upd_cli c (set_c_writeBuffer []) w5)).
    unfold upd_cli. cbn [clis set_clis]. change (clis w5) with (clis w2). by rewrite list_lookup_alter_eq, Hk2.
  - change (cpolls (cancel_ctx ctx w6)) with (alter (set_cp_closed true) p (cpolls w)).
    by rewrite list_lookup_alter_eq, Hp.
  - split_and!.
    + done.
    + unfold ctx_done. change (ctxs (cancel_ctx ctx w6)) with (<[ctx := true]> (ctxs w ++ [false])).
      change (cw_ctx ki) with (length (ctxs w)). rewrite list_lookup_insert_ne by lia. by rewrite lookup_snoc.
    + change (cconns (cancel_ctx ctx w6)) with (<[j := conn']> (cconns w)). cbn [cw_conn].
      apply list_lookup_insert_eq. by eapply lookup_lt_Some.
Qed.
(** The probe over the new connection: the three frames of the protocol, and
    then what was buffered. *)
Definition probes (conn : C) (pkts : list Packet) (conn' : C) : Prop :=
  ∃ c1 c2 : C, accepts conn [(false, bytes_of "2probe")] c1 ∧
    ws_read c1 false = Some (Some (false, bytes_of "3probe"), c2) ∧
    accepts c2 ((false, bytes_of "5") :: (frame_of <$> pkts)) conn'.

Lemma ex_probe n w c k p kp j conn pkts conn' ctx :
  clis w !! c = Some k → c_closed k = false → c_tport k = Some (CPolling p) → c_writeBuffer k = pkts →
  cpolls w !! p = Some kp → cconns w !! j = Some conn → probes conn pkts conn' →
  ctx_done ctx w = false → (ctx < length (ctxs w))%nat →
  let i := length (cwss w) in
  ∃ w', ex (S n) (cconn_write j ctx false (bytes_of "2probe") ≫= λ e,
                  match e with
                  | Some _ => upgrade_broken c (Some (CPolling p)) j ctx
                  | None => probe_loop c (Some (CPolling p)) j ctx
                  end) w
        = Some (tt, w', [Forever (cw_round (C := C) (U := U) i) (cw_round i)]) ∧
    clis w' !! c = Some (upgraded_client i k) ∧ cpolls w' !! p = Some (set_cp_closed true kp) ∧
    connected w' i (mkCWebsocket j (length (ctxs w)) (Some (mkBinding c (CWebsocket i))) true) conn' ∧
    dials w' = dials w ∧ https w' = https w ∧ cuplog w' = cuplog w ∧ cpanicked w' = cpanicked w.
Proof.
  intros Hk Ho Ht Hb Hp Hj (c1 & c2 & (c1' & Hw1 & ->) & Hr & c3 & Hw3 & Ha) Hctx Hlt i.
  set (w1 := set_cconns <[j := c1']> w). set (w2 := set_cconns <[j := c2]> w1).
  set (w3 := set_cconns <[j := c3]> w2). pose proof (lookup_lt_Some _ _ _ Hj) as Hlen.
  assert (cconns w1 !! j = Some c1') as H1 by by apply list_lookup_insert_eq.
  assert (cconns w2 !! j = Some c2) as H2.
  { apply list_lookup_insert_eq. unfold w1. cbn [cconns set_cconns]. by rewrite length_insert. }
  assert (cconns w3 !! j = Some c3) as H3.
  { apply list_lookup_insert_eq. unfold w2, w1. cbn [cconns set_cconns]. by rewrite !length_insert. }
  rewrite <- Hb in Ha.
  destruct (ex_finish n w3 c k p kp j c3 conn' ctx) as (w' & He & Hres); try done.
  exists w'. split; [|exact Hres].
  eapply ex_first; [by apply (ex_cconn_write (S n) j ctx false _ conn c1' w)|]. fold w1.
  cbn beta iota. unfold probe_loop.
  eapply ex_first; [eapply ex_cconn_read; [exact H1|]|].
  { change (ctx_done ctx w1) with (ctx_done ctx w). by rewrite Hctx. }
  cbn [fst snd]. fold w2. rewrite bool_decide_true by done. cbn [negb andb].
  eapply ex_first; [by apply (ex_cconn_write (S n) j ctx false _ c2 c3 w2)|]. fold w3. exact He.
Qed.

(** C19. An upgrade against a server that answers the probe: the client dials
    the WebSocket with the session id, sends the probe and, after the answer,
    the upgrade packet, and switches to the new transport, whose reader is
    started; the polling transport is paused before the dial and closed after
    the switch; what was buffered follows the upgrade packet over the new
    connection, in order, and no request is made over polling.  The dial is the only
    thing that waits: it never gets stuck. *)
Theorem client_upgrade_moves n w c k p kp conn conn' :
  upgrades_from w c k p kp → probes conn (c_writeBuffer k) conn' →
  let i := length (cwss w) in let j := length (cconns w) in
  ∃ w' ki, ev (S n) (upgradeToWebsocket choose c) w [dial_answered (length (dials w)) (Ok conn)]
      = Some (tt, w', [Forever (cw_round (C := C) (U := U) i) (cw_round i)], []) ∧
    (∃ k', clis w' !! c = Some k' ∧ c_tport k' = Some (CWebsocket i) ∧ c_upgrading k' = false ∧
       c_closed k' = false ∧ c_writeBuffer k' = [] ∧ c_sid k' = c_sid k) ∧
    (∃ kp', cpolls w' !! p = Some kp' ∧ cp_paused kp' = true ∧ cp_closed kp' = true) ∧
    connected w' i ki conn' ∧ cw_conn ki = j ∧ cw_handler ki = Some (mkBinding c (CWebsocket i)) ∧
    dials w' = dials w ++ [mkDial (upgrade_url (c_u k) (c_sid k)) (length (ctxs w)) (Some (Ok j))] ∧
    https w' = https w ∧ cuplog w' = cuplog w ∧ cpanicked w' = cpanicked w.
Proof.
  intros Huf Hpr i j. pose proof Huf as [Hk Ho Hsid Ht Hp Hidle].
  destruct (begun_client w c k p kp Huf) as [Hk1 Hp1]. set (ctx := length (ctxs w)).
  set (wb := begun c p w) in *. set (dl := mkDial (upgrade_url (c_u k) (c_sid k)) ctx (Some (Ok j))).
  set (w1 := set_ctick S (set_cconns (λ l, l ++ [conn]) (set_dials (λ l, l ++ [dl]) wb))).
  assert (ctx_done ctx wb = false) as Hctx.
  { unfold ctx_done. change (ctxs wb) with (ctxs w ++ [false]). unfold ctx. by rewrite lookup_snoc. }
  destruct (ex_probe n w1 c (set_c_upgrading true k) p (set_cp_paused true kp) j conn (c_writeBuffer k) conn' ctx)
    as (w' & He & Hk' & Hp' & Hc' & Hd' & Hh' & Hl' & Hpn'); try done.
  { change (cconns w1) with (cconns w ++ [conn]). apply lookup_snoc. }
  { change (ctxs w1) with (ctxs w ++ [false]). rewrite length_app. simpl. unfold ctx. lia. }
  eexists w', _. split_and!.
  - eapply (ev_upgrade (S n) w c k p kp (Ok j) w1); [done|exact (ev_dial (S n) _ ctx conn wb [] Hctx)|].
    intros q ->. apply exec_env_alone. exact He.
  - eexists. by split_and!.
  - eexists. split; [exact Hp'|done].
  - exact Hc'.
  - done.
  - done.
  - by rewrite Hd'.
  - by rewrite Hh'.
  - by rewrite Hl'.
  - by rewrite Hpn'.
Qed.
Lemma ex_resume n w p kp :
  cpolls w !! p = Some kp → cp_paused kp = true → cchans w !! cp_pauseCh kp = Some false →
  let d := length (cchans w) in
  ∃ w', ex n (cp_resume p) w = Some (tt, w', []) ∧
    cpolls w' !! p = Some (set_cp_pauseCh d (set_cp_paused false kp)) ∧
    cchans w' = <[cp_pauseCh kp := true]> (cchans w) ++ [false] ∧
    clis w' = clis w ∧ https w' = https w ∧ cuplog w' = cuplog w ∧ cpanicked w' = cpanicked w
    ∧ cconns w' = cconns w.
Proof.
  intros Hp Hpa Hch d. unfold cp_resume. rewrite ex_update. unfold resume_locked. rewrite Hp, Hpa.
  unfold close_cchan. change (cchans (upd_cpoll p (set_cp_paused false) w)) with (cchans w). rewrite Hch.
  eexists. split; [done|]. unfold upd_cpoll. cbn.
  rewrite !list_lookup_alter_eq, Hp. cbn. rewrite length_insert. by split_and!.
Qed.

(** What was buffered is posted in one request, when there is something. *)
Lemma ev_flush_buffered n w c k p kp body :
  sending_over w c k (CPolling p) → polls_for w p kp c →
  let resp := Ok (mkResponse 200 body None) in
  let post := mkHttp "POST" (poll_url kp (c_sid k)) (EncodePayload (c_writeBuffer k)) (cp_ctx kp) (Some resp) in
  let quiet := decide (c_writeBuffer k = []) in
  ∃ w', ev (S n) (flushSends c) w (if quiet then [] else [answered (length (https w)) resp]) = Some (tt, w', [], []) ∧
    clis w' !! c = Some (set_c_writeBuffer [] k) ∧ https w' = https w ++ (if quiet then [] else [post]) ∧
    cpolls w' = cpolls w ∧ cchans w' = cchans w ∧ cuplog w' = cuplog w ∧ cpanicked w' = cpanicked w
    ∧ cconns w' = cconns w.
Proof.
  intros Hs Hp resp post quiet. pose proof Hs as (Hk & Ho & Hu & Ht).
  set (w1 := upd_cli c (set_c_writeBuffer []) w).
  assert (clis w1 !! c = Some (set_c_writeBuffer [] k)) as Hk1.
  { unfold w1, upd_cli. cbn [clis set_clis]. by rewrite list_lookup_alter_eq, Hk. }
  destruct quiet as [Hb|Hb].
  - exists w1. split_and!; [|done|by rewrite app_nil_r|done..]. apply exec_env_alone. unfold flushSends.
    eapply ex_first; [rewrite exec_atomic; unfold flushSends_locked; by rewrite Hk, Ho, Hu|].
    cbn [fst snd]. by rewrite Ht, Hb.
  - eexists. split.
    + eapply (ev_flushSends n c k (CPolling p)); [done..|].
      by apply (ev_cp_Send_ok n p kp c (set_c_writeBuffer [] k) w1 (c_writeBuffer k) body []).
    + by split_and!.
Qed.

(** *** An upgrade that fails

    What others do while the upgrade waits comes with the steps of its
    environment: the application sends [sent], and the server answers, a peer
    acts or the upgrade's time is over. *)
Definition queued c (sent : list Packet) : W → W :=
  upd_cli c (λ k, set_c_writeBuffer (c_writeBuffer k ++ sent) k).
Definition expires c (ctx : ctxp) (sent : list Packet) : W → W := λ w, cancel_ctx ctx (queued c sent w).
Definition peer_does c (j : connp) (f : C → C) (sent : list Packet) : W → W :=
  λ w, set_cconns (alter f j) (queued c sent w).
Definition dial_settles c (i : nat) (a : result string C) (sent : list Packet) : W → W :=
  λ w, dial_answered i a (queued c sent w).

(** Writing [data] to the connection [x1] fails, at once or when the time is
    over. *)
Inductive write_fails c (ctx : ctxp) (x1 : C) (data : bytes) : C → list Packet → list (W → W) → Prop :=
| wf_error e x2 : ws_write x1 false false data = Some (Some e, x2) → write_fails c ctx x1 data x2 [] []
| wf_timeout e x2 sent :
    ws_write x1 false false data = None → ws_write x1 true false data = Some (Some e, x2) →
    write_fails c ctx x1 data x2 sent [expires c ctx sent].

(** Waiting for the answer to the probe fails on the connection [x1], number
    [j], after [n] unexpected frames: reading fails, or the time is over, or
    the answer comes and writing the upgrade packet fails.  It may wait for
    the peer. *)
Inductive probe_fails c (ctx : ctxp) (j : connp) : nat → C → C → list Packet → list (W → W) → Prop :=
| pf_read x1 x2 : ws_read x1 false = Some (None, x2) → probe_fails c ctx j 0 x1 x2 [] []
| pf_timeout x1 x2 sent :
    ws_read x1 false = None → ws_read x1 true = Some (None, x2) →
    probe_fails c ctx j 0 x1 x2 sent [expires c ctx sent]
| pf_upgrade x1 x2 x3 sent es :
    ws_read x1 false = Some (Some (false, bytes_of "3probe"), x2) →
    write_fails c ctx x2 (bytes_of "5") x3 sent es → probe_fails c ctx j 0 x1 x3 sent es
| pf_frame n x1 x2 x3 b data sent es :
    ws_read x1 false = Some (Some (b, data), x2) → (b, data) ≠ (false, bytes_of "3probe") →
    probe_fails c ctx j n x2 x3 sent es → probe_fails c ctx j (S n) x1 x3 sent es
| pf_wait n x1 x2 f sent0 sent es :
    ws_read x1 false = None → ws_read (f x1) false ≠ None →
    probe_fails c ctx j n (f x1) x2 sent es →
    probe_fails c ctx j n x1 x2 (sent0 ++ sent) (peer_does c j f sent0 :: es).

(** The upgrade fails: its dial, number [i], fails or takes too long, the
    probe cannot be written, or its answer does not come.  The connection it
    leaves, if it has made one, is the third argument. *)
Inductive upgrade_fails c (ctx : ctxp) i (j : connp) : nat → option C → list Packet → list (W → W) → Prop :=
| uf_dial msg sent : upgrade_fails c ctx i j 0 None sent [dial_settles c i (Err msg) sent]
| uf_late sent : upgrade_fails c ctx i j 0 None sent [expires c ctx sent]
| uf_probe x1 x2 sent0 sent es :
    write_fails c ctx x1 (bytes_of "2probe") x2 sent es →
    upgrade_fails c ctx i j 0 (Some x2) (sent0 ++ sent) (dial_settles c i (Ok x1) sent0 :: es)
| uf_answer n x1 x2 x3 sent0 sent es :
    ws_write x1 false false (bytes_of "2probe") = Some (None, x2) → probe_fails c ctx j n x2 x3 sent es →
    upgrade_fails c ctx i j n (Some x3) (sent0 ++ sent) (dial_settles c i (Ok x1) sent0 :: es).

(** While the upgrade that began in [w] is tried: [sent] is buffered, polling
    is paused. *)
Record attempting w c k p kp (sent : list Packet) w' : Prop := {
  at_client : clis w' !! c = Some (set_c_writeBuffer (c_writeBuffer k ++ sent) (set_c_upgrading true k));
  at_poll : cpolls w' !! p = Some (set_cp_paused true kp);
  at_ctx : ctx_done (cp_ctx kp) w' = false;
  at_rest : (https w', cchans w', cuplog w', cpanicked w') = (https w, cchans w, cuplog w, cpanicked w)
}.

(** The session after the attempt: on polling as before, with what was
    buffered posted. *)
Record still_polling w c k p kp (body : bytes) (buffered : list Packet) w' : Prop := {
  sp_client : ∃ k', clis w' !! c = Some k' ∧ c_tport k' = Some (CPolling p) ∧ c_upgrading k' = false ∧
    c_closed k' = false ∧ c_writeBuffer k' = [];
  sp_poll : ∃ kp', cpolls w' !! p = Some kp' ∧ cp_paused kp' = false ∧ cp_closed kp' = cp_closed kp ∧
    cchans w' !! cp_pauseCh kp' = Some false;
  sp_woken : cchan_closed (cp_pauseCh kp) w' = true;
  sp_posted : https w' = https w ++
    (if decide (buffered = []) then []
     else [mkHttp "POST" (poll_url kp (c_sid k)) (EncodePayload buffered) (cp_ctx kp)
             (Some (Ok (mkResponse 200 body None)))]);
  sp_quiet : cuplog w' = cuplog w ∧ cpanicked w' = cpanicked w
}.

Definition posting w (body : bytes) (buffered : list Packet) : list (W → W) :=
  if decide (buffered = []) then [] else [answered (length (https w)) (Ok (mkResponse 200 body None))].

Lemma attempting_queued w c k p kp sent0 sent w1 :
  attempting w c k p kp sent0 w1 → attempting w c k p kp (sent0 ++ sent) (queued c sent w1).
Proof.
  intros [H1 H2 H3 H4]. split; [|done..]. unfold queued, upd_cli. cbn [clis set_clis].
  rewrite list_lookup_alter_eq, H1. simpl. by rewrite app_assoc.
Qed.

(** A message sent by the application is buffered. *)
Lemma ex_send_upgrading n w c k data b :
  clis w !! c = Some k → c_closed k = false → c_upgrading k = true →
  ex n (cl_SendMessage c data b) w = Some (None, queued c [message data b] w, []).
Proof.
  intros Hk Ho Hu. unfold cl_SendMessage. eapply ex_first.
  { rewrite exec_atomic. unfold cl_push. by rewrite Hk, Ho. }
  cbn [fst snd]. set (w1 := upd_cli c _ w). assert (w1 = queued c [message data b] w) as <-.
  { unfold w1, queued, upd_cli, set_clis. f_equal. rewrite !(alter_as_insert _ c _ k) by done. done. }
  assert (flushSends_locked c w1 = (None, w1)) as Hf.
  { unfold flushSends_locked, w1, upd_cli. cbn [clis set_clis]. rewrite list_lookup_alter_eq, Hk. simpl.
    by rewrite Ho, Hu. }
  unfold flushSends. rewrite !exec_bind, exec_atomic, Hf. done.
Qed.

(** [fail] brings the session back. *)
Lemma ev_upgrade_fail n w c k p kp sent body w1 ctx :
  upgrades_from w c k p kp → polls_for w p kp c → cchans w !! cp_pauseCh kp = Some false →
  attempting w c k p kp sent w1 →
  ∃ w', ev (S n) (upgrade_fail c (Some (CPolling p)) ≫= λ _, update (cancel_ctx ctx)) w1
          (posting w body (c_writeBuffer k ++ sent)) = Some (tt, w', [], []) ∧
    still_polling w c k p kp body (c_writeBuffer k ++ sent) w' ∧ cconns w' = cconns w1.
Proof.
  intros [Hk Ho Hsid Ht Hp Hidle] (_ & Hsid' & _) Hch [Hk1 Hp1 Hx1 Hr1]. injection Hr1 as R1 R2 R3 R4.
  set (buffered := c_writeBuffer k ++ sent) in *. set (kp1 := set_cp_paused true kp) in *.
  set (w2 := upd_cli c (set_c_upgrading false) w1).
  set (k2 := set_c_upgrading false (set_c_writeBuffer buffered (set_c_upgrading true k))).
  assert (clis w2 !! c = Some k2) as Hk2.
  { unfold w2, upd_cli. cbn [clis set_clis]. by rewrite list_lookup_alter_eq, Hk1. }
  destruct (ev_flush_buffered n w2 c k2 p kp1 body) as (w4 & He4 & E1 & Hh4 & E2 & E3 & E4 & E5 & E6); [by split_and!..|].
  destruct (ex_resume (S n) w4 p kp1) as (w5 & He5 & Hp5 & Hch5 & Hk5 & Hh5 & Hl5 & Hpn5 & Hcc5);
    [by rewrite E2|done|rewrite E3; change (cchans w2) with (cchans w1); by rewrite R2|].
  change (c_writeBuffer k2) with buffered in *. change (https w2) with (https w1) in *. rewrite R1 in *.
  change (cchans w2) with (cchans w1) in *. rewrite R2 in *.
  exists (cancel_ctx ctx w5). split_and!.
  - eapply ev_seq; [|by apply exec_env_alone|by rewrite app_nil_r].
    unfold upgrade_fail. eapply ev_quiet; [apply ex_update|]. fold w2.
    eapply ev_seq; [exact He4| |done]. by apply exec_env_alone.
  - split.
    + exists (set_c_writeBuffer [] k2). split_and!; try done. change (clis (cancel_ctx ctx w5)) with (clis w5). by rewrite Hk5.
    + eexists. split; [exact Hp5|]. split_and!; [done..|].
      change (cchans (cancel_ctx ctx w5)) with (cchans w5). rewrite Hch5, E3. cbn [cp_pauseCh set_cp_pauseCh].
      apply list_lookup_middle. by rewrite length_insert.
    + unfold cchan_closed. change (cchans (cancel_ctx ctx w5)) with (cchans w5). rewrite Hch5, E3.
      change (cp_pauseCh kp1) with (cp_pauseCh kp). apply lookup_lt_Some in Hch.
      rewrite lookup_app_l by (by rewrite length_insert). by rewrite list_lookup_insert_eq.
    + change (https (cancel_ctx ctx w5)) with (https w5). by rewrite Hh5.
    + split; [change (cuplog (cancel_ctx ctx w5)) with (cuplog w5); by rewrite Hl5, E4|].
      change (cpanicked (cancel_ctx ctx w5)) with (cpanicked w5). by rewrite Hpn5, E5.
  - change (cconns (cancel_ctx ctx w5)) with (cconns w5). by rewrite Hcc5, E6.
Qed.

(** The steps of the environment during the attempt. *)
Lemma attempting_expires w c k p kp sent0 sent ctx w1 :
  cp_ctx kp ≠ ctx → attempting w c k p kp sent0 w1 →
  attempting w c k p kp (sent0 ++ sent) (expires c ctx sent w1).
Proof.
  intros Hne Ha. destruct (attempting_queued w c k p kp sent0 sent w1 Ha) as [H1 H2 H3 H4]. split; try done.
  unfold ctx_done, expires, cancel_ctx in *. cbn [ctxs set_ctxs]. by rewrite list_lookup_insert_ne.
Qed.

Lemma expired c ctx sent w : (ctx < length (ctxs w))%nat → ctx_done ctx (expires c ctx sent w) = true.
Proof.
  intros Hx. unfold ctx_done, expires, cancel_ctx. cbn [ctxs set_ctxs]. by rewrite list_lookup_insert_eq.
Qed.

Lemma ev_event {A B : Type} n (f : W → option (A * W)) (q : A → P B) w e es :
  f w = None → f (e w) ≠ None → ev n (await f ≫= q) w (e :: es) = ev n (await f ≫= q) (e w) es.
Proof.
  intros H1 H2. rewrite !exec_env_bind. simpl. rewrite H1. by destruct (f (e w)) as [[a w']|].
Qed.

(** The failure of a write. *)
Lemma ev_write_fails n w c k p kp sent0 w1 ctx j x1 data x2 sent es0 es :
  write_fails c ctx x1 data x2 sent es0 → attempting w c k p kp sent0 w1 → cp_ctx kp ≠ ctx →
  cconns w1 !! j = Some x1 → ctx_done ctx w1 = false →
  ∃ e w2, ev n (cconn_write j ctx false data) w1 (es0 ++ es) = Some (Some e, w2, [], es) ∧
    attempting w c k p kp (sent0 ++ sent) w2 ∧ cconns w2 = <[j := x2]> (cconns w1).
Proof.
  intros Hw Ha Hne Hj Hx.
  assert (ctx < length (ctxs w1))%nat as Hlt.
  { unfold ctx_done in Hx. destruct (ctxs w1 !! ctx) eqn:E; [by eapply lookup_lt_Some|done]. }
  destruct Hw as [e x2 Hw|e x2 sent Hb Hw].
  - exists e, (set_cconns <[j := x2]> w1). split_and!; [|rewrite app_nil_r; by destruct Ha; split|done].
    apply ev_ready. by rewrite Hj, Hx, Hw.
  - exists e, (set_cconns <[j := x2]> (expires c ctx sent w1)). split_and!; [| |done].
    + apply ev_wait; [by rewrite Hj, Hx, Hb|].
      change (cconns (expires c ctx sent w1)) with (cconns w1). by rewrite Hj, expired, Hw.
    + destruct (attempting_expires w c k p kp sent0 sent ctx w1 Hne Ha). by split.
Qed.

(** [upgrade_broken] *)
Lemma ev_upgrade_broken n w c k p kp sent body w1 ctx j x xs :
  upgrades_from w c k p kp → polls_for w p kp c → cchans w !! cp_pauseCh kp = Some false →
  attempting w c k p kp sent w1 → cconns w1 = <[j := x]> xs → (j < length xs)%nat →
  ∃ w', ev (S n) (upgrade_broken c (Some (CPolling p)) j ctx) w1
          (posting w body (c_writeBuffer k ++ sent)) = Some (tt, w', [], []) ∧
    still_polling w c k p kp body (c_writeBuffer k ++ sent) w' ∧ cconns w' = <[j := ws_closeNow x]> xs.
Proof.
  intros Huf Hp Hch Ha Hj Hlt. set (w2 := set_cconns (alter ws_closeNow j) w1).
  assert (attempting w c k p kp sent w2) as Ha2 by (destruct Ha; by split).
  destruct (ev_upgrade_fail n w c k p kp sent body w2 ctx Huf Hp Hch Ha2) as (w' & He & Hs & Hc).
  exists w'. split_and!; [|done|].
  - unfold upgrade_broken. eapply ev_quiet; [apply ex_update|]. exact He.
  - rewrite Hc. unfold w2. cbn [cconns set_cconns]. rewrite Hj.
    rewrite (alter_as_insert _ j _ x) by (by apply list_lookup_insert_eq). by rewrite list_insert_insert_eq.
Qed.

Lemma attempting_conns w c k p kp sent f w1 :
  attempting w c k p kp sent w1 → attempting w c k p kp sent (set_cconns f w1).
Proof. intros []. by split. Qed.

(** [probe_loop] *)
Lemma ev_probe_fails n m w c k p kp body ctx j x1 x2 sent es :
  upgrades_from w c k p kp → polls_for w p kp c → cchans w !! cp_pauseCh kp = Some false → cp_ctx kp ≠ ctx →
  probe_fails c ctx j m x1 x2 sent es →
  ∀ sent0 w1 xs, attempting w c k p kp sent0 w1 → cconns w1 = <[j := x1]> xs → (j < length xs)%nat →
  ctx_done ctx w1 = false → (ctx < length (ctxs w1))%nat →
  ∃ w', ev (S (m + n)) (probe_loop c (Some (CPolling p)) j ctx) w1
          (es ++ posting w body (c_writeBuffer k ++ sent0 ++ sent)) = Some (tt, w', [], []) ∧
    still_polling w c k p kp body (c_writeBuffer k ++ sent0 ++ sent) w' ∧ cconns w' = <[j := ws_closeNow x2]> xs.
Proof.
  intros Huf Hp Hch Hne Hf. induction Hf as [x1 x2 Hr|x1 x2 sent Hb Hr|x1 x2 x3 sent es Hr Hwf
    |m x1 x2 x3 b data sent es Hr Hd Hf IH|m x1 x2 f sent1 sent es Hb Hr Hf IH]; intros sent0 w1 xs Ha Hj Hl Hx Hlt.
  all: assert (cconns w1 !! j = Some x1) as Hj1 by (rewrite Hj; by apply list_lookup_insert_eq).
  all: assert (∀ x, cconns (set_cconns <[j := x]> w1) = <[j := x]> xs) as Hset
    by (intros x; cbn [cconns set_cconns]; rewrite Hj; by rewrite list_insert_insert_eq).
  - destruct (ev_upgrade_broken n w c k p kp (sent0 ++ []) body (set_cconns <[j := x2]> w1) ctx j x2 xs)
      as (w' & He & Hs & Hc); try done.
    { rewrite app_nil_r. by apply attempting_conns. }
    exists w'. split_and!; [|done|done].
    unfold probe_loop. eapply ev_first; [apply ev_ready; by rewrite Hj1, Hx, Hr|]. exact He.
  - destruct (ev_upgrade_broken n w c k p kp (sent0 ++ sent) body
      (set_cconns <[j := x2]> (expires c ctx sent w1)) ctx j x2 xs) as (w' & He & Hs & Hc); try done.
    { by apply attempting_conns, attempting_expires. }
    { exact (Hset x2). }
    exists w'. split_and!; [|done|done].
    unfold probe_loop. eapply ev_first.
    { apply ev_wait; [by rewrite Hj1, Hx, Hb|].
      change (cconns (expires c ctx sent w1)) with (cconns w1). by rewrite Hj1, expired, Hr. }
    exact He.
  - set (w2 := set_cconns <[j := x2]> w1).
    destruct (ev_write_fails (S n) w c k p kp sent0 w2 ctx j x2 (bytes_of "5") x3 sent es
      (posting w body (c_writeBuffer k ++ sent0 ++ sent))) as (e & w3 & Hw & Ha3 & Hc3); try done.
    { by apply attempting_conns. }
    { unfold w2. rewrite Hset. by apply list_lookup_insert_eq. }
    destruct (ev_upgrade_broken n w c k p kp (sent0 ++ sent) body w3 ctx j x3 xs) as (w' & He & Hs & Hc); try done.
    { rewrite Hc3. unfold w2. rewrite Hset. by rewrite list_insert_insert_eq. }
    exists w'. split_and!; [|done|done].
    unfold probe_loop. eapply ev_first; [apply ev_ready; by rewrite Hj1, Hx, Hr|].
    cbn beta iota. rewrite bool_decide_true by done. cbn [negb andb]. eapply ev_first; [exact Hw|]. exact He.
  - destruct (IH sent0 (set_cconns <[j := x2]> w1) xs) as (w' & He & Hs & Hc); try done.
    { by apply attempting_conns. }
    exists w'. split_and!; [|done|done].
    unfold probe_loop. eapply ev_first; [apply ev_ready; by rewrite Hj1, Hx, Hr|]. cbn beta iota.
    assert (negb b && bool_decide (data = bytes_of "3probe") = false) as ->.
    { destruct b; [done|]. simpl. apply bool_decide_eq_false_2. congruence. }
    apply ev_call. exact He.
  - destruct (IH (sent0 ++ sent1) (peer_does c j f sent1 w1) xs) as (w' & He & Hs & Hc); try done.
    { by apply attempting_conns, attempting_queued. }
    { unfold peer_does. cbn [cconns set_cconns]. change (cconns (queued c sent1 w1)) with (cconns w1).
      rewrite Hj, (alter_as_insert f j _ x1) by (by apply list_lookup_insert_eq). by rewrite list_insert_insert_eq. }
    rewrite <- (assoc_L (++) sent0) in He, Hs. exists w'. split_and!; [|done|done].
    change ((peer_does c j f sent1 :: es) ++ posting w body (c_writeBuffer k ++ sent0 ++ sent1 ++ sent))
      with (peer_does c j f sent1 :: (es ++ posting w body (c_writeBuffer k ++ sent0 ++ sent1 ++ sent))).
    unfold probe_loop, cconn_read. rewrite ev_event.
    + exact He.
    + by rewrite Hj1, Hx, Hb.
    + unfold peer_does. cbn [cconns set_cconns]. change (cconns (queued c sent1 w1)) with (cconns w1).
      rewrite (alter_as_insert f j _ x1), list_lookup_insert_eq by (try done; by eapply lookup_lt_Some).
      change (ctx_done ctx (set_cconns _ _)) with (ctx_done ctx w1). rewrite Hx.
      by destruct (ws_read (f x1) false) as [[]|].
Qed.

(** The dial ends with the environment's next step. *)
Lemma ev_dial_event n u ctx w e es r w' :
  let i := length (dials w) in
  let w1 := set_dials (λ l, l ++ [mkDial u ctx None]) w in
  ctx_done ctx w = false →
  match dials (e w1) !! i with Some d => take_answer choose ctx (d_answer d) (e w1) | None => None end = Some (r, w') →
  ev n (dial_websocket choose u ctx) w (e :: es) = Some (r, w', [], es).
Proof.
  intros i w1 Hctx He. unfold dial_websocket. eapply ev_quiet; [by rewrite exec_atomic|]. cbn [fst snd].
  fold i w1. apply ev_wait; [|exact He].
  unfold w1. cbn [dials set_dials]. unfold i. rewrite lookup_snoc. unfold take_answer, ctx_done in *. simpl. by rewrite Hctx.
Qed.

Lemma ev_dial_settles n c u ctx a sent w es :
  ctx_done ctx w = false →
  ∃ w2, ev n (dial_websocket choose u ctx) w (dial_settles c (length (dials w)) a sent :: es)
        = Some (match a with Ok _ => Ok (length (cconns w)) | Err e => Err e end, w2, [], es) ∧
    cconns w2 = cconns w ++ match a with Ok x => [x] | Err _ => [] end ∧
    (clis w2, cpolls w2, ctxs w2, https w2, cchans w2, cuplog w2, cpanicked w2)
    = (clis (queued c sent w), cpolls w, ctxs w, https w, cchans w, cuplog w, cpanicked w).
Proof.
  intros Hctx. set (w1 := set_dials (λ l, l ++ [mkDial u ctx None]) w).
  set (w3 := dial_settles c (length (dials w)) a sent w1).
  assert (∃ d, dials w3 !! length (dials w) = Some d ∧
    d_answer d = Some (match a with Ok _ => Ok (length (cconns w)) | Err e => Err e end)) as (d & Hd & Hda).
  { unfold w3, dial_settles, dial_answered. change (dials (queued c sent w1)) with (dials w ++ [mkDial u ctx None]).
    rewrite lookup_snoc. destruct a; eexists; (split; [apply list_lookup_insert_eq; simpl; rewrite length_app; simpl; lia|done]). }
  assert (ctx_done ctx w3 = false) as Hx.
  { unfold w3, dial_settles, dial_answered. change (dials (queued c sent w1)) with (dials w ++ [mkDial u ctx None]).
    rewrite lookup_snoc. by destruct a. }
  exists (set_ctick S w3). split_and!.
  - eapply ev_dial_event; [done|]. fold w1. fold w3. rewrite Hd, Hda. unfold take_answer. by rewrite Hx.
  - unfold w3, dial_settles, dial_answered. change (dials (queued c sent w1)) with (dials w ++ [mkDial u ctx None]).
    rewrite lookup_snoc. destruct a; [done|by rewrite app_nil_r].
  - unfold w3, dial_settles, dial_answered. change (dials (queued c sent w1)) with (dials w ++ [mkDial u ctx None]).
    rewrite lookup_snoc. by destruct a.
Qed.

Lemma attempting_begun w c k p kp sent w1 :
  upgrades_from w c k p kp → polls_for w p kp c →
  (clis w1, cpolls w1, ctxs w1, https w1, cchans w1, cuplog w1, cpanicked w1)
  = (clis (queued c sent (begun c p w)), cpolls (begun c p w), ctxs (begun c p w), https w, cchans w, cuplog w, cpanicked w) →
  attempting w c k p kp sent w1.
Proof.
  intros Huf (_ & _ & Hx) [= E1 E2 E3 E4 E5 E6 E7]. destruct (begun_client w c k p kp Huf) as [Hk Hp].
  split.
  - rewrite E1, !list_lookup_alter_eq, (uf_client _ _ _ _ _ Huf). done.
  - rewrite E2. exact Hp.
  - unfold ctx_done in *. rewrite E3.
    destruct (ctxs w !! cp_ctx kp) as [b|] eqn:Hb; [by rewrite (lookup_app_l_Some _ _ _ _ Hb)|done].
  - by rewrite E4, E5, E6, E7.
Qed.

(** The dial takes too long. *)
Lemma ev_dial_late n c u ctx sent w es :
  ctx_done ctx w = false → (ctx < length (ctxs w))%nat →
  ∃ w2, ev n (dial_websocket choose u ctx) w (expires c ctx sent :: es)
        = Some (Err "context canceled", w2, [], es) ∧
    cconns w2 = cconns w ∧
    ∀ w0 k p kp, attempting w0 c k p kp sent (expires c ctx sent w) → attempting w0 c k p kp sent w2.
Proof.
  intros Hctx Hlt. set (w1 := set_dials (λ l, l ++ [mkDial u ctx None]) w).
  set (w3 := expires c ctx sent w1). exists (set_ctick S w3). split_and!; [|done|].
  - eapply ev_dial_event; [done|]. fold w1. fold w3. change (dials w3) with (dials w ++ [mkDial u ctx None]).
    rewrite lookup_snoc. unfold take_answer. cbn [d_answer]. unfold w3. by rewrite expired.
  - intros w0 k p kp []. by split.
Qed.

Lemma attempting_start w c k p kp :
  upgrades_from w c k p kp → polls_for w p kp c → attempting w c k p kp [] (begun c p w).
Proof.
  intros Huf Hp. eapply attempting_begun; [done..|]. f_equal. f_equal. f_equal. f_equal. f_equal. f_equal.
  destruct (begun_client w c k p kp Huf) as [Hk _].
  unfold queued, upd_cli. cbn [clis set_clis]. rewrite (alter_as_insert _ c _ _ Hk), app_nil_r.
  symmetry. by apply list_insert_id.
Qed.

(** C23. An upgrade that fails, wherever it does, leaves the session as it was.
    The dial may fail or take too long; writing the probe may fail; its answer
    may not come, after any number of other frames; writing the upgrade packet
    may fail.  Meanwhile the application sends [sent]: that is buffered.
    Afterwards the connection, if one was made, is closed; the client is on
    polling and sends again; what was buffered before and during the attempt
    is posted in one request, in order; and the paused loop goes on: the
    channel it waits on is closed, and the next pause has a new one.  The user
    is told nothing. *)
Theorem upgrade_fails_safely n m w c k p kp x sent es body :
  upgrades_from w c k p kp → polls_for w p kp c → cchans w !! cp_pauseCh kp = Some false →
  upgrade_fails c (length (ctxs w)) (length (dials w)) (length (cconns w)) m x sent es →
  let buffered := c_writeBuffer k ++ sent in
  (∃ w', ev (S (m + n)) (upgradeToWebsocket choose c) w (es ++ posting w body buffered) = Some (tt, w', [], []) ∧
     still_polling w c k p kp body buffered w' ∧
     cconns w' = cconns w ++ match x with Some conn => [ws_closeNow conn] | None => [] end) ∧
  (∀ sent' w1 data b, attempting w c k p kp sent' w1 →
     ex n (cl_SendMessage c data b) w1 = Some (None, queued c [message data b] w1, []) ∧
     attempting w c k p kp (sent' ++ [message data b]) (queued c [message data b] w1)).
Proof.
  intros Huf Hp Hch Hf buffered. split.
  2: { intros sent' w1 data b Ha. split; [|by apply attempting_queued].
       eapply ex_send_upgrading; [by destruct Ha|apply Huf|done]. }
  set (ctx := length (ctxs w)) in *. set (wb := begun c p w).
  assert (ctx_done ctx wb = false) as Hctx.
  { unfold ctx_done. change (ctxs wb) with (ctxs w ++ [false]). unfold ctx. by rewrite lookup_snoc. }
  assert (cp_ctx kp ≠ ctx) as Hne.
  { destruct Hp as (_ & _ & Hx). unfold ctx_done in Hx.
    destruct (ctxs w !! cp_ctx kp) eqn:E; [apply lookup_lt_Some in E; unfold ctx; lia|done]. }
  assert (ctx < length (ctxs wb))%nat as Hclt.
  { change (ctxs wb) with (ctxs w ++ [false]). rewrite length_app. simpl. unfold ctx. lia. }
  destruct Hf as [msg sent|sent|x1 x2 sent1 sent es Hw|m x1 x2 x3 sent1 sent es Hw Hf].
  - destruct (ev_dial_settles (S n) c (upgrade_url (c_u k) (c_sid k)) ctx (Err msg) sent wb
      (posting w body buffered) Hctx) as (w2 & He2 & Hc2 & Hr2).
    destruct (ev_upgrade_fail n w c k p kp sent body w2 ctx) as (w' & He & Hs & Hc);
      [done..|by apply attempting_begun|].
    exists w'. split_and!; [|done|by rewrite Hc, Hc2].
    eapply ev_upgrade; [done|exact He2|]. by intros q ->.
  - destruct (ev_dial_late (S n) c (upgrade_url (c_u k) (c_sid k)) ctx sent wb (posting w body buffered) Hctx Hclt)
      as (w2 & He2 & Hc2 & Ha2).
    destruct (ev_upgrade_fail n w c k p kp sent body w2 ctx) as (w' & He & Hs & Hc); [done..| |].
    { apply Ha2. apply (attempting_expires w c k p kp [] sent ctx wb Hne). by apply attempting_start. }
    exists w'. split_and!; [|done|by rewrite Hc, Hc2, app_nil_r].
    eapply ev_upgrade; [done|exact He2|]. by intros q ->.
  - destruct (ev_dial_settles (S n) c (upgrade_url (c_u k) (c_sid k)) ctx (Ok x1) sent1 wb
      (es ++ posting w body buffered) Hctx) as (w2 & He2 & Hc2 & Hr2).
    assert (attempting w c k p kp sent1 w2) as Ha2 by by apply attempting_begun.
    assert (ctx_done ctx w2 = false) as Hx2 by (injection Hr2 as _ _ E _; unfold ctx_done in *; by rewrite E).
    destruct (ev_write_fails (S n) w c k p kp sent1 w2 ctx (length (cconns w)) x1 (bytes_of "2probe") x2 sent es
      (posting w body buffered) Hw Ha2 Hne) as (e & w3 & He3 & Ha3 & Hc3); [by rewrite Hc2, lookup_snoc|done|].
    destruct (ev_upgrade_broken n w c k p kp (sent1 ++ sent) body w3 ctx (length (cconns w)) x2
      (cconns w ++ [x1])) as (w' & He & Hs & Hc); try done.
    { by rewrite Hc3, Hc2. }
    { rewrite length_app. simpl. lia. }
    exists w'. split_and!; [|done|by rewrite Hc, insert_snoc].
    eapply ev_upgrade; [done|exact He2|]. intros q ->. cbn beta iota. eapply ev_first; [exact He3|]. exact He.
  - destruct (ev_dial_settles (S (m + n)) c (upgrade_url (c_u k) (c_sid k)) ctx (Ok x1) sent1 wb
      (es ++ posting w body buffered) Hctx) as (w2 & He2 & Hc2 & Hr2).
    assert (attempting w c k p kp sent1 w2) as Ha2 by by apply attempting_begun.
    injection Hr2 as _ _ E2 _.
    assert (ctx_done ctx w2 = false) as Hx2 by (unfold ctx_done in *; by rewrite E2).
    set (j := length (cconns w)) in *. set (w3 := set_cconns <[j := x2]> w2).
    destruct (ev_probe_fails n m w c k p kp body ctx j x2 x3 sent es Huf Hp Hch Hne Hf sent1 w3
      (cconns w ++ [x1])) as (w' & He & Hs & Hc).
    { by apply attempting_conns. }
    { unfold w3. cbn [cconns set_cconns]. by rewrite Hc2. }
    { rewrite length_app. simpl. unfold j. lia. }
    { done. }
    { change (ctxs w3) with (ctxs w2). rewrite E2. change (ctxs wb) with (ctxs w ++ [false]).
      rewrite length_app. simpl. unfold ctx. lia. }
    exists w'. split_and!; [|done|rewrite Hc; unfold j; by rewrite insert_snoc].
    eapply ev_upgrade; [done|exact He2|]. intros q ->. cbn beta iota. eapply ev_first.
    { apply ev_ready. rewrite Hc2. change (cconns wb) with (cconns w). change (length (ctxs w)) with ctx.
      rewrite lookup_snoc, Hx2, Hw. done. }
    exact He.
Qed.
End Handlers.

(** ** Witnesses *)

Abbreviation dev n q w es :=
  (@exec_env cdworld cl_method (@env_calls cdworld cl_method (client_methods choose keeper) n) _ q w es).
Abbreviation dex n q w :=
  (@exec cdworld cl_method (@calls cdworld cl_method (client_methods choose keeper) n) _ q w).

Definition first_client (w : cdworld) : client :=
  default (new_client server_url polling_only) (clis w !! 0%nat).
Definition first_cpoll (w : cdworld) : cpolling :=
  default (mkCPolling server_url 0 None 0 false false 0 0 0 false) (cpolls w !! 0%nat).
Definition first_cws (w : cdworld) : cwebsocket := default (mkCWebsocket 0 0 None false) (cwss w !! 0%nat).

(** A client over polling after its handshake, and one over WebSocket. *)
Definition over_polling : cdworld :=
  (played [dials_server choose (Ok server_url) None; answers 0 (opens ["websocket"]);
           with_client 0 (λ c, cl_OnData c 0)] [0; 3; 1; 3; 0; 2]%nat).1.
Definition over_websocket : cdworld :=
  (played [dials_server choose (Ok server_url) None; answers 0 (opens ["websocket"]);
           with_client 0 (λ c, cl_OnData c 0);
           dial_answers 0 (Ok (mkPipe [(false, bytes_of "3probe"); (false, bytes_of "2hb")] [] false))]
    [0; 4; 1; 4; 0; 2; 6; 3; 6]%nat).1.
(** A client that dials. *)
Definition fresh_dial : cdworld := (played [dials_server choose (Ok server_url) None] [0]%nat).1.

Lemma send_delivers_witness :
  ∃ w', dev 1 (cl_SendMessage 0%nat (bytes_of "hi") false) over_polling
          [answered 2 accepted] = Some (None, w', [], []) ∧
    string_of ∘ h_body <$> https w' = [""; ""; "4hi"].
Proof.
  destruct (send_delivers choose keeper 0 0%nat (first_client over_polling) over_polling (bytes_of "hi") false)
    as [H _].
  destruct (H 0%nat (first_cpoll over_polling) (bytes_of "ok")) as (w' & H1 & H2 & _).
  - split_and!; vm_compute; reflexivity.
  - split_and!; vm_compute; reflexivity.
  - exists w'. split; [exact H1|]. rewrite H2. vm_compute. reflexivity.
Defined.

Definition two_pkts : list Packet := [mkPacket Message (bytes_of "a") false; mkPacket Message (bytes_of "b") false].
Definition keep_data (data : bytes) (b : bool) (l : list bytes) : list bytes := l ++ [data].

Lemma over_polling_polls :
  polling_for over_polling 0%nat (first_client over_polling) 0%nat (first_cpoll over_polling).
Proof. split; [split_and!|..]; vm_compute; reflexivity. Qed.

Lemma poll_receives_witness :
  ∃ w', dev 1 (poll_round choose 0%nat) over_polling [answered 2 (sends two_pkts)] = Some (true, w', [], []) ∧
    capp w' = [bytes_of "a"; bytes_of "b"] ∧ length (cuplog w') = 2%nat.
Proof.
  destruct (poll_receives choose keeper 0 over_polling 0%nat (first_client over_polling) 0%nat
    (first_cpoll over_polling) 0%nat keep_data (EncodePayload two_pkts) two_pkts) as (w' & H1 & H2 & H3 & _).
  - exact over_polling_polls.
  - vm_compute. reflexivity.
  - intros n c data b w. reflexivity.
  - vm_compute. reflexivity.
  - by repeat constructor.
  - exists w'. split; [exact H1|]. rewrite H2, H3. split; vm_compute; reflexivity.
Defined.

Definition offered : open_packet := mkOpen "sid1" ["websocket"] 25000 20000 1048576.

Lemma handshake_completes_witness :
  ∃ w', dev 1 (poll_round choose 0%nat) fresh_dial [answered 0 (opens ["websocket"])]
        = Some (true, w', [Once (watchdog keeper 0%nat 0%nat); Once (upgradeToWebsocket choose 0%nat)], []) ∧
    ctimers w' !! 0%nat = Some (mkTimer 45000000000 Armed).
Proof.
  destruct (handshake_completes choose keeper 0 fresh_dial 0%nat (first_client fresh_dial) 0%nat
    (first_cpoll fresh_dial) (EncodePayload [mkPacket Open
      (handshake_json "sid1" ["websocket"] (withDefaults zero_options)) false])
    (handshake_json "sid1" ["websocket"] (withDefaults zero_options)) offered)
    as (w' & H1 & _ & H2 & _).
  - split; [split; [split_and!|..]|..]; vm_compute; reflexivity.
  - vm_compute. reflexivity.
  - vm_compute. reflexivity.
  - exists w'. split.
    + etransitivity; [exact H1|]. vm_compute length. f_equal.
    + etransitivity; [exact H2|]. vm_compute. reflexivity.
Defined.

Lemma session_ends_witness :
  ∃ k1, clis (ended 0%nat (Some CErrPingTimeout) (first_client over_polling) over_polling) !! 0%nat = Some k1
    ∧ c_closed k1 = true.
Proof.
  destruct (session_ends choose keeper 0 0%nat (Some CErrPingTimeout) (first_client over_polling) over_polling)
    as (_ & (k1 & H1 & H2 & _) & _).
  - vm_compute. reflexivity.
  - vm_compute. reflexivity.
  - exists k1. split; [exact H1|exact H2].
Defined.

Lemma ping_answered_witness :
  ∃ w', dex 2 (cw_round 0%nat) over_websocket
        = Some (true, w', [Once (watchdog keeper 0%nat 1%nat)]) ∧
    (λ k, (λ f, string_of f.2) <$> outbox k) <$> cconns w' !! 0%nat = Some ["2probe"; "5"; "3hb"].
Proof.
  set (sent := [(false, bytes_of "2probe"); (false, bytes_of "5")]).
  destruct (ping_answered choose keeper 0 over_websocket 0%nat (first_client over_websocket) 0%nat
    (first_cws over_websocket) (mkPipe [(false, bytes_of "2hb")] sent false) (mkPipe [] sent false)
    (mkPipe [] (sent ++ [(false, bytes_of "3hb")]) false) (bytes_of "2hb") (bytes_of "hb"))
    as (w' & k' & H1 & H2 & _).
  - split_and!; vm_compute; reflexivity.
  - split_and!; vm_compute; reflexivity.
  - vm_compute. reflexivity.
  - vm_compute. reflexivity.
  - reflexivity.
  - vm_compute. reflexivity.
  - eexists. split; [vm_compute; reflexivity|reflexivity].
  - assert (length (ctimers over_websocket) = 1%nat) as E by (vm_compute; reflexivity).
    cbv zeta in H1. rewrite E in H1. exists w'. split; [exact H1|].
    change (cw_conn (first_cws over_websocket)) with 0%nat in H2. rewrite H2. vm_compute. reflexivity.
Defined.

Lemma over_polling_upgrades :
  upgrades_from over_polling 0%nat (first_client over_polling) 0%nat (first_cpoll over_polling).
Proof. split; vm_compute; done. Qed.

Lemma over_polling_probes :
  probes (mkPipe [(false, bytes_of "3probe")] [] false) (c_writeBuffer (first_client over_polling))
    (mkPipe [] [(false, bytes_of "2probe"); (false, bytes_of "5")] false).
Proof.
  assert (c_writeBuffer (first_client over_polling) = []) as -> by (vm_compute; reflexivity).
  eexists _, _. split; [eexists; split; [reflexivity|reflexivity]|].
  split; [reflexivity|]. eexists. by split.
Qed.

Lemma client_upgrade_moves_witness :
  ∃ w', dev 1 (upgradeToWebsocket choose 0%nat) over_polling
          [dial_answered 0 (Ok (mkPipe [(false, bytes_of "3probe")] [] false))]
        = Some (tt, w', [Forever (cw_round 0%nat) (cw_round 0%nat)], []) ∧ https w' = https over_polling.
Proof.
  destruct (client_upgrade_moves choose keeper 0 over_polling 0%nat (first_client over_polling) 0%nat
    (first_cpoll over_polling) (mkPipe [(false, bytes_of "3probe")] [] false)
    (mkPipe [] [(false, bytes_of "2probe"); (false, bytes_of "5")] false))
    as (w' & ki & H1 & _ & _ & _ & _ & _ & _ & H2 & _).
  - exact over_polling_upgrades.
  - exact over_polling_probes.
  - assert (length (dials over_polling) = 0%nat ∧ length (cwss over_polling) = 0%nat) as [E1 E2]
      by (split; vm_compute; reflexivity).
    cbv zeta in H1. rewrite E1, E2 in H1. exists w'. split; [exact H1|exact H2].
Defined.

(** The application sends two messages during an upgrade; the server answers
    the probe with another frame, and then not at all. *)
Definition silent_server : pipe := mkPipe [(false, bytes_of "6")] [] false.
Definition probe_pending (inbox : list (bool * bytes)) (over : bool) : pipe := mkPipe inbox [(false, bytes_of "2probe")] over.

Lemma upgrade_fails_safely_witness :
  ∃ w', dev 2 (upgradeToWebsocket choose 0%nat) over_polling
          [dial_settles 0%nat 0%nat (Ok silent_server) [says "x"]; expires 0%nat 2%nat [says "y"];
           answered 2 accepted] = Some (tt, w', [], []) ∧
    (λ h, (h_method h, h_body h)) <$> https w'
    = [("GET", []); ("GET", []); ("POST", EncodePayload [says "x"; says "y"])] ∧
    cconns w' = [probe_pending [] true].
Proof.
  assert (length (dials over_polling) = 0%nat ∧ length (cconns over_polling) = 0%nat
    ∧ length (ctxs over_polling) = 2%nat ∧ length (https over_polling) = 2%nat) as (E1 & E2 & E3 & E4)
    by (split_and!; vm_compute; reflexivity).
  assert (c_writeBuffer (first_client over_polling) = []) as Eb by (vm_compute; reflexivity).
  destruct (upgrade_fails_safely choose keeper 0 1 over_polling 0%nat (first_client over_polling) 0%nat
    (first_cpoll over_polling) (Some (probe_pending [] false)) [says "x"; says "y"]
    [dial_settles 0%nat 0%nat (Ok silent_server) [says "x"]; expires 0%nat 2%nat [says "y"]] (bytes_of "ok"))
    as ((w' & H1 & H2 & H3) & _).
  - exact over_polling_upgrades.
  - split_and!; vm_compute; reflexivity.
  - vm_compute. reflexivity.
  - rewrite E1, E2, E3. change [says "x"; says "y"] with ([says "x"] ++ [says "y"]).
    eapply (uf_answer _ _ _ _ 1 silent_server (probe_pending [(false, bytes_of "6")] false)); [reflexivity|].
    eapply (pf_frame _ _ _ 0 _ (probe_pending [] false) _ false (bytes_of "6")); [reflexivity|by intros [=]|].
    by eapply pf_timeout.
  - exists w'. split; [|split].
    + rewrite Eb in H1. unfold posting in H1. rewrite E4 in H1. exact H1.
    + rewrite (sp_posted _ _ _ _ _ _ _ _ H2), Eb, fmap_app.
      assert (((λ h, (h_method h, h_body h)) <$> https over_polling) = [("GET", []); ("GET", [])]) as ->
        by (vm_compute; reflexivity). reflexivity.
    + rewrite H3. assert (cconns over_polling = []) as -> by (vm_compute; reflexivity). reflexivity.
Defined.
