(* ===== verification/EngineEndToEnd.v ===== *)
(** * EngineEndToEnd: an Engine.IO client and an Engine.IO server

    The client of ClientEngine and the server of EngineServer over HTTP: the
    server serves the request the client sends and the client is answered with
    the response the server gives.  The handshake, and a conversation over
    polling. *)

From S2P Require Import Prelude.
From S2P Require Import Base64.
From S2P Require Import EnginePacket.
From S2P Require Import Strconv.
From S2P Require Import Utf8.
From S2P Require Import Value.
From S2P Require Import Json.
From S2P Require Import AckTable.
From S2P Require Import Sched.
From S2P Require Import EngineTypes.
From S2P Require Import EngineOptions.
From S2P Require Import OpenPacket.
From S2P Require Import Polling.
From S2P Require Import Websocket.
From S2P Require Import EngineSocket.
From S2P Require Import EngineServer.
From S2P Require Import EngineDemo.
From S2P Require Import EngineHandlers.
From S2P Require Import EngineSessions.
From S2P Require Import ClientTypes.
From S2P Require Import ClientTransport.
From S2P Require Import ClientEngine.
From S2P Require Import ClientDemo.
From S2P Require Import ClientHandlers.

(** ** HTTP between them *)

(** The query as the server reads it: the first value of each key. *)
Definition query_list (u : url) : list (string * string) :=
  (λ kv, (kv.1, default "" (head kv.2))) <$> map_to_list (u_query u).

(** The request of a call, from the address [addr]; the client sets the type of
    the content on a POST. *)
Definition request_of (addr : string) (h : http_call) : request :=
  mkRequest (h_method h) (query_list (h_url h))
    (if decide (h_method h = "POST") then "text/plain; charset=UTF-8" else "") (h_body h) None addr.

(** The response of an exchange. *)
Definition response_of (x : exchange) : response := mkResponse (default 200 (x_status x)) (x_body x) None.

Lemma query_get_list u k : query_get (query_list u) k = default "" (u_query u !! k ≫= head).
Proof.
  unfold query_get, query_list. pose proof (NoDup_fst_map_to_list (u_query u)) as Hnd.
  assert (∀ v, (k, v) ∈ map_to_list (u_query u) ↔ u_query u !! k = Some v) as Hin by (intros v; apply elem_of_map_to_list).
  destruct (list_find _ _) as [[i [k' v']]|] eqn:E.
  - apply list_find_Some in E as (Hi & Hk & _). simpl in *. subst k'.
    rewrite list_lookup_fmap in Hi. destruct (map_to_list (u_query u) !! i) as [[k0 l]|] eqn:Hl; [|done].
    simpl in Hi. injection Hi as -> <-. apply list_elem_of_lookup_2, Hin in Hl. by rewrite Hl.
  - apply list_find_None in E. destruct (u_query u !! k) as [l|] eqn:Hl; [|done]. exfalso.
    rewrite Forall_fmap, Forall_forall in E. apply (E (k, l)); [by apply Hin|done].
Qed.

(** The URLs of a polling transport's requests. *)
Definition polling_url (u : url) : Prop :=
  u_query u !! "EIO" = Some ["4"] ∧ u_query u !! "transport" = Some ["polling"].

Lemma poll_url_query kp sid k :
  polling_url (cp_u kp) → k ≠ "sid" →
  u_query (poll_url kp sid) !! k = u_query (cp_u kp) !! k.
Proof.
  intros _ Hk. unfold poll_url. case_decide; [done|]. cbn [query_set u_query]. by rewrite lookup_insert_ne.
Qed.

(** A payload of one packet, within the limit, is read back. *)
Lemma decode_single pk limit :
  packet_wf pk → text_without_separator pk → limit ≤ 0 ∨ blen (EncodePayload [pk]) ≤ limit →
  DecodePayloadWithLimit (EncodePayload [pk]) limit = ([pk], None).
Proof.
  intros Hwf Hs Hf. assert (DecodePacket (EncodePacket pk false) false = Ok pk) as Hd
    by by apply (decode_encode_aux _ false).
  change (EncodePayload [pk]) with (EncodePacket pk false) in *.
  rewrite DecodePayload_parts by apply EncodePacket_text_nonempty.
  assert (split_on separator (EncodePacket pk false) = [EncodePacket pk false]) as ->.
  { apply (split_join separator [_]); [done|]. apply Forall_singleton. by apply encoded_no_separator. }
  cbn [decode_parts]. rewrite Hd, Z.add_0_l. destruct (Z.ltb_spec 0 limit); [|done].
  destruct (Z.ltb_spec limit (blen (EncodePacket pk false))); [lia|done].
Qed.

(** A duration that the open packet carries in whole milliseconds. *)
Definition on_the_wire (d : Z) : Prop := 0 ≤ milliseconds d ≤ int64_max.

Lemma FormatInt_printable z : 0 ≤ z ≤ int64_max → Forall printable (FormatInt z).
Proof. intros Hz. by apply number_printable, FormatInt_literal. Qed.

Lemma handshake_printable id ups o :
  on_the_wire (PingInterval o) → on_the_wire (PingTimeout o) → 0 ≤ MaxHTTPBufferSize o ≤ int64_max →
  Forall printable (handshake_json id ups o).
Proof.
  intros H1 H2 H3. apply object_printable. rewrite !Forall_cons, Forall_nil. cbn [snd].
  split_and!; [apply quoted_printable| |by apply FormatInt_printable..|done].
  unfold array_text. apply List.Forall_cons; [by vm_compute|]. apply Forall_app.
  split; [|apply Forall_singleton; by vm_compute]. apply join_printable; [by vm_compute|].
  apply Forall_fmap, Forall_true. intros u. apply quoted_printable.
Qed.

(** The open packet comes over as it was. *)
Lemma open_packet_read id ups o :
  on_the_wire (PingInterval o) → on_the_wire (PingTimeout o) → 0 ≤ MaxHTTPBufferSize o ≤ int64_max →
  DecodePayloadWithLimit ("0"%byte :: handshake_json id ups o) 0
  = ([mkPacket Open (handshake_json id ups o) false], None).
Proof.
  intros H1 H2 H3. rewrite <- encode_open. apply decode_single; [done| |by left].
  intros _ Hin. pose proof (handshake_printable id ups o H1 H2 H3) as HF. rewrite Forall_forall in HF.
  specialize (HF _ Hin). revert HF. vm_compute. done.
Qed.

#[local] Opaque EncodePayload handshake_json decode_open.

Section Session.
Context {CC SC CU SU : Type} `{WC : !WebsocketConn CC} `{WS : !WebsocketConn SC}.
Context (cchoose schoose : nat → bool) (rand : nat → bytes) (addr : string).
Context (cusr : cl_user (C := CC) (U := CU)) (susr : user (C := SC) (U := SU)).
Abbreviation CW := (cworld CC CU).
Abbreviation SW := (EngineTypes.world SC SU).
Abbreviation cev n q w es :=
  (@exec_env CW cl_method (@env_calls CW cl_method (client_methods cchoose cusr) n) _ q w es).
Abbreviation sex n q w :=
  (@exec SW method_name (@calls SW method_name (engine_methods schoose susr) n) _ q w).
Implicit Types (cw : CW) (sw : SW) (c : clientp) (s : sockp) (p ps : nat).

(** The client runs [q], which makes one request and starts the goroutines
    [ts]; the server serves that request and its response is the answer. *)
Definition over_http {B} n (q : mprog CW cl_method B) (b : B) ts cw sw cw' sw' : Prop :=
  ∃ h x ts',
    cev (S n) q cw [answered (length (https cw)) (Ok (response_of x))] = Some (b, cw', ts, []) ∧
    https cw' = https cw ++ [h] ∧
    sex (S (S n)) (serve_request schoose rand susr (request_of addr h)) sw = Some (tt, sw', ts') ∧
    exchs sw' = exchs sw ++ [x].

(** A request of the transport, as the server sees it. *)
Lemma request_for_session sw kp sid meth body ctx a :
  polling_url (cp_u kp) → sid ≠ "" → "polling" ∈ Transports (opts sw) →
  for_session sw (request_of addr (mkHttp meth (poll_url kp sid) body ctx a)) sid.
Proof.
  intros Hu Hs Ht. unfold for_session, protocol_ok. cbn [request_of rq_query h_url].
  rewrite !query_get_list, !poll_url_query by done. destruct Hu as [-> ->]. cbn [mbind option_bind head default].
  split_and!; [done..|]. unfold poll_url. rewrite decide_False by done. cbn [query_set u_query].
  by rewrite lookup_insert_eq.
Qed.

(** A session over polling, open on both sides, with nothing under way: the
    client [c] with its transport [p], the server's session [s] with its
    transport [ps].  [oc] and [os] are the functions of [OnData]. *)
Record session_of c p s ps (oc os : option fn) (limit : Z) cw sw k kp ks kps : Prop := {
  so_client : polling_for cw c k p kp;
  so_sends : c_closed k = false ∧ c_upgrading k = false;
  so_url : polling_url (cp_u kp);
  so_enabled : "polling" ∈ Transports (opts sw);
  so_server : polling_session sw (c_sid k) s ps ks kps;
  so_open : es_readyState ks = stateOpen ∧ es_sending ks = false ∧ es_upgrading ks = false;
  so_free : p_req kps = None ∧ p_dataReq kps = None ∧ p_sendBuffer kps = [] ∧ p_writable kps = false;
  so_limit : p_maxBufferSize kps = limit;
  so_empty : c_writeBuffer k = [] ∧ es_writeBuffer ks = [];
  so_told : c_onData k = oc ∧ es_onData ks = os
}.
Definition in_session c p s ps oc os limit cw sw : Prop := ∃ k kp ks kps, session_of c p s ps oc os limit cw sw k kp ks kps.

(** *** The client sends *)

(** A message that a payload can carry, and the server takes. *)
Definition sayable (data : bytes) (b : bool) : Prop := text_without_separator (message data b).
Definition fits_limit (limit : Z) (data : bytes) (b : bool) : Prop := blen (EncodePayload [message data b]) ≤ limit.

Lemma payload_of_one data b limit :
  sayable data b → limit ≤ 0 ∨ fits_limit limit data b →
  DecodePayloadWithLimit (EncodePayload [message data b]) limit = ([message data b], None).
Proof. intros Hs Hf. by apply decode_single; [intros _| |]. Qed.

Definition server_data_effect := EngineHandlers.data_effect schoose susr.
Definition client_data_effect := ClientHandlers.data_effect cchoose cusr.

Lemma client_says n c p s ps fc fs gs limit data b cw sw :
  in_session c p s ps fc (Some fs) limit cw sw → server_data_effect fs gs →
  sayable data b → fits_limit limit data b → 0 ≤ limit < int64_max →
  ∃ cw' sw', over_http n (cl_SendMessage c data b) None [] cw sw cw' sw' ∧
    in_session c p s ps fc (Some fs) limit cw' sw' ∧
    uplog sw' = uplog sw ++ [UpData s data b] ∧ app sw' = gs data b (app sw) ∧
    cuplog cw' = cuplog cw ∧ capp cw' = capp cw.
Proof.
  intros (k & kp & ks & kps & [Hc [Hcl Hup] Hu He Hse (Ho & Hsd & Hug) (F1 & F2 & F3 & F4) Hli [B1 B2] [O1 O2]]) Hg Hs Hf Hl.
  pose proof (payload_of_one data b limit Hs (or_intror Hf)) as Hd. subst limit.
  pose proof Hc as [Hpf Hop Hrun Hh Hk Ht]. set (body := EncodePayload [message data b]) in *.
  set (r := request_of addr (mkHttp "POST" (poll_url kp (c_sid k)) body (cp_ctx kp) None)).
  set (h := mkHttp "POST" (poll_url kp (c_sid k)) body (cp_ctx kp) (Some (Ok (response_of (posted r))))).
  destruct (post_delivers schoose rand susr (S n) sw r (c_sid k) s ps ks kps fs gs [message data b])
    as (sw' & H1 & H2 & H3 & H4 & H5 & H6 & H7 & H8 & H9); try done.
  { apply request_for_session; [done| |done]. by destruct Hse. }
  { by constructor. }
  set (w1 := upd_cli c (set_c_writeBuffer []) cw).
  assert (clis w1 !! c = Some (set_c_writeBuffer [] k)) as Hk1 by (simpl; by rewrite list_lookup_alter_eq, Hk).
  exists (requested "POST" (poll_url kp (c_sid k)) body (cp_ctx kp) (Ok (response_of (posted r))) w1), sw'. split_and!.
  - exists h, (posted r), []. split_and!; [|done|done|done].
    apply (ev_SendMessage cchoose cusr n c k (CPolling p)); [by split_and!|]. rewrite B1.
    apply (ev_cp_Send_ok cchoose cusr n p kp c (set_c_writeBuffer [] k) w1 [message data b] (bytes_of "ok") []); done.
  - exists (set_c_writeBuffer [] k), kp, ks, kps. split; try done.
    + by rewrite H9.
    + destruct Hse. split; try done; by rewrite ?H5, ?H7.
  - exact H2.
  - exact H3.
  - done.
  - done.
Qed.

(** *** The server sends *)

(** Without a poll to answer, a message waits in the buffer. *)
Lemma ex_SendMessage_waits n s ps ks kps data b sw :
  sks sw !! s = Some ks → es_readyState ks = stateOpen → es_transport ks = Some (TPolling ps) →
  polls sw !! ps = Some kps → p_writable kps = false →
  sex n (SendMessage s data b) sw
  = Some (tt, upd_sk s (set_es_writeBuffer (es_writeBuffer ks ++ [message data b])) sw, []).
Proof.
  intros Hs Ho Ht Hp Hw. unfold SendMessage, sendPacket. eapply ex_first.
  { rewrite exec_atomic. unfold push_locked. rewrite Hs, Ho, !bool_decide_false by done. by rewrite Ht. }
  cbn [fst snd orb]. eapply ex_first; [apply ex_gets|]. cbn [tport_writable polls upd_sk set_sks].
  by rewrite Hp, Hw.
Qed.

Lemma server_says n c p s ps fc fs gc limit data b cw sw :
  in_session c p s ps (Some fc) fs limit cw sw → client_data_effect fc gc → sayable data b →
  ∃ sw0 cw' sw',
    sex (S n) (SendMessage s data b) sw = Some (tt, sw0, []) ∧
    over_http n (poll_round cchoose p) true [] cw sw0 cw' sw' ∧
    in_session c p s ps (Some fc) fs limit cw' sw' ∧
    cuplog cw' = cuplog cw ++ [CUpData c data b] ∧ capp cw' = gc data b (capp cw) ∧
    uplog sw' = uplog sw ∧ app sw' = app sw.
Proof.
  intros (k & kp & ks & kps & [Hc [Hcl Hup] Hu He Hse (Ho & Hsd & Hug) (F1 & F2 & F3 & F4) Hli [B1 B2] [O1 O2]]) Hg Hs.
  pose proof Hse as [Hsid Hcli Hsk Htr Hpl Hhd Hpc Hpp].
  set (ks1 := set_es_writeBuffer [message data b] ks).
  set (sw0 := upd_sk s (set_es_writeBuffer [message data b]) sw).
  assert (sks sw0 !! s = Some ks1) as Hk1 by (simpl; by rewrite list_lookup_alter_eq, Hsk).
  assert (polling_session sw0 (c_sid k) s ps ks1 kps) as Hse1 by (by split).
  set (body := EncodePayload [message data b]).
  set (r := request_of addr (mkHttp "GET" (poll_url kp (c_sid k)) [] (cp_ctx kp) None)).
  destruct (poll_delivers schoose rand susr n sw0 r (c_sid k) s ps ks1 kps)
    as (sw' & H1 & H2 & H3 & H4 & H5 & H6 & H7 & H8 & H9 & H10); try done.
  { apply request_for_session; done. }
  { split_and!; [|done|done]. simpl. by rewrite Ho. }
  destruct (poll_receives cchoose cusr n cw c k p kp fc gc body [message data b])
    as (cw' & G1 & G2 & G3 & G4 & G5 & G6 & G7); try done.
  { apply payload_of_one; [done|by left]. }
  { by constructor. }
  exists sw0, cw', sw'. split_and!; try done.
  - rewrite (ex_SendMessage_waits (S n) s ps ks kps) by done. by rewrite B2.
  - exists (mkHttp "GET" (poll_url kp (c_sid k)) [] (cp_ctx kp) (Some (Ok (mkResponse 200 body None)))), (delivered r body).
    eexists. split_and!; [exact G1|exact G4|exact H1|exact H2].
  - exists k, kp, (set_es_writeBuffer [] ks1), (take_poll (park (length (exchs sw0)) (length (chans sw0)) kps)).
    split; try done.
    + by rewrite H10.
    + split; try done. by rewrite H5.
    + simpl. by rewrite Hpc.
Qed.

(** *** A conversation *)

Inductive said := ByClient (data : bytes) (b : bool) | ByServer (data : bytes) (b : bool).

Definition can_say (limit : Z) (x : said) : Prop :=
  match x with ByClient data b => sayable data b ∧ fits_limit limit data b | ByServer data b => sayable data b end.

(** Each message of the client is one POST; each of the server waits for the
    next poll. *)
Inductive talks n c p s : CW → SW → list said → CW → SW → Prop :=
| talks_end cw sw : talks n c p s cw sw [] cw sw
| talks_client data b l cw sw cw1 sw1 cw2 sw2 :
    over_http n (cl_SendMessage c data b) None [] cw sw cw1 sw1 →
    talks n c p s cw1 sw1 l cw2 sw2 → talks n c p s cw sw (ByClient data b :: l) cw2 sw2
| talks_server data b l cw sw sw0 cw1 sw1 cw2 sw2 :
    sex (S n) (SendMessage s data b) sw = Some (tt, sw0, []) →
    over_http n (poll_round cchoose p) true [] cw sw0 cw1 sw1 →
    talks n c p s cw1 sw1 l cw2 sw2 → talks n c p s cw sw (ByServer data b :: l) cw2 sw2.

Definition server_hears s (x : said) : option up_event :=
  match x with ByClient data b => Some (UpData s data b) | _ => None end.
Definition client_hears c (x : said) : option cl_event :=
  match x with ByServer data b => Some (CUpData c data b) | _ => None end.
Definition server_learns (g : bytes → bool → SU → SU) (u : SU) (x : said) : SU :=
  match x with ByClient data b => g data b u | _ => u end.
Definition client_learns (g : bytes → bool → CU → CU) (u : CU) (x : said) : CU :=
  match x with ByServer data b => g data b u | _ => u end.

(** Whatever is said in a session over polling, by either side and in any
    order, is carried out, and each side's user is told exactly what the other
    said, once and in its order; the session is then as it was, open and with
    nothing under way. *)
Theorem http_conversation n c p s ps fc fs gc gs limit l cw sw :
  in_session c p s ps (Some fc) (Some fs) limit cw sw → client_data_effect fc gc → server_data_effect fs gs →
  0 ≤ limit < int64_max → Forall (can_say limit) l →
  ∃ cw' sw', talks n c p s cw sw l cw' sw' ∧
    in_session c p s ps (Some fc) (Some fs) limit cw' sw' ∧
    uplog sw' = uplog sw ++ omap (server_hears s) l ∧ app sw' = foldl (server_learns gs) (app sw) l ∧
    cuplog cw' = cuplog cw ++ omap (client_hears c) l ∧ capp cw' = foldl (client_learns gc) (capp cw) l.
Proof.
  intros Hin Hgc Hgs Hl Hall. revert cw sw Hin. induction Hall as [|x l Hx _ IH]; intros cw sw Hin.
  { exists cw, sw. split; [constructor|]. cbn [omap list_omap foldl]. by rewrite !app_nil_r. }
  destruct x as [data b|data b]; cbn [can_say omap list_omap server_hears client_hears foldl server_learns client_learns] in *.
  - destruct Hx as [Hs Hf].
    destruct (client_says n c p s ps (Some fc) fs gs limit data b cw sw) as (cw1 & sw1 & H1 & H2 & H3 & H4 & H5 & H6); try done.
    destruct (IH cw1 sw1 H2) as (cw2 & sw2 & G1 & G2 & G3 & G4 & G5 & G6).
    exists cw2, sw2. split; [by eapply talks_client|]. split; [done|].
    by rewrite G3, G4, G5, G6, H3, H4, H5, H6, <- app_assoc.
  - destruct (server_says n c p s ps fc (Some fs) gc limit data b cw sw) as (sw0 & cw1 & sw1 & H1 & H2 & H3 & H4 & H5 & H6 & H7); try done.
    destruct (IH cw1 sw1 H3) as (cw2 & sw2 & G1 & G2 & G3 & G4 & G5 & G6).
    exists cw2, sw2. split; [by eapply talks_server|]. split; [done|].
    by rewrite G3, G4, G5, G6, H4, H5, H6, H7, <- app_assoc.
Qed.

(** *** The handshake *)

Lemma verify_new n sw r :
  protocol_ok sw (rq_query r) → query_get (rq_query r) "transport" = "polling" → query_get (rq_query r) "sid" = "" →
  rq_method r = "GET" → allowed (opts sw) r → sex n (verify r (rq_query r) false) sw = Some (Accept, sw, []).
Proof.
  intros [HE Hen] Ht Hs HG Ha. apply enabled_spec in Hen. unfold verify.
  rewrite exec_bind, ex_gets, HE, Hen, Hs, HG, Ht. cbn [negb andb bool_decide]. rewrite !bool_decide_true by done.
  rewrite bool_decide_false by done. cbn [negb andb]. unfold allowed in Ha.
  destruct (AllowRequest (opts sw)) as [f|]; [by rewrite Ha|done].
Qed.

(** A client at its first poll. *)
Record starts c p cw k kp : Prop := {
  st_dialling : dialling cw c k p kp;
  st_url : polling_url (cp_u kp) ∧ u_query (cp_u kp) !! "sid" = None;
  st_fresh : c_sid k = "" ∧ c_upgrading k = false ∧ c_writeBuffer k = []
}.

(** A client over polling that has just been created comes to its first poll,
    in the goroutine of its transport. *)
Lemma dial_starts n c u o cw :
  clis cw !! c = Some (new_client u o) → u_query u !! "sid" = None →
  let p := length (cpolls cw) in
  ∃ cw' k kp,
    @exec CW cl_method (@calls CW cl_method (client_methods cchoose cusr) n) _ (dialPolling cchoose c) cw
    = Some (tt, cw', [Forever (poll_round cchoose p) (poll_round cchoose p)]) ∧
    starts c p cw' k kp ∧ c_opts k = o ∧ c_onData k = None.
Proof.
  intros Hk Hu p. set (u1 := query_set "transport" "polling" (query_set "EIO" "4" u)).
  set (kp0 := mkCPolling u1 c None (length (ctxs cw)) false false (length (cchans cw)) 0 0 false).
  set (k1 := set_c_tport (Some (CPolling p)) (new_client u o)).
  set (w1 := upd_cli c (set_c_tport (Some (CPolling p))) (new_cpolling c u1 cw).2).
  assert (clis w1 !! c = Some k1) as Hk1 by (simpl; by rewrite list_lookup_alter_eq, Hk).
  assert (cpolls w1 !! p = Some kp0) as Hp1 by apply lookup_snoc.
  assert (ctxs w1 !! length (ctxs cw) = Some false) as Hc1 by apply lookup_snoc.
  set (kp1 := set_cp_handler (Some (mkBinding c (CPolling p))) kp0).
  set (w2 := upd_cpoll p (set_cp_polling true) (upd_cpoll p (set_cp_handler (Some (mkBinding c (CPolling p)))) w1)).
  assert (cpolls w2 !! p = Some (set_cp_polling true kp1)) as Hp2.
  { unfold w2, upd_cpoll. cbn [cpolls set_cpolls]. by rewrite !list_lookup_alter_eq, Hp1. }
  exists w2, k1, (set_cp_polling true kp1). split; [|split_and!; [|done..]].
  - unfold dialPolling. eapply ex_first; [by apply ex_cli_get|]. cbn [c_u new_client]. fold u1.
    eapply ex_first; [by rewrite exec_atomic|]. eapply ex_first; [apply ex_update|].
    change (new_cpolling c u1 cw).1 with p. fold w1. unfold cp_SetHandler.
    eapply ex_first; [apply ex_update|]. eapply ex_first.
    { rewrite exec_atomic. unfold upd_cpoll at 1. cbn [cpolls set_cpolls]. by rewrite list_lookup_alter_eq, Hp1. }
    done.
  - split; [split; [split; [split_and!|..]|..]|..]; try done.
    + unfold ctx_done. change (ctxs w2 !! _) with (ctxs w1 !! length (ctxs cw)). by rewrite Hc1.
    + split; [split|]; cbn; [by rewrite lookup_insert_ne, lookup_insert_eq|by rewrite lookup_insert_eq|].
      by rewrite !lookup_insert_ne.
Qed.

Definition hello kp : request := request_of addr (mkHttp "GET" (cp_u kp) [] (cp_ctx kp) None).

(** What the client takes over from the server's options. *)
Definition offer sw (id : string) : open_packet :=
  mkOpen id (upgradesFor (opts sw) "polling") (milliseconds (PingInterval (opts sw)))
    (milliseconds (PingTimeout (opts sw))) (MaxHTTPBufferSize (opts sw)).

(** C10. The two sides agree on a session.  The first poll of a client that dials,
    served by a server that allows it, makes both of them hold the same session,
    open and idle: the id the server drew is the one the client has and sends
    from then on; the server has announced it, and the client's [Dial] returns;
    the client's watchdog is armed with the server's intervals, and the client
    starts an upgrade exactly when the server offers WebSocket and its own
    options allow it. *)
Theorem handshake_agrees n c p cw k kp sw f g :
  let id := session_id rand (opts sw) (hello kp) (rnd sw) in
  let s := length (sks sw) in
  let k1 := opened_client (offer sw id) k in
  let tm := length (ctimers cw) in
  starts c p cw k kp → srv_onConnect sw = Some f → connect_effect schoose susr f g →
  "polling" ∈ Transports (opts sw) → allowed (opts sw) (hello kp) →
  id ≠ "" → utf8_valid (bytes_of id) = true →
  on_the_wire (PingInterval (opts sw)) → on_the_wire (PingTimeout (opts sw)) →
  0 ≤ MaxHTTPBufferSize (opts sw) ≤ int64_max →
  ∃ cw' sw',
    over_http n (poll_round cchoose p) true
      (Once (watchdog cusr c tm) ::
       if wants_upgrade (offer sw id) k then [Once (upgradeToWebsocket cchoose c)] else []) cw sw cw' sw' ∧
    in_session c p s (length (polls sw)) (c_onData k) (srv_onData sw) (MaxHTTPBufferSize (opts sw)) cw' sw' ∧
    clients sw' = <[id := s]> (clients sw) ∧ uplog sw' = uplog sw ++ [UpConnect s] ∧ app sw' = g s (app sw) ∧
    (c_sid <$> clis cw' !! c) = Some id ∧
    ctimers cw' !! tm = Some (mkTimer (watch_duration k1) Armed) ∧
    (∀ ctx, ctx_done ctx cw' = false → ∃ cw'', handshake_or_ctx cchoose c ctx cw' = Some (Some None, cw'')).
Proof.
  intros id s k1 tm [Hd [Hu Hns] (Hsid & Hup & Hb)] Hf Hg Ht Ha Hid Hutf H1 H2 H3.
  set (data := handshake_json id (upgradesFor (opts sw) "polling") (opts sw)).
  assert (poll_url kp (c_sid k) = cp_u kp) as Hurl by (unfold poll_url; by rewrite decide_True).
  assert (∀ key, query_get (rq_query (hello kp)) key = default "" (u_query (cp_u kp) !! key ≫= head)) as Hq
    by (intros key; apply query_get_list).
  destruct (handshake_opens schoose rand susr n sw (hello kp) f g)
    as (sw' & ks & kps & G1 & G2 & G3 & G4 & (I1 & I2 & I3) & G5 & G6 & G7 & G8 & G9 & G10 & G11 & G12 & G13 & _ & _ & G16 & G17 & _ & _ & G20); try done.
  { by rewrite Hq, (proj2 Hu). }
  { by rewrite Hq, Hns. }
  { apply verify_new; [|by rewrite Hq, (proj2 Hu)|by rewrite Hq, Hns|done|done].
    split; [by rewrite Hq, (proj1 Hu)|by rewrite Hq, (proj2 Hu)]. }
  destruct (handshake_completes cchoose cusr n cw c k p kp ("0"%byte :: data) data (offer sw id) Hd)
    as (cw' & F1 & F2 & F3 & F4 & F5 & F6 & F7).
  { by apply open_packet_read. }
  { apply decode_handshake; try done. unfold upgradesFor. destruct (negb _); [done|]. by destruct (_ && _); repeat constructor. }
  exists cw', sw'. split_and!; try done.
  - eexists _, (delivered (hello kp) ("0"%byte :: data)), _. split_and!; [exact F1|exact F2| |exact G3].
    rewrite Hurl. exact G1.
  - eexists _, kp, ks, kps. split; try done.
    + split; [exact (dg_open _ _ _ _ _ Hd)|exact Hup].
    + by rewrite G20.
  - by rewrite (pf_client _ _ _ _ _ F4).
Qed.
End Session.

(** ** Concrete runs *)

(** A server with a function for [OnConnect], and one whose first session is
    open, with a function for [OnData]. *)
Definition welcoming : dworld := world_after [OnConnect 0%nat] [0%nat].

(** A client that dials over polling alone, and what becomes of it when its
    first poll is answered with the response of [listening], and [OnData] is
    called. *)
Definition dialling_client : cdworld :=
  (played [dials_server choose (Ok server_url) (Some polling_only)] [0]%nat).1.
Definition after_poll (x : exchange) (w : cdworld) : cdworld :=
  match @exec_env cdworld cl_method (@env_calls cdworld cl_method (client_methods choose keeper) 1) _
          (poll_round choose 0%nat) w [answered (length (https w)) (Ok (response_of x))] with
  | Some (_, w', _, _) => upd_cli 0%nat (set_c_onData (Some 0%nat)) w'
  | None => w
  end.
Definition talking_client : cdworld :=
  after_poll (default (new_exchange (get [])) (exchs listening !! 0%nat)) dialling_client.

Lemma fresh_dial_starts :
  starts (CC := pipe) (CU := list bytes) 0%nat 0%nat fresh_dial (first_client fresh_dial) (first_cpoll fresh_dial).
Proof.
  split; [split; [split; [split_and!|..]|..]|split; [split|]|split_and!]; vm_compute; reflexivity.
Qed.

Lemma handshake_agrees_witness :
  ∃ cw' sw', over_http choose choose rand "client" keeper echo 0 (poll_round choose 0%nat) true
      [Once (watchdog keeper 0%nat 0%nat); Once (upgradeToWebsocket choose 0%nat)] fresh_dial welcoming cw' sw' ∧
    clients sw' !! demo_sid = Some 0%nat ∧ (c_sid <$> clis cw' !! 0%nat) = Some demo_sid ∧
    ctimers cw' !! 0%nat = Some (mkTimer 45000000000 Armed).
Proof.
  destruct (handshake_agrees choose choose rand "client" keeper echo 0 0%nat 0%nat fresh_dial
    (first_client fresh_dial) (first_cpoll fresh_dial) welcoming 0%nat no_effect_connect)
    as (cw' & sw' & H1 & _ & H2 & _ & _ & H3 & H4 & _).
  - exact fresh_dial_starts.
  - vm_compute. reflexivity.
  - exact (echo_connect_effect 0%nat).
  - vm_compute. by left.
  - vm_compute. done.
  - vm_compute. done.
  - vm_compute. reflexivity.
  - vm_compute. split; done.
  - vm_compute. split; done.
  - vm_compute. split; done.
  - exists cw', sw'. split_and!.
    + exact H1.
    + rewrite H2. vm_compute. reflexivity.
    + rewrite H3. vm_compute. reflexivity.
    + etransitivity; [exact H4|]. vm_compute. reflexivity.
Defined.

(** The two are in the same session. *)
Lemma talking_session :
  in_session (CC := pipe) (SC := pipe) 0%nat 0%nat 0%nat 0%nat (Some 0%nat) (Some 0%nat) 1048576
    talking_client listening.
Proof.
  exists (first_client talking_client), (first_cpoll talking_client), (first_sk listening), (first_poll listening).
  split.
  - split; [split_and!|..]; vm_compute; reflexivity.
  - split; vm_compute; reflexivity.
  - split; vm_compute; reflexivity.
  - apply (bool_decide_unpack _). vm_compute. exact I.
  - split; vm_compute; done.
  - split_and!; vm_compute; reflexivity.
  - split_and!; vm_compute; reflexivity.
  - vm_compute. reflexivity.
  - split; vm_compute; reflexivity.
  - split; vm_compute; reflexivity.
Qed.

Definition small_talk : list said :=
  [ByClient (bytes_of "hi") false; ByServer (bytes_of "hello") false;
   ByServer (bytes_of "?") true; ByClient (bytes_of "bye") true].

Lemma http_conversation_witness :
  ∃ cw' sw', talks choose choose rand "client" keeper counting 0 0%nat 0%nat 0%nat
      talking_client listening small_talk cw' sw' ∧
    uplog sw' = [UpData 0%nat (bytes_of "hi") false; UpData 0%nat (bytes_of "bye") true] ∧ app sw' = 5%nat ∧
    cuplog cw' = [CUpData 0%nat (bytes_of "hello") false; CUpData 0%nat (bytes_of "?") true] ∧
    capp cw' = [bytes_of "hello"; bytes_of "?"].
Proof.
  destruct (http_conversation choose choose rand "client" keeper counting 0 0%nat 0%nat 0%nat 0%nat 0%nat 0%nat
    keep_data count_data 1048576 small_talk talking_client listening)
    as (cw' & sw' & H1 & _ & H2 & H3 & H4 & H5).
  - exact talking_session.
  - intros n c data b w. reflexivity.
  - intros n s data b w. reflexivity.
  - vm_compute. split; done.
  - unfold small_talk, can_say. rewrite !Forall_cons, Forall_nil.
    split_and!; try done; first [intros _; apply (bool_decide_unpack (separator ∉ _)); vm_compute; exact I
                                |vm_compute; done].
  - exists cw', sw'. split; [exact H1|]. rewrite H2, H3, H4, H5. split_and!; vm_compute; reflexivity.
Defined.
