(* ===== verification/ClientRaces.v ===== *)
(** * ClientRaces: runs of the Engine.IO client that go wrong

    Concrete runs, each one of the reachable configurations, in which the
    client does what its callers do not expect. *)

From S2P Require Import Prelude.
From S2P Require Import EnginePacket.
From S2P Require Import Sched.
From S2P Require Import EngineTypes.
From S2P Require Import EngineServer.
From S2P Require Import EngineDemo.
From S2P Require Import ClientTypes.
From S2P Require Import ClientTransport.
From S2P Require Import ClientEngine.
From S2P Require Import ClientDemo.

Definition user_sends (s : string) : cdprog :=
  with_client 0 (λ c, cl_SendMessage c (bytes_of s) false ≫= λ _, skip).

(** What was sent over HTTP: the method, the body, and whether it was
    answered. *)
Definition requests (c : cdconfig) : list (string * string * bool) :=
  (λ h, (h_method h, string_of (h_body h), match h_answer h with Some _ => true | None => false end))
    <$> https c.1.
Definition frames_out (c : cdconfig) : list (list string) :=
  (λ k, (λ f, string_of f.2) <$> outbox k) <$> cconns c.1.

(** Goroutine [i] is not over and cannot take a step. *)
Definition waits (i : nat) (c : cdconfig) : bool :=
  match c.2 !! i with
  | Some t => negb (finished t) && match tstep t c.1 with Some _ => false | None => true end
  | None => false
  end.

Lemma played_reachable calls ns : reachable (world0, Once <$> calls) (play ns (world0, Once <$> calls)).
Proof. apply play_reachable. Qed.

(** Two users of one client over polling. *)
Definition two_senders : list cdprog :=
  [dials_server choose (Ok server_url) (Some polling_only); answers 0 (opens []);
   user_sends "one"; user_sends "two"].

(** Nothing keeps two calls of [SendMessage] from posting at the same
    time: both POSTs are under way, although a server answers a POST that
    arrives while another is being read with an error and closes the session
    (the overlap the server's transport refuses). *)
Theorem concurrent_posts :
  ∃ c, reachable (world0, Once <$> two_senders) c ∧
    requests c = [("GET", "", true); ("GET", "", false); ("POST", "4one", false); ("POST", "4two", false)] ∧
    cp_sendInflight <$> cpolls c.1 = [2].
Proof.
  exists (play [(0, 100); (4, 100); (1, 100); (4, 100); (0, 100); (2, 100); (3, 100)]%nat
            (world0, Once <$> two_senders)).
  split; [apply played_reachable|]. split; by vm_compute.
Qed.

(** A message sent when the handshake is done, beside an upgrade that
    succeeds; the server refuses a POST for a session that is over
    WebSocket. *)
Definition late_sender : list cdprog :=
  [dials_server choose (Ok server_url) None; answers 0 (opens ["websocket"]); user_sends "lost";
   dial_answers 0 (Ok (mkPipe [(false, bytes_of "3probe")] [] false));
   answers 2 (Ok (mkResponse 400 [] None)); answers 1 (sends [mkPacket Noop [] false])].

(** A message is lost without a trace: [SendMessage] has taken it from the
    buffer but not begun its POST when the upgrade pauses the transport (which
    waits for POSTs in flight only), so the POST is made after the switch; the
    server refuses it, the error of the transport that is not in use any more
    is ignored, and [SendMessage] returns no error.  The session goes on over
    the WebSocket, where the message never appears. *)
Theorem message_lost_in_upgrade :
  ∃ c, reachable (world0, Once <$> late_sender) c ∧
    requests c = [("GET", "", true); ("GET", "", true); ("POST", "4lost", true)] ∧
    frames_out c = [["2probe"; "5"]] ∧
    (finished <$> c.2) !! 2%nat = Some true ∧
    ((λ k, (c_tport k, c_closed k, c_writeBuffer k)) <$> clis c.1)
    = [(Some (CWebsocket 0), false, [])] ∧
    cuplog c.1 = [].
Proof.
  exists (play [(0, 100); (6, 100); (1, 100); (6, 100); (0, 100); (2, 3); (8, 100); (3, 100); (8, 100);
                (2, 100); (4, 100); (2, 100); (5, 100); (6, 100)]%nat (world0, Once <$> late_sender)).
  split; [apply played_reachable|]. split_and!; by vm_compute.
Qed.

(** A session whose poll is answered while the upgrade is under way. *)
Definition idle_upgrade : list cdprog :=
  [dials_server choose (Ok server_url) None; answers 0 (opens ["websocket"]);
   answers 1 (sends [mkPacket Noop [] false]);
   dial_answers 0 (Ok (mkPipe [(false, bytes_of "3probe")] [] false));
   with_client 0 cl_Close].

(** The loop of the polling transport outlives the session: it waits for
    the end of the pause when the upgrade closes the transport, which neither
    ends the pause nor the transport's context, and the user's [Close] closes
    the new transport only. *)
Theorem poll_loop_leaks :
  ∃ c, reachable (world0, Once <$> idle_upgrade) c ∧
    ((λ k, c_closed k) <$> clis c.1) = [true] ∧
    ((λ k, (cp_closed k, cp_paused k, ctx_done (cp_ctx k) c.1)) <$> cpolls c.1) = [(true, true, false)] ∧ waits 5 c = true.
Proof.
  exists (play [(0, 100); (5, 100); (1, 100); (5, 100); (0, 100); (7, 100); (2, 100); (5, 100); (3, 100);
                  (7, 100); (4, 100)]%nat (world0, Once <$> idle_upgrade)).
  split; [apply played_reachable|]. split_and!; by vm_compute.
Qed.

(** A server that refuses a session with a close packet, as it may. *)
Definition refused_dial : list cdprog :=
  [dials_server choose (Ok server_url) (Some polling_only); answers 0 (sends [mkPacket Close [] false])].

(** A [Dial] whose server closes the session before the handshake is never
    told: the client is closed, no result of the handshake is sent, and [Dial]
    waits for its context. *)
Theorem refused_dial_hangs :
  ∃ c, reachable (world0, Once <$> refused_dial) c ∧
    ((λ k, (c_closed k, c_handshakeDone k)) <$> clis c.1) = [(true, None)] ∧ waits 0 c = true.
Proof.
  exists (play [(0, 100); (2, 100); (1, 100); (2, 100)]%nat (world0, Once <$> refused_dial)).
  split; [apply played_reachable|]. split_and!; by vm_compute.
Qed.
