(* ===== verification/SioClientTypes.v ===== *)
(** * SioClientTypes: the state of the Socket.IO client

    The structs of [socketio/client.go] and what they use of the runtime:
    contexts, the channels of [connectNsp] (buffered, of capacity one), and the
    Engine.IO client below.

    The Engine.IO client is seen through the interface [engineio/client.go]
    gives: a dial is under way until the environment answers it or its context
    ends; [SendMessage] appends to the log of frames unless the session is
    closed; [Close] runs no callback; the data callback runs once per message,
    and the close callback at most once, when the session ends by itself.

    An [error] is its text; a nil error is [None].  Time is not modelled: a
    timer of [time.After] may fire at any moment, its duration is logged. *)

From S2P Require Import Prelude.
From S2P Require Import EngineTypes.
From S2P Require Import Value.
From S2P Require Import SioPacket.
From S2P Require Import AckTable.
From S2P Require Import PacketQueue.
From S2P Require Import Emitter.
From S2P Require Import Sched.
From S2P Require Import Adapter.
From S2P Require Import SioServer.

Abbreviation error := string.
Abbreviation ctxp := nat.
Abbreviation auth_data := (option (list (string * gval))).

(** What the backoff uses of [float64]: arithmetic, order, and the constant
    0.5. *)
Class FloatOps `{Float64} := {
  f64_add : f64 → f64 → f64;
  f64_sub : f64 → f64 → f64;
  f64_mul : f64 → f64 → f64;
  f64_ltb : f64 → f64 → bool;
  f64_eqb : f64 → f64 → bool;
  f64_half : f64;
}.

(** [x <= y], which is false of a NaN; a number between two integers. *)
Definition f64_le `{FloatOps} (x y : f64) : Prop := f64_ltb x y = true ∨ f64_eqb x y = true.
Definition within `{FloatOps} (m n : Z) (x : f64) : Prop := f64_le (f64_of_Z m) x ∧ f64_le x (f64_of_Z n).

(** What IEEE 754 guarantees of these operations on numbers between 0 and
    2^53: the rounding of a sum, a difference, a product respects the order and
    the integers, and so does the conversion to an integer. *)
Class FloatOrder `{FloatOps} := {
  fle_trans x y z : f64_le x y → f64_le y z → f64_le x z;
  fle_of_Z m n : 0 <= m <= n → n <= f64_exact → f64_le (f64_of_Z m) (f64_of_Z n);
  fsub_unit x : within 0 1 x → within 0 1 (f64_sub (f64_of_Z 1) x);
  fadd_within m n x y : 0 <= m → 0 <= n → m + n <= f64_exact →
    within 0 m x → within 0 n y → within 0 (m + n) (f64_add x y) ∧ f64_le x (f64_add x y);
  fadd_le m n x y z : 0 <= m → 0 <= n → m + n <= f64_exact →
    within 0 m x → within 0 n z → f64_le (f64_of_Z 0) y → f64_le y z → f64_le (f64_add x y) (f64_add x z);
  fmul_within m n x y : 0 <= m → 0 <= n → m * n <= f64_exact →
    within 0 m x → within 0 n y → within 0 (m * n) (f64_mul x y);
  fmul_le m n x y z : 0 <= m → 0 <= n → m * n <= f64_exact →
    within 0 m x → within 0 n z → f64_le (f64_of_Z 0) y → f64_le y z → f64_le (f64_mul x y) (f64_mul x z);
  fmul_unit m x y : 0 <= m <= f64_exact → within 0 m x → within 0 1 y → f64_le (f64_mul x y) x;
  f64_to_Z_le n x y : n <= f64_exact →
    f64_le (f64_of_Z 0) x → f64_le x y → within 0 n y → f64_to_Z x <= f64_to_Z y;
}.

Section State.
Context `{FL : Float64} {U : Type}.

(** [Options] *)
Record sc_options := mkScOptions {
  so_Transports : list string;
  so_Engine : option EngineTypes.options;
  so_Auth : auth_data;
  so_Reconnection : bool;
  so_ReconnectionAttempts : Z;
  so_ReconnectionDelay : Z;
  so_ReconnectionDelayMax : Z;
  so_RandomizationFactor : f64;
  so_Timeout : Z
}.

(** [nsClient]; its [nsp] is the key it is stored under. *)
Record nsClient := mkNsClient { nc_connected : bool; nc_sid : string; nc_auth : auth_data }.

(** An [engineio.Client]: whether its callbacks are registered, and whether it
    is closed. *)
Record engine := mkEngine { en_onData : bool; en_onClose : bool; en_closed : bool }.

(** An [engineio.Dial] under way. *)
Record engine_dial := mkEngineDial {
  ed_opts : option EngineTypes.options;
  ed_ctx : ctxp;
  ed_answer : option (result error engp)
}.

(** [Client], then what it allocates: [sc_chans] are the buffers of the
    channels ([Some v]: the value [v] was sent and not received), [sc_ctxs] the
    errors of the contexts, [sc_waits] the durations given to [time.After], each
    with the number of dials made before it.
    [sc_stop] is whether [reconnectStop] is closed, [sc_returned] whether [Dial]
    has returned the client. *)
Record scworld := mkSc {
  sc_opts : sc_options;
  sc_engine : option engp;
  sc_nsps : gmap string nsClient;
  sc_acks : ackTable fn;
  sc_closed : bool;
  sc_onConnect : gmap string (list fn);
  sc_onEvent : gmap string (gmap string (list fn));
  sc_onDisconnect : gmap string (list fn);
  sc_onConnectError : gmap string (list fn);
  sc_onError : gmap string (list fn);
  sc_connecting : gmap string chanp;
  sc_inq : packetQueue (bytes * bool);
  sc_recon : option (Packet * list bytes);
  sc_started : bool;
  sc_stop : bool;
  sc_engs : list engine;
  sc_dials : list engine_dial;
  sc_ctxs : list (option error);
  sc_chans : list (option (option error));
  sc_sent : list (engp * bytes * bool);
  sc_waits : list (nat * Z);
  sc_cells : list cell;
  sc_store : readers;
  sc_tick : nat;
  sc_crashed : bool;
  sc_returned : bool;
  sc_app : U
}.

(** Field updates. *)
Definition set_sc_engine v w := mkSc (sc_opts w) v (sc_nsps w) (sc_acks w) (sc_closed w)
  (sc_onConnect w) (sc_onEvent w) (sc_onDisconnect w) (sc_onConnectError w) (sc_onError w)
  (sc_connecting w) (sc_inq w) (sc_recon w) (sc_started w) (sc_stop w) (sc_engs w) (sc_dials w)
  (sc_ctxs w) (sc_chans w) (sc_sent w) (sc_waits w) (sc_cells w) (sc_store w) (sc_tick w)
  (sc_crashed w) (sc_returned w) (sc_app w).
Definition set_sc_nsps f w := mkSc (sc_opts w) (sc_engine w) (f (sc_nsps w)) (sc_acks w) (sc_closed
  w) (sc_onConnect w) (sc_onEvent w) (sc_onDisconnect w) (sc_onConnectError w) (sc_onError w)
  (sc_connecting w) (sc_inq w) (sc_recon w) (sc_started w) (sc_stop w) (sc_engs w) (sc_dials w)
  (sc_ctxs w) (sc_chans w) (sc_sent w) (sc_waits w) (sc_cells w) (sc_store w) (sc_tick w)
  (sc_crashed w) (sc_returned w) (sc_app w).
Definition set_sc_acks f w := mkSc (sc_opts w) (sc_engine w) (sc_nsps w) (f (sc_acks w)) (sc_closed
  w) (sc_onConnect w) (sc_onEvent w) (sc_onDisconnect w) (sc_onConnectError w) (sc_onError w)
  (sc_connecting w) (sc_inq w) (sc_recon w) (sc_started w) (sc_stop w) (sc_engs w) (sc_dials w)
  (sc_ctxs w) (sc_chans w) (sc_sent w) (sc_waits w) (sc_cells w) (sc_store w) (sc_tick w)
  (sc_crashed w) (sc_returned w) (sc_app w).
Definition set_sc_closed v w := mkSc (sc_opts w) (sc_engine w) (sc_nsps w) (sc_acks w) v
  (sc_onConnect w) (sc_onEvent w) (sc_onDisconnect w) (sc_onConnectError w) (sc_onError w)
  (sc_connecting w) (sc_inq w) (sc_recon w) (sc_started w) (sc_stop w) (sc_engs w) (sc_dials w)
  (sc_ctxs w) (sc_chans w) (sc_sent w) (sc_waits w) (sc_cells w) (sc_store w) (sc_tick w)
  (sc_crashed w) (sc_returned w) (sc_app w).
Definition set_sc_onConnect f w := mkSc (sc_opts w) (sc_engine w) (sc_nsps w) (sc_acks w) (sc_closed
  w) (f (sc_onConnect w)) (sc_onEvent w) (sc_onDisconnect w) (sc_onConnectError w) (sc_onError w)
  (sc_connecting w) (sc_inq w) (sc_recon w) (sc_started w) (sc_stop w) (sc_engs w) (sc_dials w)
  (sc_ctxs w) (sc_chans w) (sc_sent w) (sc_waits w) (sc_cells w) (sc_store w) (sc_tick w)
  (sc_crashed w) (sc_returned w) (sc_app w).
Definition set_sc_onEvent f w := mkSc (sc_opts w) (sc_engine w) (sc_nsps w) (sc_acks w) (sc_closed
  w) (sc_onConnect w) (f (sc_onEvent w)) (sc_onDisconnect w) (sc_onConnectError w) (sc_onError w)
  (sc_connecting w) (sc_inq w) (sc_recon w) (sc_started w) (sc_stop w) (sc_engs w) (sc_dials w)
  (sc_ctxs w) (sc_chans w) (sc_sent w) (sc_waits w) (sc_cells w) (sc_store w) (sc_tick w)
  (sc_crashed w) (sc_returned w) (sc_app w).
Definition set_sc_onDisconnect f w := mkSc (sc_opts w) (sc_engine w) (sc_nsps w) (sc_acks w)
  (sc_closed w) (sc_onConnect w) (sc_onEvent w) (f (sc_onDisconnect w)) (sc_onConnectError w)
  (sc_onError w) (sc_connecting w) (sc_inq w) (sc_recon w) (sc_started w) (sc_stop w) (sc_engs w)
  (sc_dials w) (sc_ctxs w) (sc_chans w) (sc_sent w) (sc_waits w) (sc_cells w) (sc_store w) (sc_tick
  w) (sc_crashed w) (sc_returned w) (sc_app w).
Definition set_sc_onConnectError f w := mkSc (sc_opts w) (sc_engine w) (sc_nsps w) (sc_acks w)
  (sc_closed w) (sc_onConnect w) (sc_onEvent w) (sc_onDisconnect w) (f (sc_onConnectError w))
  (sc_onError w) (sc_connecting w) (sc_inq w) (sc_recon w) (sc_started w) (sc_stop w) (sc_engs w)
  (sc_dials w) (sc_ctxs w) (sc_chans w) (sc_sent w) (sc_waits w) (sc_cells w) (sc_store w) (sc_tick
  w) (sc_crashed w) (sc_returned w) (sc_app w).
Definition set_sc_onError f w := mkSc (sc_opts w) (sc_engine w) (sc_nsps w) (sc_acks w) (sc_closed
  w) (sc_onConnect w) (sc_onEvent w) (sc_onDisconnect w) (sc_onConnectError w) (f (sc_onError w))
  (sc_connecting w) (sc_inq w) (sc_recon w) (sc_started w) (sc_stop w) (sc_engs w) (sc_dials w)
  (sc_ctxs w) (sc_chans w) (sc_sent w) (sc_waits w) (sc_cells w) (sc_store w) (sc_tick w)
  (sc_crashed w) (sc_returned w) (sc_app w).
Definition set_sc_connecting f w := mkSc (sc_opts w) (sc_engine w) (sc_nsps w) (sc_acks w)
  (sc_closed w) (sc_onConnect w) (sc_onEvent w) (sc_onDisconnect w) (sc_onConnectError w)
  (sc_onError w) (f (sc_connecting w)) (sc_inq w) (sc_recon w) (sc_started w) (sc_stop w) (sc_engs
  w) (sc_dials w) (sc_ctxs w) (sc_chans w) (sc_sent w) (sc_waits w) (sc_cells w) (sc_store w)
  (sc_tick w) (sc_crashed w) (sc_returned w) (sc_app w).
Definition set_sc_inq f w := mkSc (sc_opts w) (sc_engine w) (sc_nsps w) (sc_acks w) (sc_closed w)
  (sc_onConnect w) (sc_onEvent w) (sc_onDisconnect w) (sc_onConnectError w) (sc_onError w)
  (sc_connecting w) (f (sc_inq w)) (sc_recon w) (sc_started w) (sc_stop w) (sc_engs w) (sc_dials w)
  (sc_ctxs w) (sc_chans w) (sc_sent w) (sc_waits w) (sc_cells w) (sc_store w) (sc_tick w)
  (sc_crashed w) (sc_returned w) (sc_app w).
Definition set_sc_recon v w := mkSc (sc_opts w) (sc_engine w) (sc_nsps w) (sc_acks w) (sc_closed w)
  (sc_onConnect w) (sc_onEvent w) (sc_onDisconnect w) (sc_onConnectError w) (sc_onError w)
  (sc_connecting w) (sc_inq w) v (sc_started w) (sc_stop w) (sc_engs w) (sc_dials w) (sc_ctxs w)
  (sc_chans w) (sc_sent w) (sc_waits w) (sc_cells w) (sc_store w) (sc_tick w) (sc_crashed w)
  (sc_returned w) (sc_app w).
Definition set_sc_started v w := mkSc (sc_opts w) (sc_engine w) (sc_nsps w) (sc_acks w) (sc_closed
  w) (sc_onConnect w) (sc_onEvent w) (sc_onDisconnect w) (sc_onConnectError w) (sc_onError w)
  (sc_connecting w) (sc_inq w) (sc_recon w) v (sc_stop w) (sc_engs w) (sc_dials w) (sc_ctxs w)
  (sc_chans w) (sc_sent w) (sc_waits w) (sc_cells w) (sc_store w) (sc_tick w) (sc_crashed w)
  (sc_returned w) (sc_app w).
Definition set_sc_stop v w := mkSc (sc_opts w) (sc_engine w) (sc_nsps w) (sc_acks w) (sc_closed w)
  (sc_onConnect w) (sc_onEvent w) (sc_onDisconnect w) (sc_onConnectError w) (sc_onError w)
  (sc_connecting w) (sc_inq w) (sc_recon w) (sc_started w) v (sc_engs w) (sc_dials w) (sc_ctxs w)
  (sc_chans w) (sc_sent w) (sc_waits w) (sc_cells w) (sc_store w) (sc_tick w) (sc_crashed w)
  (sc_returned w) (sc_app w).
Definition set_sc_engs f w := mkSc (sc_opts w) (sc_engine w) (sc_nsps w) (sc_acks w) (sc_closed w)
  (sc_onConnect w) (sc_onEvent w) (sc_onDisconnect w) (sc_onConnectError w) (sc_onError w)
  (sc_connecting w) (sc_inq w) (sc_recon w) (sc_started w) (sc_stop w) (f (sc_engs w)) (sc_dials w)
  (sc_ctxs w) (sc_chans w) (sc_sent w) (sc_waits w) (sc_cells w) (sc_store w) (sc_tick w)
  (sc_crashed w) (sc_returned w) (sc_app w).
Definition set_sc_dials f w := mkSc (sc_opts w) (sc_engine w) (sc_nsps w) (sc_acks w) (sc_closed w)
  (sc_onConnect w) (sc_onEvent w) (sc_onDisconnect w) (sc_onConnectError w) (sc_onError w)
  (sc_connecting w) (sc_inq w) (sc_recon w) (sc_started w) (sc_stop w) (sc_engs w) (f (sc_dials w))
  (sc_ctxs w) (sc_chans w) (sc_sent w) (sc_waits w) (sc_cells w) (sc_store w) (sc_tick w)
  (sc_crashed w) (sc_returned w) (sc_app w).
Definition set_sc_ctxs f w := mkSc (sc_opts w) (sc_engine w) (sc_nsps w) (sc_acks w) (sc_closed w)
  (sc_onConnect w) (sc_onEvent w) (sc_onDisconnect w) (sc_onConnectError w) (sc_onError w)
  (sc_connecting w) (sc_inq w) (sc_recon w) (sc_started w) (sc_stop w) (sc_engs w) (sc_dials w) (f
  (sc_ctxs w)) (sc_chans w) (sc_sent w) (sc_waits w) (sc_cells w) (sc_store w) (sc_tick w)
  (sc_crashed w) (sc_returned w) (sc_app w).
Definition set_sc_chans f w := mkSc (sc_opts w) (sc_engine w) (sc_nsps w) (sc_acks w) (sc_closed w)
  (sc_onConnect w) (sc_onEvent w) (sc_onDisconnect w) (sc_onConnectError w) (sc_onError w)
  (sc_connecting w) (sc_inq w) (sc_recon w) (sc_started w) (sc_stop w) (sc_engs w) (sc_dials w)
  (sc_ctxs w) (f (sc_chans w)) (sc_sent w) (sc_waits w) (sc_cells w) (sc_store w) (sc_tick w)
  (sc_crashed w) (sc_returned w) (sc_app w).
Definition set_sc_sent f w := mkSc (sc_opts w) (sc_engine w) (sc_nsps w) (sc_acks w) (sc_closed w)
  (sc_onConnect w) (sc_onEvent w) (sc_onDisconnect w) (sc_onConnectError w) (sc_onError w)
  (sc_connecting w) (sc_inq w) (sc_recon w) (sc_started w) (sc_stop w) (sc_engs w) (sc_dials w)
  (sc_ctxs w) (sc_chans w) (f (sc_sent w)) (sc_waits w) (sc_cells w) (sc_store w) (sc_tick w)
  (sc_crashed w) (sc_returned w) (sc_app w).
Definition set_sc_waits f w := mkSc (sc_opts w) (sc_engine w) (sc_nsps w) (sc_acks w) (sc_closed w)
  (sc_onConnect w) (sc_onEvent w) (sc_onDisconnect w) (sc_onConnectError w) (sc_onError w)
  (sc_connecting w) (sc_inq w) (sc_recon w) (sc_started w) (sc_stop w) (sc_engs w) (sc_dials w)
  (sc_ctxs w) (sc_chans w) (sc_sent w) (f (sc_waits w)) (sc_cells w) (sc_store w) (sc_tick w)
  (sc_crashed w) (sc_returned w) (sc_app w).
Definition set_sc_cells f w := mkSc (sc_opts w) (sc_engine w) (sc_nsps w) (sc_acks w) (sc_closed w)
  (sc_onConnect w) (sc_onEvent w) (sc_onDisconnect w) (sc_onConnectError w) (sc_onError w)
  (sc_connecting w) (sc_inq w) (sc_recon w) (sc_started w) (sc_stop w) (sc_engs w) (sc_dials w)
  (sc_ctxs w) (sc_chans w) (sc_sent w) (sc_waits w) (f (sc_cells w)) (sc_store w) (sc_tick w)
  (sc_crashed w) (sc_returned w) (sc_app w).
Definition set_sc_store v w := mkSc (sc_opts w) (sc_engine w) (sc_nsps w) (sc_acks w) (sc_closed w)
  (sc_onConnect w) (sc_onEvent w) (sc_onDisconnect w) (sc_onConnectError w) (sc_onError w)
  (sc_connecting w) (sc_inq w) (sc_recon w) (sc_started w) (sc_stop w) (sc_engs w) (sc_dials w)
  (sc_ctxs w) (sc_chans w) (sc_sent w) (sc_waits w) (sc_cells w) v (sc_tick w) (sc_crashed w)
  (sc_returned w) (sc_app w).
Definition set_sc_tick f w := mkSc (sc_opts w) (sc_engine w) (sc_nsps w) (sc_acks w) (sc_closed w)
  (sc_onConnect w) (sc_onEvent w) (sc_onDisconnect w) (sc_onConnectError w) (sc_onError w)
  (sc_connecting w) (sc_inq w) (sc_recon w) (sc_started w) (sc_stop w) (sc_engs w) (sc_dials w)
  (sc_ctxs w) (sc_chans w) (sc_sent w) (sc_waits w) (sc_cells w) (sc_store w) (f (sc_tick w))
  (sc_crashed w) (sc_returned w) (sc_app w).
Definition set_sc_crashed v w := mkSc (sc_opts w) (sc_engine w) (sc_nsps w) (sc_acks w) (sc_closed
  w) (sc_onConnect w) (sc_onEvent w) (sc_onDisconnect w) (sc_onConnectError w) (sc_onError w)
  (sc_connecting w) (sc_inq w) (sc_recon w) (sc_started w) (sc_stop w) (sc_engs w) (sc_dials w)
  (sc_ctxs w) (sc_chans w) (sc_sent w) (sc_waits w) (sc_cells w) (sc_store w) (sc_tick w) v
  (sc_returned w) (sc_app w).
Definition set_sc_returned v w := mkSc (sc_opts w) (sc_engine w) (sc_nsps w) (sc_acks w) (sc_closed
  w) (sc_onConnect w) (sc_onEvent w) (sc_onDisconnect w) (sc_onConnectError w) (sc_onError w)
  (sc_connecting w) (sc_inq w) (sc_recon w) (sc_started w) (sc_stop w) (sc_engs w) (sc_dials w)
  (sc_ctxs w) (sc_chans w) (sc_sent w) (sc_waits w) (sc_cells w) (sc_store w) (sc_tick w)
  (sc_crashed w) v (sc_app w).
Definition set_sc_app f w := mkSc (sc_opts w) (sc_engine w) (sc_nsps w) (sc_acks w) (sc_closed w)
  (sc_onConnect w) (sc_onEvent w) (sc_onDisconnect w) (sc_onConnectError w) (sc_onError w)
  (sc_connecting w) (sc_inq w) (sc_recon w) (sc_started w) (sc_stop w) (sc_engs w) (sc_dials w)
  (sc_ctxs w) (sc_chans w) (sc_sent w) (sc_waits w) (sc_cells w) (sc_store w) (sc_tick w)
  (sc_crashed w) (sc_returned w) (f (sc_app w)).

Definition set_nc_connected b nc := mkNsClient b (nc_sid nc) (nc_auth nc).
Definition upd_nsp (nsp : string) (f : nsClient → nsClient) : scworld → scworld :=
  set_sc_nsps (alter f nsp).
Definition upd_eng (e : engp) (f : engine → engine) : scworld → scworld := set_sc_engs (alter f e).
Definition upd_sc_cell (c : nat) (f : cell → cell) : scworld → scworld := set_sc_cells (alter f c).

(** ** The runtime *)

(** [context.WithTimeout], its end, its error. *)
Definition sc_add_ctx (w : scworld) : ctxp * scworld := (length (sc_ctxs w), set_sc_ctxs (λ l, l ++ [None]) w).
Definition sc_end_ctx (x : ctxp) (msg : error) : scworld → scworld :=
  set_sc_ctxs (alter (λ e, match e with None => Some msg | _ => e end) x).
Definition sc_ctx_err (x : ctxp) (w : scworld) : option error := mjoin (sc_ctxs w !! x).

(** [make(chan error, 1)] *)
Definition make_chan (w : scworld) : chanp * scworld :=
  (length (sc_chans w), set_sc_chans (λ l, l ++ [None]) w).

(** [ch <- v] waits while the buffer is full; in a [select] with a default it
    does nothing then. *)
Definition chan_put (ch : chanp) (v : option error) (w : scworld) : option (unit * scworld) :=
  match sc_chans w !! ch with
  | Some None => Some (tt, set_sc_chans <[ch := Some v]> w)
  | _ => None
  end.
Definition chan_try (ch : chanp) (v : option error) (w : scworld) : scworld :=
  match chan_put ch v w with Some (_, w') => w' | None => w end.
End State.
#[global] Arguments scworld {_} U.

(** The loop of [reconnectLoop], by the values of its variables. *)
Inductive sc_method := MReconnectLoop (nsps : list string) (delay attempt : Z).
