(* ===== verification/SioClient.v ===== *)
(** * SioClient: the Socket.IO client

    Models [socketio/client.go]: connecting and disconnecting namespaces,
    events and acknowledgements, the processing of incoming packets, closing,
    and the reconnection with its backoff.  Every method is a program whose
    atomic steps are the code's critical sections, in its order.  The packet
    functions the client shares with the server ([receive], [plainToBinary],
    [collectResults]) are those of SioServer. *)

From S2P Require Import Prelude.
From S2P Require Import EngineTypes.
From S2P Require Import EngineOptions.
From S2P Require Import EngineServer.
From S2P Require Import Strconv.
From S2P Require Import Value.
From S2P Require Import Json.
From S2P Require Import SioPacket.
From S2P Require Import AckTable.
From S2P Require Import PacketQueue.
From S2P Require Import Adapter.
From S2P Require Import Emitter.
From S2P Require Import Sched.
From S2P Require Import SioServer.
From S2P Require Import SioClientTypes.

Definition ErrNamespaceNotConnected : error := "socketio: socket is not connected: namespace not connected".

(** [strings.Contains] *)
Fixpoint str_contains (sub s : bytes) : bool :=
  bool_decide (take (length sub) s = sub)
  || match s with [] => false | _ :: s' => str_contains sub s' end.

(** [mapClientDisconnectReason] *)
Definition mapClientDisconnectReason (err : option error) : string :=
  match err with
  | None => "transport close"
  | Some e => if str_contains (bytes_of "ping timeout") (bytes_of e) then "ping timeout"
              else "transport error"
  end.

Section Client.
Context `{FL : Float64} `{FO : !FloatOps} `{JS : !JSON} {U data : Type}.
(** The order of the n-th iteration over a map, which of two ready cases a
    [select] takes, and the numbers [rand.Float64] gives. *)
Context (ord : nat → order) (choose : nat → bool) (draw : nat → f64).
Context (unmarshal_into : gtype → bytes → option data).

Abbreviation W := (scworld U).
Abbreviation P := (mprog W sc_method).
Implicit Types (w : W) (nsp : string).

(** What the user's functions do. *)
Record sc_user := mkScUser {
  uc_connect : fn → P unit;
  uc_disconnect : fn → string → P unit;
  uc_error : fn → error → P unit;
  uc_sig : fn → handler;
  uc_event : fn → list (rvalue (data := data)) → P (list rout);
  uc_ack : fn → list gval → P unit
}.
Context (usr : sc_user).

(** ** Options and the initial state *)

(** [withDefaults] *)
Definition sc_withDefaults (o : sc_options) : sc_options :=
  mkScOptions (so_Transports o) (so_Engine o) (so_Auth o) (so_Reconnection o)
    (so_ReconnectionAttempts o)
    (if_zero (so_ReconnectionDelay o) Second)
    (if_zero (so_ReconnectionDelayMax o) (5 * Second))
    (if f64_eqb (so_RandomizationFactor o) (f64_of_Z 0) then f64_half else so_RandomizationFactor o)
    (if_zero (so_Timeout o) (10 * Second)).

Definition sc_zero_options : sc_options := mkScOptions [] None None false 0 0 0 (f64_of_Z 0) 0.

(** [newClient] *)
Definition newClient (opts : option sc_options) (st : readers) (u : U) : W :=
  mkSc (sc_withDefaults (default sc_zero_options opts)) None ∅ newAckTable false ∅ ∅ ∅ ∅ ∅ ∅
    newPacketQueue None false false [] [] [] [] [] [] [] st 0 false false u.

(** [newEngineOptions] *)
Definition newEngineOptions (o : sc_options) : option EngineTypes.options :=
  if decide (length (so_Transports o) = 0%nat) then so_Engine o
  else
    let eo := default zero_options (so_Engine o) in
    Some (mkOptions (PingInterval eo) (PingTimeout eo) (UpgradeTimeout eo) (MaxHTTPBufferSize eo)
            (so_Transports o) (AllowUpgrades eo) (AllowRequest eo) (GenerateID eo)).

(** ** Registrations and queries *)

Definition add_handler (k : string) (f : fn) (m : gmap string (list fn)) : gmap string (list fn) :=
  <[k := default [] (m !! k) ++ [f]]> m.

Definition sc_OnEvent nsp (event : string) (f : fn) : P unit :=
  update (set_sc_onEvent (λ m, <[nsp := add_handler event f (default ∅ (m !! nsp))]> m)).
Definition sc_OnConnect nsp (f : fn) : P unit := update (set_sc_onConnect (add_handler nsp f)).
Definition sc_OnDisconnect nsp (f : fn) : P unit := update (set_sc_onDisconnect (add_handler nsp f)).
Definition sc_OnConnectError nsp (f : fn) : P unit := update (set_sc_onConnectError (add_handler nsp f)).
Definition sc_OnError nsp (f : fn) : P unit := update (set_sc_onError (add_handler nsp f)).

Definition is_connected w nsp : bool :=
  match sc_nsps w !! nsp with Some nc => nc_connected nc | None => false end.
Definition sc_Connected nsp : P bool := gets (λ w, is_connected w nsp).
Definition sc_ID nsp : P string :=
  gets (λ w, match sc_nsps w !! nsp with Some nc => nc_sid nc | None => "" end).

(** ** The engine *)

Definition eng_SendMessage (e : engp) (data : bytes) (binary : bool) : P unit :=
  update (λ w, match sc_engs w !! e with
               | Some (mkEngine _ _ false) => set_sc_sent (λ l, l ++ [(e, data, binary)]) w
               | _ => w
               end).
Definition close_eng (e : engp) : W → W :=
  upd_eng e (λ g, mkEngine (en_onData g) (en_onClose g) true).
Definition eng_Close (e : engp) : P unit := update (close_eng e).
Definition eng_OnData (e : engp) : P unit :=
  update (upd_eng e (λ g, mkEngine true (en_onClose g) (en_closed g))).
Definition eng_OnClose (e : engp) : P unit :=
  update (upd_eng e (λ g, mkEngine (en_onData g) true (en_closed g))).

(** [engineio.Dial] returns when the session is open or its context ends; it
    closes a session it does not return. *)
Definition dial_result (d : nat) (ctx : ctxp) w : option (result error engp * W) :=
  match sc_dials w !! d with
  | Some (mkEngineDial _ _ (Some a)) =>
      let w' := set_sc_tick S w in
      match sc_ctx_err ctx w with
      | Some msg =>
          if choose (sc_tick w)
          then Some (Err msg, match a with Ok e => close_eng e w' | Err _ => w' end)
          else Some (a, w')
      | None => Some (a, w')
      end
  | _ => match sc_ctx_err ctx w with Some msg => Some (Err msg, w) | None => None end
  end.

Definition eng_Dial (ctx : ctxp) : P (result error engp) :=
  atomic (λ w, (length (sc_dials w),
    set_sc_dials (λ l, l ++ [mkEngineDial (newEngineOptions (sc_opts w)) ctx None]) w)) ≫= λ d,
  await (dial_result d ctx).

(** ** Sending *)

(** [sendPacket]: the engine is read first; the readers of the payload are read
    before the first frame. *)
Definition sc_sendPacket (p : Packet) : P unit :=
  gets sc_engine ≫= λ eng,
  match eng with
  | None => skip
  | Some e =>
      if negb (is_nil (pData p)) && hasBinary (pData p) then
        atomic (λ w, let '(r, (st, bufs)) := deconstruct (pData p) (sc_store w, []) in
                     ((r, bufs), set_sc_store st w)) ≫= λ r,
        match r with
        | (Err _, _) => skip
        | (Ok d, bufs) =>
            let p' := mkPacket (plainToBinary (pType p)) (pNsp p) (pID p) d (Z.of_nat (length bufs)) in
            eng_SendMessage e (Encode p') false ≫= λ _, for_each bufs (λ b, eng_SendMessage e b true)
        end
      else eng_SendMessage e (Encode p) false
  end.

Definition sc_Emit nsp (event : string) (args : list gval) : P (option error) :=
  sc_Connected nsp ≫= λ ok : bool,
  if ok then sc_sendPacket (event_packet nsp (-1) event args) ≫= λ _, mret None
  else mret (Some ErrNamespaceNotConnected).

Definition sc_EmitWithAck nsp (event : string) (cb : option fn) (args : list gval) :
  P (Z * option error) :=
  sc_Connected nsp ≫= λ ok : bool,
  if ok then
    match cb with
    | None => sc_sendPacket (event_packet nsp (-1) event args) ≫= λ _, mret (-1, None)
    | Some f =>
        atomic (λ w, let '(id, t) := next (sc_acks w) in (id, set_sc_acks (λ _, t) w)) ≫= λ id,
        update (set_sc_acks (register id (Some f))) ≫= λ _,
        sc_sendPacket (event_packet nsp id event args) ≫= λ _, mret (id, None)
    end
  else mret (-1, Some ErrNamespaceNotConnected).

(** ** The user's handlers, each on a goroutine of its own *)

Definition handlers_of (m : gmap string (list fn)) nsp : list fn := default [] (m !! nsp).

Definition sc_fireConnectError nsp (err : error) : P unit :=
  gets (λ w, handlers_of (sc_onConnectError w) nsp) ≫= λ hs, for_each hs (λ h, go (uc_error usr h err)).
Definition sc_fireOnError nsp (err : error) : P unit :=
  gets (λ w, handlers_of (sc_onError w) nsp) ≫= λ hs, for_each hs (λ h, go (uc_error usr h err)).
Definition sc_fireDisconnect nsp (reason : string) : P unit :=
  gets (λ w, handlers_of (sc_onDisconnect w) nsp) ≫= λ hs,
  for_each hs (λ h, go (uc_disconnect usr h reason)).

(** ** Incoming packets *)

(** [handleConnect]: the critical section, then the waiter and the handlers. *)
Definition packet_sid (v : gval) (old : string) : string :=
  match v with
  | VMap m => match map_get m "sid" with Some (VStr s) => s | _ => old end
  | _ => old
  end.

Definition connect_locked (p : Packet) w : (option chanp * list fn) * W :=
  let nsp := pNsp p in
  let hs := handlers_of (sc_onConnect w) nsp in
  match sc_connecting w !! nsp with
  | Some ch =>
      ((Some ch, hs),
       upd_nsp nsp (λ nc, mkNsClient true (packet_sid (pData p) (nc_sid nc)) (nc_auth nc))
         (set_sc_connecting (delete nsp) w))
  | None => ((None, hs), w)
  end.

Definition tell (ch : option chanp) (v : option error) : P unit :=
  match ch with Some ch => await (chan_put ch v) | None => skip end.

Definition sc_handleConnect (p : Packet) : P unit :=
  atomic (connect_locked p) ≫= λ r,
  tell r.1 None ≫= λ _,
  for_each r.2 (λ h, go (uc_connect usr h)).

(** [handleConnectError] *)
Definition packet_message (v : gval) : string :=
  match v with
  | VMap m => match map_get m "message" with Some (VStr s) => s | _ => "" end
  | _ => ""
  end.

Definition connect_error (p : Packet) : error :=
  let msg := packet_message (pData p) in
  if decide (msg = "") then "socketio: connection rejected" else msg.

Definition connect_error_locked (p : Packet) w : (option chanp * list fn) * W :=
  let nsp := pNsp p in
  ((sc_connecting w !! nsp, handlers_of (sc_onConnectError w) nsp),
   upd_nsp nsp (set_nc_connected false) (set_sc_connecting (delete nsp) w)).

Definition sc_handleConnectError (p : Packet) : P unit :=
  atomic (connect_error_locked p) ≫= λ r,
  tell r.1 (Some (connect_error p)) ≫= λ _,
  for_each r.2 (λ h, go (uc_error usr h (connect_error p))).

(** [handleDisconnect]; the section is that of [DisconnectNamespace] too. *)
Definition disconnect_locked nsp w : (bool * list fn) * W :=
  let fire := is_connected w nsp in
  ((fire, handlers_of (sc_onDisconnect w) nsp),
   if fire then upd_nsp nsp (set_nc_connected false) w else w).

Definition io_server_disconnect : string := "io server disconnect".
Definition io_client_disconnect : string := "io client disconnect".

Definition sc_handleDisconnect (p : Packet) : P unit :=
  atomic (disconnect_locked (pNsp p)) ≫= λ r,
  when r.1 (for_each r.2 (λ h, go (uc_disconnect usr h io_server_disconnect))).

(** A panic in a goroutine ends the process. *)
Definition sc_crash : P unit := update (set_sc_crashed true) ≫= λ _, await (λ _, None).

Definition sc_wg_Add (c : nat) : P unit :=
  update (upd_sc_cell c (λ k, mkCell (S (pending k)) (results k))).
Definition sc_wg_Done (c : nat) : P unit :=
  update (upd_sc_cell c (λ k, mkCell (pred (pending k)) (results k))).
Definition sc_wg_Wait (c : nat) : P unit :=
  await (λ w, match sc_cells w !! c with
              | Some k => if decide (pending k = 0%nat) then Some (tt, w) else None
              | None => None
              end).

(** The goroutine of one handler, and the one that acknowledges. *)
Definition sc_run_handler (cl : nat) nsp (args : list gval) (h : fn) : P unit :=
  match invokeClientHandler unmarshal_into (uc_sig usr h) args with
  | Mismatch => sc_fireOnError nsp ErrHandlerMismatch ≫= λ _, sc_wg_Done cl
  | Panics => sc_crash
  | Calls ins =>
      uc_event usr h ins ≫= λ outs,
      update (upd_sc_cell cl (λ k, mkCell (pending k) (results k ++ collectResults outs))) ≫= λ _,
      sc_wg_Done cl
  end.

Definition sc_send_results (cl : nat) (p : Packet) : P unit :=
  sc_wg_Wait cl ≫= λ _,
  gets (λ w, match sc_cells w !! cl with Some k => results k | None => [] end) ≫= λ rs,
  sc_sendPacket (ack_packet (pNsp p) (pID p) rs).

(** [handleEvent] *)
Definition event_handlers w nsp (name : string) : list fn :=
  handlers_of (default ∅ (sc_onEvent w !! nsp)) name.

Definition sc_handleEvent (p : Packet) : P unit :=
  match pData p with
  | VArr (VStr name :: args) =>
      gets (λ w, event_handlers w (pNsp p) name) ≫= λ hs,
      atomic (λ w, (length (sc_cells w), set_sc_cells (λ l, l ++ [mkCell 0 []]) w)) ≫= λ cl,
      for_each hs (λ h, sc_wg_Add cl ≫= λ _, go (sc_run_handler cl (pNsp p) args h)) ≫= λ _,
      when (0 <=? pID p) (go (sc_send_results cl p))
  | _ => skip
  end.

(** [handleAck], and [ackTable.invoke]: the removal, then the callback outside
    the lock. *)
Definition sc_invoke_ack (id : Z) (args : list gval) : P unit :=
  atomic (λ w, let '(_, cb, t) := invoke id (sc_acks w) in (cb, set_sc_acks (λ _, t) w)) ≫= λ cb,
  match cb with Some f => uc_ack usr f args | None => skip end.

Definition sc_handleAck (p : Packet) : P unit :=
  go (sc_invoke_ack (pID p) (match pData p with VArr l => l | _ => [] end)).

Definition sc_process (p : Packet) : P unit :=
  match pType p with
  | Connect => sc_handleConnect p
  | ConnectError => sc_handleConnectError p
  | Disconnect => sc_handleDisconnect p
  | Event => sc_handleEvent p
  | Ack => sc_handleAck p
  | _ => skip
  end.

(** [handleIn] with [feedBinary] *)
Definition sc_handleIn (data : bytes) (binary : bool) : P unit :=
  atomic (λ w, let '(p, r) := receive data binary (sc_recon w) in (p, set_sc_recon r w)) ≫= λ pkt,
  match pkt with Some p => sc_process p | None => skip end.

(** One round of [processLoop], and [start]. *)
Definition sc_process_round : P bool :=
  await (λ w, match pop (sc_inq w) with
              | Some (m, q) => Some (m, set_sc_inq (λ _, q) w)
              | None => None
              end) ≫= λ m,
  match m with
  | Some (data, binary) => sc_handleIn data binary ≫= λ _, mret true
  | None => mret false
  end.

Definition sc_start : P unit :=
  atomic (λ w, (negb (sc_started w), set_sc_started true w)) ≫= λ first,
  when first (go_loop sc_process_round).

(** ** Connecting *)

Definition dialEngine (ctx : ctxp) : P (option error) :=
  eng_Dial ctx ≫= λ r,
  match r with
  | Err e => mret (Some e)
  | Ok e =>
      eng_OnData e ≫= λ _, eng_OnClose e ≫= λ _,
      update (set_sc_engine (Some e)) ≫= λ _, sc_start ≫= λ _, mret None
  end.

(** [connectNsp]: the channel is published, the packet sent, and the [select]
    gives the error of the context ([inl]) or the value received. *)
Definition begin_connect nsp (auth : auth_data) w : chanp * W :=
  let '(ch, w1) := make_chan w in
  let nc := default (mkNsClient false "" None) (sc_nsps w !! nsp) in
  (ch, set_sc_connecting <[nsp := ch]>
         (set_sc_nsps <[nsp := mkNsClient false (nc_sid nc) auth]> w1)).

Definition connect_request nsp (auth : auth_data) : Packet :=
  mkPacket Connect nsp (-1) (match auth with Some m => VMap m | None => VNil end) 0.

Definition connect_select (ctx : ctxp) (ch : chanp) w : option ((error + option error) * W) :=
  let w' := set_sc_tick S w in
  match sc_chans w !! ch, sc_ctx_err ctx w with
  | Some (Some v), Some msg =>
      if choose (sc_tick w) then Some (inl msg, w')
      else Some (inr v, set_sc_chans <[ch := None]> w')
  | Some (Some v), None => Some (inr v, set_sc_chans <[ch := None]> w')
  | _, Some msg => Some (inl msg, w')
  | _, None => None
  end.

Definition connectNsp (ctx : ctxp) nsp (auth : auth_data) : P (option error) :=
  atomic (begin_connect nsp auth) ≫= λ ch,
  sc_sendPacket (connect_request nsp auth) ≫= λ _,
  await (connect_select ctx ch) ≫= λ r,
  match r with
  | inl msg => update (set_sc_connecting (delete nsp)) ≫= λ _, mret (Some msg)
  | inr v => mret v
  end.

Definition ConnectNamespace (ctx : ctxp) nsp (auth : auth_data) : P (option error) :=
  if decide (nsp = "" ∨ nsp = defaultNamespace)
  then mret (Some "socketio: use Dial to connect the default namespace")
  else connectNsp ctx nsp auth.

Definition DisconnectNamespace nsp : P unit :=
  atomic (disconnect_locked nsp) ≫= λ r,
  sc_sendPacket (disconnect_packet nsp) ≫= λ _,
  when r.1 (for_each r.2 (λ h, go (uc_disconnect usr h io_client_disconnect))).

(** ** Closing *)

(** The namespaces that are connected, in the order of an iteration, all marked
    as not connected. *)
Definition connected_nsps (o : order) w : list string :=
  filter (λ nsp, is_connected w nsp = true) (o (dom (sc_nsps w))).
Definition disconnect_all : W → W := set_sc_nsps (fmap (set_nc_connected false)).

(** [Close]: the section gives the engine and the namespaces to tell. *)
Definition close_locked w : option (option engp * list string) * W :=
  if sc_closed w then (None, w)
  else (Some (sc_engine w, connected_nsps (ord (sc_tick w)) w),
        disconnect_all (set_sc_engine None (set_sc_closed true (set_sc_tick S w)))).

Definition sc_Close : P unit :=
  update (set_sc_stop true) ≫= λ _,
  atomic close_locked ≫= λ r,
  match r with
  | None => skip
  | Some (eng, nsps) =>
      update (set_sc_acks clear) ≫= λ _,
      for_each nsps (λ nsp, sc_fireDisconnect nsp io_client_disconnect) ≫= λ _,
      match eng with Some e => eng_Close e | None => skip end
  end.

(** [Dial]: [None] when it returns the client. *)
Definition sc_Dial (ctx : ctxp) : P (option error) :=
  dialEngine ctx ≫= λ e,
  match e with
  | Some msg => mret (Some msg)
  | None =>
      gets (λ w, so_Auth (sc_opts w)) ≫= λ auth,
      connectNsp ctx defaultNamespace auth ≫= λ e,
      match e with
      | Some msg => sc_Close ≫= λ _, mret (Some msg)
      | None => mret None
      end
  end.

(** ** Reconnecting *)

(** [giveUpReconnecting] *)
Definition gave_up : error := "socketio: reconnection failed after maximum attempts".
Definition giveUpReconnecting (nsps : list string) : P unit :=
  for_each nsps (λ nsp, sc_fireConnectError nsp gave_up) ≫= λ _,
  update (set_sc_closed true) ≫= λ _, update (set_sc_stop true).

(** [reconnectAttempt]: the namespaces one after the other, then the deferred
    calls. *)
Fixpoint connect_all (ctx : ctxp) (nsps : list string) : P (option error) :=
  match nsps with
  | [] => mret None
  | nsp :: nsps' =>
      gets (λ w, sc_nsps w !! nsp ≫= nc_auth) ≫= λ auth,
      connectNsp ctx nsp auth ≫= λ e,
      match e with Some msg => mret (Some msg) | None => connect_all ctx nsps' end
  end.

Definition reconnectAttempt (nsps : list string) : P (option error) :=
  atomic sc_add_ctx ≫= λ ctx,
  dialEngine ctx ≫= λ e,
  match e with Some msg => mret (Some msg) | None => connect_all ctx nsps end ≫= λ e,
  update (sc_end_ctx ctx "context canceled") ≫= λ _,
  match e with
  | None => mret None
  | Some msg =>
      atomic (λ w, (sc_engine w, set_sc_engine None w)) ≫= λ eng,
      match eng with Some g => eng_Close g | None => skip end ≫= λ _, mret (Some msg)
  end.

(** The wait before an attempt, and the next delay.  [rnd] is the number
    drawn. *)
Definition jittered (o : sc_options) (delay : Z) (rnd : f64) : Z :=
  let F := so_RandomizationFactor o in
  if f64_ltb (f64_of_Z 0) F then
    f64_to_Z (f64_mul (f64_of_Z delay)
      (f64_add (f64_sub (f64_of_Z 1) F) (f64_mul (f64_mul (f64_of_Z 2) F) rnd)))
  else delay.
Definition capped (o : sc_options) (d : Z) : Z :=
  if so_ReconnectionDelayMax o <? d then so_ReconnectionDelayMax o else d.
Definition backoff_wait (o : sc_options) (delay : Z) (rnd : f64) : Z := capped o (jittered o delay rnd).
Definition next_delay (o : sc_options) (delay : Z) : Z := capped o (wrap64 (2 * delay)).

Definition exhausted (o : sc_options) (attempt : Z) : bool :=
  (0 <? so_ReconnectionAttempts o) && (so_ReconnectionAttempts o <=? attempt).

(** The second [select]: [reconnectStop], or the timer, which may fire at any
    moment. *)
Definition stop_or_timer w : bool * W := (sc_stop w && choose (sc_tick w), set_sc_tick S w).

Definition reconnect_round (nsps : list string) (delay attempt : Z) : P unit :=
  gets sc_stop ≫= λ stopped : bool,
  if stopped then skip else
  gets sc_opts ≫= λ o,
  if exhausted o attempt then giveUpReconnecting nsps else
  update (λ w, set_sc_waits (λ l, l ++ [(length (sc_dials w), backoff_wait o delay (draw (sc_tick w)))]) (set_sc_tick S w)) ≫= λ _,
  atomic stop_or_timer ≫= λ stopped : bool,
  if stopped then skip else
  reconnectAttempt nsps ≫= λ e,
  match e with
  | Some _ => call (MReconnectLoop nsps (next_delay o delay) (wrap64 (attempt + 1)))
  | None => skip
  end.

Definition reconnectLoop (nsps : list string) : P unit :=
  gets (λ w, so_ReconnectionDelay (sc_opts w)) ≫= λ delay, call (MReconnectLoop nsps delay 0).

#[export] Instance sio_client_methods : Methods W sc_method := λ m,
  match m with MReconnectLoop nsps delay attempt => reconnect_round nsps delay attempt end.

Definition reconnect (nsps : list string) : P unit :=
  gets sc_opts ≫= λ o,
  if negb (so_Reconnection o) || bool_decide (length nsps = 0%nat) then skip else
  gets sc_closed ≫= λ closed : bool,
  if closed then skip else go (reconnectLoop nsps).

(** [onEngineClosed]: the section tells the waiters and gives the namespaces
    that were connected. *)
Definition engine_closed_locked (err : option error) w : (list string * bool) * W :=
  let w1 := map_fold (λ _ ch, chan_try ch err) w (sc_connecting w) in
  ((connected_nsps (ord (sc_tick w)) w, sc_closed w),
   set_sc_tick S (set_sc_engine None (disconnect_all (set_sc_connecting (λ _, ∅) w1)))).

Definition onEngineClosed (err : option error) : P unit :=
  atomic (engine_closed_locked err) ≫= λ r,
  update (set_sc_acks clear) ≫= λ _,
  for_each r.1 (λ nsp, sc_fireDisconnect nsp (mapClientDisconnectReason err)) ≫= λ _,
  when (negb r.2) (reconnect r.1).

(** ** The user and the environment *)

(** A user who dials, and one who uses the client [Dial] has returned. *)
Definition dials_client : P unit :=
  atomic sc_add_ctx ≫= λ ctx,
  sc_Dial ctx ≫= λ e, match e with None => update (set_sc_returned true) | Some _ => skip end.
Definition with_sc_client (p : P unit) : P unit :=
  await (λ w, if sc_returned w then Some (tt, w) else None) ≫= λ _, p.

(** A dial is answered; a context ends; a session delivers a message, or ends
    by itself. *)
Definition dial_done (d : nat) (a : option error) w : W :=
  match sc_dials w !! d with
  | Some (mkEngineDial o ctx None) =>
      match a with
      | None => set_sc_dials <[d := mkEngineDial o ctx (Some (Ok (length (sc_engs w))))]>
                  (set_sc_engs (λ l, l ++ [mkEngine false false false]) w)
      | Some e => set_sc_dials <[d := mkEngineDial o ctx (Some (Err e))]> w
      end
  | _ => w
  end.
Definition dial_ends (d : nat) (a : option error) : P unit := update (dial_done d a).
Definition ctx_ends (x : ctxp) (msg : error) : P unit := update (sc_end_ctx x msg).

Definition eng_data (e : engp) (data : bytes) (binary : bool) : P unit :=
  gets (λ w, match sc_engs w !! e with Some g => en_onData g | None => false end) ≫= λ ok,
  when ok (update (set_sc_inq (push (data, binary)))).

Definition engine_ended (e : engp) w : bool * W :=
  match sc_engs w !! e with
  | Some (mkEngine _ cb false) => (cb, close_eng e w)
  | _ => (false, w)
  end.
Definition eng_ends (e : engp) (err : option error) : P unit :=
  atomic (engine_ended e) ≫= λ ok, when ok (onEngineClosed err).
End Client.
