(* ===== verification/SioClientDemo.v ===== *)
(** * SioClientDemo: a concrete user of the Socket.IO client

    The user writes down what its handlers are called with.  Numbers are those
    of FixedFloat, and the random number of the backoff is always 1/4.  The
    concrete runs of the client use it. *)

From S2P Require Import Prelude.
From S2P Require Import EngineTypes.
From S2P Require Import Value.
From S2P Require Import Json.
From S2P Require Import FixedFloat.
From S2P Require Import SioPacket.
From S2P Require Import AckTable.
From S2P Require Import PacketQueue.
From S2P Require Import Adapter.
From S2P Require Import Emitter.
From S2P Require Import Sched.
From S2P Require Import SioServer.
From S2P Require Import SioClientTypes.
From S2P Require Import SioClient.

#[export] Instance fixed_ops : FloatOps := {|
  f64_add := Z.add; f64_sub := Z.sub; f64_mul := λ x y, x * y / steps; f64_ltb := Z.ltb; f64_eqb := Z.eqb;
  f64_half := 512
|}.

Lemma fixed_le x y : f64_le x y ↔ x <= y.
Proof. unfold f64_le. cbn. rewrite Z.ltb_lt, Z.eqb_eq. lia. Qed.

Lemma fixed_within m n x : within m n x ↔ m * steps <= x <= n * steps.
Proof. unfold within. by rewrite !fixed_le. Qed.

Lemma fixed_mul_le x y z : 0 <= x → y <= z → x * y / steps <= x * z / steps.
Proof. intros. apply Z.div_le_mono; [done|]. by apply Z.mul_le_mono_nonneg_l. Qed.

Lemma fixed_mul_bound m n x y : 0 <= x <= m * steps → 0 <= y <= n * steps → 0 <= x * y / steps <= m * n * steps.
Proof.
  intros Hx Hy. split; [by apply Z.div_pos; [nia|]|]. apply Z.div_le_upper_bound; [done|].
  replace (steps * (m * n * steps)) with ((m * steps) * (n * steps)) by ring. nia.
Qed.

#[export] Instance fixed_order : FloatOrder.
Proof.
  split.
  - intros x y z. rewrite !fixed_le. lia.
  - intros m n Hm Hn. rewrite fixed_le. cbn. unfold steps. lia.
  - intros x. rewrite !fixed_within. cbn. unfold steps. lia.
  - intros m n x y Hm Hn Hmn. rewrite !fixed_within, fixed_le. cbn. lia.
  - intros m n x y z Hm Hn Hmn. rewrite !fixed_within, !fixed_le. cbn. lia.
  - intros m n x y Hm Hn Hmn. rewrite !fixed_within, !Z.mul_0_l. cbn. apply fixed_mul_bound.
  - intros m n x y z Hm Hn Hmn. rewrite !fixed_within, !fixed_le. cbn. intros Hx Hz Hy Hyz.
    apply fixed_mul_le; lia.
  - intros m x y Hm. rewrite !fixed_within, fixed_le. cbn. intros Hx Hy.
    rewrite <- (Z.div_mul x steps) at 2 by done. apply Z.div_le_mono; [done|]. nia.
  - intros n x y Hn. rewrite !fixed_within, !fixed_le. cbn. intros Hx Hxy _. by apply Z.quot_le_mono.
Qed.

Abbreviation scw := (scworld (list string)).
Abbreviation scconfig := (config scw sc_method).
Abbreviation scprog := (mprog scw sc_method unit).

Definition sc_ord (_ : nat) : order := elements.
Definition sc_choose (_ : nat) : bool := true.
Definition sc_draw (_ : nat) : f64 (Float64 := fixed_float) := 256%Z.
Definition sc_unmarshal (t : gtype) (b : bytes) : option unit := Some tt.

Definition note (s : string) : scprog := update (set_sc_app (λ l, l ++ [s])).
Definition diary : sc_user (U := list string) (data := unit) := {|
  uc_connect _ := note "connect";
  uc_disconnect _ reason := note reason;
  uc_error _ e := note e;
  uc_sig _ := mkHandler [] false;
  uc_event _ _ := note "event" ≫= λ _, mret [OVal (VStr "ok")];
  uc_ack _ _ := note "ack"
|}.

#[export] Instance sc_demo_methods : Methods scw sc_method :=
  sio_client_methods sc_choose sc_draw sc_unmarshal diary.

(** Reconnecting after 100 ns, then doubling up to 300, [n] times at most. *)
Definition reconnecting (n : Z) : sc_options := mkScOptions [] None None true n 100 300 0 0.

Definition sc_world0 (o : option sc_options) : scw := newClient o ∅ [].
Definition sc_start0 (o : option sc_options) (calls : list scprog) : scconfig := (sc_world0 o, Once <$> calls).

(** What the peer sends, and the calls, with the parameters above. *)
Definition frame (p : Packet) : bytes := Encode p.
Definition welcomes (nsp : string) : bytes := frame (connect_packet nsp "id1").
Definition dialling : scprog := dials_client sc_ord sc_choose sc_unmarshal diary.
Definition joining (nsp : string) : scprog :=
  with_sc_client (atomic sc_add_ctx ≫= λ ctx, ConnectNamespace sc_choose ctx nsp None ≫= λ e,
                  match e with Some msg => note ("error: " +:+ msg) | None => note "joined" end).
Definition closing : scprog := with_sc_client (sc_Close sc_ord diary).
Definition ending (e : engp) (err : option error) : scprog := eng_ends sc_ord diary e err.

(** The log of a run, and whether a goroutine is stuck. *)
Definition diary_of (c : scconfig) : list string := sc_app c.1.
Definition sc_waits_at (i : nat) (c : scconfig) : bool :=
  match c.2 !! i with
  | Some t => negb (finished t) && match tstep t c.1 with Some _ => false | None => true end
  | None => false
  end.

(** Runs that begin by opening a session: the dial, its answer, the CONNECT
    that welcomes the root namespace. *)
Definition session (calls : list scprog) : list scprog :=
  [dialling; dial_ends 0 None; eng_data 0 (welcomes "/") false] ++ calls.
(** The goroutines of [session calls] that open it; the loop of the processing
    goroutine is the first one started. *)
Definition opening (calls : list scprog) : list (nat * nat) :=
  (λ i, (i, 100%nat)) <$> [0; 1; 0; 2; 3 + length calls; 0]%nat.
Definition session_run (o : option sc_options) (calls : list scprog) (ns : list nat) : scconfig :=
  play (opening calls ++ ((λ i, (i, 100%nat)) <$> ns)) (sc_start0 o (session calls)).

Lemma session_run_reachable o calls ns :
  reachable (sc_start0 o (session calls)) (session_run o calls ns).
Proof. apply play_reachable. Qed.

(** The client after that. *)
Definition home (o : option sc_options) : scw := (session_run o [] []).1.
