(* ===== verification/SioClientHandlers.v ===== *)
(** * SioClientHandlers: what the operations of the Socket.IO client do

    The functional behaviour of the client's methods: the state they leave, the
    frames they hand to the session, the goroutines they start.  What waits is
    run against the steps of its environment ([ev]). *)

From S2P Require Import Prelude.
From S2P Require Import EngineTypes.
From S2P Require Import EngineOptions.
From S2P Require Import Strconv.
From S2P Require Import Value.
From S2P Require Import Json.
From S2P Require Import FixedFloat.
From S2P Require Import SioPacket.
From S2P Require Import AckTable.
From S2P Require Import PacketQueue.
From S2P Require Import Adapter.
From S2P Require Import Emitter.
From S2P Require Import Sched.
From S2P Require Import SioServer.
From S2P Require Import SioWire.
From S2P Require Import SioClientTypes.
From S2P Require Import SioClient.
From S2P Require Import SioClientDemo.

#[local] Opaque json_max_depth.

(** ** Sending *)
Section Sending.
Context `{FL : Float64} `{!Float64Laws} `{JS : !JSON} {U : Type}.
Context `{RN : !Runner (scworld U) sc_method}.
Abbreviation W := (scworld U).
Implicit Types (w : W) (nsp : string).

(** The engine [e] takes messages. *)
Definition eng_open w (e : engp) : bool :=
  match sc_engs w !! e with Some g => negb (en_closed g) | None => false end.

Lemma ex_eng_send e data bin w :
  exec (eng_SendMessage e data bin) w
  = Some (tt, if eng_open w e then set_sc_sent (λ l, l ++ [(e, data, bin)]) w else w, []).
Proof.
  unfold eng_SendMessage, eng_open. rewrite ex_update. by destruct (sc_engs w !! e) as [[? ? []]|].
Qed.

Lemma set_sc_sent_nil w : set_sc_sent (λ l, l ++ []) w = w.
Proof. unfold set_sc_sent. rewrite app_nil_r. by destruct w. Qed.

Lemma ex_send_buffers e bufs w :
  exec (for_each bufs (λ b, eng_SendMessage e b true)) w
  = Some (tt, if eng_open w e
              then set_sc_sent (λ l, l ++ to_conn e ((λ b, (b, true)) <$> bufs)) w else w, []).
Proof.
  revert w. induction bufs as [|b bufs IH]; intros w; cbn [for_each].
  - rewrite set_sc_sent_nil. by destruct (eng_open w e).
  - rewrite exec_bind, ex_eng_send, IH. destruct (eng_open w e) eqn:Ho; [|by rewrite Ho].
    change (eng_open (set_sc_sent _ w) e) with (eng_open w e). rewrite Ho.
    unfold set_sc_sent. simpl. by rewrite <- app_assoc.
Qed.

(** [sendPacket] as a function: the readers of the payload are drained when
    there is an engine, and the frames sent when it is open. *)
Definition sent_packet (p : Packet) w : W :=
  match sc_engine w with
  | None => w
  | Some e =>
      let '(fs, st) := frames p (sc_store w) in
      set_sc_sent (λ l, l ++ if eng_open w e then to_conn e fs else []) (set_sc_store st w)
  end.

Lemma ex_sendPacket p w : exec (sc_sendPacket p) w = Some (tt, sent_packet p w, []).
Proof.
  unfold sc_sendPacket, sent_packet, frames. rewrite exec_bind, ex_gets.
  destruct (sc_engine w) as [e|]; [|done]. destruct (negb _ && _).
  - rewrite exec_bind, exec_atomic.
    destruct (deconstruct (pData p) (sc_store w, [])) as [[d|er] [st bufs]]; cbn [fst snd].
    + rewrite exec_bind, ex_eng_send, ex_send_buffers.
      change (eng_open (set_sc_store st w) e) with (eng_open w e).
      destruct (eng_open w e) eqn:Ho.
      * change (eng_open (set_sc_sent _ (set_sc_store st w)) e) with (eng_open w e). rewrite Ho.
        unfold set_sc_sent. simpl. by rewrite <- app_assoc.
      * change (eng_open (set_sc_store st w) e) with (eng_open w e). by rewrite Ho, set_sc_sent_nil.
    + replace (if eng_open w e then to_conn e [] else []) with (@nil (engp * bytes * bool))
        by by destruct (eng_open w e).
      by rewrite set_sc_sent_nil.
  - rewrite ex_eng_send. destruct (eng_open w e); [by destruct w|]. rewrite set_sc_sent_nil. by destruct w.
Qed.

(** A sequence of packets, when the session is open. *)
Lemma ex_send_all e ps w :
  sc_engine w = Some e → eng_open w e = true →
  exec (for_each ps sc_sendPacket) w
  = Some (tt, set_sc_sent (λ l, l ++ to_conn e (frames_all ps (sc_store w)).1)
                (set_sc_store (frames_all ps (sc_store w)).2 w), []).
Proof.
  intros He Ho. revert w He Ho. induction ps as [|p ps IH]; intros w He Ho; cbn [for_each frames_all].
  - cbn [fst snd]. rewrite set_sc_sent_nil. by destruct w.
  - rewrite exec_bind, ex_sendPacket. unfold sent_packet. rewrite He, Ho.
    destruct (frames p (sc_store w)) as [fs st]. rewrite IH by done.
    change (sc_store (set_sc_sent _ (set_sc_store st w))) with st.
    destruct (frames_all ps st) as [fs' st']. cbn [fst snd]. unfold to_conn. rewrite fmap_app.
    unfold set_sc_sent, set_sc_store. simpl. by rewrite <- app_assoc.
Qed.

(** Nothing but the log and the readers changes. *)
Lemma sent_packet_shape p w :
  ∃ fs st, sent_packet p w = set_sc_sent (λ l, l ++ fs) (set_sc_store st w).
Proof.
  unfold sent_packet. destruct (sc_engine w) as [e|].
  - destruct (frames p (sc_store w)) as [fs st]. by eexists _, _.
  - exists [], (sc_store w). rewrite set_sc_sent_nil. by destruct w.
Qed.

(** C38. The client and the server put the same frames on the wire for a packet,
    whatever it contains, and drain the same readers. *)
Theorem client_sends_as_server {A V : Type} p c ec e (ws : world A V) w :
  conns ws !! c = Some ec → sc_engine w = Some e → eng_open w e = true → store ws = sc_store w →
  ∃ fs st,
    exec (sendPacket c p) ws
      = Some (tt, set_sent (λ l, l ++ to_conn (ec_es ec) fs) (set_store st ws), []) ∧
    exec (sc_sendPacket p) w
      = Some (tt, set_sc_sent (λ l, l ++ to_conn e fs) (set_sc_store st w), []).
Proof.
  intros Hc He Ho Hst. rewrite (exec_sendPacket c ec p ws Hc), ex_sendPacket, Hst.
  unfold sent_packet. rewrite He, Ho. destruct (frames p (sc_store w)) as [fs st]. by exists fs, st.
Qed.

(** [Emit] on a namespace that is not connected reports it and does nothing.
    On a connected one it returns no error, and when the session is open the
    frames sent, given to the server's receiver in that order, make exactly
    the event with its attachments (nothing, if a reader of the arguments
    fails).  Without a session it returns no error either, and sends
    nothing. *)
Theorem client_emit nsp event args w :
  let p := event_packet nsp (-1) event args in
  (is_connected w nsp = false →
   exec (sc_Emit nsp event args) w = Some (Some ErrNamespaceNotConnected, w, [])) ∧
  (is_connected w nsp = true →
   (sc_engine w = None → exec (sc_Emit nsp event args) w = Some (None, w, [])) ∧
   (∀ e, sc_engine w = Some e → eng_open w e = true → sendable p →
      ∃ fs, exec (sc_Emit nsp event args) w
            = Some (None, set_sc_sent (λ l, l ++ to_conn e fs)
                            (set_sc_store (delivered [p] (sc_store w)).2 w), [])
        ∧ receive_all fs None = ((delivered [p] (sc_store w)).1, None))).
Proof.
  intros p. unfold sc_Emit, sc_Connected. rewrite exec_bind, ex_gets. split; intros Hc; rewrite Hc; [done|].
  rewrite exec_bind, ex_sendPacket. unfold sent_packet. split.
  - intros He. by rewrite He.
  - intros e He Ho Hs. rewrite He, Ho. fold p. pose proof (frames_received p (sc_store w) Hs) as Hf.
    cbn [delivered]. destruct (resolve (pData p) (sc_store w)) as [[v|er] st].
    + destruct Hf as (fs & Hfs & Hr%arrives_all). rewrite Hfs. exists fs. split; [done|]. by rewrite Hr.
    + rewrite Hf. exists []. split; [done|]. done.
Qed.
End Sending.

(** ** Connecting a namespace *)
Section Connecting.
Context `{FL : Float64} `{FO : !FloatOps} `{JS : !JSON} {U data : Type}.
Context (ord : nat → order) (choose : nat → bool) (draw : nat → f64).
Context (unmarshal_into : gtype → bytes → option data) (usr : sc_user (U := U) (data := data)).
Abbreviation W := (scworld U).
Abbreviation P := (mprog W sc_method).
Implicit Types (w : W) (nsp : string) (es : list (W → W)).

#[local] Instance the_methods : Methods W sc_method := sio_client_methods choose draw unmarshal_into usr.
Abbreviation ex n q w := (@exec W sc_method (@calls W sc_method the_methods n) _ q w).
Abbreviation ev n q w es := (@exec_env W sc_method (@env_calls W sc_method the_methods n) _ q w es).

(** A value put into a channel that a waiter has published. *)
Definition told (ch : option chanp) (v : option error) w : W :=
  match ch with Some ch => set_sc_chans <[ch := Some v]> w | None => w end.

Definition waiter_ready nsp w : Prop :=
  ∀ ch, sc_connecting w !! nsp = Some ch → sc_chans w !! ch = Some None.

Lemma ex_tell `{RN : !Runner W sc_method} ch v w :
  (∀ c, ch = Some c → sc_chans w !! c = Some None) → exec (tell ch v) w = Some (tt, told ch v w, []).
Proof.
  intros Hc. destruct ch as [c|]; [|done]. unfold tell. rewrite (ex_await _ _ tt (told (Some c) v w)); [done|].
  unfold chan_put. by rewrite (Hc c).
Qed.

(** The state [handleConnect] and [handleConnectError] leave. *)
Definition handled_connect (p : Packet) w : W :=
  let '((ch, _), w1) := connect_locked p w in told ch None w1.
Definition handled_error (p : Packet) w : W :=
  let '((ch, _), w1) := connect_error_locked p w in told ch (Some (connect_error p)) w1.

Lemma ex_handleConnect `{RN : !Runner W sc_method} p w :
  waiter_ready (pNsp p) w →
  exec (sc_handleConnect usr p) w
  = Some (tt, handled_connect p w,
          (λ h, Once (uc_connect usr h)) <$> handlers_of (sc_onConnect w) (pNsp p)).
Proof.
  intros Hr. unfold sc_handleConnect, handled_connect, connect_locked. rewrite exec_bind, exec_atomic.
  destruct (sc_connecting w !! pNsp p) as [ch|] eqn:Hch; cbn [fst snd].
  - rewrite exec_bind, ex_tell by (intros c [= <-]; by apply Hr). by rewrite exec_spawn.
  - rewrite exec_bind, ex_tell by done. by rewrite exec_spawn.
Qed.

Lemma ex_handleConnectError `{RN : !Runner W sc_method} p w :
  waiter_ready (pNsp p) w →
  exec (sc_handleConnectError usr p) w
  = Some (tt, handled_error p w,
          (λ h, Once (uc_error usr h (connect_error p))) <$> handlers_of (sc_onConnectError w) (pNsp p)).
Proof.
  intros Hr. unfold sc_handleConnectError, handled_error, connect_error_locked.
  rewrite exec_bind, exec_atomic. cbn [fst snd].
  rewrite exec_bind, ex_tell by (intros c Hc; by apply Hr). by rewrite exec_spawn.
Qed.

(** *** The waiting [connectNsp] *)

(** The state in which it waits: its channel is the last one made. *)
Definition asked nsp auth w : W := sent_packet (connect_request nsp auth) (begin_connect nsp auth w).2.

Lemma ev_connectNsp n ctx nsp auth w e es r w1 :
  sc_ctx_err ctx w = None →
  connect_select choose ctx (length (sc_chans w)) (e (asked nsp auth w)) = Some (r, w1) →
  ev n (connectNsp choose ctx nsp auth) w (e :: es)
  = match r with
    | inl msg => Some (Some msg, set_sc_connecting (delete nsp) w1, [], es)
    | inr v => Some (v, w1, [], es)
    end.
Proof.
  intros Hctx Hs. unfold connectNsp.
  assert (ev n (await (connect_select choose ctx (length (sc_chans w)))) (asked nsp auth w) (e :: es)
          = Some (r, w1, [], es)) as Hw.
  { apply ev_wait; [|exact Hs]. unfold asked.
    destruct (sent_packet_shape (connect_request nsp auth) (begin_connect nsp auth w).2) as (fs & st & ->).
    unfold connect_select. simpl. rewrite lookup_snoc. unfold sc_ctx_err in *. simpl. by rewrite Hctx. }
  destruct r as [msg|v]; (eapply ev_quiet; [by rewrite exec_atomic|]); cbn [fst snd begin_connect make_chan];
    (eapply ev_quiet; [apply ex_sendPacket|]); (eapply ev_first; [exact Hw|]); done.
Qed.

Lemma asked_fields nsp auth w :
  let w1 := asked nsp auth w in
  sc_connecting w1 = <[nsp := length (sc_chans w)]> (sc_connecting w) ∧
  sc_chans w1 = sc_chans w ++ [None] ∧ sc_ctxs w1 = sc_ctxs w ∧
  sc_nsps w1 = <[nsp := mkNsClient false (nc_sid (default (mkNsClient false "" None) (sc_nsps w !! nsp))) auth]>
                 (sc_nsps w).
Proof.
  intros w1. unfold w1, asked.
  by destruct (sent_packet_shape (connect_request nsp auth) (begin_connect nsp auth w).2) as (fs & st & ->).
Qed.

(** The waiter is told [v]. *)
Lemma ev_connect_told n ctx nsp auth w e v w2 es :
  let ch := length (sc_chans w) in
  sc_ctx_err ctx w = None → e (asked nsp auth w) = told (Some ch) v w2 →
  sc_chans w2 = sc_chans (asked nsp auth w) → sc_ctxs w2 = sc_ctxs (asked nsp auth w) →
  ev n (connectNsp choose ctx nsp auth) w (e :: es)
  = Some (v, set_sc_chans <[ch := None]> (set_sc_tick S (told (Some ch) v w2)), [], es).
Proof.
  intros ch Hctx He Hc Hx. destruct (asked_fields nsp auth w) as (_ & E2 & E3 & _).
  rewrite (ev_connectNsp n ctx nsp auth w e es (inr v)
             (set_sc_chans <[ch := None]> (set_sc_tick S (told (Some ch) v w2))) Hctx); [done|].
  rewrite He. unfold connect_select. cbn [told sc_chans set_sc_chans]. rewrite Hc, E2.
  rewrite list_lookup_insert_eq by (rewrite length_app; simpl; lia).
  unfold sc_ctx_err in *. cbn [told sc_ctxs set_sc_chans]. by rewrite Hx, E3, Hctx.
Qed.

(** The namespaces are what they were but for [nsp]. *)
Definition only_nsp nsp w w' : Prop :=
  (∀ x, x ≠ nsp → sc_nsps w' !! x = sc_nsps w !! x) ∧ (∀ x, x ≠ nsp → sc_connecting w' !! x = sc_connecting w !! x) ∧
  sc_engine w' = sc_engine w ∧ sc_closed w' = sc_closed w.

Lemma asked_only nsp auth w : only_nsp nsp w (asked nsp auth w).
Proof.
  destruct (asked_fields nsp auth w) as (E1 & _ & _ & E4). unfold only_nsp. rewrite E1, E4.
  split_and!; [intros x Hx; by rewrite lookup_insert_ne..| |];
    unfold asked;
    by destruct (sent_packet_shape (connect_request nsp auth) (begin_connect nsp auth w).2) as (fs & st & ->).
Qed.

(** A CONNECT answers. *)
Definition welcomed nsp auth (reply : Packet) w : W :=
  let ch := length (sc_chans w) in
  set_sc_chans <[ch := None]> (set_sc_tick S (told (Some ch) None
    (upd_nsp nsp (λ nc, mkNsClient true (packet_sid (pData reply) (nc_sid nc)) (nc_auth nc))
       (set_sc_connecting (delete nsp) (asked nsp auth w))))).

Lemma ev_welcomed n ctx nsp auth reply w es :
  sc_ctx_err ctx w = None → pNsp reply = nsp →
  ev n (connectNsp choose ctx nsp auth) w (handled_connect reply :: es)
  = Some (None, welcomed nsp auth reply w, [], es).
Proof.
  intros Hctx Hn. destruct (asked_fields nsp auth w) as (E1 & _).
  apply ev_connect_told; [done| |done..].
  unfold handled_connect, connect_locked. by rewrite Hn, E1, lookup_insert_eq.
Qed.

Definition old_sid nsp w : string := match sc_nsps w !! nsp with Some nc => nc_sid nc | None => "" end.

Lemma welcomed_fields nsp auth reply w :
  let w' := welcomed nsp auth reply w in
  sc_nsps w' = <[nsp := mkNsClient true (packet_sid (pData reply) (old_sid nsp w)) auth]> (sc_nsps w) ∧
  sc_connecting w' = delete nsp (sc_connecting w) ∧ sc_sent w' = sc_sent (asked nsp auth w) ∧
  sc_ctxs w' = sc_ctxs w ∧ sc_engine w' = sc_engine w ∧ sc_engs w' = sc_engs w ∧
  sc_closed w' = sc_closed w ∧ sc_opts w' = sc_opts w.
Proof.
  destruct (asked_fields nsp auth w) as (E1 & _ & E3 & E4).
  assert (nc_sid (default (mkNsClient false "" None) (sc_nsps w !! nsp)) = old_sid nsp w) as Hs
    by (unfold old_sid; by destruct (sc_nsps w !! nsp)).
  split_and!; [|cbn; rewrite E1; apply delete_insert_eq|done|exact E3|..].
  2-5: cbn; unfold asked;
       by destruct (sent_packet_shape (connect_request nsp auth) (begin_connect nsp auth w).2) as (fs & st & ->).
  cbn. rewrite E4, Hs. apply map_eq. intros x. destruct (decide (x = nsp)) as [->|Hx].
  - by rewrite lookup_alter_eq, !lookup_insert_eq.
  - by rewrite lookup_alter_ne, !lookup_insert_ne.
Qed.

(** The frame of a payload without attachments. *)
Definition plain_auth (auth : auth_data) : bool := match auth with Some m => negb (hasBinary (VMap m)) | None => true end.
Lemma asked_sent nsp auth e w :
  sc_engine w = Some e → eng_open w e = true → plain_auth auth = true →
  sc_sent (asked nsp auth w) = sc_sent w ++ [(e, Encode (connect_request nsp auth), false)].
Proof.
  intros He Ho Hp. unfold asked, sent_packet, eng_open in *. cbn [sc_engine sc_engs sc_store begin_connect
    make_chan snd set_sc_connecting set_sc_nsps set_sc_chans]. rewrite He, Ho. unfold frames.
  replace (negb _ && _) with false; [done|]. unfold connect_request. cbn [pData].
  destruct auth as [m|]; [|done]. unfold plain_auth in Hp. apply negb_true_iff in Hp. by rewrite Hp.
Qed.

(** C14. What connecting a namespace comes to, whatever the state of the client:
    the CONNECT packet is sent once, with the payload given, and then
    - a CONNECT from the server connects the namespace under the id it gives
      (the namespace keeps its old id when it gives none);
    - a CONNECT_ERROR leaves it unconnected and its message is the error;
    - when the context ends first, its error is returned, the namespace is
      not connected, and a CONNECT that arrives later changes nothing, but the
      handlers of [OnConnect] run all the same.
    No other namespace is affected. *)
Theorem connectNsp_outcomes n ctx nsp auth w reply msg :
  sc_ctx_err ctx w = None → is_Some (sc_ctxs w !! ctx) → pNsp reply = nsp →
  let sent1 := sc_sent (asked nsp auth w) in
  let sid0 := old_sid nsp w in
  (∃ w', ev n (connectNsp choose ctx nsp auth) w [handled_connect reply] = Some (None, w', [], []) ∧
     sc_nsps w' !! nsp = Some (mkNsClient true (packet_sid (pData reply) sid0) auth) ∧
     sc_connecting w' !! nsp = None ∧ sc_sent w' = sent1 ∧ only_nsp nsp w w') ∧
  (∃ w', ev n (connectNsp choose ctx nsp auth) w [handled_error reply]
         = Some (Some (connect_error reply), w', [], []) ∧
     sc_nsps w' !! nsp = Some (mkNsClient false sid0 auth) ∧
     sc_connecting w' !! nsp = None ∧ sc_sent w' = sent1 ∧ only_nsp nsp w w') ∧
  (∃ w', ev n (connectNsp choose ctx nsp auth) w [sc_end_ctx ctx msg] = Some (Some msg, w', [], []) ∧
     sc_nsps w' !! nsp = Some (mkNsClient false sid0 auth) ∧ sc_sent w' = sent1 ∧ only_nsp nsp w w' ∧
     ex n (sc_handleConnect usr reply) w'
     = Some (tt, w', (λ h, Once (uc_connect usr h)) <$> handlers_of (sc_onConnect w') nsp)).
Proof.
  intros Hctx [x Hx] Hn sent1 sid0.
  assert (nc_sid (default (mkNsClient false "" None) (sc_nsps w !! nsp)) = sid0) as Hsid.
  { unfold sid0, old_sid. by destruct (sc_nsps w !! nsp). }
  destruct (asked_fields nsp auth w) as (E1 & E2 & E3 & E4). rewrite Hsid in E4.
  destruct (asked_only nsp auth w) as (O1 & O2 & O3 & O4).
  set (w1 := asked nsp auth w) in *. set (ch := length (sc_chans w)) in *.
  assert (sc_connecting w1 !! nsp = Some ch) as Hch by by rewrite E1, lookup_insert_eq.
  split_and!.
  - exists (welcomed nsp auth reply w). destruct (welcomed_fields nsp auth reply w) as (F1 & F2 & F3 & _ & F5 & _ & F7 & _).
    split; [by apply ev_welcomed|]. unfold only_nsp. rewrite F1, F2, F3, F5, F7. fold w1.
    split_and!; [by rewrite lookup_insert_eq|by rewrite lookup_delete_eq|done|..|done|done].
    + intros y Hy. by rewrite lookup_insert_ne.
    + intros y Hy. by rewrite lookup_delete_ne.
  - eexists. split.
    { apply (ev_connect_told n ctx nsp auth w _ _
               (upd_nsp nsp (set_nc_connected false) (set_sc_connecting (delete nsp) w1))); [done| |done..].
      fold w1 ch. unfold handled_error, connect_error_locked. by rewrite Hn, Hch. }
    split_and!; [|simpl; by rewrite lookup_delete_eq|done|].
    + simpl. by rewrite lookup_alter_eq, E4, lookup_insert_eq.
    + split_and!; simpl; [|intros y Hy; rewrite lookup_delete_ne by done; by apply O2|exact O3|exact O4].
      intros y Hy. rewrite lookup_alter_ne by done. by apply O1.
  - eexists. split.
    { rewrite (ev_connectNsp n ctx nsp auth w _ [] (inl msg) (set_sc_tick S (sc_end_ctx ctx msg w1)) Hctx);
        [reflexivity|].
      fold w1 ch. unfold connect_select. change (sc_chans (sc_end_ctx ctx msg w1)) with (sc_chans w1).
      rewrite E2. unfold ch. rewrite lookup_snoc. unfold sc_ctx_err, sc_end_ctx in *. simpl.
      rewrite list_lookup_alter_eq, E3. rewrite Hx in *. simpl in *. by rewrite Hctx. }
    split_and!.
    + simpl. by rewrite E4, lookup_insert_eq.
    + done.
    + split_and!; [exact O1| |exact O3|exact O4]. simpl. intros y Hy. rewrite lookup_delete_ne by done. by apply O2.
    + rewrite ex_handleConnect; rewrite Hn.
      2:{ intros c. simpl. by rewrite lookup_delete_eq. }
      unfold handled_connect, connect_locked. rewrite Hn.
      cbn [sc_connecting set_sc_connecting]. by rewrite lookup_delete_eq.
Qed.
End Connecting.

(** ** Events and acknowledgements *)
Section Events.
Context `{FL : Float64} `{JS : !JSON} {U data : Type}.
Context (unmarshal_into : gtype → bytes → option data) (usr : sc_user (U := U) (data := data)).
Context `{RN : !Runner (scworld U) sc_method}.
Abbreviation W := (scworld U).
Implicit Types (w : W) (nsp name : string).

(** User functions that only change the application's state. *)
Definition quiet_events (out : fn → list rvalue → list rout) (g : fn → list rvalue → U → U) : Prop :=
  ∀ h ins w, exec (uc_event usr h ins) w = Some (out h ins, set_sc_app (g h ins) w, []).

(** What one handler of an event with arguments [args] comes to: the values it
    adds to the acknowledgement, the state it leaves, the goroutines that
    report a failed dispatch. *)
Definition handler_results (out : fn → list rvalue → list rout) args h : list gval :=
  match invokeClientHandler unmarshal_into (uc_sig usr h) args with
  | Calls ins => collectResults (out h ins)
  | _ => []
  end.
Definition handler_effect (g : fn → list rvalue → U → U) args h (u : U) : U :=
  match invokeClientHandler unmarshal_into (uc_sig usr h) args with Calls ins => g h ins u | _ => u end.
Definition handler_reports w nsp args h : list (thread W sc_method) :=
  match invokeClientHandler unmarshal_into (uc_sig usr h) args with
  | Mismatch => (λ f, Once (uc_error usr f ErrHandlerMismatch)) <$> handlers_of (sc_onError w) nsp
  | _ => []
  end.

(** [handleEvent] itself only starts goroutines: one per handler, and the one
    that acknowledges, if the event asks for it. *)
Lemma ex_handleEvent p name args w :
  pData p = VArr (VStr name :: args) →
  let hs := event_handlers w (pNsp p) name in
  let cl := length (sc_cells w) in
  exec (sc_handleEvent unmarshal_into usr p) w
  = Some (tt, set_sc_cells (λ l, l ++ [mkCell (length hs) []]) w,
          ((λ h, Once (sc_run_handler unmarshal_into usr cl (pNsp p) args h)) <$> hs)
          ++ (if 0 <=? pID p then [Once (sc_send_results cl p)] else [])).
Proof.
  intros Hd hs cl. unfold sc_handleEvent. rewrite Hd. rewrite exec_bind, ex_gets. fold hs.
  rewrite exec_bind, exec_atomic. cbn [fst snd]. fold cl. rewrite exec_bind.
  rewrite (exec_for_each_go _ _ (λ (_ : fn) w, upd_sc_cell cl (λ k, mkCell (S (pending k)) (results k)) w)
             (λ h, sc_run_handler unmarshal_into usr cl (pNsp p) args h)).
  2:{ intros h w'. unfold sc_wg_Add. by rewrite exec_bind, ex_update. }
  assert (∀ (l : list fn) k,
    foldl (λ w _, upd_sc_cell cl (λ k, mkCell (S (pending k)) (results k)) w)
      (set_sc_cells (λ l, l ++ [mkCell k []]) w) l
    = set_sc_cells (λ cs, cs ++ [mkCell (length l + k)%nat []]) w) as Hf.
  { induction l as [|h l IH]; intros k; [reflexivity|]. cbn [foldl].
    replace (upd_sc_cell cl _ (set_sc_cells _ w)) with (set_sc_cells (λ l, l ++ [mkCell (S k) []]) w).
    - rewrite IH. cbn [length]. by replace (length l + S k)%nat with (S (length l) + k)%nat by lia.
    - unfold upd_sc_cell, set_sc_cells. cbn. f_equal. unfold cl. by rewrite alter_snoc. }
  rewrite Hf, Nat.add_0_r. destruct (0 <=? pID p); done.
Qed.

(** One handler: the wait group and the results. *)
Definition after_handler out g args cl h w : W :=
  upd_sc_cell cl (λ k, mkCell (pred (pending k)) (results k ++ handler_results out args h))
    (set_sc_app (handler_effect g args h) w).

Lemma ex_run_handler out g cl nsp args h w :
  quiet_events out g → invokeClientHandler unmarshal_into (uc_sig usr h) args ≠ Panics →
  is_Some (sc_cells w !! cl) →
  exec (sc_run_handler unmarshal_into usr cl nsp args h) w
  = Some (tt, after_handler out g args cl h w, handler_reports w nsp args h).
Proof.
  intros Hq Hp [k Hk]. unfold sc_run_handler, after_handler, handler_results, handler_effect, handler_reports.
  assert (∀ f w1, sc_cells w1 = sc_cells w →
    upd_sc_cell cl f w1 = set_sc_cells (λ _, <[cl := f k]> (sc_cells w)) w1) as Hcell.
  { intros f w1 E. unfold upd_sc_cell, set_sc_cells. f_equal. rewrite E. by apply alter_as_insert. }
  destruct (invokeClientHandler _ _ _) as [| |ins]; [|done|].
  - unfold sc_fireOnError. rewrite !exec_bind, ex_gets, exec_spawn.
    unfold sc_wg_Done. rewrite ex_update, app_nil_r. do 3 f_equal.
    rewrite !Hcell by done. rewrite app_nil_r. by destruct w.
  - rewrite exec_bind, Hq, exec_bind, ex_update. unfold sc_wg_Done. rewrite ex_update. cbn [app].
    do 3 f_equal. rewrite !(Hcell _ (set_sc_app _ w)) by done.
    unfold upd_sc_cell, set_sc_cells. cbn. f_equal.
    rewrite (alter_as_insert _ _ _ (mkCell (pending k) (results k ++ collectResults (out h ins)))).
    + by rewrite list_insert_insert_eq.
    + apply list_lookup_insert_eq. by eapply lookup_lt_Some.
Qed.

(** The handlers of one event, one after the other. *)
Lemma ex_run_handlers out g nsp args cs hs rs w :
  quiet_events out g →
  Forall (λ h, invokeClientHandler unmarshal_into (uc_sig usr h) args ≠ Panics) hs →
  sc_cells w = cs ++ [mkCell (length hs) rs] →
  ∃ w', exec (for_each hs (sc_run_handler unmarshal_into usr (length cs) nsp args)) w
        = Some (tt, w', hs ≫= handler_reports w nsp args) ∧
    sc_cells w' = cs ++ [mkCell 0 (rs ++ (hs ≫= handler_results out args))] ∧
    (sc_engine w', sc_engs w', sc_sent w', sc_store w') = (sc_engine w, sc_engs w, sc_sent w, sc_store w) ∧
    sc_app w' = foldl (λ u h, handler_effect g args h u) (sc_app w) hs.
Proof.
  intros Hq. revert rs w. induction hs as [|h hs IH]; intros rs w Hp Hc; cbn [for_each].
  { exists w. split_and!; [done|by rewrite app_nil_r|done..]. }
  apply Forall_cons in Hp as [Hph Hp].
  rewrite exec_bind, (ex_run_handler out g) by (done || by rewrite Hc, lookup_snoc).
  destruct (IH (rs ++ handler_results out args h) (after_handler out g args (length cs) h w))
    as (w' & E & E1 & E2 & E3); [done| |].
  { unfold after_handler, upd_sc_cell. cbn. by rewrite Hc, alter_snoc. }
  exists w'. rewrite E. split_and!; [done| |done..].
  rewrite E1. cbn [mbind list_bind]. by rewrite <- app_assoc.
Qed.

(** C17. An event with an id is acknowledged once, with everything its handlers
    returned, whatever the order [hs] in which their goroutines run: the
    acknowledgement carries the id and the namespace of the event, a handler
    whose parameters the arguments do not fit adds nothing (the functions of
    [OnError] are called instead), and one that returns an error adds its
    text. *)
Theorem client_event_acknowledged out g p name args hs w e :
  quiet_events out g → pData p = VArr (VStr name :: args) → 0 <= pID p →
  sc_engine w = Some e → eng_open w e = true →
  hs ≡ₚ event_handlers w (pNsp p) name →
  Forall (λ h, invokeClientHandler unmarshal_into (uc_sig usr h) args ≠ Panics) hs →
  let cl := length (sc_cells w) in
  let w1 := set_sc_cells (λ l, l ++ [mkCell (length hs) []]) w in
  (∃ ts, exec (sc_handleEvent unmarshal_into usr p) w = Some (tt, w1, ts ++ [Once (sc_send_results cl p)]) ∧
     ts ≡ₚ (λ h, Once (sc_run_handler unmarshal_into usr cl (pNsp p) args h)) <$> hs) ∧
  (∃ w', exec (for_each hs (sc_run_handler unmarshal_into usr cl (pNsp p) args) ≫= λ _,
               sc_send_results cl p) w1
     = Some (tt, w', hs ≫= handler_reports w (pNsp p) args) ∧
     let ack := ack_packet (pNsp p) (pID p) (hs ≫= handler_results out args) in
     sc_sent w' = sc_sent w ++ to_conn e (frames ack (sc_store w)).1 ∧
     sc_app w' = foldl (λ u h, handler_effect g args h u) (sc_app w) hs).
Proof.
  intros Hq Hd Hid He Ho Hhs Hp cl w1. split.
  { exists ((λ h, Once (sc_run_handler unmarshal_into usr cl (pNsp p) args h))
              <$> event_handlers w (pNsp p) name).
    split; [|by rewrite Hhs]. rewrite (ex_handleEvent p name args w Hd).
    rewrite (proj2 (Z.leb_le _ _) Hid). unfold w1. by rewrite (Permutation_length Hhs). }
  destruct (ex_run_handlers out g (pNsp p) args (sc_cells w) hs [] w1 Hq Hp eq_refl) as (v & E & E1 & E2 & E3). injection E2 as F1 F2 F3 F4.
  eexists. split_and!.
  - fold cl in E. rewrite exec_bind, E. unfold sc_send_results, sc_wg_Wait.
    rewrite exec_bind, (ex_await _ _ tt v).
    2:{ rewrite E1. unfold cl. rewrite lookup_snoc. done. }
    rewrite exec_bind, ex_gets, ex_sendPacket. cbn [app]. by rewrite app_nil_r.
  - rewrite E1. unfold cl. rewrite lookup_snoc. cbn [results app]. unfold sent_packet.
    rewrite F1. change (sc_engine w1) with (sc_engine w). rewrite He. unfold eng_open in *.
    rewrite F2. change (sc_engs w1) with (sc_engs w). rewrite Ho, F4.
    change (sc_store w1) with (sc_store w). destruct (frames _ (sc_store w)) as [fs st]. cbn.
    by rewrite F3.
Qed.

(** *** An acknowledgement asked for *)

Definition quiet_acks (g : fn → list gval → U → U) : Prop :=
  ∀ f args w, exec (uc_ack usr f args) w = Some (tt, set_sc_app (g f args) w, []).

(** The client that waits for the acknowledgement [id]. *)
Definition awaiting (id : Z) (f : fn) w : W :=
  set_sc_acks (register id (Some f)) (set_sc_acks (λ _, mkAckTable id (cbs (sc_acks w))) w).

Lemma ex_EmitWithAck nsp event f args w :
  is_connected w nsp = true →
  let id := wrap64 (seq (sc_acks w) + 1) in
  exec (sc_EmitWithAck nsp event (Some f) args) w
  = Some ((id, None), sent_packet (event_packet nsp id event args) (awaiting id f w), []).
Proof.
  intros Hc id. unfold sc_EmitWithAck, sc_Connected. rewrite exec_bind, ex_gets, Hc, exec_bind, exec_atomic.
  cbn [next fst snd]. fold id. rewrite exec_bind, ex_update, exec_bind, ex_sendPacket. done.
Qed.

(** The callback of [id] is taken out of the table and run. *)
Lemma ex_invoke_registered g id f args w :
  quiet_acks g → cbs (sc_acks w) !! id = Some (Some f) →
  exec (sc_invoke_ack usr id args) w
  = Some (tt, set_sc_app (g f args)
                (set_sc_acks (λ _, mkAckTable (seq (sc_acks w)) (delete id (cbs (sc_acks w)))) w), []).
Proof.
  intros Hq Hid. unfold sc_invoke_ack. rewrite exec_bind, exec_atomic. unfold invoke. rewrite Hid. cbn [fst snd].
  by rewrite Hq.
Qed.

(** [EmitWithAck] on a connected namespace gives the next id and sends
    the event with it; the server's acknowledgement of that id runs the
    callback with its arguments, and a second one runs nothing; the
    callbacks waiting for other ids are not touched. *)
Theorem client_ack_round_trip g nsp event f args results w e :
  quiet_acks g → is_connected w nsp = true → sc_engine w = Some e → eng_open w e = true →
  let id := wrap64 (seq (sc_acks w) + 1) in
  let p := event_packet nsp id event args in
  let reply := ack_packet nsp id results in
  ∃ w1 w2,
    exec (sc_EmitWithAck nsp event (Some f) args) w = Some ((id, None), w1, []) ∧
    sc_sent w1 = sc_sent w ++ to_conn e (frames p (sc_store w)).1 ∧
    cbs (sc_acks w1) = <[id := Some f]> (cbs (sc_acks w)) ∧
    exec (sc_handleAck usr reply) w1 = Some (tt, w1, [Once (sc_invoke_ack usr id results)]) ∧
    exec (sc_invoke_ack usr id results) w1 = Some (tt, w2, []) ∧
    sc_app w2 = g f results (sc_app w) ∧ cbs (sc_acks w2) = delete id (cbs (sc_acks w)) ∧
    exec (sc_invoke_ack usr id results) w2 = Some (tt, w2, []).
Proof.
  intros Hq Hc He Ho id p reply. set (w0 := awaiting id f w).
  destruct (sent_packet_shape p w0) as (fs & st & Hs).
  assert (cbs (sc_acks (sent_packet p w0)) = <[id := Some f]> (cbs (sc_acks w))) as Hcbs by by rewrite Hs.
  exists (sent_packet p w0). eexists. split_and!.
  - by apply ex_EmitWithAck.
  - unfold sent_packet, eng_open in *. change (sc_engine w0) with (sc_engine w). rewrite He.
    change (sc_engs w0) with (sc_engs w). rewrite Ho. change (sc_store w0) with (sc_store w).
    by destruct (frames p (sc_store w)).
  - done.
  - done.
  - apply (ex_invoke_registered g id f); [done|]. rewrite Hcbs. apply lookup_insert_eq.
  - cbn. by rewrite Hs.
  - cbn. rewrite Hcbs. by rewrite delete_insert_eq.
  - unfold sc_invoke_ack. rewrite exec_bind, exec_atomic. unfold invoke. cbn.
    rewrite lookup_delete_eq. done.
Qed.
End Events.

(** ** At the client of SioClientDemo *)

#[local] Instance demo_runner : Runner scw sc_method := calls 0.

Lemma client_sends_as_server_witness :
  ∃ fs st,
    exec (sendPacket 0 (buffer_event "a" "x")) one_conn
      = Some (tt, set_sent (λ l, l ++ to_conn 0 fs) (set_store st one_conn), []) ∧
    exec (sc_sendPacket (buffer_event "a" "x")) (home None)
      = Some (tt, set_sc_sent (λ l, l ++ to_conn 0 fs) (set_sc_store st (home None)), []).
Proof.
  apply (client_sends_as_server (buffer_event "a" "x") 0 (new_conn 0) 0 one_conn (home None)); reflexivity.
Defined.

Lemma client_emit_witness :
  ∃ fs, exec (sc_Emit "/" "hello" []) (home None)
        = Some (None, set_sc_sent (λ l, l ++ to_conn 0 fs) (set_sc_store ∅ (home None)), [])
    ∧ (receive_all fs None).1 = [mkPacket Event "/" (-1) (VArr [VStr "hello"]) 0].
Proof.
  destruct (client_emit "/" "hello" [] (home None)) as [_ H]. destruct H as [_ H]; [reflexivity|].
  destruct (H 0%nat) as (fs & H1 & H2); [reflexivity..| |].
  - split; simpl.
    + split; [reflexivity|]. apply (bool_decide_unpack (_ ∉ _)). vm_compute. exact I.
    + by left.
    + reflexivity.
    + by exists "hello", [].
    + apply json_ok_arr. exists (pred json_max_depth). split; [by vm_compute|].
      by repeat (apply List.Forall_cons).
    + done.
    + by vm_compute.
  - assert ((delivered [event_packet "/" (-1) "hello" []] (sc_store (home None))).2 = ∅) as E
      by (vm_compute; reflexivity).
    rewrite E in H1. exists fs. split; [exact H1|]. rewrite H2. reflexivity.
Defined.

Definition welcome_a : Packet := connect_packet "/a" "id2".
Lemma connectNsp_outcomes_witness :
  ∃ w', @exec_env scw sc_method (env_calls 1) _ (connectNsp sc_choose 0 "/a" None) (home None)
          [handled_connect welcome_a] = Some (None, w', [], [])
    ∧ sc_nsps w' !! "/a" = Some (mkNsClient true "id2" None).
Proof.
  destruct (connectNsp_outcomes sc_choose sc_draw sc_unmarshal diary 1 0 "/a" None (home None) welcome_a "")
    as ((w' & H1 & H2 & _) & _); [reflexivity|by eexists|reflexivity|].
  exists w'. split; [exact H1|exact H2].
Defined.

(** A namespace with two handlers for one event. *)
Definition listening : scw :=
  set_sc_onEvent (λ _, {["/" := {["ev" := [0%nat; 1%nat]]}]}) (home None).
Definition event7 : Packet := event_packet "/" 7 "ev" [].

Lemma diary_quiet (RN : Runner scw sc_method) :
  quiet_events diary (λ _ _, [OVal (VStr "ok")]) (λ _ _ l, l ++ ["event"]).
Proof. intros h ins w. reflexivity. Qed.

Lemma client_event_acknowledged_witness :
  ∃ w', exec (for_each [1%nat; 0%nat] (sc_run_handler sc_unmarshal diary 0 "/" [])
            ≫= λ _, sc_send_results 0 event7) (set_sc_cells (λ l, l ++ [mkCell 2 []]) listening)
        = Some (tt, w', [])
    ∧ sc_sent w' = sc_sent listening ++ [(0%nat, Encode (ack_packet "/" 7 [VStr "ok"; VStr "ok"]), false)]
    ∧ sc_app w' = ["event"; "event"].
Proof.
  destruct (client_event_acknowledged sc_unmarshal diary (λ _ _, [OVal (VStr "ok")])
    (λ _ _ l, l ++ ["event"]) event7 "ev" [] [1%nat; 0%nat] listening 0 (diary_quiet _)) as (_ & w' & H1 & H2 & H3);
    [reflexivity|discriminate|reflexivity|reflexivity| | |].
  - vm_compute. apply Permutation_swap.
  - repeat (apply List.Forall_cons); [discriminate..|constructor].
  - assert (length (sc_cells listening) = 0%nat) as E by (vm_compute; reflexivity).
    assert (∀ h, handler_reports sc_unmarshal diary listening "/" [] h = []) as E1 by reflexivity.
    change (pNsp event7) with "/" in H1. cbn [mbind list_bind] in H1. rewrite E, !E1 in H1. cbn [length app] in H1. rewrite !app_nil_l in H1.
    exists w'. split; [exact H1|]. split; [rewrite H2|rewrite H3]; vm_compute; reflexivity.
Defined.

Lemma client_ack_round_trip_witness :
  ∃ w1 w2, exec (sc_EmitWithAck "/" "ask" (Some 3%nat) []) (home None)
           = Some ((1, None), w1, [])
    ∧ exec (sc_invoke_ack diary 1 [VBool true]) w1 = Some (tt, w2, [])
    ∧ sc_app w2 = ["ack"].
Proof.
  destruct (client_ack_round_trip diary (λ _ _ l, l ++ ["ack"]) "/" "ask" 3 [] [VBool true]
    (home None) 0) as (w1 & w2 & H1 & _ & _ & _ & H2 & H3 & _); [|reflexivity..|].
  - intros f args w. reflexivity.
  - exists w1, w2. split; [exact H1|]. split; [exact H2|]. rewrite H3. reflexivity.
Defined.
