(* ===== verification/SioClientSessions.v ===== *)
(** * SioClientSessions: the sessions of the Socket.IO client

    Closing the client, what the end of a session does, and the reconnection:
    its attempts, its backoff, and when it gives up. *)

From S2P Require Import Prelude.
From S2P Require Import EngineTypes.
From S2P Require Import EngineOptions.
From S2P Require Import Strconv.
From S2P Require Import Value.
From S2P Require Import Json.
From S2P Require Import FixedFloat.
From S2P Require Import SioPacket.
From S2P Require Import AckTable.
From S2P Require Import PacketQueue.
From S2P Require Import Adapter.
From S2P Require Import Emitter.
From S2P Require Import Sched.
From S2P Require Import SioServer.
From S2P Require Import SioWire.
From S2P Require Import SioClientTypes.
From S2P Require Import SioClient.
From S2P Require Import SioClientDemo.
From S2P Require Import SioClientHandlers.

(** ** The backoff *)
Section Backoff.
Context `{FL : Float64} `{FO : !FloatOps}.
Implicit Types (o : sc_options).

(** The variable [delay] after [k] attempts that failed. *)
Definition delay_after o (k : nat) : Z := Nat.iter k (next_delay o) (so_ReconnectionDelay o).

Lemma capped_min o d : capped o d = Z.min d (so_ReconnectionDelayMax o).
Proof. unfold capped. destruct (Z.ltb_spec (so_ReconnectionDelayMax o) d); lia. Qed.

Lemma delay_after_bounds o k :
  0 <= so_ReconnectionDelay o → 0 <= so_ReconnectionDelayMax o →
  2 * so_ReconnectionDelay o <= int64_max → 2 * so_ReconnectionDelayMax o <= int64_max →
  0 <= delay_after o k ∧ 2 * delay_after o k <= int64_max.
Proof.
  intros Hd Hm Hd2 Hm2. induction k as [|k [I1 I2]]; [done|].
  change (delay_after o (S k)) with (capped o (wrap64 (2 * delay_after o k))).
  rewrite capped_min, wrap64_small by lia. lia.
Qed.

Lemma delay_after_min o k :
  0 <= so_ReconnectionDelay o → 0 <= so_ReconnectionDelayMax o →
  2 * so_ReconnectionDelay o <= int64_max → 2 * so_ReconnectionDelayMax o <= int64_max →
  capped o (delay_after o k) = Z.min (so_ReconnectionDelay o * 2 ^ Z.of_nat k) (so_ReconnectionDelayMax o).
Proof.
  intros Hd Hm Hd2 Hm2. rewrite capped_min. induction k as [|k IH]; [simpl; lia|].
  change (delay_after o (S k)) with (capped o (wrap64 (2 * delay_after o k))).
  destruct (delay_after_bounds o k) as [B1 B2]; [done..|].
  rewrite capped_min, wrap64_small by lia. rewrite Nat2Z.inj_succ, Z.pow_succ_r by lia. lia.
Qed.

(** The same in closed form. *)
Definition backed_off o (k : nat) : Z :=
  match k with
  | O => so_ReconnectionDelay o
  | _ => Z.min (so_ReconnectionDelay o * 2 ^ Z.of_nat k) (so_ReconnectionDelayMax o)
  end.

(** Durations that can be doubled: at most half of what an [int64] holds. *)
Record doubles o : Prop := {
  db_delay : 0 <= so_ReconnectionDelay o;
  db_max : 0 <= so_ReconnectionDelayMax o;
  db_delay_fits : 2 * so_ReconnectionDelay o <= int64_max;
  db_max_fits : 2 * so_ReconnectionDelayMax o <= int64_max
}.

Lemma delay_after_closed o k : doubles o → delay_after o k = backed_off o k.
Proof.
  intros [Hd Hm Hd2 Hm2]. destruct k as [|k]; [done|].
  change (delay_after o (S k)) with (capped o (wrap64 (2 * delay_after o k))).
  destruct (delay_after_bounds o k) as [B1 B2]; [done..|].
  pose proof (delay_after_min o k Hd Hm Hd2 Hm2) as Hc. rewrite capped_min in Hc.
  rewrite capped_min, wrap64_small by lia. unfold backed_off. rewrite Nat2Z.inj_succ, Z.pow_succ_r by lia. lia.
Qed.

(** The number a delay is multiplied with, for the number [r] drawn; the least
    and the greatest. *)
Definition jitter o (r : f64) : f64 :=
  let F := so_RandomizationFactor o in
  f64_add (f64_sub (f64_of_Z 1) F) (f64_mul (f64_mul (f64_of_Z 2) F) r).
Definition least_jitter o : f64 := f64_sub (f64_of_Z 1) (so_RandomizationFactor o).
Definition greatest_jitter o : f64 := f64_add (least_jitter o) (f64_mul (f64_of_Z 2) (so_RandomizationFactor o)).
Definition times (d : Z) (j : f64) : Z := f64_to_Z (f64_mul (f64_of_Z d) j).

Section Range.
Context `{!FloatOrder}.

Lemma within_of_Z n : 0 <= n <= f64_exact → within 0 n (f64_of_Z n).
Proof. intros Hn. split; apply fle_of_Z; lia. Qed.

Lemma jitter_range o r :
  within 0 1 (so_RandomizationFactor o) → within 0 1 r →
  within 0 1 (least_jitter o) ∧ f64_le (least_jitter o) (jitter o r) ∧ f64_le (jitter o r) (greatest_jitter o) ∧
  within 0 3 (greatest_jitter o).
Proof.
  intros HF Hr. pose proof (fsub_unit _ HF) as H1.
  assert (within 0 2 (f64_of_Z 2)) as H2 by by apply within_of_Z.
  assert (within 0 2 (f64_mul (f64_of_Z 2) (so_RandomizationFactor o))) as H2F by by apply (fmul_within 2 1).
  assert (within 0 2 (f64_mul (f64_mul (f64_of_Z 2) (so_RandomizationFactor o)) r)) as Hp by by apply (fmul_within 2 1).
  split_and!; [done| | |].
  - by apply (fadd_within 1 2).
  - apply (fadd_le 1 2); try done; [apply Hp|by apply (fmul_unit 2)].
  - by apply (fadd_within 1 2).
Qed.

Lemma times_range o d r :
  within 0 1 (so_RandomizationFactor o) → within 0 1 r → 0 <= d → 3 * d <= f64_exact →
  times d (least_jitter o) <= times d (jitter o r) <= times d (greatest_jitter o).
Proof.
  intros HF Hr Hd Hd3. destruct (jitter_range o r HF Hr) as (H1 & H2 & H3 & H4).
  assert (within 0 d (f64_of_Z d)) as Hw by (apply within_of_Z; lia).
  assert (f64_le (f64_of_Z 0) (jitter o r)) as Hj by (eapply fle_trans; [apply H1|done]).
  assert (within 0 3 (jitter o r)) as Hj3 by (split; [done|eapply fle_trans; [done|apply H4]]).
  assert (∀ j, within 0 3 j → within 0 (d * 3) (f64_mul (f64_of_Z d) j)) as Hm
    by (intros j Hwj; apply (fmul_within d 3); (done || lia)).
  assert (within 0 3 (least_jitter o)) as Hl3 by (split; [apply H1|eapply fle_trans; [exact H2|apply Hj3]]).
  unfold times. split; (apply (f64_to_Z_le (d * 3)); [lia|by apply Hm| |by apply Hm]);
    apply (fmul_le d 3); (done || lia || apply H1).
Qed.
End Range.

Lemma backoff_no_jitter o d rnd :
  f64_ltb (f64_of_Z 0) (so_RandomizationFactor o) = false → backoff_wait o d rnd = capped o d.
Proof. intros Hj. unfold backoff_wait, jittered. by rewrite Hj. Qed.

(** C39. The delays double up to their maximum and never overflow, when both
    durations are at most half of what an [int64] holds (146 years).  Before
    attempt [k] (from 0) the delay is [ReconnectionDelay * 2^k], from the second
    attempt on capped at [ReconnectionDelayMax].  The wait is never above that
    maximum.  With a positive randomization factor [F], such as the default 0.5,
    it is the delay times [1 - F + 2*F*r], capped again, for the number [r]
    drawn; for [F] and [r] between 0 and 1, and delays of which the triple is
    exact in a [float64] (34 days), this is between the delay times [1 - F] and
    the delay times [1 - F + 2*F].  Without jitter it is the delay, capped. *)
Theorem backoff_doubles `{!FloatOrder} o k r :
  doubles o →
  let d := backed_off o k in
  let F := so_RandomizationFactor o in
  let wait := backoff_wait o (delay_after o k) r in
  let top := so_ReconnectionDelayMax o in
  delay_after o k = d ∧ wait <= top ∧
  (f64_ltb (f64_of_Z 0) F = true →
    wait = Z.min (times d (jitter o r)) top ∧
    (within 0 1 F → within 0 1 r → 3 * d <= f64_exact →
     Z.min (times d (least_jitter o)) top <= wait <= Z.min (times d (greatest_jitter o)) top)) ∧
  (f64_ltb (f64_of_Z 0) F = false → wait = Z.min (so_ReconnectionDelay o * 2 ^ Z.of_nat k) top).
Proof.
  intros Hd d F wait top. pose proof (delay_after_closed o k Hd) as Hk. fold d in Hk.
  destruct Hd as [H1 H2 H3 H4]. assert (0 <= d) as Hd0.
  { rewrite <- Hk. by apply delay_after_bounds. }
  split_and!; [done|..].
  - unfold wait, backoff_wait. rewrite capped_min. unfold top. lia.
  - intros Hj. assert (wait = Z.min (times d (jitter o r)) top) as Hw.
    { unfold wait, backoff_wait, jittered. fold F. by rewrite Hk, Hj, capped_min. }
    split; [done|]. intros HF Hr H3d. rewrite Hw. destruct (times_range o d r HF Hr Hd0 H3d). lia.
  - intros Hj. unfold wait. by rewrite backoff_no_jitter, delay_after_min.
Qed.
End Backoff.

(** With the default factor 0.5 and the numbers 0, 1/4, 1/2, ... drawn, and
    without jitter. *)
Definition jittering : sc_options := sc_withDefaults (reconnecting 0).

Lemma backoff_doubles_witness :
  (λ r, backoff_wait jittering (delay_after jittering 1) r) <$> [0; 256; 512; 1023] = [100; 150; 200; 299]
  ∧ 100 <= backoff_wait jittering (delay_after jittering 70) 256 <= 300
  ∧ backoff_wait jittering (delay_after jittering 70) 256 = 225
  ∧ backoff_wait (reconnecting 0) (delay_after (reconnecting 0) 70) 256 = 300.
Proof.
  assert (doubles jittering) as H1 by (split; vm_compute; discriminate).
  assert (doubles (reconnecting 0)) as H2 by (split; vm_compute; discriminate).
  split; [vm_compute; reflexivity|].
  destruct (backoff_doubles jittering 70 256 H1) as (_ & _ & H3 & _). cbv zeta in H3.
  destruct H3 as [H3 H4]; [reflexivity|].
  destruct H4 as [H4 H5]; [apply fixed_within; vm_compute; split; discriminate
    |apply fixed_within; vm_compute; split; discriminate|vm_compute; discriminate|].
  destruct (backoff_doubles (reconnecting 0) 70 256 H2) as (_ & _ & _ & H6).
  split_and!.
  - etransitivity; [|exact H4]. vm_compute. discriminate.
  - etransitivity; [exact H5|]. vm_compute. discriminate.
  - rewrite H3. vm_compute. reflexivity.
  - rewrite H6 by reflexivity. vm_compute. reflexivity.
Defined.

Section Sessions.
Context `{FL : Float64} `{FO : !FloatOps} `{JS : !JSON} {U data : Type}.
Context (ord : nat → order) (choose : nat → bool) (draw : nat → f64).
Context (unmarshal_into : gtype → bytes → option data) (usr : sc_user (U := U) (data := data)).
Abbreviation W := (scworld U).
Implicit Types (w : W) (nsp : string) (nsps : list string) (es : list (W → W)).

#[local] Instance methods : Methods W sc_method := sio_client_methods choose draw unmarshal_into usr.
Abbreviation ex n q w := (@exec W sc_method (@calls W sc_method methods n) _ q w).
Abbreviation ev n q w es := (@exec_env W sc_method (@env_calls W sc_method methods n) _ q w es).

(** ** Closing *)

(** The goroutines that report a reason to the handlers of some namespaces. *)
Definition reports (reason : string) nsps w : list (thread W sc_method) :=
  nsps ≫= λ nsp, (λ h, Once (uc_disconnect usr h reason)) <$> handlers_of (sc_onDisconnect w) nsp.

Lemma ex_fire_each `{RN : !Runner W sc_method} reason nsps w :
  exec (for_each nsps (λ nsp, sc_fireDisconnect usr nsp reason)) w = Some (tt, w, reports reason nsps w).
Proof.
  induction nsps as [|nsp nsps IH]; [done|]. cbn [for_each]. rewrite exec_bind. unfold sc_fireDisconnect at 1.
  by rewrite exec_bind, ex_gets, exec_spawn, IH.
Qed.

Lemma is_connected_lookup w nsp : is_connected w nsp = true ↔ ∃ nc, sc_nsps w !! nsp = Some nc ∧ nc_connected nc = true.
Proof. unfold is_connected. destruct (sc_nsps w !! nsp) as [nc|]; naive_solver. Qed.

(** The list of namespaces a critical section takes. *)
Lemma connected_nsps_spec o w :
  is_order o → NoDup (connected_nsps o w) ∧ ∀ nsp, nsp ∈ connected_nsps o w ↔ is_connected w nsp = true.
Proof.
  intros Ho. unfold connected_nsps. split.
  - apply NoDup_filter. rewrite (Ho _). apply NoDup_elements.
  - intros nsp. rewrite list_elem_of_filter, (Ho _), elem_of_elements, elem_of_dom, is_connected_lookup.
    unfold is_Some. naive_solver.
Qed.

Lemma disconnect_all_none w nsp : is_connected (disconnect_all w) nsp = false.
Proof. unfold is_connected. cbn. rewrite lookup_fmap. by destruct (sc_nsps w !! nsp). Qed.

(** C16. [Close] when the client is open: it is closed and has no session (the one
    it had is closed without a packet being sent), no namespace is connected
    and no callback waits for an acknowledgement; the handlers of each
    namespace that was connected are told once, in any order; the reconnection
    stops before its next attempt, and [Emit] reports an error.  A second
    [Close] does nothing. *)
Theorem client_close n w :
  is_order (ord (sc_tick w)) → sc_closed w = false →
  ∃ w' nsps, ex n (sc_Close ord usr) w = Some (tt, w', reports io_client_disconnect nsps w) ∧
    (NoDup nsps ∧ ∀ nsp, nsp ∈ nsps ↔ is_connected w nsp = true) ∧
    sc_closed w' = true ∧ sc_engine w' = None ∧ cbs (sc_acks w') = ∅ ∧ sc_sent w' = sc_sent w ∧
    (∀ e, sc_engine w = Some e → eng_open w' e = false) ∧
    (∀ nsp, is_connected w' nsp = false) ∧
    (∀ nsp event args, ex n (sc_Emit nsp event args) w' = Some (Some ErrNamespaceNotConnected, w', [])) ∧
    (∀ nsps delay attempt, ex (S n) (call (MReconnectLoop nsps delay attempt)) w' = Some (tt, w', [])) ∧
    ex n (sc_Close ord usr) w' = Some (tt, w', []).
Proof.
  intros Ho Hc. set (nsps := connected_nsps (ord (sc_tick w)) w).
  set (w1 := set_sc_acks clear (disconnect_all (set_sc_engine None (set_sc_closed true
               (set_sc_tick S (set_sc_stop true w)))))).
  exists (match sc_engine w with Some e => close_eng e w1 | None => w1 end), nsps.
  assert (∀ nsp, is_connected (match sc_engine w with Some e => close_eng e w1 | None => w1 end) nsp = false) as Hn.
  { intros nsp. destruct (sc_engine w); apply (disconnect_all_none w). }
  split_and!; try (by apply connected_nsps_spec); try exact Hn.
  - unfold sc_Close. rewrite exec_bind, ex_update, exec_bind, exec_atomic. unfold close_locked at 1 2.
    cbn [sc_closed set_sc_stop]. rewrite Hc. cbn [fst snd]. rewrite exec_bind, ex_update.
    rewrite exec_bind, ex_fire_each. cbn [sc_engine set_sc_stop app].
    destruct (sc_engine w) as [e|]; [unfold eng_Close; rewrite ex_update|unfold skip; cbn [exec]]; cbn [app];
      by rewrite app_nil_r.
  - by destruct (sc_engine w).
  - by destruct (sc_engine w).
  - by destruct (sc_engine w).
  - by destruct (sc_engine w).
  - intros e He. rewrite He. unfold eng_open. cbn. rewrite list_lookup_alter_eq. by destruct (sc_engs w !! e).
  - intros nsp event args. unfold sc_Emit, sc_Connected. by rewrite exec_bind, ex_gets, Hn.
  - intros l d a. apply ex_call. unfold method, methods, sio_client_methods, reconnect_round.
    rewrite exec_bind, ex_gets. by destruct (sc_engine w).
  - unfold sc_Close. rewrite exec_bind, ex_update, exec_bind, exec_atomic. unfold close_locked.
    destruct (sc_engine w); done.
Qed.

(** ** The end of a session *)

(** Telling every waiter. *)
Lemma tell_all err (m : gmap string chanp) w :
  ∃ cs, map_fold (λ _ ch, chan_try ch err) w m = set_sc_chans (λ _, cs) w ∧
    ∀ ch, sc_chans w !! ch = Some None →
      (∃ nsp, m !! nsp = Some ch) ∧ cs !! ch = Some (Some err) ∨ cs !! ch = Some None ∧ ∀ nsp, m !! nsp ≠ Some ch.
Proof.
  apply (map_fold_weak_ind (λ r m, ∃ cs, r = set_sc_chans (λ _, cs) w ∧ ∀ ch, sc_chans w !! ch = Some None →
    (∃ nsp, m !! nsp = Some ch) ∧ cs !! ch = Some (Some err) ∨ cs !! ch = Some None ∧ ∀ nsp, m !! nsp ≠ Some ch)).
  { exists (sc_chans w). split; [by destruct w|]. intros ch Hc. by right. }
  intros i x m' r Hi (cs & -> & H).
  exists (match cs !! x with Some None => <[x := Some err]> cs | _ => cs end). split.
  { unfold chan_try, chan_put. cbn. by destruct (cs !! x) as [[]|]. }
  intros ch Hch. specialize (H ch Hch). destruct (decide (x = ch)) as [->|Hne].
  - left. split; [exists i; by rewrite lookup_insert_eq|]. destruct H as [[_ H]|[H _]]; rewrite H; [done|].
    apply list_lookup_insert_eq. by eapply lookup_lt_Some.
  - assert (∀ v, (match cs !! x with Some None => <[x := v]> cs | _ => cs end) !! ch = cs !! ch) as Hl.
    { intros v. destruct (cs !! x) as [[]|]; [done|by apply list_lookup_insert_ne|done]. }
    rewrite Hl. destruct H as [[[n Hn] H]|[H Hn]]; [left; split; [|done]|right; split; [done|]].
    + exists n. rewrite lookup_insert_ne; [done|]. intros <-. congruence.
    + intros n [[_ ?]|[_ ?]]%lookup_insert_Some; [done|by eapply Hn].
Qed.

(** C15. When the session ends with the error [err], every [connectNsp] that waits
    is told [err], no namespace is connected and no callback waits; the
    handlers of the namespaces that were connected are told the reason; and a
    reconnection of these namespaces starts exactly when the options ask for
    it, there is one, and the client is not closed. *)
Theorem session_lost n err w :
  is_order (ord (sc_tick w)) →
  (∀ nsp ch, sc_connecting w !! nsp = Some ch → sc_chans w !! ch = Some None) →
  ∃ w' nsps, ex n (onEngineClosed ord usr err) w
      = Some (tt, w', reports (mapClientDisconnectReason err) nsps w ++
          (if so_Reconnection (sc_opts w) && bool_decide (nsps ≠ []) && negb (sc_closed w)
           then [Once (reconnectLoop nsps)] else [])) ∧
    (NoDup nsps ∧ ∀ nsp, nsp ∈ nsps ↔ is_connected w nsp = true) ∧
    (∀ nsp ch, sc_connecting w !! nsp = Some ch → sc_chans w' !! ch = Some (Some err)) ∧
    sc_connecting w' = ∅ ∧ sc_engine w' = None ∧ cbs (sc_acks w') = ∅ ∧ sc_sent w' = sc_sent w ∧
    (∀ nsp, is_connected w' nsp = false).
Proof.
  intros Ho Hr. set (nsps := connected_nsps (ord (sc_tick w)) w).
  destruct (tell_all err (sc_connecting w) w) as (cs & Hcs & Htold).
  eexists _, nsps. split_and!; try (by apply connected_nsps_spec).
  - unfold onEngineClosed. rewrite exec_bind, exec_atomic. unfold engine_closed_locked. rewrite Hcs.
    cbn [fst snd]. fold nsps. rewrite exec_bind, ex_update, exec_bind, ex_fire_each. cbn [app].
    destruct (sc_closed w) eqn:Hc; cbn [negb when].
    { rewrite andb_false_r. unfold skip. cbn [exec]. reflexivity. }
    rewrite andb_true_r. unfold reconnect. rewrite exec_bind, ex_gets.
    cbn [sc_opts set_sc_acks set_sc_tick set_sc_engine disconnect_all set_sc_nsps set_sc_connecting set_sc_chans].
    destruct (so_Reconnection (sc_opts w)); cbn [negb orb andb]; [|reflexivity].
    destruct nsps as [|nsp nsps']; [reflexivity|].
    rewrite bool_decide_false, bool_decide_true by done. rewrite exec_bind, ex_gets.
    cbn [sc_closed set_sc_acks set_sc_tick set_sc_engine disconnect_all set_sc_nsps set_sc_connecting set_sc_chans].
    by rewrite Hc.
  - intros nsp ch Hch. cbn. destruct (Htold ch (Hr nsp ch Hch)) as [[_ H]|[_ H]]; [done|by destruct (H nsp)].
  - done.
  - done.
  - done.
  - done.
  - intros nsp. apply (disconnect_all_none w).
Qed.

End Sessions.

(** ** Reconnecting *)
Section Reconnecting.
Context `{FL : Float64} `{FO : !FloatOps} `{JS : !JSON} {U data : Type}.
Context (choose : nat → bool) (draw : nat → f64).
Context (unmarshal_into : gtype → bytes → option data) (usr : sc_user (U := U) (data := data)).
Abbreviation W := (scworld U).
Implicit Types (w : W) (nsp : string) (nsps : list string) (es : list (W → W)).

#[local] Instance loop_methods : Methods W sc_method := sio_client_methods choose draw unmarshal_into usr.
Abbreviation ex n q w := (@exec W sc_method (@calls W sc_method loop_methods n) _ q w).
Abbreviation ev n q w es := (@exec_env W sc_method (@env_calls W sc_method loop_methods n) _ q w es).

(** The dial that was made last is answered: with a session, or an error. *)
Definition dialled w : W := dial_done (pred (length (sc_dials w))) None w.
Definition refused (msg : error) w : W := dial_done (pred (length (sc_dials w))) (Some msg) w.

Definition add_dial ctx (a : option (result error engp)) w : W :=
  set_sc_dials (λ l, l ++ [mkEngineDial (newEngineOptions (sc_opts w)) ctx a]) w.

Lemma ev_eng_Dial n ctx (a : option error) w es :
  sc_ctx_err ctx w = None →
  ev n (eng_Dial choose ctx) w ((λ w, dial_done (pred (length (sc_dials w))) a w) :: es)
  = Some (match a with
          | None => (Ok (length (sc_engs w)),
                     set_sc_tick S (set_sc_engs (λ l, l ++ [mkEngine false false false])
                       (add_dial ctx (Some (Ok (length (sc_engs w)))) w)))
          | Some e => (Err e, set_sc_tick S (add_dial ctx (Some (Err e)) w))
          end, [], es).
Proof.
  intros Hctx. unfold eng_Dial.
  assert (dial_result choose (length (sc_dials w)) ctx (add_dial ctx None w) = None) as H1.
  { unfold dial_result. cbn. rewrite lookup_snoc. unfold sc_ctx_err in *. cbn. by rewrite Hctx. }
  assert (pred (length (sc_dials (add_dial ctx None w))) = length (sc_dials w)) as Hlen
    by (cbn; rewrite length_app; simpl; lia).
  destruct a as [e|]; (eapply ev_quiet; [by rewrite exec_atomic|]); cbn [fst snd];
    (apply ev_wait; [exact H1|]); fold (add_dial ctx None w); rewrite Hlen;
    unfold dial_done, dial_result; cbn; rewrite lookup_snoc; cbn;
    rewrite insert_snoc, lookup_snoc; unfold sc_ctx_err in *; cbn; rewrite Hctx;
    unfold add_dial, set_sc_dials, set_sc_engs, set_sc_tick; cbn; by rewrite insert_snoc.
Qed.

(** A session opened: the callbacks registered, the processing goroutine
    started if it is the first. *)
Definition opened ctx w : W :=
  let e := length (sc_engs w) in
  set_sc_started true (set_sc_engine (Some e)
    (upd_eng e (λ g, mkEngine (en_onData g) true (en_closed g))
      (upd_eng e (λ g, mkEngine true (en_onClose g) (en_closed g))
        (set_sc_tick S (set_sc_engs (λ l, l ++ [mkEngine false false false])
          (add_dial ctx (Some (Ok e)) w)))))).

Lemma opened_engs ctx w : sc_engs (opened ctx w) = sc_engs w ++ [mkEngine true true false].
Proof. cbn. by rewrite !alter_snoc. Qed.

Definition first_start w : list (thread W sc_method) :=
  if sc_started w then []
  else [Forever (sc_process_round unmarshal_into usr) (sc_process_round unmarshal_into usr)].

Lemma ev_dialEngine n ctx w es :
  sc_ctx_err ctx w = None →
  ev n (dialEngine choose unmarshal_into usr ctx) w (dialled :: es)
  = Some (None, opened ctx w, first_start w, es).
Proof.
  intros Hctx. unfold dialEngine. eapply ev_first; [by apply (ev_eng_Dial n ctx None)|]. cbn beta iota.
  eapply ev_quiet; [by unfold eng_OnData; rewrite ex_update|].
  eapply ev_quiet; [by unfold eng_OnClose; rewrite ex_update|].
  eapply ev_quiet; [by rewrite ex_update|].
  eapply ev_seq; [|done|by rewrite app_nil_r].
  apply exec_env_alone. unfold sc_start. rewrite exec_bind, exec_atomic. cbn [fst snd].
  unfold first_start. cbn [sc_started set_sc_engine upd_eng set_sc_engs set_sc_tick add_dial set_sc_dials].
  by destruct (sc_started w).
Qed.

(** The payload a namespace was last connected with. *)
Definition auth_of w nsp : auth_data := sc_nsps w !! nsp ≫= nc_auth.

(** The namespaces of [nsps] connected again on engine [e], from [w] to [w']. *)
Record restored (e : engp) nsps w w' : Prop := {
  rs_connected nsp : is_connected w' nsp = bool_decide (nsp ∈ nsps) || is_connected w nsp;
  rs_auth nsp : auth_of w' nsp = auth_of w nsp;
  rs_others nsp : nsp ∉ nsps → sc_nsps w' !! nsp = sc_nsps w !! nsp;
  rs_sent : sc_sent w' = sc_sent w
            ++ ((λ nsp, (e, Encode (connect_request nsp (auth_of w nsp)), false)) <$> nsps);
  rs_engine : sc_engine w' = sc_engine w;
  rs_engs : sc_engs w' = sc_engs w;
  rs_ctxs : sc_ctxs w' = sc_ctxs w;
}.

Lemma welcomed_restored e nsp reply w :
  sc_engine w = Some e → eng_open w e = true → plain_auth (auth_of w nsp) = true →
  restored e [nsp] w (welcomed nsp (auth_of w nsp) reply w).
Proof.
  intros He Ho Hp.
  destruct (welcomed_fields nsp (auth_of w nsp) reply w) as (F1 & _ & F3 & F4 & F5 & F6 & _).
  split; [| | |by rewrite F3, (asked_sent nsp _ e)|done..].
  - intros x. unfold is_connected. rewrite F1. case_bool_decide as Hx.
    + apply list_elem_of_singleton in Hx as ->. by rewrite lookup_insert_eq.
    + rewrite lookup_insert_ne; [done|]. intros ->. by apply Hx; left.
  - intros x. unfold auth_of at 1. rewrite F1. destruct (decide (x = nsp)) as [->|Hx].
    + by rewrite lookup_insert_eq.
    + by rewrite lookup_insert_ne.
  - intros x Hx. rewrite F1, lookup_insert_ne; [done|]. intros ->. by apply Hx; left.
Qed.

Lemma ev_connect_all n ctx nsps (replies : list Packet) w es e :
  sc_ctx_err ctx w = None → sc_engine w = Some e → eng_open w e = true →
  Forall2 (λ nsp r, pNsp r = nsp) nsps replies →
  Forall (λ nsp, plain_auth (auth_of w nsp) = true) nsps →
  ∃ w', ev n (connect_all choose ctx nsps) w ((handled_connect <$> replies) ++ es) = Some (None, w', [], es)
    ∧ restored e nsps w w'.
Proof.
  intros Hctx He Ho Hr. revert w Hctx He Ho. induction Hr as [|nsp r nsps replies Hn _ IH];
    intros w Hctx He Ho Hp; cbn [connect_all fmap list_fmap app].
  { exists w. split; [done|]. split; try done. cbn. by rewrite app_nil_r. }
  apply Forall_cons in Hp as [Hp1 Hp].
  pose proof (welcomed_restored e nsp r w He Ho Hp1) as [R1 R2 R3 R4 R5 R6 R7].
  set (w1 := welcomed nsp (auth_of w nsp) r w) in *.
  destruct (IH w1) as (w' & E & [S1 S2 S3 S4 S5 S6 S7]).
  - unfold sc_ctx_err in *. by rewrite R7.
  - by rewrite R5.
  - unfold eng_open in *. by rewrite R6.
  - eapply Forall_impl; [exact Hp|]. intros x. simpl. by rewrite R2.
  - exists w'. split.
    + eapply ev_quiet; [by rewrite ex_gets|]. fold (auth_of w nsp).
      eapply ev_first; [by apply ev_welcomed|]. exact E.
    + split; try congruence.
      * intros x. rewrite S1, R1. rewrite orb_assoc. f_equal. rewrite <- bool_decide_or.
        apply bool_decide_ext. set_solver.
      * intros x Hx. rewrite S3, R3; [done|set_solver..].
      * rewrite S4, R4, <- app_assoc. do 2 f_equal. cbn. f_equal. apply list_fmap_ext.
        intros _ x _. by rewrite R2.
Qed.

(** C12. A reconnection whose dial is answered and whose namespaces are welcomed
    restores what was lost: every namespace is connected again on the new
    session, each with the payload it was last connected with, sent again
    unchanged and in the order of the list; other namespaces, and the payloads
    kept, are as before. *)
Theorem reconnect_restores n nsps (replies : list Packet) w :
  Forall2 (λ nsp r, pNsp r = nsp) nsps replies →
  Forall (λ nsp, plain_auth (auth_of w nsp) = true) nsps →
  let e := length (sc_engs w) in
  ∃ w', ev n (reconnectAttempt choose unmarshal_into usr nsps) w (dialled :: (handled_connect <$> replies))
        = Some (None, w', first_start w, []) ∧
    sc_engine w' = Some e ∧ eng_open w' e = true ∧
    (∀ nsp, is_connected w' nsp = bool_decide (nsp ∈ nsps) || is_connected w nsp) ∧
    (∀ nsp, auth_of w' nsp = auth_of w nsp) ∧
    (∀ nsp, nsp ∉ nsps → sc_nsps w' !! nsp = sc_nsps w !! nsp) ∧
    sc_sent w' = sc_sent w
      ++ ((λ nsp, (e, Encode (connect_request nsp (auth_of w nsp)), false)) <$> nsps).
Proof.
  intros Hr Hp e. set (ctx := length (sc_ctxs w)). set (w1 := (sc_add_ctx w).2).
  assert (sc_ctx_err ctx w1 = None) as Hctx
    by (unfold sc_ctx_err, ctx; cbn; by rewrite lookup_snoc).
  assert (eng_open (opened ctx w1) e = true) as Ho.
  { unfold eng_open. rewrite opened_engs. change (sc_engs w1) with (sc_engs w). unfold e. by rewrite lookup_snoc. }
  destruct (ev_connect_all n ctx nsps replies (opened ctx w1) [] e) as (w2 & E & [S1 S2 S3 S4 S5 S6 S7]);
    [exact Hctx|done|exact Ho|done|exact Hp|]. rewrite app_nil_r in E.
  exists (sc_end_ctx ctx "context canceled" w2). split.
  - unfold reconnectAttempt. eapply ev_quiet; [by rewrite exec_atomic|]. cbn [fst snd sc_add_ctx].
    fold ctx w1. eapply ev_seq; [by apply ev_dialEngine| |by rewrite app_nil_r]. cbn beta iota.
    eapply ev_first; [exact E|]. eapply ev_quiet; [by rewrite ex_update|]. done.
  - split_and!; [by cbn; rewrite S5| |exact S1|exact S2|exact S3|exact S4].
    unfold eng_open in *. cbn. by rewrite S6.
Qed.

(** An attempt whose dial fails leaves no session. *)
Definition failed_attempt (msg : error) w : W :=
  let ctx := length (sc_ctxs w) in
  set_sc_engine None (sc_end_ctx ctx "context canceled" (set_sc_tick S
    (add_dial ctx (Some (Err msg)) (sc_add_ctx w).2))).

Lemma ev_failed_attempt n msg nsps w es :
  sc_engine w = None →
  ev n (reconnectAttempt choose unmarshal_into usr nsps) w (refused msg :: es)
  = Some (Some msg, failed_attempt msg w, [], es).
Proof.
  intros He. unfold reconnectAttempt. eapply ev_quiet; [by rewrite exec_atomic|]. cbn [fst snd sc_add_ctx].
  eapply (ev_first _ _ _ _ (Some msg)).
  { unfold dialEngine. eapply ev_first; [apply (ev_eng_Dial n _ (Some msg))|done].
    unfold sc_ctx_err. cbn. by rewrite lookup_snoc. }
  cbn beta iota. eapply (ev_first _ _ _ _ (Some msg)); [done|].
  eapply ev_quiet; [by rewrite ex_update|]. cbn beta iota.
  eapply ev_quiet; [by rewrite exec_atomic|]. cbn. by rewrite He.
Qed.

(** One round of the loop, when its dial fails. *)
Definition failed_round (msg : error) (d : Z) w : W :=
  failed_attempt msg (set_sc_tick S (set_sc_waits
    (λ l, l ++ [(length (sc_dials w), backoff_wait (sc_opts w) d (draw (sc_tick w)))]) (set_sc_tick S w))).

Lemma ev_failed_round n msg nsps d a w es r :
  sc_engine w = None → sc_stop w = false → exhausted (sc_opts w) a = false →
  ev n (call (MReconnectLoop nsps (next_delay (sc_opts w) d) (wrap64 (a + 1)))) (failed_round msg d w) es = Some r →
  ev (S n) (call (MReconnectLoop nsps d a)) w (refused msg :: es) = Some r.
Proof.
  intros He Hs Hx Hr. destruct r as [[[[] w'] ts] es']. apply ev_call.
  unfold method, loop_methods, sio_client_methods, reconnect_round.
  eapply ev_quiet; [by rewrite ex_gets|]. rewrite Hs. cbn beta iota.
  eapply ev_quiet; [by rewrite ex_gets|]. rewrite Hx. cbn beta iota.
  eapply ev_quiet; [by rewrite ex_update|].
  eapply ev_quiet; [by rewrite exec_atomic|]. cbn [fst snd stop_or_timer sc_stop set_sc_waits set_sc_tick].
  rewrite Hs. cbn [andb]. cbn beta iota.
  eapply ev_first; [by apply ev_failed_attempt|]. exact Hr.
Qed.

(** The goroutines that report an error to the handlers of some namespaces. *)
Definition error_reports (err : error) nsps w : list (thread W sc_method) :=
  nsps ≫= λ nsp, (λ h, Once (uc_error usr h err)) <$> handlers_of (sc_onConnectError w) nsp.

Lemma ex_giveUp `{RN : !Runner W sc_method} nsps w :
  exec (giveUpReconnecting usr nsps) w
  = Some (tt, set_sc_stop true (set_sc_closed true w), error_reports gave_up nsps w).
Proof.
  unfold giveUpReconnecting. rewrite exec_bind.
  assert (∀ l, exec (for_each l (λ nsp, sc_fireConnectError usr nsp gave_up)) w
               = Some (tt, w, error_reports gave_up l w)) as Hl.
  { induction l as [|nsp l IH]; [done|]. cbn [for_each]. rewrite exec_bind. unfold sc_fireConnectError at 1.
    by rewrite exec_bind, ex_gets, exec_spawn, IH. }
  by rewrite Hl, exec_bind, !ex_update, !app_nil_r.
Qed.

Lemma ev_rounds n msg nsps N k j w :
  (j + k = N)%nat → so_ReconnectionAttempts (sc_opts w) = Z.of_nat N → (0 < N)%nat → Z.of_nat N <= int64_max →
  sc_engine w = None → sc_stop w = false →
  let o := sc_opts w in
  ∃ w' ts, ev (k + S n) (call (MReconnectLoop nsps (delay_after o j) (Z.of_nat j))) w (replicate k (refused msg))
      = Some (tt, w', error_reports gave_up nsps w, []) ∧
    (sc_closed w' = true ∧ sc_stop w' = true ∧ sc_engine w' = None) ∧ length ts = k ∧
    sc_sent w' = sc_sent w ∧ length (sc_dials w') = (length (sc_dials w) + k)%nat ∧
    sc_waits w' = sc_waits w ++
      imap (λ i t, ((length (sc_dials w) + i)%nat, backoff_wait o (delay_after o (j + i)) (draw t))) ts.
Proof.
  revert j w. induction k as [|k IH]; intros j w Hj Ha HN Hb He Hs o.
  - exists (set_sc_stop true (set_sc_closed true w)), []. cbn [imap]. rewrite app_nil_r, Nat.add_0_r.
    split; [|done]. apply ev_call. unfold method, loop_methods, sio_client_methods, reconnect_round.
    eapply ev_quiet; [by rewrite ex_gets|]. rewrite Hs. cbn beta iota.
    eapply ev_quiet; [by rewrite ex_gets|]. unfold exhausted. rewrite Ha.
    rewrite (proj2 (Z.ltb_lt _ _)), (proj2 (Z.leb_le _ _)) by lia. cbn [andb].
    apply exec_env_alone, ex_giveUp.
  - destruct (IH (S j) (failed_round msg (delay_after o j) w)) as (w' & ts & E & H1 & H2 & H3 & H4 & H5);
      [lia|done..|]. fold o in E, H5.
    assert (length (sc_dials (failed_round msg (delay_after o j) w)) = S (length (sc_dials w))) as Hl
      by (cbn; rewrite length_app; simpl; lia).
    exists w', (sc_tick w :: ts). split_and!; try apply H1.
    + cbn [replicate Nat.add]. apply ev_failed_round; [done..| |].
      { unfold exhausted. rewrite Ha, (proj2 (Z.leb_gt _ _)) by lia. apply andb_false_r. }
      rewrite wrap64_small by (unfold int64_max in *; lia).
      replace (Z.of_nat j + 1) with (Z.of_nat (S j)) by lia. exact E.
    + simpl. by rewrite H2.
    + by rewrite H3.
    + rewrite H4, Hl. lia.
    + rewrite H5, Hl. cbn [failed_round failed_attempt]. rewrite imap_cons. cbn. rewrite <- app_assoc.
      do 2 f_equal. rewrite !Nat.add_0_r. f_equal. apply imap_ext. intros i t _. cbn.
      by rewrite !Nat.add_succ_r.
Qed.

(** C13. The reconnection ends: with [ReconnectionAttempts] set to [N] and a server
    that cannot be reached, it dials exactly [N] times and gives up: the client
    is closed, and the handlers of [OnConnectError] of each namespace it was to
    restore are called once.  It waits [N] times: wait [k] comes when exactly
    [k] of these dials were made, so one before each; it is the wait of the
    backoff for a number drawn at that moment, from the delay
    [ReconnectionDelay * 2^k], which is capped at [ReconnectionDelayMax] from
    the second on. *)
Theorem reconnect_gives_up n msg nsps N w :
  let o := sc_opts w in
  let dials := length (sc_dials w) in
  so_ReconnectionAttempts o = Z.of_nat N → (0 < N)%nat → Z.of_nat N <= int64_max →
  sc_engine w = None → sc_stop w = false → doubles o →
  ∃ w' ts, ev (N + S n) (reconnectLoop nsps) w (replicate N (refused msg))
      = Some (tt, w', error_reports gave_up nsps w, []) ∧
    sc_closed w' = true ∧ sc_stop w' = true ∧ sc_engine w' = None ∧
    sc_sent w' = sc_sent w ∧ length (sc_dials w') = (dials + N)%nat ∧ length ts = N ∧
    sc_waits w' = sc_waits w ++ imap (λ k t, ((dials + k)%nat, backoff_wait o (backed_off o k) (draw t))) ts.
Proof.
  intros o dials Ha HN Hb He Hs Hd.
  destruct (ev_rounds n msg nsps N N 0 w) as (w' & ts & E & (H1 & H2 & H3) & H4 & H5 & H6 & H7); [done..|].
  exists w', ts. split_and!; [|done..|].
  - unfold reconnectLoop. eapply ev_quiet; [by rewrite ex_gets|]. exact E.
  - rewrite H7. f_equal. apply imap_ext. intros k t _. cbv beta. by rewrite <- (delay_after_closed o k Hd).
Qed.
End Reconnecting.

(** ** At the client of SioClientDemo *)

#[local] Instance demo_runner1 : Runner scw sc_method := calls 1.
#[local] Instance demo_reactive : Reactive := env_calls (W := scw) (M := sc_method) 3.

(** A session with two namespaces and a handler for the end of one; and what is
    left of it when the session is lost. *)
Definition two_rooms (o : option sc_options) : scw :=
  set_sc_onDisconnect (λ _, {["/" := [0%nat]]})
    (session_run o [joining "/a"; eng_data 0 (welcomes "/a") false] [3; 4; 5; 3]%nat).1.
Definition lost : scw := (run_thread 100 0 (two_rooms (Some (reconnecting 2)), [Once (ending 0 None)])).1.

Lemma demo_orders n : is_order (sc_ord n).
Proof. apply is_order_elements. Qed.

Lemma client_close_witness :
  ∃ w' nsps, exec (sc_Close sc_ord diary) (two_rooms None) = Some (tt, w', reports diary io_client_disconnect nsps (two_rooms None))
    ∧ "/a" ∈ nsps ∧ is_connected w' "/a" = false ∧ eng_open w' 0 = false.
Proof.
  destruct (client_close sc_ord sc_choose sc_draw sc_unmarshal diary 1 (two_rooms None) (demo_orders _))
    as (w' & nsps & H1 & (_ & H2) & _ & _ & _ & _ & H3 & H4 & _); [reflexivity|].
  exists w', nsps. split; [exact H1|]. split; [apply H2; reflexivity|]. split; [apply H4|].
  apply H3. reflexivity.
Defined.

Lemma session_lost_witness :
  ∃ w' nsps, exec (onEngineClosed sc_ord diary (Some "ping timeout")) (two_rooms (Some (reconnecting 2)))
      = Some (tt, w', reports diary "ping timeout" nsps (two_rooms (Some (reconnecting 2)))
                      ++ (if bool_decide (nsps ≠ []) then [Once (reconnectLoop nsps)] else []))
    ∧ "/a" ∈ nsps ∧ is_connected w' "/a" = false.
Proof.
  set (w := two_rooms (Some (reconnecting 2))).
  assert (so_Reconnection (sc_opts w) = true) as E1 by (vm_compute; reflexivity).
  assert (sc_closed w = false) as E2 by (vm_compute; reflexivity).
  assert (sc_connecting w = ∅) as E3 by (vm_compute; reflexivity).
  destruct (session_lost sc_ord sc_choose sc_draw sc_unmarshal diary 1 (Some "ping timeout") w (demo_orders _))
    as (w' & nsps & H1 & (_ & H2) & _ & _ & _ & _ & _ & H4).
  - intros nsp ch. rewrite E3. intros Hch. destruct (lookup_empty_Some nsp ch Hch).
  - rewrite E1, E2 in H1. cbn [andb negb] in H1. rewrite andb_true_r in H1.
    exists w', nsps. split; [exact H1|]. split; [apply H2; reflexivity|apply H4].
Defined.

Lemma reconnect_restores_witness :
  ∃ w', exec_env (reconnectAttempt sc_choose sc_unmarshal diary ["/a"; "/"]) lost
          (dialled :: (handled_connect <$> [connect_packet "/a" "id3"; connect_packet "/" "id4"]))
        = Some (None, w', first_start sc_unmarshal diary lost, [])
    ∧ is_connected w' "/a" = true ∧ is_connected w' "/" = true.
Proof.
  destruct (reconnect_restores sc_choose sc_draw sc_unmarshal diary 3 ["/a"; "/"]
    [connect_packet "/a" "id3"; connect_packet "/" "id4"] lost) as (w' & H1 & _ & _ & H2 & _).
  - repeat (apply List.Forall2_cons); [reflexivity..|constructor].
  - repeat (apply List.Forall_cons); [reflexivity..|constructor].
  - exists w'. split; [exact H1|]. split; rewrite H2; reflexivity.
Defined.

(** The default factor is in force: 1/4 is drawn, so each delay is taken times
    0.75. *)
Lemma reconnect_gives_up_witness :
  ∃ w', exec_env (reconnectLoop ["/a"; "/"]) lost (replicate 2 (refused "no route"))
        = Some (tt, w', error_reports diary gave_up ["/a"; "/"] lost, [])
    ∧ sc_closed w' = true ∧ sc_waits w' = sc_waits lost ++ [(1%nat, 75); (2%nat, 150)].
Proof.
  destruct (reconnect_gives_up sc_choose sc_draw sc_unmarshal diary 0 "no route" ["/a"; "/"] 2 lost)
    as (w' & ts & H1 & H2 & _ & _ & _ & _ & H3 & H4);
    [reflexivity|lia|vm_compute; discriminate|reflexivity..|split; vm_compute; discriminate|].
  exists w'. split; [exact H1|]. split; [exact H2|].
  assert (∃ t1 t2, ts = [t1; t2]) as (t1 & t2 & ->).
  { clear -H3. destruct ts as [|t1 [|t2 [|]]]; simplify_eq/=. by eexists _, _. }
  rewrite H4. reflexivity.
Defined.
