(* ===== verification/SioClientSafety.v ===== *)
(** * SioClientSafety: what every interleaving of the Socket.IO client keeps

    The invariant of the client's state, what no step undoes, and that every
    operation of SioClient respects them whatever runs beside it: calls of the
    API, messages and ends of sessions, answers to dials, reconnections. *)

From stdpp Require Import gmultiset.
From S2P Require Import Prelude.
From S2P Require Import EngineTypes.
From S2P Require Import Value.
From S2P Require Import Json.
From S2P Require Import FixedFloat.
From S2P Require Import SioPacket.
From S2P Require Import AckTable.
From S2P Require Import PacketQueue.
From S2P Require Import Adapter.
From S2P Require Import Emitter.
From S2P Require Import Sched.
From S2P Require Import Safety.
From S2P Require Import SioServer.
From S2P Require Import SioClientTypes.
From S2P Require Import SioClient.
From S2P Require Import SioClientDemo.

Section Invariant.
Context `{FL : Float64} {U : Type}.
Abbreviation W := (scworld U).
Implicit Types (w : W) (nsp : string) (ch : chanp) (e : engp) (F : gmultiset Empty_set).

(** An engine with both callbacks. *)
Definition hooked w e : Prop := ∃ b, sc_engs w !! e = Some (mkEngine true true b).

Record sc_ok w : Prop := {
  ok_waiting nsp ch : sc_connecting w !! nsp = Some ch → sc_chans w !! ch = Some None;
  ok_distinct n1 n2 ch :
    sc_connecting w !! n1 = Some ch → sc_connecting w !! n2 = Some ch → n1 = n2;
  ok_known nsp ch : sc_connecting w !! nsp = Some ch → is_Some (sc_nsps w !! nsp);
  ok_connected nsp : is_connected w nsp = true → sc_connecting w !! nsp = None;
  ok_hooked e : sc_engine w = Some e → hooked w e;
  ok_dialled d k e : sc_dials w !! d = Some k → ed_answer k = Some (Ok e) → is_Some (sc_engs w !! e);
  ok_queue : qclosed (sc_inq w) = false;
}.

(** A channel nobody will be told on any more: no namespace waits on it, and
    none will, since channels are made fresh. *)
Definition retired w ch : Prop :=
  (ch < length (sc_chans w))%nat ∧ ∀ nsp, sc_connecting w !! nsp ≠ Some ch.

(** What an engine never goes back on. *)
Definition eng_grows (g g' : engine) : Prop :=
  (en_onData g = true → en_onData g' = true) ∧ (en_onClose g = true → en_onClose g' = true) ∧
  (en_closed g = true → en_closed g' = true).

#[export] Instance eng_grows_preorder : PreOrder eng_grows.
Proof. split; [by intros g|]. intros g1 g2 g3 (A1 & A2 & A3) (B1 & B2 & B3). split_and!; auto. Qed.

Record sc_hist w w' : Prop := {
  sh_engs e g : sc_engs w !! e = Some g → ∃ g', sc_engs w' !! e = Some g' ∧ eng_grows g g';
  sh_retired ch : retired w ch → retired w' ch;
  sh_nsps nsp : is_Some (sc_nsps w !! nsp) → is_Some (sc_nsps w' !! nsp);
  sh_sent : sc_sent w `prefix_of` sc_sent w';
  sh_closed : sc_closed w = true → sc_closed w' = true;
  sh_stop : sc_stop w = true → sc_stop w' = true;
  sh_opts : sc_opts w' = sc_opts w;
}.

#[export] Instance sc_hist_preorder : PreOrder sc_hist.
Proof.
  split.
  - intros w. split; auto; try done. intros e g Hg. by exists g.
  - intros w1 w2 w3 A B. split.
    + intros e g Hg. destruct (sh_engs _ _ A e g Hg) as (g2 & H2 & R2).
      destruct (sh_engs _ _ B e g2 H2) as (g3 & H3 & R3). exists g3. split; [done|by etransitivity].
    + intros ch Hc. by apply (sh_retired _ _ B), (sh_retired _ _ A).
    + intros nsp Hn. by apply (sh_nsps _ _ B), (sh_nsps _ _ A).
    + etransitivity; [apply A|apply B].
    + intros Hc. by apply (sh_closed _ _ B), (sh_closed _ _ A).
    + intros Hc. by apply (sh_stop _ _ B), (sh_stop _ _ A).
    + rewrite (sh_opts _ _ B). apply A.
Qed.

(** No goroutine owns anything. *)
Definition inv w F : Prop := sc_ok w.

Abbreviation good := (harmless inv sc_hist).

Lemma hooked_hist w w' e : sc_hist w w' → hooked w e → hooked w' e.
Proof.
  intros Hh [b Hb]. destruct (sh_engs _ _ Hh e _ Hb) as ([d c b'] & Hg & G1 & G2 & _). exists b'.
  simpl in *. by rewrite Hg, (G1 eq_refl), (G2 eq_refl).
Qed.

(** Fields the invariant looks at are untouched. *)
Lemma sgood_same w w' :
  (sc_connecting w', sc_chans w', sc_nsps w', sc_engine w', sc_engs w', sc_dials w', qclosed (sc_inq w'), sc_opts w')
  = (sc_connecting w, sc_chans w, sc_nsps w, sc_engine w, sc_engs w, sc_dials w, qclosed (sc_inq w), sc_opts w) →
  sc_sent w `prefix_of` sc_sent w' → (sc_closed w = true → sc_closed w' = true) →
  (sc_stop w = true → sc_stop w' = true) → good w w'.
Proof.
  intros [= E1 E2 E3 E4 E5 E6 E7 E8] Hs Hc Ht o [H1 H2 H3 H4 H5 H6 H7]. split.
  - split; unfold is_connected, hooked in *; rewrite ?E1, ?E2, ?E3, ?E4, ?E5, ?E6, ?E7; done.
  - split; unfold retired; rewrite ?E1, ?E2, ?E3, ?E5; auto. intros e g Hg. by exists g.
Qed.
Ltac same := apply sgood_same; [done|done|done|done].

(** ** Namespaces and their waiters *)

(** Channels are added, and told when nobody waits on them. *)
Lemma retired_same w w' ch :
  sc_connecting w' = sc_connecting w → (length (sc_chans w) ≤ length (sc_chans w'))%nat →
  retired w ch → retired w' ch.
Proof. intros E Hl [H1 H2]. split; [lia|]. by rewrite E. Qed.

Lemma retired_fewer w w' ch :
  (∀ nsp c, sc_connecting w' !! nsp = Some c → sc_connecting w !! nsp = Some c) →
  length (sc_chans w') = length (sc_chans w) → retired w ch → retired w' ch.
Proof. intros Hs Hl [H1 H2]. split; [by rewrite Hl|]. intros nsp Hn. by apply (H2 nsp), Hs. Qed.

(** A change of the namespaces that keeps which are known, forgets waiters,
    tells channels nobody waits on, and connects no namespace that has a
    waiter. *)
Lemma good_nsps w w' :
  (∀ nsp c, sc_connecting w' !! nsp = Some c → sc_connecting w !! nsp = Some c) →
  (∀ nsp c, sc_connecting w' !! nsp = Some c → sc_chans w' !! c = sc_chans w !! c) →
  length (sc_chans w') = length (sc_chans w) →
  (∀ nsp, is_Some (sc_nsps w !! nsp) → is_Some (sc_nsps w' !! nsp)) →
  (sc_ok w → ∀ nsp, is_connected w' nsp = true → sc_connecting w' !! nsp = None) →
  (sc_engs w', sc_dials w', qclosed (sc_inq w'), sc_opts w', sc_sent w')
  = (sc_engs w, sc_dials w, qclosed (sc_inq w), sc_opts w, sc_sent w) →
  (∀ e, sc_engine w' = Some e → sc_engine w = Some e) →
  (sc_closed w = true → sc_closed w' = true) → (sc_stop w = true → sc_stop w' = true) →
  good w w'.
Proof.
  intros Hsub Hch Hlen Hns Hcon [= E1 E2 E3 E4 E5] He Hcl Hst o Hi. specialize (Hcon Hi).
  destruct Hi as [H1 H2 H3 H4 H5 H6 H7]. split.
  - split.
    + intros nsp c Hc. rewrite (Hch nsp c Hc). by eapply H1, Hsub.
    + intros n1 n2 c Ha Hb. eapply H2; by apply Hsub.
    + intros nsp c Hc. by eapply Hns, H3, Hsub.
    + done.
    + intros e Hee. unfold hooked in *. rewrite E1. by apply H5, He.
    + rewrite E1, E2. done.
    + by rewrite E3.
  - split; rewrite ?E1, ?E4, ?E5; auto; try done.
    + intros e g Hg. by exists g.
    + intros c. by apply retired_fewer.
Qed.

Lemma is_connected_alter nsp f w x :
  is_connected (upd_nsp nsp f w) x
  = match sc_nsps w !! x with
    | Some nc => nc_connected (if decide (nsp = x) then f nc else nc)
    | None => false
    end.
Proof.
  unfold is_connected, upd_nsp. cbn. case_decide as Hx; subst.
  - rewrite lookup_alter_eq. by destruct (sc_nsps w !! x).
  - by rewrite lookup_alter_ne.
Qed.

Lemma is_connected_none x w : sc_nsps w !! x = None → is_connected w x = false.
Proof. unfold is_connected. by intros ->. Qed.

Lemma known_alter nsp f w x : is_Some (sc_nsps w !! x) → is_Some (sc_nsps (upd_nsp nsp f w) !! x).
Proof.
  cbn. intros [nc Hx]. destruct (decide (nsp = x)) as [->|Hne].
  - rewrite lookup_alter_eq, Hx. by eexists.
  - by rewrite lookup_alter_ne, Hx by done.
Qed.

(** Disconnecting a namespace, and forgetting its waiter. *)
Lemma good_unset nsp w : good w (upd_nsp nsp (set_nc_connected false) w).
Proof.
  apply good_nsps; try done; [intros x; apply known_alter|]. intros Hi x. rewrite is_connected_alter.
  intros Hx. apply (ok_connected _ Hi x). unfold is_connected. destruct (sc_nsps w !! x) as [nc|]; [|done].
  by case_decide.
Qed.

Lemma good_forget nsp w : good w (set_sc_connecting (delete nsp) w).
Proof.
  apply good_nsps; try done.
  - intros x c. cbn. by intros [_ Hx]%lookup_delete_Some.
  - intros Hi x Hx. cbn. apply lookup_delete_None. right. by apply (ok_connected _ Hi x).
Qed.

Lemma good_connect_locked (p : Packet) w : good w (connect_locked p w).2.
Proof.
  unfold connect_locked. destruct (sc_connecting w !! pNsp p) as [ch|] eqn:Hc; [|apply harmless_refl]. cbn [snd].
  apply good_nsps; try done.
  - intros x c. cbn. by intros [_ Hx]%lookup_delete_Some.
  - intros x. apply (known_alter _ _ (set_sc_connecting (delete (pNsp p)) w)).
  - intros Hi x. rewrite is_connected_alter. cbn. intros Hx. apply lookup_delete_None.
    destruct (decide (pNsp p = x)) as [->|Hne]; [by left|right].
    apply (ok_connected _ Hi x). unfold is_connected. by destruct (sc_nsps w !! x).
Qed.

Lemma good_connect_error_locked (p : Packet) w : good w (connect_error_locked p w).2.
Proof. eapply harmless_trans; [apply (good_forget (pNsp p))|apply (good_unset (pNsp p))]. Qed.

Lemma good_disconnect_locked nsp w : good w (disconnect_locked nsp w).2.
Proof.
  unfold disconnect_locked. destruct (is_connected w nsp); [apply good_unset|apply harmless_refl].
Qed.

Lemma is_connected_all w x : is_connected (disconnect_all w) x = false.
Proof. unfold is_connected. cbn. rewrite lookup_fmap. by destruct (sc_nsps w !! x). Qed.

Lemma known_all w x : is_Some (sc_nsps w !! x) → is_Some (sc_nsps (disconnect_all w) !! x).
Proof. cbn. rewrite lookup_fmap. by rewrite fmap_is_Some. Qed.

Lemma good_close_locked ord w : good w (close_locked ord w).2.
Proof.
  unfold close_locked. destruct (sc_closed w); [apply harmless_refl|]. cbn [snd].
  apply good_nsps; try done.
  - intros x Hx. by apply (known_all w).
  - intros Hi x. rewrite is_connected_all. done.
Qed.

(** The end of a session: every waiter is told, and none is left. *)
Lemma tell_all_same err (m : gmap string chanp) w :
  ∃ cs, map_fold (λ _ ch, chan_try ch err) w m = set_sc_chans (λ _, cs) w ∧ length cs = length (sc_chans w).
Proof.
  apply (map_fold_weak_ind (λ r _, ∃ cs, r = set_sc_chans (λ _, cs) w ∧ length cs = length (sc_chans w))).
  { exists (sc_chans w). split; [by destruct w|done]. }
  intros i x m' r _ (cs & -> & Hl). unfold chan_try, chan_put. cbn.
  destruct (cs !! x) as [[v|]|]; [by exists cs| |by exists cs].
  eexists. split; [by unfold set_sc_chans|]. by rewrite length_insert.
Qed.

Lemma good_engine_closed_locked ord err w : good w (engine_closed_locked ord err w).2.
Proof.
  unfold engine_closed_locked. destruct (tell_all_same err (sc_connecting w) w) as (cs & -> & Hl). cbn [snd].
  apply good_nsps; try done. intros x. apply (known_all w).
Qed.

(** A retired channel is told. *)
Lemma good_put ch v w w' u : retired w ch → chan_put ch v w = Some (u, w') → good w w'.
Proof.
  intros [_ Hr]. unfold chan_put. destruct (sc_chans w !! ch) as [[v'|]|]; try done. intros Hp; simplify_eq.
  apply good_nsps; try done.
  - intros nsp c Hc. cbn. rewrite list_lookup_insert_ne; [done|]. intros <-. by apply (Hr nsp).
  - cbn. by rewrite length_insert.
  - intros Hi. apply Hi.
Qed.

(** Receiving empties a channel. *)
Lemma good_take ch w : good w (set_sc_chans <[ch := None]> w).
Proof.
  intros o Hi. split.
  - destruct Hi as [H1 H2 H3 H4 H5 H6 H7]. split; try done. intros nsp c Hc. cbn.
    destruct (decide (ch = c)) as [->|Hne].
    + apply list_lookup_insert_eq. eapply lookup_lt_Some. by eapply H1.
    + rewrite list_lookup_insert_ne by done. by eapply H1.
  - split; try done. 1: intros e g Hg; by exists g.
    intros c. apply retired_same; [done|]. cbn. by rewrite length_insert.
Qed.

(** A new channel to wait on. *)
Lemma good_begin_connect nsp auth w : good w (begin_connect nsp auth w).2.
Proof.
  intros o Hi. cbn [begin_connect make_chan snd]. set (nc := mkNsClient false _ auth).
  assert (∀ x c, <[nsp := length (sc_chans w)]> (sc_connecting w) !! x = Some c →
    x = nsp ∧ c = length (sc_chans w) ∨ sc_connecting w !! x = Some c) as Hl.
  { intros x c [[<- <-]|[_ Hx]]%lookup_insert_Some; auto. }
  assert (∀ x c, sc_connecting w !! x = Some c → (c < length (sc_chans w))%nat) as Hlt.
  { intros x c Hx. eapply lookup_lt_Some. by eapply (ok_waiting _ Hi). }
  destruct Hi as [H1 H2 H3 H4 H5 H6 H7]. split.
  - split; try done; cbn [sc_connecting sc_chans sc_nsps set_sc_connecting set_sc_nsps set_sc_chans].
    + intros x c [[_ ->]|Hx]%Hl; [apply lookup_snoc|]. apply lookup_app_l_Some. by eapply H1.
    + intros n1 n2 c [[-> Hc]|Ha]%Hl [[-> Hc']|Hb]%Hl; [done|..].
      * apply Hlt in Hb. lia.
      * apply Hlt in Ha. lia.
      * by eapply H2.
    + intros x c [[-> _]|Hx]%Hl; [rewrite lookup_insert_eq; by eexists|].
      destruct (decide (x = nsp)) as [->|Hne]; [rewrite lookup_insert_eq; by eexists|].
      rewrite lookup_insert_ne by done. by eapply H3.
    + intros x. unfold is_connected. cbn. destruct (decide (x = nsp)) as [->|Hne].
      * rewrite lookup_insert_eq. done.
      * rewrite !lookup_insert_ne by done. apply H4.
  - split; try done; cbn.
    + intros e g Hg. by exists g.
    + intros c [Hc Hr]. split; [cbn; rewrite length_app; simpl; lia|]. intros x [[_ ->]|Hx]%Hl; [lia|by apply (Hr x)].
    + intros x Hx. destruct (decide (x = nsp)) as [->|Hne]; [rewrite lookup_insert_eq; by eexists|].
      by rewrite lookup_insert_ne.
Qed.

(** ** Engines *)

Lemma good_upd_eng e (f : engine → engine) w : (∀ g, eng_grows g (f g)) → good w (upd_eng e f w).
Proof.
  intros Hf o [H1 H2 H3 H4 H5 H6 H7].
  assert (∀ e' g, sc_engs w !! e' = Some g → ∃ g', sc_engs (upd_eng e f w) !! e' = Some g' ∧ eng_grows g g') as Hg.
  { intros e' g Hg. cbn. destruct (decide (e = e')) as [->|Hne].
    - rewrite list_lookup_alter_eq, Hg. by exists (f g).
    - rewrite list_lookup_alter_ne by done. by exists g. }
  assert (sc_hist w (upd_eng e f w)) as Hh by (split; try done).
  split; [|done]. split; try done.
  - intros e' He. eapply hooked_hist; [done|by apply H5].
  - intros d k e' Hd Ha. destruct (H6 d k e' Hd Ha) as [g Hge]. destruct (Hg e' g Hge) as (g' & Hg' & _). by exists g'.
Qed.

Lemma good_close_eng e w : good w (close_eng e w).
Proof. apply good_upd_eng. intros g. by split_and!. Qed.

(** A dial, and its answer. *)
Lemma good_new_dial o ctx w : good w (set_sc_dials (λ l, l ++ [mkEngineDial o ctx None]) w).
Proof.
  intros F [H1 H2 H3 H4 H5 H6 H7]. split; [|split; try done; intros e g Hg; by exists g].
  split; try done. intros d k e. cbn. intros [Hd|[_ Hd]]%lookup_app_Some; [by eapply H6|].
  apply list_lookup_singleton_Some in Hd as [_ <-]. done.
Qed.

Lemma good_dial_done d a w : good w (dial_done d a w).
Proof.
  unfold dial_done. destruct (sc_dials w !! d) as [[o ctx [a'|]]|] eqn:Hd; try apply harmless_refl.
  intros F [H1 H2 H3 H4 H5 H6 H7]. destruct a as [msg|].
  - split; [|split; try done; intros e g Hg; by exists g]. split; try done. cbn.
    intros d' k e [(<- & <- & _)|(_ & Hk)]%list_lookup_insert_Some; [done|by eapply H6].
  - set (w' := set_sc_dials _ _).
    assert (∀ e g, sc_engs w !! e = Some g → sc_engs w' !! e = Some g) as Hg
      by (intros e g; apply lookup_app_l_Some).
    split; [|split; try done; intros e g He; exists g; split; [by apply Hg|done]].
    split; try done.
    + intros e He. destruct (H5 e He) as [b Hb]. exists b. by apply Hg.
    + intros d' k e [(<- & <- & _)|(_ & Hk)]%list_lookup_insert_Some.
      * intros [= <-]. cbn. rewrite lookup_snoc. by eexists.
      * intros Ha. destruct (H6 d' k e Hk Ha) as [g He]. exists g. by apply Hg.
Qed.

(** The session in use. *)
Lemma good_set_engine eng w : (∀ x, eng = Some x → hooked w x) → good w (set_sc_engine eng w).
Proof.
  intros He F [H1 H2 H3 H4 H5 H6 H7]. split; [|split; try done; intros x g Hg; by exists g]. by split.
Qed.
End Invariant.

Section Safety.
Context `{FL : Float64} `{FO : !FloatOps} `{JS : !JSON} {U data : Type}.
Context (ord : nat → order) (choose : nat → bool) (draw : nat → f64).
Context (unmarshal_into : gtype → bytes → option data) (usr : sc_user (U := U) (data := data)).
Abbreviation W := (scworld U).
Abbreviation P := (mprog W sc_method).
Implicit Types (w : W) (nsp : string) (p : Packet).

Definition pre (m : sc_method) w (o : gmultiset Empty_set) : Prop := True.

Abbreviation good := (harmless inv sc_hist).
Abbreviation kp w q Q := (keeps inv sc_hist pre w q Q).
Abbreviation sf w q := (keeps inv sc_hist pre w q (λ _ _, True)).

Lemma sf_each {B} w (l : list B) (f : B → P unit) : (∀ b w', sf w' (f b)) → sf w (for_each l f).
Proof. intros Hf. apply (keeps_for_each inv sc_hist pre). intros b w' _ _. apply Hf. Qed.

(** A step that leaves alone what the invariant looks at. *)
Definition unseen w w' : Prop :=
  (sc_connecting w', sc_chans w', sc_nsps w', sc_engine w', sc_engs w', sc_dials w', qclosed (sc_inq w'),
   sc_opts w', sc_sent w')
  = (sc_connecting w, sc_chans w, sc_nsps w, sc_engine w, sc_engs w, sc_dials w, qclosed (sc_inq w),
     sc_opts w, sc_sent w)
  ∧ (sc_closed w = true → sc_closed w' = true) ∧ (sc_stop w = true → sc_stop w' = true).

Lemma good_unseen w w' : unseen w w' → good w w'.
Proof.
  intros ([= E1 E2 E3 E4 E5 E6 E7 E8 E9] & H1 & H2). apply sgood_same; [congruence|by rewrite E9|done..].
Qed.

Lemma sf_unseen_atomic {B} w (f : W → B * W) : (∀ w1, unseen w1 (f w1).2) → sf w (atomic f).
Proof. intros Hf. apply sf_atomic. intros w1 _. apply good_unseen, Hf. Qed.

Lemma sf_unseen w (f : W → W) : (∀ w1, unseen w1 (f w1)) → sf w (update f).
Proof. intros Hf. by apply sf_unseen_atomic. Qed.

(** What the user's functions do respects the invariant. *)
Record sc_safe_user : Prop := {
  su_connect f w : sf w (uc_connect usr f);
  su_disconnect f r w : sf w (uc_disconnect usr f r);
  su_error f e w : sf w (uc_error usr f e);
  su_event f ins w : sf w (uc_event usr f ins);
  su_ack f args w : sf w (uc_ack usr f args);
}.

(** ** Sending *)

Lemma sf_eng_SendMessage w e b bin : sf w (eng_SendMessage e b bin).
Proof.
  apply sf_update. intros w1 _. destruct (sc_engs w1 !! e) as [[x y []]|]; try apply harmless_refl.
  apply sgood_same; try done. by apply prefix_app_r.
Qed.

Lemma sf_sc_sendPacket w p : sf w (sc_sendPacket p).
Proof.
  unfold sc_sendPacket. apply sf_then; [apply sf_gets|]. intros [e|] w1 _; [|apply sf_skip].
  destruct (negb _ && _); [|apply sf_eng_SendMessage].
  apply sf_then.
  { apply sf_unseen_atomic. intros w2. by destruct (deconstruct _ _) as [r [st bufs]]. }
  intros [[d|er] bufs] w2 _; [|apply sf_skip].
  apply sf_seq; [apply sf_eng_SendMessage|]. intros w3 _. apply sf_each. intros b w4. apply sf_eng_SendMessage.
Qed.

Lemma sf_sc_Emit w nsp event args : sf w (sc_Emit nsp event args).
Proof.
  apply sf_then; [apply sf_gets|]. intros [] w1 _; [|by apply sf_ret].
  apply sf_seq; [apply sf_sc_sendPacket|]. intros. apply sf_ret.
Qed.

Lemma sf_sc_EmitWithAck w nsp event cb args : sf w (sc_EmitWithAck nsp event cb args).
Proof.
  apply sf_then; [apply sf_gets|]. intros [] w1 _; [|by apply sf_ret]. destruct cb as [f|].
  - apply sf_then; [by apply sf_unseen_atomic|]. intros id w2 _.
    apply sf_seq; [by apply sf_unseen|]. intros w3 _.
    apply sf_seq; [apply sf_sc_sendPacket|]. intros. apply sf_ret.
  - apply sf_seq; [apply sf_sc_sendPacket|]. intros. apply sf_ret.
Qed.

(** ** Incoming packets *)

Context (Husr : sc_safe_user).

Lemma sf_spawn w (l : list fn) (q : fn → P unit) : (∀ f w', sf w' (q f)) → sf w (for_each l (λ f, go (q f))).
Proof. intros Hq. apply sf_each. intros f w'. apply sf_go, Hq. Qed.

Lemma sf_reports w nsp reason : sf w (sc_fireDisconnect usr nsp reason).
Proof. apply sf_then; [apply sf_gets|]. intros hs w1 _. apply sf_spawn. intros. apply Husr. Qed.

Lemma sf_errors w (g : W → list fn) e : sf w (gets g ≫= λ hs, for_each hs (λ h, go (uc_error usr h e))).
Proof. apply sf_then; [apply sf_gets|]. intros hs w1 _. apply sf_spawn. intros. apply Husr. Qed.

(** The waiter a critical section took is told: its channel is retired. *)
Lemma kp_taken w p (f : Packet → W → (option chanp * list fn) * W) :
  (∀ w1, good w1 (f p w1).2) →
  (∀ w1 ch, sc_ok w1 → (f p w1).1.1 = Some ch → retired (f p w1).2 ch) →
  kp w (atomic (f p)) (λ r w', ∀ ch, r.1 = Some ch → retired w' ch).
Proof.
  intros Hg Hr. apply (keeps_atomic inv sc_hist pre). intros w1 F _ Hi. destruct (Hg w1 F Hi) as [G1 G2].
  split_and!; [done..|]. intros w3 F' Hh _ ch Hch. eapply (sh_retired _ _ Hh). by apply Hr.
Qed.

Lemma retired_delete w nsp ch : sc_ok w → sc_connecting w !! nsp = Some ch →
  retired (set_sc_connecting (delete nsp) w) ch.
Proof.
  intros Hi Hc. split.
  - eapply lookup_lt_Some. by eapply (ok_waiting _ Hi).
  - intros x. cbn. intros [Hne Hx]%lookup_delete_Some. apply Hne. by eapply (ok_distinct _ Hi).
Qed.

Lemma kp_connect_locked w p :
  kp w (atomic (connect_locked p)) (λ r w', ∀ ch, r.1 = Some ch → retired w' ch).
Proof.
  apply kp_taken; [apply good_connect_locked|]. intros w1 ch Hi. unfold connect_locked.
  destruct (sc_connecting w1 !! pNsp p) as [c|] eqn:Hc; [|done]. cbn. intros [= ->].
  by apply (retired_delete w1 (pNsp p)).
Qed.

Lemma kp_connect_error_locked w p :
  kp w (atomic (connect_error_locked p)) (λ r w', ∀ ch, r.1 = Some ch → retired w' ch).
Proof.
  apply kp_taken; [apply good_connect_error_locked|]. intros w1 ch Hi. cbn. intros Hc.
  by apply (retired_delete w1 (pNsp p)).
Qed.

Lemma sf_tell w ch v : (∀ c, ch = Some c → retired w c) → sf w (tell ch v).
Proof.
  intros Hr. destruct ch as [c|]; [|apply sf_skip]. apply sf_await. intros w1 u w2 Hh.
  apply good_put, (sh_retired _ _ Hh). by apply Hr.
Qed.

Lemma sf_sc_handleConnect w p : sf w (sc_handleConnect usr p).
Proof.
  eapply (keeps_bind inv sc_hist pre); [apply kp_connect_locked|]. intros r w1 F _ _ Hr.
  apply sf_seq; [by apply sf_tell|]. intros w2 _. apply sf_spawn. intros. apply Husr.
Qed.

Lemma sf_sc_handleConnectError w p : sf w (sc_handleConnectError usr p).
Proof.
  eapply (keeps_bind inv sc_hist pre); [apply kp_connect_error_locked|]. intros r w1 F _ _ Hr.
  apply sf_seq; [by apply sf_tell|]. intros w2 _. apply sf_spawn. intros. apply Husr.
Qed.

Lemma sf_disconnect_locked w nsp : sf w (atomic (disconnect_locked nsp)).
Proof. apply sf_atomic. intros w1 _. apply good_disconnect_locked. Qed.

Lemma sf_sc_handleDisconnect w p : sf w (sc_handleDisconnect usr p).
Proof.
  apply sf_then; [apply sf_disconnect_locked|]. intros r w1 _. apply sf_when. intros _.
  apply sf_spawn. intros. apply Husr.
Qed.

Lemma sf_sc_run_handler w cl nsp args h : sf w (sc_run_handler unmarshal_into usr cl nsp args h).
Proof.
  unfold sc_run_handler. destruct (invokeClientHandler _ _ _) as [| |ins].
  - apply sf_seq; [apply sf_errors|]. intros. by apply sf_unseen.
  - apply sf_seq; [by apply sf_unseen|]. intros. by apply sf_await.
  - apply sf_then; [apply Husr|]. intros outs w1 _. apply sf_seq; [by apply sf_unseen|].
    intros. by apply sf_unseen.
Qed.

Lemma sf_sc_send_results w cl p : sf w (sc_send_results cl p).
Proof.
  apply sf_seq.
  - apply sf_await. intros w1 u w2 _. destruct (sc_cells w1 !! cl) as [k|]; [|done].
    case_decide; [|done]. intros [= <- <-]. apply harmless_refl.
  - intros w1 _. apply sf_then; [apply sf_gets|]. intros rs w2 _. apply sf_sc_sendPacket.
Qed.

Lemma sf_sc_handleEvent w p : sf w (sc_handleEvent unmarshal_into usr p).
Proof.
  unfold sc_handleEvent. destruct (pData p) as [| | | |[|[| | |name| | | | |] args]| | | |]; try apply sf_skip.
  apply sf_then; [apply sf_gets|]. intros hs w1 _. apply sf_then; [by apply sf_unseen_atomic|]. intros cl w2 _.
  apply sf_seq.
  - apply sf_each. intros h w3. apply sf_seq; [by apply sf_unseen|]. intros.
    apply sf_go, sf_sc_run_handler.
  - intros w3 _. apply sf_when. intros _. apply sf_go, sf_sc_send_results.
Qed.

Lemma sf_sc_invoke_ack w id args : sf w (sc_invoke_ack usr id args).
Proof.
  apply sf_then.
  - apply sf_unseen_atomic. intros w1. by destruct (invoke id (sc_acks w1)) as [[? ?] ?].
  - intros [f|] w1 _; [apply Husr|apply sf_skip].
Qed.

Lemma sf_sc_process w p : sf w (sc_process unmarshal_into usr p).
Proof.
  unfold sc_process. destruct (pType p); try apply sf_skip.
  - apply sf_sc_handleConnect.
  - apply sf_sc_handleDisconnect.
  - apply sf_sc_handleEvent.
  - apply sf_go, sf_sc_invoke_ack.
  - apply sf_sc_handleConnectError.
Qed.

Lemma sf_sc_handleIn w b bin : sf w (sc_handleIn unmarshal_into usr b bin).
Proof.
  apply sf_then.
  - apply sf_unseen_atomic. intros w1. by destruct (receive b bin (sc_recon w1)).
  - intros [p|] w1 _; [apply sf_sc_process|apply sf_skip].
Qed.

Lemma pop_open (q q' : packetQueue (bytes * bool)) m : pop q = Some (m, q') → qclosed q' = qclosed q.
Proof. unfold pop. destruct (items q) as [|x l]; [by destruct (qclosed q) eqn:E; intros [= <- <-]|]. by intros [= <- <-]. Qed.

Lemma sf_sc_process_round w : sf w (sc_process_round unmarshal_into usr).
Proof.
  apply sf_then.
  - apply sf_await. intros w1 m w2 _. destruct (pop (sc_inq w1)) as [[x q]|] eqn:Hp; [|done]. intros [= <- <-].
    apply good_unseen. split; [|done]. cbn. by rewrite (pop_open _ _ _ Hp).
  - intros [[b bin]|] w1 _; [|apply sf_ret]. apply sf_seq; [apply sf_sc_handleIn|]. intros. apply sf_ret.
Qed.

Lemma sf_sc_start w : sf w (sc_start unmarshal_into usr).
Proof.
  apply sf_then; [by apply sf_unseen_atomic|]. intros b w1 _. apply sf_when. intros _.
  apply (keeps_go_loop inv sc_hist pre); [apply sf_sc_process_round|done].
Qed.

(** ** Connecting *)

Lemma kp_dial_result w d ctx :
  kp w (await (dial_result choose d ctx)) (λ r w', ∀ e, r = Ok e → is_Some (sc_engs w' !! e)).
Proof.
  apply (keeps_await inv sc_hist pre). intros w1 F r w2 _ Hi Hs.
  assert (∀ k, is_Some (sc_engs w1 !! k) → ∀ w3, sc_hist w1 w3 → is_Some (sc_engs w3 !! k)) as Hlater.
  { intros k [g Hg] w3 H3. destruct (sh_engs _ _ H3 k g Hg) as (g' & Hg' & _). by eexists. }
  assert (good w1 (set_sc_tick S w1)) as Ht by by apply good_unseen.
  unfold dial_result in Hs. destruct (sc_dials w1 !! d) as [[o c [a|]]|] eqn:Hd.
  - assert (∀ e, a = Ok e → is_Some (sc_engs w1 !! e)) as Ha by (intros e ->; by eapply (ok_dialled _ Hi)).
    destruct (sc_ctx_err ctx w1) as [msg|]; [destruct (choose (sc_tick w1))|]; simplify_eq.
    + assert (good w1 match a with Ok e => close_eng e (set_sc_tick S w1) | Err _ => set_sc_tick S w1 end) as Hg.
      { destruct a as [e|]; [|done]. eapply harmless_trans; [done|apply good_close_eng]. }
      destruct (Hg F Hi). by split_and!.
    + destruct (Ht F Hi) as [Hi' Hh]. split_and!; [done..|]. intros w3 F' H3 _ e He.
      apply (Hlater e); [by apply Ha|by etransitivity].
    + destruct (Ht F Hi) as [Hi' Hh]. split_and!; [done..|]. intros w3 F' H3 _ e He.
      apply (Hlater e); [by apply Ha|by etransitivity].
  - destruct (sc_ctx_err ctx w1) as [msg|]; simplify_eq. by split_and!.
  - destruct (sc_ctx_err ctx w1) as [msg|]; simplify_eq. by split_and!.
Qed.

Lemma kp_eng_Dial w ctx :
  kp w (eng_Dial choose ctx) (λ r w', ∀ e, r = Ok e → is_Some (sc_engs w' !! e)).
Proof.
  eapply (keeps_seq inv sc_hist pre) with (Q := λ _ _, True).
  { apply sf_atomic. intros w1 _. apply good_new_dial. }
  intros d w1 F1 _ _ _. apply kp_dial_result.
Qed.

Lemma good_OnData e w : good w (upd_eng e (λ g, mkEngine true (en_onClose g) (en_closed g)) w).
Proof. apply good_upd_eng. by intros [? ? ?]; split_and!. Qed.
Lemma good_OnClose e w : good w (upd_eng e (λ g, mkEngine (en_onData g) true (en_closed g)) w).
Proof. apply good_upd_eng. by intros [? ? ?]; split_and!. Qed.

(** Both callbacks are registered before the client uses the session. *)
Lemma kp_registered w e (f : engine → engine) (p : engine → Prop) :
  (∀ w1, good w1 (upd_eng e f w1)) → (∀ g, p (f g)) → (∀ g g', eng_grows g g' → p g → p g') →
  is_Some (sc_engs w !! e) →
  kp w (update (upd_eng e f)) (λ _ w', ∃ g, sc_engs w' !! e = Some g ∧ p g).
Proof.
  intros Hgood Hp Hm [g0 Hg0]. apply (keeps_update inv sc_hist pre). intros w1 F H1 Hi.
  destruct (Hgood w1 F Hi) as [Hi' Hh]. split_and!; [done..|]. intros w3 F' H3 _.
  destruct (sh_engs _ _ H1 e g0 Hg0) as (g1 & Hg1 & _).
  assert (sc_engs (upd_eng e f w1) !! e = Some (f g1)) as Hf by (cbn; by rewrite list_lookup_alter_eq, Hg1).
  destruct (sh_engs _ _ H3 e _ Hf) as (g3 & Hg3 & Hgr). exists g3. split; [done|]. by eapply Hm.
Qed.

Lemma sf_dialEngine w ctx : sf w (dialEngine choose unmarshal_into usr ctx).
Proof.
  eapply (keeps_bind inv sc_hist pre); [apply kp_eng_Dial|]. intros [e|msg] w1 F1 _ _ He; [|apply sf_ret].
  eapply (keeps_bind inv sc_hist pre).
  { apply (kp_registered w1 e _ (λ g, en_onData g = true)); [intros; apply good_OnData|done| |by apply He].
    intros g g' (G & _). auto. }
  intros _ w2 F2 _ _ (g2 & Hg2 & Hd). eapply (keeps_bind inv sc_hist pre).
  { apply (kp_registered w2 e _ (λ g, en_onClose g = true)); [intros; apply good_OnClose|done| |by eexists].
    intros g g' (_ & G & _). auto. }
  intros _ w3 F3 H3 _ (g3 & Hg3 & Hc). apply sf_seq.
  { apply sf_update. intros w4 H4. apply good_set_engine. intros x [= <-].
    eapply hooked_hist; [exact H4|]. destruct g3 as [x y z]. simpl in Hc. subst.
    exists z. rewrite Hg3. destruct (sh_engs _ _ H3 e g2 Hg2) as (g & Hg & G & _). simplify_eq.
    simpl in G. by rewrite G. }
  intros w4 _. apply sf_seq; [apply sf_sc_start|]. intros. apply sf_ret.
Qed.

Lemma sf_connect_select w ctx ch : sf w (await (connect_select choose ctx ch)).
Proof.
  apply sf_await. intros w1 r w2 _.
  assert (good w1 (set_sc_tick S w1)) as Ht by by apply good_unseen.
  assert (good w1 (set_sc_chans <[ch := None]> (set_sc_tick S w1))) as Htake.
  { eapply harmless_trans; [exact Ht|apply good_take]. }
  unfold connect_select.
  destruct (sc_chans w1 !! ch) as [[v|]|]; destruct (sc_ctx_err ctx w1) as [msg|]; try done;
    [destruct (choose (sc_tick w1))|..]; intros [= <- <-]; done.
Qed.

Lemma sf_connectNsp w ctx nsp auth : sf w (connectNsp choose ctx nsp auth).
Proof.
  apply sf_then; [apply sf_atomic; intros; apply good_begin_connect|]. intros ch w1 _.
  apply sf_seq; [apply sf_sc_sendPacket|]. intros w2 _.
  apply sf_then; [apply sf_connect_select|]. intros [msg|v] w3 _; [|apply sf_ret].
  apply sf_seq; [apply sf_update; intros; apply good_forget|]. intros. apply sf_ret.
Qed.

Lemma sf_ConnectNamespace w ctx nsp auth : sf w (ConnectNamespace choose ctx nsp auth).
Proof. unfold ConnectNamespace. case_decide; [apply sf_ret|apply sf_connectNsp]. Qed.

Lemma sf_DisconnectNamespace w nsp : sf w (DisconnectNamespace usr nsp).
Proof.
  apply sf_then; [apply sf_disconnect_locked|]. intros r w1 _.
  apply sf_seq; [apply sf_sc_sendPacket|]. intros w2 _. apply sf_when. intros _.
  apply sf_spawn. intros. apply Husr.
Qed.

(** ** Closing and reconnecting *)

Lemma sf_eng_Close w e : sf w (eng_Close e).
Proof. apply sf_update. intros. apply good_close_eng. Qed.

Lemma sf_sc_Close w : sf w (sc_Close ord usr).
Proof.
  apply sf_seq; [by apply sf_unseen|]. intros w1 _.
  apply sf_then; [apply sf_atomic; intros; apply good_close_locked|]. intros [[eng nsps]|] w2 _; [|apply sf_skip].
  apply sf_seq; [by apply sf_unseen|]. intros w3 _.
  apply sf_seq; [apply sf_each; intros; apply sf_reports|]. intros w4 _.
  destruct eng; [apply sf_eng_Close|apply sf_skip].
Qed.

Lemma sf_sc_Dial w ctx : sf w (sc_Dial ord choose unmarshal_into usr ctx).
Proof.
  apply sf_then; [apply sf_dialEngine|]. intros [msg|] w1 _; [apply sf_ret|].
  apply sf_then; [apply sf_gets|]. intros auth w2 _.
  apply sf_then; [apply sf_connectNsp|]. intros [msg|] w3 _; [|apply sf_ret].
  apply sf_seq; [apply sf_sc_Close|]. intros. apply sf_ret.
Qed.

Lemma sf_giveUpReconnecting w nsps : sf w (giveUpReconnecting usr nsps).
Proof.
  apply sf_seq; [apply sf_each; intros; apply sf_errors|]. intros w1 _.
  apply sf_seq; [by apply sf_unseen|]. intros. by apply sf_unseen.
Qed.

Lemma sf_connect_all w ctx nsps : sf w (connect_all choose ctx nsps).
Proof.
  revert w. induction nsps as [|nsp nsps IH]; intros w; [apply sf_ret|]. cbn [connect_all].
  apply sf_then; [apply sf_gets|]. intros auth w1 _.
  apply sf_then; [apply sf_connectNsp|]. intros [msg|] w2 _; [apply sf_ret|apply IH].
Qed.

Lemma sf_reconnectAttempt w nsps : sf w (reconnectAttempt choose unmarshal_into usr nsps).
Proof.
  apply sf_then; [by apply sf_unseen_atomic|]. intros ctx w1 _.
  apply sf_then; [apply sf_dialEngine|]. intros e w2 _.
  apply sf_then; [destruct e; [apply sf_ret|apply sf_connect_all]|]. intros e' w3 _.
  apply sf_seq; [by apply sf_unseen|]. intros w4 _. destruct e' as [msg|]; [|apply sf_ret].
  apply sf_then; [apply sf_atomic; intros; by apply good_set_engine|]. intros eng w5 _.
  apply sf_seq; [destruct eng; [apply sf_eng_Close|apply sf_skip]|]. intros. apply sf_ret.
Qed.

Lemma sf_reconnect_round w nsps delay attempt :
  sf w (reconnect_round choose draw unmarshal_into usr nsps delay attempt).
Proof.
  apply sf_then; [apply sf_gets|]. intros [] w1 _; [apply sf_skip|].
  apply sf_then; [apply sf_gets|]. intros o w2 _. destruct (exhausted o attempt); [apply sf_giveUpReconnecting|].
  apply sf_seq; [by apply sf_unseen|]. intros w3 _.
  apply sf_then; [by apply sf_unseen_atomic|]. intros [] w4 _; [apply sf_skip|].
  apply sf_then; [apply sf_reconnectAttempt|]. intros [msg|] w5 _; [by apply sf_call|apply sf_skip].
Qed.

Lemma sio_methods_own :
  @methods_own W sc_method Empty_set _ _ _ inv sc_hist pre (sio_client_methods choose draw unmarshal_into usr).
Proof.
  intros [nsps delay attempt] w o _. rewrite (no_token o). eapply (own_mono inv sc_hist pre).
  - apply sf_reconnect_round.
  - by intros u w' o' F _ _ [-> _].
Qed.

Lemma sf_reconnect w nsps : sf w (reconnect nsps).
Proof.
  apply sf_then; [apply sf_gets|]. intros o w1 _. destruct (_ || _); [apply sf_skip|].
  apply sf_then; [apply sf_gets|]. intros [] w2 _; [apply sf_skip|].
  apply sf_go, sf_then; [apply sf_gets|]. intros. by apply sf_call.
Qed.

Lemma sf_onEngineClosed w err : sf w (onEngineClosed ord usr err).
Proof.
  apply sf_then; [apply sf_atomic; intros; apply good_engine_closed_locked|]. intros r w1 _.
  apply sf_seq; [by apply sf_unseen|]. intros w2 _.
  apply sf_seq; [apply sf_each; intros; apply sf_reports|]. intros w3 _.
  apply sf_when. intros _. apply sf_reconnect.
Qed.

(** ** What runs *)

Lemma push_open x (q : packetQueue (bytes * bool)) : qclosed (push x q) = qclosed q.
Proof. unfold push. by destruct q as [l []]. Qed.

Lemma sf_eng_data w e b bin : sf w (eng_data e b bin).
Proof.
  apply sf_then; [apply sf_gets|]. intros ok w1 _. apply sf_when. intros _. apply sf_unseen.
  intros w2. split; [|done]. cbn. by rewrite push_open.
Qed.

Lemma sf_eng_ends w e err : sf w (eng_ends ord usr e err).
Proof.
  apply sf_then; [|intros; apply sf_when; intros; apply sf_onEngineClosed].
  apply sf_atomic. intros w1 _. unfold engine_ended.
  destruct (sc_engs w1 !! e) as [[x y []]|]; try apply harmless_refl. apply good_close_eng.
Qed.

Lemma sf_dials_client w : sf w (dials_client ord choose unmarshal_into usr).
Proof.
  apply sf_then; [by apply sf_unseen_atomic|]. intros ctx w1 _.
  apply sf_then; [apply sf_sc_Dial|]. intros [msg|] w2 _; [apply sf_skip|by apply sf_unseen].
Qed.

Lemma sf_with_sc_client w (q : P unit) : (∀ w', sf w' q) → sf w (with_sc_client q).
Proof.
  intros Hq. apply sf_seq; [|auto]. apply sf_await. intros w1 u w2 _.
  destruct (sc_returned w1); [|done]. intros [= <- <-]. apply harmless_refl.
Qed.

Lemma sf_done {B : Type} w (q : P B) : sf w q → sf w (q ≫= λ _, skip).
Proof. intros Hq. apply sf_then; [exact Hq|]. intros. apply sf_skip. Qed.

(** What a user, the network and the clock may have run. *)
Inductive sc_entry : P unit → Prop :=
| sce_dial : sc_entry (dials_client ord choose unmarshal_into usr)
| sce_join nsp auth : sc_entry (with_sc_client
    (atomic sc_add_ctx ≫= λ ctx, ConnectNamespace choose ctx nsp auth ≫= λ _, skip))
| sce_leave nsp : sc_entry (with_sc_client (DisconnectNamespace usr nsp))
| sce_emit nsp event args : sc_entry (with_sc_client (sc_Emit nsp event args ≫= λ _, skip))
| sce_ask nsp event cb args : sc_entry (with_sc_client (sc_EmitWithAck nsp event cb args ≫= λ _, skip))
| sce_close : sc_entry (with_sc_client (sc_Close ord usr))
| sce_OnEvent nsp event f : sc_entry (with_sc_client (sc_OnEvent nsp event f))
| sce_OnConnect nsp f : sc_entry (with_sc_client (sc_OnConnect nsp f))
| sce_OnDisconnect nsp f : sc_entry (with_sc_client (sc_OnDisconnect nsp f))
| sce_OnConnectError nsp f : sc_entry (with_sc_client (sc_OnConnectError nsp f))
| sce_OnError nsp f : sc_entry (with_sc_client (sc_OnError nsp f))
| sce_answer d a : sc_entry (dial_ends d a)
| sce_ctx x msg : sc_entry (ctx_ends x msg)
| sce_data e b bin : sc_entry (eng_data e b bin)
| sce_end e err : sc_entry (eng_ends ord usr e err).

Lemma sf_sc_entry q w : sc_entry q → sf w q.
Proof.
  intros [|nsp auth|nsp|nsp event args|nsp event cb args| |nsp event f|nsp f|nsp f|nsp f|nsp f|d a|x msg|e b bin|e err].
  - apply sf_dials_client.
  - apply sf_with_sc_client. intros w1. apply sf_then; [by apply sf_unseen_atomic|]. intros ctx w2 _.
    apply sf_done, sf_ConnectNamespace.
  - apply sf_with_sc_client. intros. apply sf_DisconnectNamespace.
  - apply sf_with_sc_client. intros. apply sf_done, sf_sc_Emit.
  - apply sf_with_sc_client. intros. apply sf_done, sf_sc_EmitWithAck.
  - apply sf_with_sc_client. intros. apply sf_sc_Close.
  - apply sf_with_sc_client. intros. by apply sf_unseen.
  - apply sf_with_sc_client. intros. by apply sf_unseen.
  - apply sf_with_sc_client. intros. by apply sf_unseen.
  - apply sf_with_sc_client. intros. by apply sf_unseen.
  - apply sf_with_sc_client. intros. by apply sf_unseen.
  - apply sf_update. intros. apply good_dial_done.
  - by apply sf_unseen.
  - apply sf_eng_data.
  - apply sf_eng_ends.
Qed.

Lemma inv_newClient opts st (u : U) F : inv (newClient opts st u) F.
Proof. by split. Qed.

Lemma running_sio_client opts st u ps cf cf' :
  Forall sc_entry ps →
  reachable (H := sio_client_methods choose draw unmarshal_into usr) (newClient opts st u, Once <$> ps) cf →
  reachable (H := sio_client_methods choose draw unmarshal_into usr) cf cf' →
  sc_ok cf.1 ∧ sc_hist cf.1 cf'.1.
Proof.
  intros Hps Hr Hr'.
  destruct (reachable_twice inv sc_hist pre sio_methods_own (newClient opts st u, Once <$> ps) cf cf')
    as [(o & Hi & _) Hh]; [exact Hr|exact Hr'|apply inv_newClient| |done].
  simpl. apply Forall_fmap. eapply Forall_impl; [exact Hps|]. intros q Hq.
  eapply (keeps_leaves inv sc_hist pre), sf_sc_entry, Hq.
Qed.
End Safety.

(** C4. Whatever dials, calls of the client's API, messages and ends of sessions,
    answers to dials, ends of contexts and rounds of the reconnection run beside
    each other, in any interleaving: a namespace that is waited for is known
    and not connected, and its channel is empty and nobody else's, so that the
    goroutine which takes the waiter out of the table never blocks when it
    tells it; the session in use has both callbacks; the queue of incoming
    messages is never closed, so the goroutine that processes them never ends;
    and no step reopens a session or the client, takes back what was sent, or
    forgets a namespace. *)
Theorem sio_client_invariant `{FL : Float64} `{FO : !FloatOps} `{JS : !JSON} {U data : Type}
    (ord : nat → order) (choose : nat → bool) (draw : nat → f64)
    (unmarshal_into : gtype → bytes → option data) (usr : sc_user (U := U) (data := data)) opts st u ps w ts :
  sc_safe_user usr → Forall (sc_entry ord choose unmarshal_into usr) ps →
  reachable (H := sio_client_methods choose draw unmarshal_into usr) (newClient opts st u, Once <$> ps) (w, ts) →
  (∀ nsp ch, sc_connecting w !! nsp = Some ch →
     sc_chans w !! ch = Some None ∧ is_Some (sc_nsps w !! nsp) ∧ is_connected w nsp = false ∧
     ∀ nsp', sc_connecting w !! nsp' = Some ch → nsp' = nsp)
  ∧ (∀ e, sc_engine w = Some e → hooked w e)
  ∧ qclosed (sc_inq w) = false
  ∧ (∀ w' ts', reachable (H := sio_client_methods choose draw unmarshal_into usr) (w, ts) (w', ts') →
       sc_hist w w').
Proof.
  intros Husr Hps Hr.
  assert (∀ cf, reachable (H := sio_client_methods choose draw unmarshal_into usr) (w, ts) cf →
            sc_ok w ∧ sc_hist w cf.1) as Hall
    by (intros cf; by apply (running_sio_client ord choose draw unmarshal_into usr Husr opts st u ps (w, ts))).
  destruct (Hall (w, ts)) as [Hi _]; [apply rtc_refl|]. split_and!; [|apply Hi..|].
  - intros nsp ch Hc. split_and!.
    + by apply (ok_waiting _ Hi nsp).
    + by apply (ok_known _ Hi nsp ch).
    + apply not_true_is_false. intros Hn. by rewrite (ok_connected _ Hi nsp Hn) in Hc.
    + intros nsp' Hc'. by apply (ok_distinct _ Hi _ _ ch).
  - intros w' ts' Hr'. by apply (Hall (w', ts')).
Qed.

Lemma safe_diary : sc_safe_user diary.
Proof.
  assert (∀ s w, keeps inv sc_hist pre w (note s) (λ _ _, True)) as Hn by (intros; by apply sf_unseen).
  split; intros; try apply Hn. apply sf_then; [apply Hn|]. intros. apply sf_ret.
Qed.

(** A session in which "/chat" is joined, and an event sent on it. *)
Definition chat_calls : list scprog :=
  [with_sc_client (atomic sc_add_ctx ≫= λ ctx, ConnectNamespace sc_choose ctx "/chat" None ≫= λ _, skip);
   eng_data 0 (welcomes "/chat") false;
   with_sc_client (sc_Emit "/chat" "hi" [VStr "there"] ≫= λ _, skip)].
(** Waiting for the server, and after its answer. *)
Definition chat_asked : scconfig := session_run None chat_calls [3]%nat.
Definition chat_done : scconfig := play [(4, 100); (6, 100); (3, 100); (5, 100)]%nat chat_asked.

Lemma sio_client_invariant_witness :
  sc_connecting chat_asked.1 !! "/chat" = Some 1%nat ∧ sc_chans chat_asked.1 !! 1%nat = Some None ∧
  is_connected chat_asked.1 "/chat" = false ∧ hooked chat_asked.1 0 ∧
  is_connected chat_done.1 "/chat" = true ∧ length (sc_sent chat_done.1) = 3%nat ∧
  sc_hist chat_asked.1 chat_done.1.
Proof.
  assert (sc_connecting chat_asked.1 !! "/chat" = Some 1%nat) as H1 by (vm_compute; reflexivity).
  assert (sc_engine chat_asked.1 = Some 0%nat) as H2 by (vm_compute; reflexivity).
  assert (is_connected chat_done.1 "/chat" = true) as H3 by (vm_compute; reflexivity).
  assert (length (sc_sent chat_done.1) = 3%nat) as H4 by (vm_compute; reflexivity).
  destruct (sio_client_invariant sc_ord sc_choose sc_draw sc_unmarshal diary None ∅ [] (session chat_calls)
              chat_asked.1 chat_asked.2) as (C1 & C2 & _ & C4).
  - exact safe_diary.
  - repeat constructor.
  - rewrite <- surjective_pairing. apply session_run_reachable.
  - destruct (C1 _ _ H1) as (D1 & _ & D3 & _). split_and!; [done..|by apply C2|done|done|].
    apply (C4 _ chat_done.2). rewrite <- !surjective_pairing. apply play_reachable.
Defined.
