(* ===== verification/SioClientRaces.v ===== *)
(** * SioClientRaces: runs of the Socket.IO client that go wrong

    Concrete runs, each one of the reachable configurations, in which the
    client does what its callers do not expect.  The first four calls of each
    run open a session: the dial, its answer, the CONNECT that welcomes the
    root namespace. *)

From S2P Require Import Prelude.
From S2P Require Import EngineTypes.
From S2P Require Import Value.
From S2P Require Import Json.
From S2P Require Import FixedFloat.
From S2P Require Import SioPacket.
From S2P Require Import PacketQueue.
From S2P Require Import Sched.
From S2P Require Import SioServer.
From S2P Require Import SioClientTypes.
From S2P Require Import SioClient.
From S2P Require Import SioClientDemo.

Definition open_engines (c : scconfig) : list bool := (λ g, negb (en_closed g)) <$> sc_engs c.1.
Definition connected_to (nsp : string) (c : scconfig) : bool := is_connected c.1 nsp.
Definition texts (c : scconfig) : list (engp * string) := (λ f, (f.1.1, string_of f.1.2)) <$> sc_sent c.1.

(** [Close] while a reconnection is dialling does not close the client: it sees
    no session to close, and the attempt, which is past its look at
    [reconnectStop], opens the next one and connects the namespace.  The
    closed client stays connected, and a second [Close] does nothing. *)
Definition close_and_dial : list scprog :=
  [ending 0 None; closing; dial_ends 1 None; eng_data 1 (welcomes "/") false; closing].

Theorem closed_client_reconnects :
  ∃ c, reachable (sc_start0 (Some (reconnecting 2)) (session close_and_dial)) c
    ∧ sc_closed c.1 = true ∧ sc_stop c.1 = true
    ∧ connected_to "/" c = true ∧ sc_engine c.1 = Some 1%nat ∧ open_engines c = [false; true]
    ∧ (finished <$> c.2) !! 4%nat = Some true ∧ (finished <$> c.2) !! 7%nat = Some true.
Proof.
  exists (session_run (Some (reconnecting 2)) close_and_dial [3; 9; 4; 5; 9; 6; 8; 9; 7]%nat).
  split; [apply session_run_reachable|]. split_and!; by vm_compute.
Qed.

(** A [ConnectNamespace] that waits when the client is closed is never told:
    it returns when its context ends, if that ever happens. *)
Theorem join_hangs_on_close :
  ∃ c, reachable (sc_start0 None (session [joining "/a"; closing])) c
    ∧ sc_closed c.1 = true ∧ sc_engine c.1 = None
    ∧ sc_waits_at 3 c = true ∧ (finished <$> c.2) !! 4%nat = Some true.
Proof.
  exists (session_run None [joining "/a"; closing] [3; 4; 3]%nat).
  split; [apply session_run_reachable|]. split_and!; by vm_compute.
Qed.

(** Two [ConnectNamespace] of one namespace: the first one's context ends and
    it removes the other's channel, so the server's CONNECT is dropped; the
    second waits for ever and the namespace is not connected, although the
    server has connected it. *)
Definition two_joins : list scprog :=
  [joining "/a"; joining "/a"; ctx_ends 1 "context deadline exceeded"; eng_data 0 (welcomes "/a") false].

Theorem join_steals_waiter :
  ∃ c, reachable (sc_start0 None (session two_joins)) c
    ∧ diary_of c = ["error: context deadline exceeded"]
    ∧ items (sc_inq c.1) = [] ∧ sc_ctxs c.1 !! 2%nat = Some None
    ∧ sc_waits_at 4 c = true ∧ connected_to "/a" c = false.
Proof.
  exists (session_run None two_joins [3; 4; 5; 3; 6; 7; 4]%nat).
  split; [apply session_run_reachable|]. split_and!; by vm_compute.
Qed.

(** The session ends with a close packet, hence without an error, while
    [ConnectNamespace] waits: it returns no error, and the namespace is not
    connected. *)
Theorem join_succeeds_unconnected :
  ∃ c, reachable (sc_start0 None (session [joining "/a"; ending 0 None])) c
    ∧ diary_of c = ["joined"] ∧ connected_to "/a" c = false ∧ sc_engine c.1 = None.
Proof.
  exists (session_run None [joining "/a"; ending 0 None] [3; 4; 3]%nat).
  split; [apply session_run_reachable|]. split_and!; by vm_compute.
Qed.

(** The new session is lost when one of two namespaces is connected again: the
    reconnection goes on, and another one is started beside it.  Each opens a
    session; the client holds one of them, nothing ever closes the other. *)
Definition lost_again : list scprog :=
  [joining "/a"; eng_data 0 (welcomes "/a") false; ending 0 None; dial_ends 1 None;
   eng_data 1 (welcomes "/a") false; ending 1 (Some "engineio: ping timeout");
   dial_ends 2 None; dial_ends 3 None].

Theorem reconnections_overlap :
  ∃ c, reachable (sc_start0 (Some (reconnecting 5)) (session lost_again)) c
    ∧ open_engines c = [false; false; true; true] ∧ sc_engine c.1 = Some 3%nat
    ∧ texts c = [(0, "0"); (0, "0/a,"); (1, "0/a,"); (1, "0"); (2, "0/a,"); (3, "0/a,")]%nat
    ∧ sc_waits_at 12 c = true ∧ sc_waits_at 13 c = true.
Proof.
  exists (session_run (Some (reconnecting 5)) lost_again
            [3; 4; 11; 3; 5; 12; 6; 12; 7; 11; 12; 8; 12; 13; 9; 10; 12; 13]%nat).
  split; [apply session_run_reachable|]. split_and!; by vm_compute.
Qed.

(** An attempt that connects one namespace and is refused the next: the session
    is closed, but the first namespace stays marked as connected, also when
    the client gives up.  [Emit] then returns no error and sends nothing. *)
Definition refuses (nsp : string) : bytes :=
  frame (mkPacket ConnectError nsp (-1) (VMap [("message", VStr "no")]) 0).
Definition greeting : scprog :=
  with_sc_client (sc_Emit "/a" "hello" [] ≫= λ e,
                  match e with None => note "sent" | Some _ => note "error" end).
Definition half_reconnected : list scprog :=
  [joining "/a"; eng_data 0 (welcomes "/a") false; ending 0 None; dial_ends 1 None;
   eng_data 1 (welcomes "/a") false; eng_data 1 (refuses "/") false; greeting].

Theorem emit_into_the_void :
  ∃ c, reachable (sc_start0 (Some (reconnecting 1)) (session half_reconnected)) c
    ∧ sc_closed c.1 = true ∧ sc_engine c.1 = None ∧ connected_to "/a" c = true
    ∧ diary_of c = ["joined"; "sent"]
    ∧ texts c = [(0, "0"); (0, "0/a,"); (1, "0/a,"); (1, "0")]%nat.
Proof.
  exists (session_run (Some (reconnecting 1)) half_reconnected
            [3; 4; 10; 3; 5; 11; 6; 11; 7; 10; 11; 8; 10; 11; 9]%nat).
  split; [apply session_run_reachable|]. split_and!; by vm_compute.
Qed.
