(* ===== verification/SioHttp.v ===== *)
(** * SioHttp: the HTTP entry of the Socket.IO server

    Models the top of [socketio/server.go]: the configuration, the guard on the
    path, the CORS policy, and the response writer that adds the CORS headers
    to whatever the Engine.IO server answers.

    A [ResponseWriter] of net/http is its header map, the status line it has
    committed with the headers of that moment, and the body; the engine is the
    sequence of operations it performs on the writer it is given, which it
    never reads back.  Header keys are in canonical form.  [url.Parse] and the
    folding of [strings.EqualFold] beyond ASCII are parameters. *)

From S2P Require Import Prelude.
From S2P Require Import EngineTypes.
From S2P Require Import EngineOptions.
From S2P Require Import EngineServer.
From S2P Require Import Utf8.
From S2P Require Import Value.
From S2P Require Import Sched.
From S2P Require Import Adapter.
From S2P Require Import SioServer.
From S2P Require Import FixedFloat.

(** ** Response writers *)

Abbreviation header := (gmap string (list string)).

(** [Header.Get], [Set], [Add] *)
Definition hget (k : string) (h : header) : string :=
  match h !! k with Some (v :: _) => v | _ => "" end.
Definition hset (k v : string) : header → header := <[k := [v]]>.
Definition hadd (k v : string) (h : header) : header := <[k := default [] (h !! k) ++ [v]]> h.

(** [rw_info]: the informational responses that went out before. *)
Record rwriter := mkRw {
  rw_header : header;
  rw_info : list (Z * header);
  rw_sent : option (Z * header);
  rw_body : bytes
}.

Definition fresh_writer : rwriter := mkRw ∅ [] None [].

Definition rw_upd_header (f : header → header) (w : rwriter) : rwriter :=
  mkRw (f (rw_header w)) (rw_info w) (rw_sent w) (rw_body w).

Definition informational (code : Z) : bool := (100 <=? code) && (code <=? 199) && negb (code =? 101).

(** [WriteHeader]: the first one that is not informational counts. *)
Definition rw_WriteHeader (code : Z) (w : rwriter) : rwriter :=
  match rw_sent w with
  | Some _ => w
  | None =>
      if informational code
      then mkRw (rw_header w) (rw_info w ++ [(code, rw_header w)]) None (rw_body w)
      else mkRw (rw_header w) (rw_info w) (Some (code, rw_header w)) (rw_body w)
  end.

Definition body_allowed (code : Z) : bool :=
  negb (((100 <=? code) && (code <=? 199)) || (code =? 204) || (code =? 304)).

Definition rw_append (b : bytes) (w : rwriter) : rwriter :=
  match rw_sent w with
  | Some (code, _) => if body_allowed code then mkRw (rw_header w) (rw_info w) (rw_sent w) (rw_body w ++ b) else w
  | None => w
  end.

(** [Write] and [Flush] commit a status of 200 when there is none, as does the
    server when the handler has returned. *)
Definition rw_Flush : rwriter → rwriter := rw_WriteHeader 200.
Definition rw_Write (b : bytes) (w : rwriter) : rwriter := rw_append b (rw_Flush w).
Definition rw_finish : rwriter → rwriter := rw_Flush.

(** What a handler does with its writer. *)
Inductive wop :=
| OpSet (k v : string)
| OpAdd (k v : string)
| OpWriteHeader (code : Z)
| OpWrite (b : bytes)
| OpFlush.

Definition rw_op (w : rwriter) (o : wop) : rwriter :=
  match o with
  | OpSet k v => rw_upd_header (hset k v) w
  | OpAdd k v => rw_upd_header (hadd k v) w
  | OpWriteHeader code => rw_WriteHeader code w
  | OpWrite b => rw_Write b w
  | OpFlush => rw_Flush w
  end.

(** [http.NotFound] on a writer nothing was set on. *)
Definition not_found_ops : list wop :=
  [OpSet "Content-Type" "text/plain; charset=utf-8"; OpSet "X-Content-Type-Options" "nosniff";
   OpWriteHeader 404; OpWrite (bytes_of "404 page not found" ++ ["010"%byte])].

(** The operations whose effect is an engine's exchange. *)
Definition exchange_ops (x : exchange) : list wop :=
  ((λ kv, OpSet kv.1 kv.2) <$> x_header x)
  ++ match x_status x with Some code => [OpWriteHeader code; OpWrite (x_body x)] | None => [] end.

(** ** [corsWriter] *)

Record corsWriter := mkCorsWriter { cow_ResponseWriter : rwriter; cow_origin : string; cow_wrote : bool }.

Definition acao : string := "Access-Control-Allow-Origin".
Definition decorate (origin : string) (h : header) : header := hadd "Vary" "Origin" (hset acao origin h).

Definition writeHeaders (c : corsWriter) : corsWriter :=
  if cow_wrote c then c
  else mkCorsWriter (rw_upd_header (decorate (cow_origin c)) (cow_ResponseWriter c)) (cow_origin c) true.

(** The wrapped writer; [Header] is its own method. *)
Definition on_writer (f : rwriter → rwriter) (c : corsWriter) : corsWriter :=
  mkCorsWriter (f (cow_ResponseWriter c)) (cow_origin c) (cow_wrote c).

Definition cors_WriteHeader (code : Z) (c : corsWriter) : corsWriter :=
  on_writer (rw_WriteHeader code) (writeHeaders c).
Definition cors_Write (b : bytes) (c : corsWriter) : corsWriter := on_writer (rw_Write b) (writeHeaders c).
Definition cors_Flush : corsWriter → corsWriter := on_writer rw_Flush.

Definition cors_op (c : corsWriter) (o : wop) : corsWriter :=
  match o with
  | OpSet k v => on_writer (rw_upd_header (hset k v)) c
  | OpAdd k v => on_writer (rw_upd_header (hadd k v)) c
  | OpWriteHeader code => cors_WriteHeader code c
  | OpWrite b => cors_Write b c
  | OpFlush => cors_Flush c
  end.

(** ** Origins *)

(** [url.Parse]: the scheme and the host, [None] for an error. *)
Class NetUrl := url_Parse : bytes → option (bytes * bytes).

(** The representative of a rune's orbit under [unicode.SimpleFold]. *)
Class CaseFold := fold_rune : Z → Z.

(** The runes a [range] over a string gives: U+FFFD for a byte that begins no
    valid sequence. *)
Definition utf8_decode (s : bytes) : Z :=
  match byte_val <$> s with
  | [a] => a
  | [a; b] => (a - 192) * 64 + (b - 128)
  | [a; b; c] => (a - 224) * 4096 + (b - 128) * 64 + (c - 128)
  | [a; b; c; d] => (a - 240) * 262144 + (b - 128) * 4096 + (c - 128) * 64 + (d - 128)
  | _ => 65533
  end.

Fixpoint runes_fuel (fuel : nat) (s : bytes) : list Z :=
  match s, fuel with
  | [], _ | _, O => []
  | _ :: s', S fuel' =>
      match utf8_len s with
      | Some n => utf8_decode (take n s) :: runes_fuel fuel' (drop n s)
      | None => 65533 :: runes_fuel fuel' s'
      end
  end.
Definition runes (s : bytes) : list Z := runes_fuel (length s) s.

(** [strings.EqualFold] *)
Definition EqualFold `{CaseFold} (s t : bytes) : bool :=
  bool_decide (fold_rune <$> runes s = fold_rune <$> runes t).

(** ** The configuration *)

Record CORSConfig := mkCors { AllowAll : bool; AllowedOrigins : list bytes }.

(** The function [AllowAll]. *)
Definition AllowAll_config : CORSConfig := mkCors true [].

Section Cors.
Context `{NU : NetUrl} `{CF : CaseFold}.

(** [originAllowed] *)
Definition same_origin (u : bytes * bytes) (allowed : bytes) : bool :=
  match url_Parse allowed with
  | None => false
  | Some au => negb (bool_decide (au.2 = [])) && (EqualFold u.1 au.1 && EqualFold u.2 au.2)
  end.

Definition originAllowed (c : CORSConfig) (origin : bytes) : bool :=
  if AllowAll c then true
  else match url_Parse origin with
       | None => false
       | Some u => if decide (u.2 = []) then false else existsb (same_origin u) (AllowedOrigins c)
       end.

Definition corsOriginValue (c : CORSConfig) (origin : string) : string :=
  if AllowAll c then "*" else origin.

(** A request: its path, its header, and the rest. *)
Record http_request := mkHttpRequest { hr_path : string; hr_header : header; hr_req : request }.

(** [handleCORS]: the request is answered ([inl]), or goes on with another
    writer. *)
Definition cors_refuse (w : rwriter) : rwriter := rw_WriteHeader 403 w.

Definition preflight_headers (c : CORSConfig) (r : http_request) (h : header) : header :=
  let origin := hget "Origin" (hr_header r) in
  let acrh := hget "Access-Control-Request-Headers" (hr_header r) in
  let h1 := hset "Access-Control-Allow-Methods" "GET,POST" (hset acao (corsOriginValue c origin) h) in
  let h2 := if decide (acrh = "") then h1 else hset "Access-Control-Allow-Headers" acrh h1 in
  hadd "Vary" "Origin" (hset "Access-Control-Max-Age" "86400" h2).

Definition handleCORS (c : CORSConfig) (r : http_request) (w : rwriter) : rwriter + corsWriter :=
  let origin := hget "Origin" (hr_header r) in
  let allowed := AllowAll c || originAllowed c (bytes_of origin) in
  if decide (rq_method (hr_req r) = "OPTIONS") then
    if negb allowed then inl (cors_refuse w)
    else inl (rw_WriteHeader 204 (rw_upd_header (preflight_headers c r) w))
  else if negb allowed then inl (cors_refuse w)
  else inr (mkCorsWriter w (corsOriginValue c origin) false).

End Cors.

(** ** The server *)

(** The fields of [websocket.AcceptOptions] that are set here. *)
Record accept_options := mkAccept { InsecureSkipVerify : bool; OriginPatterns : list bytes }.

(** [engineio.NewServer] lets every origin upgrade. *)
Definition engine_accept : option accept_options := Some (mkAccept true []).

(** [configureAcceptOptions] sets both fields. *)
Definition configureAcceptOptions (c : CORSConfig) (_ : option accept_options) : accept_options :=
  if AllowAll c then mkAccept true [] else mkAccept false (AllowedOrigins c).

(** The methods the server registers with its engine, by number:
    [onEngineConnect], [onEngineData], [onEngineClose]. *)
Definition engine_callbacks {C UE} : EngineTypes.world C UE → EngineTypes.world C UE :=
  set_callbacks (λ _, Some 0%nat) (λ _, Some 1%nat) (λ _, Some 2%nat).

(** [ServeHTTP]'s first guard. *)
Definition path_refused (path : string) (r : http_request) : bool :=
  negb (bool_decide (path = "")) && negb (String.prefix path (hr_path r)).

Section Server.
Context `{FL : Float64} {A C UE U : Type} `{AA : !Adapter A}.

(** [ServerConfig] *)
Record server_config := mkServerConfig {
  cfg_Engine : option options;
  cfg_Path : string;
  cfg_CORS : option CORSConfig;
  cfg_Adapter : option (string → A)
}.

(** [Server]: its engine, with the options of its WebSocket upgrades, and its
    namespaces. *)
Record server := mkServer {
  srv_engine : EngineTypes.world C UE;
  srv_accept : option accept_options;
  srv_path : string;
  srv_cors : option CORSConfig;
  srv_world : SioServer.world A U
}.

Definition NewServerWithConfig (cfg : option server_config) (ue : UE) (u : U) : server :=
  let cfg := default (mkServerConfig None "" None None) cfg in
  mkServer (engine_callbacks (EngineServer.NewServer (cfg_Engine cfg) ue))
    (match cfg_CORS cfg with
     | Some c => Some (configureAcceptOptions c engine_accept)
     | None => engine_accept
     end)
    (cfg_Path cfg) (cfg_CORS cfg) (SioServer.NewServer (cfg_Adapter cfg) u).

Definition NewServer (opts : option options) : UE → U → server :=
  NewServerWithConfig (Some (mkServerConfig opts "" None None)).

(** [ServeHTTP], given what the engine does with a request. *)
Context `{NU : NetUrl} `{CF : CaseFold}.
Definition ServeHTTP (engine : http_request → list wop) (s : server) (r : http_request) (w : rwriter) : rwriter :=
  if path_refused (srv_path s) r then foldl rw_op w not_found_ops
  else match srv_cors s with
       | None => foldl rw_op w (engine r)
       | Some c =>
           match handleCORS c r w with
           | inl w' => w'
           | inr cw => cow_ResponseWriter (foldl cors_op cw (engine r))
           end
       end.

(** The response of a request: the server gives the handler a fresh writer and
    commits what is not committed when it returns. *)
Definition response (engine : http_request → list wop) (s : server) (r : http_request) : rwriter :=
  rw_finish (ServeHTTP engine s r fresh_writer).
End Server.
#[global] Arguments server_config A : clear implicits.
#[global] Arguments server {_} A C UE U.

(** ** Which origins are allowed *)

(** Serialized origins: a scheme of letters, digits, '+', '-' and '.' that
    begins with a letter, and a host of letters, digits, '-' and '.', with a
    port or not. *)
Definition is_letter (c : Byte.byte) : bool := in_range 65 90 c || in_range 97 122 c.
Definition is_digit (c : Byte.byte) : bool := in_range 48 57 c.
Definition is_name (c : Byte.byte) : bool := is_letter c || is_digit c || in_range 45 46 c.
Definition valid_scheme (s : bytes) : bool :=
  match s with c :: s' => is_letter c && forallb (λ c, is_name c || in_range 43 43 c) s' | [] => false end.
Definition valid_host (h : bytes) : bool :=
  let '(name, port) := scan (in_range 58 58) h in
  negb (bool_decide (name = [])) && forallb is_name name
  && match port with _ :: digits => forallb is_digit digits | [] => true end.
Definition serialize (o : bytes * bytes) : bytes := o.1 ++ bytes_of "://" ++ o.2.

Definition upper_rune (z : Z) : Z := if (97 <=? z) && (z <=? 122) then z - 32 else z.
Definition lower_byte (c : Byte.byte) : Byte.byte :=
  if in_range 65 90 c then byte_of_val (byte_val c + 32) else c.
Definition is_ascii (c : Byte.byte) : bool := byte_val c <? 128.

(** Two ASCII texts that differ in the case of letters only. *)
Definition fold_key (s : bytes) : list Z := (λ c, upper_rune (byte_val c)) <$> s.

(** What [url.Parse] does with such an origin, and with a text of name
    characters, which is a relative path: an origin that is empty or
    ["null"]. *)
Class NetUrlLaws `{NetUrl} : Prop := {
  parse_origin o : valid_scheme o.1 = true → valid_host o.2 = true →
    url_Parse (serialize o) = Some (lower_byte <$> o.1, o.2);
  parse_name s : forallb is_name s = true → url_Parse s = Some ([], []);
}.

(** The orbits of ASCII have the upper-case letter as representative. *)
Class CaseFoldLaws `{CaseFold} : Prop :=
  fold_ascii z : 0 <= z < 128 → fold_rune z = upper_rune z.

Lemma runes_ascii s : forallb is_ascii s = true → runes s = byte_val <$> s.
Proof.
  unfold runes. induction s as [|c s IH]; [done|]. cbn [forallb length runes_fuel].
  intros [Hc Hs]%andb_prop. unfold is_ascii in Hc. apply Z.ltb_lt in Hc.
  pose proof (byte_val_bounds c) as Hb.
  assert (utf8_len (c :: s) = Some 1%nat) as ->.
  { unfold utf8_len, in_range. destruct (Z.leb_spec 0 (byte_val c)), (Z.leb_spec (byte_val c) 127); lia || done. }
  change (drop 1 (c :: s)) with s. by rewrite IH.
Qed.

Lemma EqualFold_ascii `{CaseFoldLaws} s t :
  forallb is_ascii s = true → forallb is_ascii t = true →
  EqualFold s t = bool_decide (fold_key s = fold_key t).
Proof.
  intros Hs Ht. unfold EqualFold. rewrite !runes_ascii by done.
  assert (∀ b, forallb is_ascii b = true → fold_rune <$> (byte_val <$> b) = fold_key b) as Hf.
  { intros b. induction b as [|c b IH]; [done|]. cbn [forallb]. intros [Hc Hb]%andb_prop.
    cbn. rewrite IH by done. unfold is_ascii in Hc. apply Z.ltb_lt in Hc.
    pose proof (byte_val_bounds c). by rewrite fold_ascii by lia. }
  by rewrite !Hf.
Qed.

Lemma byte_forall (P : Byte.byte → bool) :
  forallb (λ n, P (byte_of_val (Z.of_nat n))) (seq 0 256) = true → ∀ c, P c = true.
Proof.
  intros H c. pose proof (byte_val_bounds c) as Hc. rewrite forallb_forall in H.
  specialize (H (Z.to_nat (byte_val c))). rewrite Z2Nat.id, byte_of_val_val in H by lia.
  apply H. apply in_seq. lia.
Qed.

Lemma name_ascii c : is_name c || in_range 43 43 c = true → is_ascii c = true.
Proof.
  revert c. assert (∀ c, implb (is_name c || in_range 43 43 c) (is_ascii c) = true) as H by (apply byte_forall; by vm_compute).
  intros c. specialize (H c). by destruct (_ || _), (is_ascii c).
Qed.

Lemma forallb_impl {B : Type} (P Q : B → bool) l :
  (∀ x, P x = true → Q x = true) → forallb P l = true → forallb Q l = true.
Proof. rewrite !forallb_forall. eauto. Qed.

Lemma names_ascii s : forallb is_name s = true → forallb is_ascii s = true.
Proof. apply forallb_impl. intros c Hc. apply name_ascii. by rewrite Hc. Qed.

Lemma scheme_ascii s : valid_scheme s = true → forallb is_ascii s = true.
Proof.
  destruct s as [|c s]; [done|]. cbn. intros [Hc Hs]%andb_prop. rewrite (name_ascii c) by (unfold is_name; by rewrite Hc).
  eapply forallb_impl; [apply name_ascii|done].
Qed.

Lemma scan_parts (stop : Byte.byte → bool) s a b : scan stop s = (a, b) → s = a ++ b.
Proof.
  revert a b. induction s as [|c s IH]; intros a b; cbn; [by intros [= <- <-]|].
  destruct (stop c); [by intros [= <- <-]|]. destruct (scan stop s) as [a' b'] eqn:E.
  intros [= <- <-]. cbn. f_equal. by apply IH.
Qed.

Lemma scan_head (stop : Byte.byte → bool) s a c b : scan stop s = (a, c :: b) → stop c = true.
Proof.
  revert a. induction s as [|x s IH]; intros a; cbn; [done|]. destruct (stop x) eqn:E; [by intros [= <- <- <-]|].
  destruct (scan stop s) as [a' b'] eqn:E'. intros [= <- ->]. by eapply IH.
Qed.

Lemma host_ascii h : valid_host h = true → forallb is_ascii h = true.
Proof.
  unfold valid_host. destruct (scan _ h) as [name port] eqn:Hs. rewrite (scan_parts _ _ _ _ Hs).
  intros [[_ Hn]%andb_prop Hp]%andb_prop. rewrite forallb_app.
  rewrite (names_ascii _ Hn). cbn.
  destruct port as [|c digits]; [done|]. cbn. apply scan_head in Hs.
  assert (∀ c, implb (in_range 58 58 c || is_digit c) (is_ascii c) = true) as Ha by (apply byte_forall; by vm_compute).
  assert (∀ c, in_range 58 58 c || is_digit c = true → is_ascii c = true) as Ha'.
  { intros x. specialize (Ha x). by destruct (_ || _), (is_ascii x). }
  rewrite (Ha' c) by (by rewrite Hs). eapply forallb_impl; [|exact Hp]. intros x Hx. apply Ha'. rewrite Hx. by rewrite orb_true_r.
Qed.

Lemma host_nonempty h : valid_host h = true → h ≠ [].
Proof. by intros Hh ->. Qed.

Lemma fold_key_lower s : fold_key (lower_byte <$> s) = fold_key s.
Proof.
  unfold fold_key. rewrite <- list_fmap_compose. apply list_fmap_ext. intros _ c _. cbn. apply Z.eqb_eq. revert c.
  apply byte_forall. by vm_compute.
Qed.

Lemma lower_ascii s : forallb is_ascii s = true → forallb is_ascii (lower_byte <$> s) = true.
Proof.
  assert (∀ c, implb (is_ascii c) (is_ascii (lower_byte c)) = true) as Ha by (apply byte_forall; by vm_compute).
  induction s as [|c s IH]; [done|]. cbn. intros [Hc Hs]%andb_prop. rewrite IH by done.
  specialize (Ha c). rewrite Hc in Ha. cbn in Ha. by rewrite Ha.
Qed.

Section Origins.
Context `{NetUrlLaws} `{CaseFoldLaws}.
Implicit Types (o : bytes * bytes).

Definition valid_origin o : Prop := valid_scheme o.1 = true ∧ valid_host o.2 = true.

(** Origins equal but for the case of letters. *)
Definition origins_agree o1 o2 : Prop := fold_key o1.1 = fold_key o2.1 ∧ fold_key o1.2 = fold_key o2.2.

Lemma same_origin_agree o a :
  valid_origin o → valid_origin a →
  same_origin (lower_byte <$> o.1, o.2) (serialize a) = true ↔ origins_agree o a.
Proof.
  intros [Ho1 Ho2] [Ha1 Ha2]. unfold same_origin. rewrite parse_origin by done. cbn.
  rewrite bool_decide_false by by apply host_nonempty. cbn.
  rewrite !EqualFold_ascii by auto using lower_ascii, scheme_ascii, host_ascii.
  rewrite !fold_key_lower. unfold origins_agree. rewrite andb_true_iff, !bool_decide_eq_true. done.
Qed.

(** [originAllowed] compares exactly: with a list of origins of the form
    scheme://host[:port], such an origin is allowed if and only if it is in the
    list up to the case of letters; the origin of a client that is no browser
    (empty) and of a sandboxed frame ("null") is not, whatever the list; and a
    policy that allows every origin allows these too. *)
Theorem originAllowed_spec o l :
  valid_origin o → Forall valid_origin l →
  (originAllowed (mkCors false (serialize <$> l)) (serialize o) = true ↔ ∃ a, a ∈ l ∧ origins_agree o a)
  ∧ (∀ texts, originAllowed (mkCors false texts) [] = false ∧
              originAllowed (mkCors false texts) (bytes_of "null") = false)
  ∧ (∀ texts origin, originAllowed (mkCors true texts) origin = true).
Proof.
  intros Ho Hl. split_and!; [|by intros; unfold originAllowed; cbn [AllowAll]; rewrite !parse_name|done].
  unfold originAllowed. cbn. rewrite parse_origin by apply Ho. cbn.
  rewrite decide_False by (apply host_nonempty, Ho). rewrite existsb_exists. rewrite Forall_forall in Hl. split.
  - intros (t & Ht & Hs). apply list_elem_of_In, list_elem_of_fmap in Ht as (a & -> & Ha).
    exists a. split; [done|]. apply same_origin_agree; auto.
  - intros (a & Ha & Hag). exists (serialize a). split; [|apply same_origin_agree; auto].
    apply list_elem_of_In, list_elem_of_fmap. by exists a.
Qed.
End Origins.

(** A parser that knows these origins, and folding of ASCII with the two
    letters beyond it that fold into it: the long s and the Kelvin sign. *)
#[export] Instance demo_url : NetUrl := λ b,
  let '(s, r) := scan (in_range 58 58) b in
  match r with
  | _ :: _ :: _ :: h =>
      if valid_scheme s && valid_host h && bool_decide (b = serialize (s, h)) then Some (lower_byte <$> s, h) else Some ([], [])
  | _ => Some ([], [])
  end.

#[export] Instance demo_fold : CaseFold := λ z,
  if z =? 383 then 83 else if z =? 8490 then 75 else upper_rune z.

#[export] Instance demo_fold_laws : CaseFoldLaws.
Proof. intros z Hz. unfold fold_rune, demo_fold. repeat case_match; lia. Qed.

Lemma scan_name s : forallb (λ c, is_name c || in_range 43 43 c) s = true → Forall (λ c, in_range 58 58 c = false) s.
Proof.
  rewrite forallb_forall. intros Hs. rewrite Forall_forall. intros c Hc. apply list_elem_of_In, Hs in Hc.
  assert (∀ c, implb (is_name c || in_range 43 43 c) (negb (in_range 58 58 c)) = true) as Ha
    by (apply byte_forall; by vm_compute).
  specialize (Ha c). rewrite Hc in Ha. by destruct (in_range 58 58 c).
Qed.

#[export] Instance demo_url_laws : NetUrlLaws.
Proof.
  split.
  - intros [s h] Hs Hh. cbn in Hs, Hh. unfold url_Parse, demo_url.
    assert (scan (in_range 58 58) (serialize (s, h)) = (s, bytes_of "://" ++ h)) as ->.
    { apply scan_stop; [|done]. apply scan_name. destruct s as [|c s]; [done|].
      cbn in Hs |- *. apply andb_prop in Hs as [Hc ->]. unfold is_name. by rewrite Hc. }
    change (bytes_of "://" ++ h) with (":"%byte :: "/"%byte :: "/"%byte :: h). cbv beta iota.
    by rewrite Hs, Hh, bool_decide_true.
  - intros s Hs. unfold url_Parse, demo_url. rewrite scan_end; [done|]. apply scan_name.
    eapply forallb_impl; [|exact Hs]. by intros c ->.
Qed.

Lemma originAllowed_spec_witness :
  let policy := mkCors false [bytes_of "https://example.com"; bytes_of "http://localhost:3000"] in
  originAllowed policy (bytes_of "HTTPS://Example.com") = true ∧
  originAllowed policy (bytes_of "http://localhost:3001") = false ∧ originAllowed policy (bytes_of "null") = false.
Proof.
  set (l := [(bytes_of "https", bytes_of "example.com"); (bytes_of "http", bytes_of "localhost:3000")]).
  assert (Forall valid_origin l) as Hl by (repeat constructor).
  destruct (originAllowed_spec (bytes_of "HTTPS", bytes_of "Example.com") l) as ([_ H1] & H2 & _); [by split|done|].
  destruct (originAllowed_spec (bytes_of "http", bytes_of "localhost:3001") l) as ([H3 _] & _); [by split|done|].
  split_and!.
  - apply H1. exists (bytes_of "https", bytes_of "example.com"). split; [by left|by split].
  - apply not_true_is_false. intros Hn. destruct (H3 Hn) as (a & Ha & _ & Hh).
    apply list_elem_of_In in Ha. by destruct Ha as [<- | [<- | []]].
  - apply H2.
Defined.

(** ** The writer that adds the headers *)

(** A handler that does not touch the two headers, and one whose first
    [WriteHeader] or [Write] comes before any [Flush]. *)
Definition leaves_alone (o : wop) : Prop :=
  match o with OpSet k _ | OpAdd k _ => k ≠ acao ∧ k ≠ "Vary" | _ => True end.
Fixpoint announces (ops : list wop) : bool :=
  match ops with
  | [] | OpFlush :: _ => false
  | OpWriteHeader _ :: _ | OpWrite _ :: _ => true
  | _ :: ops' => announces ops'
  end.

Definition decorate_sent (origin : string) (r : Z * header) : Z * header := (r.1, decorate origin r.2).

(** The responses of the plain writer and of the wrapped one: with the headers
    in everything that is sent. *)
Record decorated origin (p c : rwriter) : Prop := {
  dec_header : rw_header c = decorate origin (rw_header p);
  dec_info : rw_info c = decorate_sent origin <$> rw_info p;
  dec_sent : rw_sent c = decorate_sent origin <$> rw_sent p;
  dec_body : rw_body c = rw_body p
}.

(** The response went out before the headers were set. *)
Definition flushed (p c : rwriter) : Prop :=
  is_Some (rw_sent p) ∧ rw_sent c = rw_sent p ∧ rw_info c = rw_info p ∧ rw_body c = rw_body p.

Lemma decorate_insert origin k l h :
  k ≠ acao → k ≠ "Vary" → decorate origin (<[k := l]> h) = <[k := l]> (decorate origin h).
Proof.
  intros H1 H2. unfold decorate, hset, hadd.
  rewrite !(lookup_insert_ne _ acao "Vary"), (lookup_insert_ne _ k "Vary") by done.
  by rewrite (insert_insert_ne _ acao k), (insert_insert_ne _ "Vary" k) by done.
Qed.

Lemma decorate_lookup origin k h : k ≠ acao → k ≠ "Vary" → decorate origin h !! k = h !! k.
Proof. intros H1 H2. unfold decorate, hset, hadd. by rewrite !lookup_insert_ne by done. Qed.

Lemma decorate_hset origin k v h :
  k ≠ acao → k ≠ "Vary" → decorate origin (hset k v h) = hset k v (decorate origin h).
Proof. apply decorate_insert. Qed.

Lemma decorate_hadd origin k v h :
  k ≠ acao → k ≠ "Vary" → decorate origin (hadd k v h) = hadd k v (decorate origin h).
Proof. intros H1 H2. unfold hadd. by rewrite decorate_insert, decorate_lookup. Qed.

Lemma decorated_WriteHeader origin code p c :
  decorated origin p c → decorated origin (rw_WriteHeader code p) (rw_WriteHeader code c).
Proof.
  intros [H1 H2 H3 H4]. unfold rw_WriteHeader. rewrite H3. destruct (rw_sent p) as [[st h]|] eqn:Hs; cbn.
  - split; [done..| |done]. by rewrite H3, Hs.
  - destruct (informational code); split; cbn; rewrite ?H1, ?H2, ?H4; try done. by rewrite fmap_app.
Qed.

Lemma decorated_append origin b p c :
  decorated origin p c → decorated origin (rw_append b p) (rw_append b c).
Proof.
  intros Hd. pose proof Hd as [H1 H2 H3 H4]. unfold rw_append. rewrite H3.
  destruct (rw_sent p) as [[st h]|] eqn:Hs; cbn; [|exact Hd].
  destruct (body_allowed st); [|exact Hd]. split; cbn; [done..|by rewrite H4].
Qed.

Lemma flushed_append b p c : flushed p c → flushed (rw_append b p) (rw_append b c).
Proof.
  intros ([[st h] Hs] & H1 & H2 & H3). unfold rw_append. rewrite H1, Hs.
  destruct (body_allowed st); split_and!; cbn; try done; try congruence; by eexists.
Qed.

Lemma flushed_WriteHeader code p c : flushed p c → flushed (rw_WriteHeader code p) (rw_WriteHeader code c).
Proof. intros ([r Hs] & H1 & H2 & H3). unfold rw_WriteHeader. rewrite H1, Hs. by split_and!. Qed.

Lemma decorated_upd origin (f : header → header) p c :
  (∀ h, decorate origin (f h) = f (decorate origin h)) → decorated origin p c →
  decorated origin (rw_upd_header f p) (rw_upd_header f c).
Proof. intros Hf [H1 H2 H3 H4]. split; [|done..]. unfold rw_upd_header. cbn [rw_header]. by rewrite H1, Hf. Qed.

(** Each operation keeps the correspondence. *)
Lemma decorated_op o p c :
  leaves_alone o → cow_wrote c = true → decorated (cow_origin c) p (cow_ResponseWriter c) →
  let c' := cors_op c o in
  cow_wrote c' = true ∧ cow_origin c' = cow_origin c ∧ decorated (cow_origin c) (rw_op p o) (cow_ResponseWriter c').
Proof.
  intros Ho Hw Hd. unfold cors_op, cors_WriteHeader, cors_Write, writeHeaders, rw_op.
  destruct o as [k v|k v|code|b|]; rewrite ?Hw; split_and!; try done.
  - apply decorated_upd; [|done]. intros h. by apply decorate_hset; apply Ho.
  - apply decorated_upd; [|done]. intros h. by apply decorate_hadd; apply Ho.
  - by apply decorated_WriteHeader.
  - by apply decorated_append, decorated_WriteHeader.
  - by apply decorated_WriteHeader.
Qed.

Lemma decorated_ops ops p c :
  Forall leaves_alone ops → cow_wrote c = true → decorated (cow_origin c) p (cow_ResponseWriter c) →
  decorated (cow_origin c) (foldl rw_op p ops) (cow_ResponseWriter (foldl cors_op c ops)).
Proof.
  intros Hops. revert p c. induction Hops as [|o ops Ho _ IH]; intros p c Hw Hd; [done|]. cbn [foldl].
  destruct (decorated_op o p c Ho Hw Hd) as (Hw' & Hor & Hd'). rewrite <- Hor. apply IH; [done|]. by rewrite Hor.
Qed.

Lemma flushed_op o p c :
  flushed p (cow_ResponseWriter c) → flushed (rw_op p o) (cow_ResponseWriter (cors_op c o)).
Proof.
  intros Hf. assert (flushed p (cow_ResponseWriter (writeHeaders c))) as Hf' by (unfold writeHeaders; by destruct (cow_wrote c)).
  destruct o as [k v|k v|code|b|]; cbn; [done|done|by apply flushed_WriteHeader| |by apply flushed_WriteHeader].
  by apply flushed_append, flushed_WriteHeader.
Qed.

Lemma flushed_ops ops p c :
  flushed p (cow_ResponseWriter c) → flushed (foldl rw_op p ops) (cow_ResponseWriter (foldl cors_op c ops)).
Proof.
  revert p c. induction ops as [|o ops IH]; intros p c Hf; [done|]. cbn [foldl]. by apply IH, flushed_op.
Qed.

(** Until something is sent both writers are the same. *)
Lemma cors_ops origin ops h :
  Forall leaves_alone ops →
  let p := rw_finish (foldl rw_op (mkRw h [] None []) ops) in
  let c := rw_finish (cow_ResponseWriter (foldl cors_op (mkCorsWriter (mkRw h [] None []) origin false) ops)) in
  if announces ops then decorated origin p c else flushed p c.
Proof.
  intros Hops. revert h. induction Hops as [|o ops Ho Hops IH]; intros h.
  { by split_and!. }
  destruct o as [k v|k v|code|b|]; cbn [announces]; [apply (IH (hset k v h))|apply (IH (hadd k v h))|..]; cbv zeta.
  - apply decorated_WriteHeader. cbn [foldl rw_op cors_op]. set (c := cors_WriteHeader code _).
    apply (decorated_ops ops _ c Hops); [done|]. by apply (decorated_WriteHeader origin code (mkRw h [] None [])).
  - apply decorated_WriteHeader. cbn [foldl rw_op cors_op]. set (c := cors_Write b _).
    apply (decorated_ops ops _ c Hops); [done|].
    by apply (decorated_append origin b), (decorated_WriteHeader origin 200 (mkRw h [] None [])).
  - apply flushed_WriteHeader. cbn [foldl rw_op cors_op]. apply flushed_ops. by split_and!.
Qed.

Section Entry.
Context `{FL : Float64} {A C UE U : Type} `{AA : !Adapter A} `{NU : NetUrl} `{CF : CaseFold}.
Implicit Types (s : server A C UE U) (r : http_request) (engine : http_request → list wop).

Definition origin_of r : string := hget "Origin" (hr_header r).
Definition allows (c : CORSConfig) r : bool := AllowAll c || originAllowed c (bytes_of (origin_of r)).

(** What is answered before the engine sees the request, whatever the engine
    does: outside the configured path 404; to a preflight of an origin that is
    allowed 204, with the headers of the protocol, the request's own list of
    headers echoed; to any request of another origin 403 without a header or a
    body. *)
Theorem cors_gate engine s r c :
  srv_cors s = Some c →
  (path_refused (srv_path s) r = true →
     fst <$> rw_sent (response engine s r) = Some 404 ∧
     string_of (take 18 (rw_body (response engine s r))) = "404 page not found")
  ∧ (path_refused (srv_path s) r = false →
     (allows c r = false → response engine s r = mkRw ∅ [] (Some (403, ∅)) [])
     ∧ (allows c r = true → rq_method (hr_req r) = "OPTIONS" →
        ∃ h, rw_sent (response engine s r) = Some (204, h) ∧ rw_body (response engine s r) = [] ∧
          h !! acao = Some [corsOriginValue c (origin_of r)] ∧
          h !! "Access-Control-Allow-Methods" = Some ["GET,POST"] ∧
          hget "Access-Control-Allow-Headers" h = hget "Access-Control-Request-Headers" (hr_header r) ∧
          h !! "Access-Control-Max-Age" = Some ["86400"] ∧ h !! "Vary" = Some ["Origin"])).
Proof.
  intros Hc. unfold response, ServeHTTP. rewrite Hc. split; intros Hp; rewrite Hp; [done|].
  unfold handleCORS, allows. fold (origin_of r). split.
  - intros Ha. rewrite Ha. by case_decide.
  - intros Ha Hm. rewrite Ha, decide_True by done. cbn [negb]. eexists. split; [done|]. split; [done|].
    unfold preflight_headers. fold (origin_of r). unfold hadd, hset.
    case_decide as Hh; split_and!; unfold hget; rewrite ?Hh; try by simplify_map_eq.
Qed.

Definition without_cors s : server A C UE U :=
  mkServer (srv_engine s) (srv_accept s) (srv_path s) None (srv_world s).

(** C40. For every other request the CORS layer is transparent: the response is, in
    status, body, headers and informational responses, the one the engine gives
    without it, with the origin in Access-Control-Allow-Origin and with Vary,
    for every handler that leaves these two headers alone and begins its
    response with [WriteHeader] or [Write]; a handler that does not, because it
    flushes first or writes nothing, gets the same response without them. *)
Theorem cors_transparent engine s r c :
  srv_cors s = Some c → path_refused (srv_path s) r = false →
  allows c r = true → rq_method (hr_req r) ≠ "OPTIONS" → Forall leaves_alone (engine r) →
  let plain := response engine (without_cors s) r in
  if announces (engine r) then decorated (corsOriginValue c (origin_of r)) plain (response engine s r)
  else flushed plain (response engine s r).
Proof.
  intros Hc Hp Ha Hm He. unfold response, ServeHTTP, without_cors. cbn [srv_path srv_cors]. rewrite Hc, Hp.
  unfold handleCORS. fold (origin_of r) (allows c r). rewrite Ha, decide_False by done. cbn [negb].
  by apply (cors_ops (corsOriginValue c (origin_of r)) (engine r) ∅).
Qed.

(** A nil configuration and one of zero values give the server of
    [NewServer(nil)], which hands every request to its engine as it is. *)
Lemma NewServer_nil (ue : UE) (u : U) :
  NewServerWithConfig (A := A) (C := C) None ue u = NewServer None ue u ∧
  NewServerWithConfig (A := A) (C := C) (Some (mkServerConfig None "" None None)) ue u = NewServer None ue u ∧
  ∀ engine r w, ServeHTTP engine (NewServer (A := A) (C := C) None ue u) r w = foldl rw_op w (engine r).
Proof. done. Qed.
End Entry.

(** A server for one origin under a path, and the engine's answer to a request
    without a transport. *)
Definition guarded : server Memory.memoryAdapter unit unit unit :=
  NewServerWithConfig (Some (mkServerConfig None "/socket.io/"
    (Some (mkCors false [bytes_of "https://example.com"])) None)) tt tt.
Definition refusing (r : http_request) : list wop :=
  exchange_ops (abort_response ErrCodeUnknownTransport None (new_exchange (hr_req r))).
Definition from (meth origin : string) : http_request :=
  mkHttpRequest "/socket.io/" {["Origin" := [origin]; "Access-Control-Request-Headers" := ["x-token"]]}
    (mkRequest meth [] "" [] None "").

Lemma cors_gate_witness :
  response refusing guarded (from "GET" "https://evil.com") = mkRw ∅ [] (Some (403, ∅)) [] ∧
  (∃ h, rw_sent (response refusing guarded (from "OPTIONS" "https://example.com")) = Some (204, h) ∧
        h !! acao = Some ["https://example.com"] ∧ hget "Access-Control-Allow-Headers" h = "x-token").
Proof.
  destruct (cors_gate refusing guarded (from "GET" "https://evil.com") (mkCors false [bytes_of "https://example.com"]))
    as (_ & H1); [done|]. destruct H1 as (H1 & _); [by vm_compute|].
  destruct (cors_gate refusing guarded (from "OPTIONS" "https://example.com") (mkCors false [bytes_of "https://example.com"]))
    as (_ & H2); [done|]. destruct H2 as (_ & H2); [by vm_compute|].
  split; [apply H1; by vm_compute|]. destruct H2 as (h & A1 & _ & A2 & _ & A3 & _); [by vm_compute|done|].
  exists h. split_and!; [exact A1|exact A2|exact A3].
Defined.

Lemma cors_transparent_witness :
  let plain := response refusing (without_cors guarded) (from "GET" "https://example.com") in
  fst <$> rw_sent plain = Some 400 ∧
  decorated "https://example.com" plain (response refusing guarded (from "GET" "https://example.com")).
Proof.
  split; [by vm_compute|].
  apply (cors_transparent refusing guarded (from "GET" "https://example.com") (mkCors false [bytes_of "https://example.com"])).
  - done.
  - by vm_compute.
  - by vm_compute.
  - done.
  - repeat constructor; done.
Defined.
