(* ===== verification/FullStack.v ===== *)
(** * FullStack: Socket.IO packets over Engine.IO over HTTP

    The frames that the Socket.IO layers of SioServer and SioClient hand to
    their sessions, carried by the Engine.IO client and server of
    EngineEndToEnd in a session over polling. *)

From S2P Require Import Prelude.
From S2P Require Import EnginePacket.
From S2P Require Import Strconv.
From S2P Require Import Utf8.
From S2P Require Import EngineTypes.
From S2P Require Import EngineOptions.
From S2P Require Import EngineSocket.
From S2P Require Import EngineServer.
From S2P Require Import EngineDemo.
From S2P Require Import EngineHandlers.
From S2P Require Import ClientTypes.
From S2P Require Import ClientTransport.
From S2P Require Import ClientEngine.
From S2P Require Import ClientDemo.
From S2P Require Import ClientHandlers.
From S2P Require Import EngineEndToEnd.
From S2P Require Import Value.
From S2P Require Import Json.
From S2P Require Import FixedFloat.
From S2P Require Import SioPacket.
From S2P Require Import Sched.
From S2P Require Import Adapter.
From S2P Require Import SioServer.
From S2P Require Import SioWire.
From S2P Require Import SioClientTypes.
From S2P Require Import SioClient.
From S2P Require Import SioClientDemo.
From S2P Require Import SioClientHandlers.

#[local] Opaque json_max_depth EncodePayload.

(** ** Frames a payload carries *)

Lemma printable_no_separator l : Forall printable l → separator ∉ l.
Proof. intros HF Hin. rewrite Forall_forall in HF. specialize (HF _ Hin). revert HF. by vm_compute. Qed.

Section Frames.
Context `{FL : Float64} `{!Float64Laws} `{JS : !JSON}.

Lemma Encode_no_separator q : packet_ok q → separator ∉ bytes_of (pNsp q) → separator ∉ Encode q.
Proof.
  intros [_ Hi Ha Hd] Hn. unfold Encode. rewrite !not_elem_of_app. split_and!.
  - apply printable_no_separator, Forall_singleton. by destruct (pType q); vm_compute.
  - destruct (is_binary_type (pType q)); [|by apply not_elem_of_nil]. apply printable_no_separator, Forall_app.
    split; [by apply FormatInt_printable|]. apply Forall_singleton. by vm_compute.
  - case_decide; [|by apply not_elem_of_nil]. rewrite not_elem_of_app. split; [done|].
    apply printable_no_separator, Forall_singleton. by vm_compute.
  - destruct (Z.leb_spec 0 (pID q)); [|by apply not_elem_of_nil]. apply printable_no_separator, FormatInt_printable.
    destruct Hi as [Hi|?]; [lia|done].
  - destruct Hd as [->|(Hnil & Hj & _)]; [by apply not_elem_of_nil|]. rewrite Hnil.
    destruct (json_round_trip _ Hj) as (j & Hm & _). rewrite Hm. simpl.
    apply printable_no_separator. exact (json_marshal_no_control _ _ Hj Hm).
Qed.

(** A packet whose frames HTTP carries: the name of its namespace has no
    separator of payloads in it.  The rest of a frame never has. *)
Definition crossable (p : SioPacket.Packet) : Prop := sendable p ∧ separator ∉ bytes_of (pNsp p).

Lemma frames_sayable p st : crossable p → Forall (λ f, sayable f.1 f.2) (frames p st).1.
Proof.
  intros [Hs Hn]. unfold frames. rewrite (args_ok_nil _ _ (sd_args _ Hs)). simpl.
  destruct (hasBinary (pData p)) eqn:Hb.
  - destruct (deconstruct (pData p) (st, [])) as [[d|e] [st' bufs]] eqn:Hd; [|constructor].
    destruct (deconstructed_ok p st d st' bufs Hs Hd) as [Hok _]. constructor.
    + intros _. by apply Encode_no_separator.
    + apply Forall_fmap, Forall_true. by intros b.
  - apply Forall_singleton. intros _. apply Encode_no_separator; [by apply plain_ok|done].
Qed.

Lemma frames_all_sayable l st : Forall crossable l → Forall (λ f, sayable f.1 f.2) (frames_all l st).1.
Proof.
  intros Hl. revert st. induction Hl as [|p l Hp _ IH]; intros st; [constructor|]. cbn [frames_all].
  pose proof (frames_sayable p st Hp) as Hf. destruct (frames p st) as [fs st1]. specialize (IH st1).
  destruct (frames_all l st1) as [fs' st2]. by apply Forall_app.
Qed.
End Frames.

(** ** The streams of the two sides *)

Definition by_client (x : said) : option (bytes * bool) :=
  match x with ByClient data b => Some (data, b) | _ => None end.
Definition by_server (x : said) : option (bytes * bool) :=
  match x with ByServer data b => Some (data, b) | _ => None end.

(** [l] is an interleaving of the frames of the client and of the server. *)
Definition interleaves (l : list said) (fcs fss : list (bytes * bool)) : Prop :=
  omap by_client l = fcs ∧ omap by_server l = fss.

Lemma interleaved_can_say limit l fcs fss :
  interleaves l fcs fss →
  Forall (λ f, sayable f.1 f.2 ∧ fits_limit limit f.1 f.2) fcs → Forall (λ f, sayable f.1 f.2) fss →
  Forall (can_say limit) l.
Proof.
  intros [<- <-]. induction l as [|[data b|data b] l IH]; [constructor|..]; cbn [omap list_omap by_client by_server].
  - intros [H1 H2]%Forall_cons H3. constructor; [done|by apply IH].
  - intros H1 [H2 H3]%Forall_cons. constructor; [done|by apply IH].
Qed.

(** A user's state after these frames. *)
Definition hears {X} (g : bytes → bool → X → X) (u : X) (fs : list (bytes * bool)) : X :=
  foldl (λ u f, g f.1 f.2 u) u fs.

Lemma interleaved_heard {X Y} l fcs fss s c (gs : bytes → bool → X → X) (gc : bytes → bool → Y → Y) u v :
  interleaves l fcs fss →
  omap (server_hears s) l = (λ f, UpData s f.1 f.2) <$> fcs ∧
  omap (client_hears c) l = (λ f, CUpData c f.1 f.2) <$> fss ∧
  foldl (server_learns gs) u l = hears gs u fcs ∧ foldl (client_learns gc) v l = hears gc v fss.
Proof.
  intros [<- <-]. revert u v.
  induction l as [|[data b|data b] l IH]; intros u v; [done|..];
    cbn [omap list_omap by_client by_server server_hears client_hears foldl server_learns client_learns].
  - destruct (IH (gs data b u) v) as (-> & -> & -> & ->). done.
  - destruct (IH u (gc data b v)) as (-> & -> & -> & ->). done.
Qed.

Section Stack.
Context {CC SC CU SU : Type} `{WC : !WebsocketConn CC} `{WS : !WebsocketConn SC}.
Context (cchoose schoose : nat → bool) (rand : nat → bytes) (addr : string).
Context (cusr : cl_user (C := CC) (U := CU)) (susr : EngineSocket.user (C := SC) (U := SU)).
Context `{FL : Float64} `{!Float64Laws} `{JS : !JSON} {A X Y : Type}.
Context `{RN : !Runner (scworld X) sc_method}.

(** C9. Socket.IO packets cross HTTP.  In a session over polling, let the Socket.IO
    client send the packets [lc] and the Socket.IO server the packets [lz].
    Both hand their frames to the session; in whatever order these frames of
    the two sides are interleaved, POSTs and polls carry them all, the user of
    either engine is told exactly the other side's frames in their order, and
    from these frames a Socket.IO receiver processes exactly the packets sent,
    in order and with their attachments. *)
Theorem packets_over_http n c p s ps fc fs gc gs limit (lc lz : list SioPacket.Packet) cw sw
    (wc : scworld X) (ws : SioServer.world A Y) cn ec :
  in_session c p s ps (Some fc) (Some fs) limit cw sw →
  client_data_effect cchoose cusr fc gc → server_data_effect schoose susr fs gs → 0 ≤ limit < int64_max →
  sc_engine wc = Some c → eng_open wc c = true → conns ws !! cn = Some ec → ec_es ec = s →
  Forall crossable lc → Forall crossable lz →
  let '(fcs, stc) := frames_all lc (sc_store wc) in
  let '(fss, sts) := frames_all lz (store ws) in
  exec (for_each lc sc_sendPacket) wc
    = Some (tt, set_sc_sent (λ l, l ++ to_conn c fcs) (set_sc_store stc wc), []) ∧
  exec (for_each lz (SioServer.sendPacket cn)) ws
    = Some (tt, set_sent (λ l, l ++ to_conn s fss) (set_store sts ws), []) ∧
  receive_all fcs None = ((delivered lc (sc_store wc)).1, None) ∧
  receive_all fss None = ((delivered lz (store ws)).1, None) ∧
  ∀ l, interleaves l fcs fss → Forall (λ f, fits_limit limit f.1 f.2) fcs →
    ∃ cw' sw', talks cchoose schoose rand addr cusr susr n c p s cw sw l cw' sw' ∧
      in_session c p s ps (Some fc) (Some fs) limit cw' sw' ∧
      uplog sw' = uplog sw ++ ((λ f, UpData s f.1 f.2) <$> fcs) ∧ EngineTypes.app sw' = hears gs (EngineTypes.app sw) fcs ∧
      cuplog cw' = cuplog cw ++ ((λ f, CUpData c f.1 f.2) <$> fss) ∧ capp cw' = hears gc (capp cw) fss.
Proof.
  intros Hin Hgc Hgs Hl He Ho Hcn Hs Hlc Hlz.
  assert (∀ l : list SioPacket.Packet, Forall crossable l → Forall sendable l) as Hsend
    by (intros l Hc; eapply Forall_impl; [exact Hc|by intros q []]).
  pose proof (ex_send_all c lc wc He Ho) as E1. pose proof (exec_send_all cn ec lz ws Hcn) as E2.
  pose proof (frames_all_sayable lc (sc_store wc) Hlc) as S1. pose proof (frames_all_sayable lz (store ws) Hlz) as S2.
  destruct (frames_all_received lc (sc_store wc) (Hsend lc Hlc)) as [R1 _].
  destruct (frames_all_received lz (store ws) (Hsend lz Hlz)) as [R2 _].
  destruct (frames_all lc (sc_store wc)) as [fcs stc], (frames_all lz (store ws)) as [fss sts].
  rewrite Hs in E2. split_and!; [done..|].
  intros l Hil Hfit. destruct (http_conversation cchoose schoose rand addr cusr susr n c p s ps fc fs gc gs limit l cw sw)
    as (cw' & sw' & H1 & H2 & H3 & H4 & H5 & H6); try done.
  { eapply interleaved_can_say; [done| |done]. by apply Forall_and. }
  destruct (interleaved_heard l _ _ s c gs gc (EngineTypes.app sw) (capp cw) Hil) as (G1 & G2 & G3 & G4).
  exists cw', sw'. by rewrite H3, H4, H5, H6, G1, G2, G3, G4.
Qed.
End Stack.

(** Without the condition on the name of the namespace a frame does not cross:
    the payload is cut inside the name, and the second part is refused. *)
Definition cut_name : string := string_of ("/"%byte :: "a"%byte :: separator :: [ "b"%byte ]).

Example cut_frame :
  nsp_ok cut_name ∧
  let pk := message (Encode (SioPacket.mkPacket Event cut_name (-1) (VArr [VStr "e"]) 0)) false in
  DecodePayload (EncodePayload [pk]) = ([message (bytes_of "2/a") false], Some ErrInvalidPayload).
Proof. split; [split; [done|apply (bool_decide_unpack (_ ∉ _)); by vm_compute]|vm_compute; reflexivity]. Qed.

(** ** A concrete run *)

#[local] Instance demo_stack : Runner scw sc_method := @calls scw sc_method _ 0.

Definition two_events : list SioPacket.Packet := [buffer_event "a" "x"; buffer_event "b" "y"].
Definition one_event : list SioPacket.Packet := [buffer_event "c" "z"].

Lemma crossable_buffer_event name b :
  isReservedEvent name = false → utf8_valid (bytes_of name) = true → crossable (buffer_event name b).
Proof.
  intros Hr Hu. split; [by apply sendable_buffer_event|]. apply (bool_decide_unpack (separator ∉ _)). by vm_compute.
Qed.

Lemma demo_crossable : Forall crossable two_events ∧ Forall crossable one_event.
Proof.
  split; repeat (apply List.Forall_cons; [by apply crossable_buffer_event|]); constructor.
Qed.

(** The server speaks between the frames of the client. *)
Definition woven : list said :=
  let fcs := (frames_all two_events ∅).1 in
  (uncurry ByClient <$> take 1 fcs) ++ (uncurry ByServer <$> (frames_all one_event ∅).1)
  ++ (uncurry ByClient <$> drop 1 fcs).

Lemma packets_over_http_witness :
  ∃ fcs cw' sw', talks choose choose rand "client" keeper counting 0 0%nat 0%nat 0%nat
      talking_client EngineHandlers.listening woven cw' sw' ∧
    uplog sw' = ((λ f, UpData 0%nat f.1 f.2) <$> fcs) ∧ length (cuplog cw') = 2%nat ∧
    receive_all fcs None
    = ([SioPacket.mkPacket Event "/" (-1) (VArr [VStr "a"; VBytes (bytes_of "x")]) 1;
        SioPacket.mkPacket Event "/" (-1) (VArr [VStr "b"; VBytes (bytes_of "y")]) 1], None).
Proof.
  pose proof (packets_over_http choose choose rand "client" keeper counting 0 0%nat 0%nat 0%nat 0%nat 0%nat 0%nat
    keep_data count_data 1048576 two_events one_event talking_client EngineHandlers.listening (home None) one_conn 0%nat (new_conn 0)
    talking_session) as H.
  destruct demo_crossable as [Hc1 Hc2].
  assert (sc_store (home None) = ∅ ∧ store one_conn = ∅) as [E1 E2] by (split; vm_compute; reflexivity).
  rewrite E1, E2 in H.
  destruct (frames_all two_events ∅) as [fcs stc] eqn:F1.
  destruct (frames_all one_event ∅) as [fss sts] eqn:F2.
  destruct H as (_ & _ & H3 & _ & H5); [by intros ????|by intros ????|by vm_compute|reflexivity..|done|done|].
  assert (fcs = (frames_all two_events ∅).1) as -> by (by rewrite F1).
  assert (fss = (frames_all one_event ∅).1) as -> by (by rewrite F2).
  destruct (H5 woven) as (cw' & sw' & T1 & _ & T2 & _ & T3 & _).
  - split; vm_compute; reflexivity.
  - apply (bool_decide_unpack (Forall (λ f, blen (EncodePayload [message f.1 f.2]) ≤ 1048576) _)). vm_compute. exact I.
  - exists (frames_all two_events ∅).1, cw', sw'. split_and!; [exact T1|..].
    + rewrite T2. vm_compute. reflexivity.
    + rewrite T3. vm_compute. reflexivity.
    + rewrite H3. reflexivity.
Defined.
