(* ===== verification/SioEndToEnd.v ===== *)
(** * SioEndToEnd: a client and a server

    What the client of SioClient and the server of SioServer do together: the
    frames one of them hands to its Engine.IO session are given to the other,
    in order, and processed there.  Connecting a namespace, and an event with
    its acknowledgement. *)

From S2P Require Import Prelude.
From S2P Require Import Base64.
From S2P Require Import Strconv.
From S2P Require Import Utf8.
From S2P Require Import Value.
From S2P Require Import Json.
From S2P Require Import FixedFloat.
From S2P Require Import SioPacket.
From S2P Require Import AckTable.
From S2P Require Import PacketQueue.
From S2P Require Import Adapter.
From S2P Require Import Emitter.
From S2P Require Import Sched.
From S2P Require Import SioServer.
From S2P Require Import SioWire.
From S2P Require Import SioInvariant.
From S2P Require Import SioHandlers.
From S2P Require Import SioClientTypes.
From S2P Require Import SioClient.
From S2P Require Import SioClientDemo.
From S2P Require Import SioClientHandlers.

#[local] Opaque json_max_depth.

Lemma exec_then_skip {W M : Type} `{RN : !Runner W M} (p : mprog W M unit) w : exec (p ≫= λ _, skip) w = exec p w.
Proof. rewrite exec_bind. destruct (exec p w) as [[[[] w'] ts]|]; [|done]. simpl. by rewrite app_nil_r. Qed.

Lemma exec_for_each_snoc {W M B : Type} `{RN : !Runner W M} (l : list B) b (f : B → mprog W M unit) w w' :
  exec (for_each l f) w = Some (tt, w', []) → exec (for_each (l ++ [b]) f) w = exec (f b) w'.
Proof.
  revert w. induction l as [|x l IH]; intros w.
  - intros [= <-]. apply exec_then_skip.
  - rewrite <- app_comm_cons. cbn [for_each]. rewrite !exec_bind. destruct (exec (f x) w) as [[[[] w1] ts]|]; [|done].
    destruct (exec (for_each l f) w1) as [[[[] w2] ts2]|] eqn:E; [|done]. intros [= -> Hts].
    apply app_nil in Hts as [-> ->]. rewrite (IH w1 E). by destruct (exec (f b) w') as [[[[] ?] ?]|].
Qed.

(** ** The client reads frames *)
Section ClientReads.
Context `{FL : Float64} `{JS : !JSON} {U data : Type}.
Context (unmarshal_into : gtype → bytes → option data) (usr : sc_user (U := U) (data := data)).
Context `{RN : !Runner (scworld U) sc_method}.
Implicit Types (w : scworld U).

Definition client_reads (fs : list (bytes * bool)) : mprog (scworld U) sc_method unit :=
  for_each fs (λ f, sc_handleIn unmarshal_into usr f.1 f.2).

Lemma ex_sc_handleIn b bin w :
  exec (sc_handleIn unmarshal_into usr b bin) w
  = let '(p, r) := receive b bin (sc_recon w) in
    match p with
    | Some p => exec (sc_process unmarshal_into usr p) (set_sc_recon r w)
    | None => Some (tt, set_sc_recon r w, [])
    end.
Proof.
  unfold sc_handleIn. rewrite exec_bind, exec_atomic. destruct (receive b bin (sc_recon w)) as [[p|] r]; [|done].
  cbn [fst snd]. by destruct (exec (sc_process unmarshal_into usr p) (set_sc_recon r w)) as [[[[] ?] ?]|].
Qed.

Lemma ex_client_silent fs r w :
  receive_all fs (sc_recon w) = ([], r) → exec (client_reads fs) w = Some (tt, set_sc_recon r w, []).
Proof.
  unfold client_reads. revert w. induction fs as [|[b bin] fs IH]; intros w; cbn [receive_all for_each].
  - intros [= <-]. by destruct w.
  - destruct (receive b bin (sc_recon w)) as [p r1] eqn:Hr.
    destruct (receive_all fs r1) as [ps r2] eqn:Hr2. intros [= Hp ->]. apply app_nil in Hp as [Hp ->].
    destruct p as [p|]; [done|]. rewrite exec_bind, ex_sc_handleIn. cbn [fst snd]. rewrite Hr.
    by rewrite (IH (set_sc_recon r1 w) Hr2).
Qed.

(** The frames of one packet: it is processed. *)
Lemma ex_client_reads fs q w :
  sc_recon w = None → arrives fs q →
  exec (client_reads fs) w = exec (sc_process unmarshal_into usr q) w.
Proof.
  intros Hw (fs1 & b & bin & r & -> & H1 & H2).
  unfold client_reads. rewrite (exec_for_each_snoc fs1 _ _ _ (set_sc_recon r w)).
  - rewrite ex_sc_handleIn. cbn [fst snd sc_recon set_sc_recon]. rewrite H2.
    replace (set_sc_recon None (set_sc_recon r w)) with w; [done|]. destruct w. simpl in *. by subst.
  - apply ex_client_silent. by rewrite Hw.
Qed.
End ClientReads.

(** ** The server reads frames *)
Section ServerReads.
Context `{FL : Float64} `{JS : !JSON} {A : Type} `{AO : !Adapter A} {U data : Type}.
Context (rand : nat → bytes) (ord : nat → order).
Context (unmarshal_into : gtype → bytes → option data) (usr : user A U data).
Abbreviation W := (world A U).
Implicit Types (w : W) (ec : engineConn) (k : socket) (ns : namespace A).

Definition server_reads (c : connp) (fs : list (bytes * bool)) : prog W unit :=
  for_each fs (λ f, handleIn rand ord unmarshal_into usr c f.1 f.2).

Lemma upd_conn_twice c f g w : upd_conn c f (upd_conn c g w) = upd_conn c (λ ec, f (g ec)) w.
Proof.
  unfold upd_conn, set_conns. simpl. f_equal. apply list_eq. intros i. destruct (decide (c = i)) as [<-|Hne].
  - rewrite !list_lookup_alter_eq. by destruct (conns w !! c).
  - by rewrite !list_lookup_alter_ne.
Qed.

Lemma ex_handleIn c ec b bin w :
  conns w !! c = Some ec →
  exec (handleIn rand ord unmarshal_into usr c b bin) w
  = let '(p, r) := receive b bin (recon ec) in
    match p with
    | Some p => exec (process rand ord unmarshal_into usr c p) (upd_conn c (set_recon r) w)
    | None => Some (tt, upd_conn c (set_recon r) w, [])
    end.
Proof.
  intros Hc. unfold handleIn. rewrite exec_bind, exec_atomic, Hc.
  destruct (receive b bin (recon ec)) as [[p|] r]; [|done]. cbn [fst snd].
  by destruct (exec (process _ _ _ _ c p) (upd_conn c (set_recon r) w)) as [[[[] ?] ?]|].
Qed.

Lemma ex_server_silent c ec fs r w :
  conns w !! c = Some ec → receive_all fs (recon ec) = ([], r) →
  exec (server_reads c fs) w = Some (tt, upd_conn c (set_recon r) w, []).
Proof.
  unfold server_reads. revert ec w. induction fs as [|[b bin] fs IH]; intros ec w Hc; cbn [receive_all for_each].
  - intros [= <-]. by rewrite (upd_conn_recon_id c ec).
  - destruct (receive b bin (recon ec)) as [p r1] eqn:Hr.
    destruct (receive_all fs r1) as [ps r2] eqn:Hr2. intros [= Hp ->]. apply app_nil in Hp as [Hp ->].
    destruct p as [p|]; [done|]. rewrite exec_bind, (ex_handleIn c ec) by done. cbn [fst snd]. rewrite Hr.
    rewrite (IH (set_recon r1 ec)); [by rewrite upd_conn_twice| |done].
    unfold upd_conn. simpl. by rewrite list_lookup_alter_eq, Hc.
Qed.

Lemma ex_server_reads c ec fs q w :
  conns w !! c = Some ec → recon ec = None → arrives fs q →
  exec (server_reads c fs) w = exec (process rand ord unmarshal_into usr c q) w.
Proof.
  intros Hc Hr (fs1 & b & bin & r & -> & H1 & H2).
  unfold server_reads. rewrite (exec_for_each_snoc fs1 _ _ _ (upd_conn c (set_recon r) w)).
  - cbn [fst snd]. rewrite (ex_handleIn c (set_recon r ec))
      by (unfold upd_conn; simpl; by rewrite list_lookup_alter_eq, Hc).
    cbn [recon set_recon]. rewrite H2, upd_conn_twice.
    change (λ ec, set_recon None (set_recon r ec)) with (set_recon None). by rewrite <- Hr, (upd_conn_recon_id c ec).
  - apply (ex_server_silent c ec); [done|]. by rewrite Hr.
Qed.

(** ** The server handles an event *)

Definition quiet_handlers (out : fn → list rvalue → list rout) (g : fn → list rvalue → U → U) : Prop :=
  ∀ h ins w, exec (u_event usr h ins) w = Some (out h ins, set_app (g h ins) w, []).

(** What one handler comes to: the values it adds to the acknowledgement, the
    state it leaves, the goroutines that report a failed dispatch. *)
Definition server_results (out : fn → list rvalue → list rout) s args h : list gval :=
  match invokeHandler unmarshal_into (u_sig usr h) s args with
  | Calls ins => collectResults (out h ins)
  | _ => []
  end.
Definition server_effect (g : fn → list rvalue → U → U) s args h (u : U) : U :=
  match invokeHandler unmarshal_into (u_sig usr h) s args with Calls ins => g h ins u | _ => u end.
Definition server_reports ns s args h : list (thread W Empty_set) :=
  match invokeHandler unmarshal_into (u_sig usr h) s args with
  | Mismatch => (λ f, Once (u_error usr f s ErrHandlerMismatch)) <$> on_error ns
  | _ => []
  end.

(** The state after a handler whose wait group had [x] in it. *)
Definition after_server_handler out g s args cs h (x : cell) w : W :=
  set_cells (λ _, cs ++ [mkCell (pred (pending x)) (results x ++ server_results out s args h)])
    (set_app (server_effect g s args h) w).

Lemma ex_server_handler out g nsp ns s args cs h x w :
  quiet_handlers out g → invokeHandler unmarshal_into (u_sig usr h) s args ≠ Panics →
  nsps w !! nsp = Some ns → cells w = cs ++ [x] →
  exec (run_handler unmarshal_into usr (length cs) nsp s args h) w
  = Some (tt, after_server_handler out g s args cs h x w, server_reports ns s args h).
Proof.
  intros Hq Hp Hn Hc. unfold run_handler, after_server_handler, server_results, server_effect, server_reports.
  assert (∀ f x0 w1, cells w1 = cs ++ [x0] → upd_cell (length cs) f w1 = set_cells (λ _, cs ++ [f x0]) w1) as Hcell.
  { intros f k0 w1 E. unfold upd_cell, set_cells. by rewrite E, alter_snoc. }
  destruct (invokeHandler _ _ _ _) as [| |ins]; [|done|].
  - unfold fireOnError, ns_get. rewrite !exec_bind, ex_gets, Hn, exec_spawn. unfold wg_Done.
    rewrite ex_update, (Hcell _ x), app_nil_r, app_nil_r by done. by destruct w.
  - rewrite exec_bind, Hq, exec_bind, ex_update. unfold wg_Done. rewrite ex_update. cbn [app].
    rewrite (Hcell _ x (set_app _ w)) by done.
    by rewrite (Hcell _ (mkCell (pending x) (results x ++ collectResults (out h ins)))).
Qed.

Lemma ex_server_handlers out g nsp ns s args cs hs rs w :
  quiet_handlers out g →
  Forall (λ h, invokeHandler unmarshal_into (u_sig usr h) s args ≠ Panics) hs →
  nsps w !! nsp = Some ns → cells w = cs ++ [mkCell (length hs) rs] →
  ∃ w', exec (for_each hs (run_handler unmarshal_into usr (length cs) nsp s args)) w
        = Some (tt, w', hs ≫= server_reports ns s args) ∧
    cells w' = cs ++ [mkCell 0 (rs ++ (hs ≫= server_results out s args))] ∧
    (nsps w', socks w', conns w', sent w', store w') = (nsps w, socks w, conns w, sent w, store w) ∧
    app w' = foldl (λ u h, server_effect g s args h u) (app w) hs.
Proof.
  intros Hq. revert rs w. induction hs as [|h hs IH]; intros rs w Hp Hn Hc; cbn [for_each].
  { exists w. split_and!; [done|by rewrite app_nil_r|done..]. }
  apply Forall_cons in Hp as [Hph Hp].
  rewrite exec_bind, (ex_server_handler out g nsp ns s args cs h (mkCell (length (h :: hs)) rs)) by done.
  destruct (IH (rs ++ server_results out s args h)
              (after_server_handler out g s args cs h (mkCell (length (h :: hs)) rs) w))
    as (w' & E & E1 & E2 & E3); [done..|].
  exists w'. rewrite E. split_and!; [done| |done..].
  rewrite E1. cbn [mbind list_bind]. by rewrite <- app_assoc.
Qed.

(** What is acknowledged: the results, or what the namespace has for an event
    without any. *)
Definition acknowledged ns (rs : list gval) : list gval := if decide (rs = []) then unknownAck ns else rs.

Lemma ex_send_results cl nsp ns s k ec pkt rs w :
  cells w !! cl = Some (mkCell 0 rs) → nsps w !! nsp = Some ns →
  socks w !! s = Some k → conns w !! sk_ec k = Some ec →
  exec (send_results cl nsp s pkt) w
  = let '(fs, st) := frames (ack_packet (pNsp pkt) (pID pkt) (acknowledged ns rs)) (store w) in
    Some (tt, set_sent (λ l, l ++ to_conn (ec_es ec) fs) (set_store st w), []).
Proof.
  intros Hc Hn Hk He. unfold send_results, wg_Wait. rewrite exec_bind, (ex_await _ _ tt w) by (by rewrite Hc).
  rewrite exec_bind, ex_gets, Hc. cbn [results].
  assert (∀ (q : prog W (list gval)), q = (if decide (rs = []) then unknownEventAck nsp else mret rs) →
    exec q w = Some (acknowledged ns rs, w, [])) as Hq.
  { intros q ->. unfold acknowledged, unknownEventAck, ns_get. case_decide; [by rewrite ex_gets, Hn|done]. }
  rewrite exec_bind, (Hq _ eq_refl). unfold send, sock_get. rewrite exec_bind, ex_gets, Hk.
  rewrite (exec_sendPacket _ ec) by done. by destruct (frames _ (store w)).
Qed.
End ServerReads.

(** ** A call: an event and its acknowledgement *)
Section Call.
Context `{FL : Float64} `{!Float64Laws} `{JS : !JSON} {A : Type} `{AO : !Adapter A}.
Context {CU SU data : Type}.
Context (rand : nat → bytes) (ord : nat → order) (unmarshal_into : gtype → bytes → option data).
Context (cusr : sc_user (U := CU) (data := data)) (susr : user A SU data).
Context `{RN : !Runner (scworld CU) sc_method}.
Implicit Types (cw : scworld CU) (ws : world A SU).

(** The client can call: the namespace is connected, the session open, no
    packet half received, the counter of acknowledgements not at its end. *)
Record can_call nsp (e : engp) cw : Prop := {
  cc_connected : is_connected cw nsp = true;
  cc_engine : sc_engine cw = Some e;
  cc_open : eng_open cw e = true;
  cc_recon : sc_recon cw = None;
  cc_seq : 0 <= seq (sc_acks cw) < int64_max;
}.

(** The server can answer it: the connection holds a socket of the
    namespace. *)
Record can_answer (c : connp) ec nsp (s : sockp) ns ws : Prop := {
  ca_conn : conns ws !! c = Some ec;
  ca_recon : recon ec = None;
  ca_held : ec_sockets ec !! nsp = Some s;
  ca_sock : ∃ k, socks ws !! s = Some k ∧ sk_nsp k = nsp ∧ sk_ec k = c;
  ca_ns : nsps ws !! nsp = Some ns;
}.

(** The arguments as the peer sees them. *)
Definition travels (args : list gval) (st : readers) (args' : list gval) (st' : readers) : Prop :=
  ∃ vs, resolve (VArr args) st = (Ok (VArr vs), st') ∧ args' = json_view <$> vs.

Lemma resolve_event event args st vs st' :
  resolve (VArr args) st = (Ok (VArr vs), st') →
  resolve (VArr (VStr event :: args)) st = (Ok (VArr (VStr event :: vs)), st').
Proof.
  cbn [resolve SE_map]. unfold mbind, SE_bind, mret, SE_ret.
  destruct (SE_map resolve args st) as [[ws|] s]; [|done]. by intros [= -> ->].
Qed.

(** The event [p] and the acknowledgement [p], as they arrive. *)
Lemma event_frames nsp id event args st args' st' :
  sendable (event_packet nsp id event args) → travels args st args' st' →
  ∃ fs n, frames (event_packet nsp id event args) st = (fs, st') ∧
    arrives fs (mkPacket Event nsp id (VArr (VStr event :: args')) n).
Proof.
  intros Hs (vs & Hr & ->). pose proof (frames_received _ st Hs) as Hf. cbn [event_packet pData] in Hf.
  rewrite (resolve_event _ _ _ _ _ Hr) in Hf. destruct Hf as (fs & E & Ha). by eexists fs, _.
Qed.

Lemma ack_frames nsp id rs st rs' st' :
  sendable (ack_packet nsp id rs) → travels rs st rs' st' →
  ∃ fs n, frames (ack_packet nsp id rs) st = (fs, st') ∧ arrives fs (mkPacket Ack nsp id (VArr rs') n).
Proof.
  intros Hs (vs & Hr & ->). pose proof (frames_received _ st Hs) as Hf. cbn [ack_packet pData] in Hf.
  rewrite Hr in Hf. destruct Hf as (fs & E & Ha). by eexists fs, _.
Qed.

(** The client's half: the frames of the event, and what the frames of the
    acknowledgement do. *)
Lemma client_calls nsp e event f args args' st' cw :
  can_call nsp e cw → travels args (sc_store cw) args' st' →
  let id := seq (sc_acks cw) + 1 in
  sendable (event_packet nsp id event args) →
  ∃ fs n cw1,
    exec (sc_EmitWithAck nsp event (Some f) args) cw = Some ((id, None), cw1, []) ∧
    sc_sent cw1 = sc_sent cw ++ to_conn e fs ∧
    arrives fs (mkPacket Event nsp id (VArr (VStr event :: args')) n) ∧
    sc_recon cw1 = None ∧ sc_app cw1 = sc_app cw ∧ cbs (sc_acks cw1) = <[id := Some f]> (cbs (sc_acks cw)).
Proof.
  intros [Hc He Ho Hr Hq] Ht id Hs. destruct (event_frames _ _ _ _ _ _ _ Hs Ht) as (fs & n & Hf & Ha).
  assert (wrap64 (seq (sc_acks cw) + 1) = id) as Hid by (apply wrap64_small; lia).
  eexists fs, n, _. split; [rewrite ex_EmitWithAck, Hid by done; reflexivity|].
  unfold sent_packet, eng_open in *. change (sc_engine (awaiting id f cw)) with (sc_engine cw). rewrite He.
  change (sc_store (awaiting id f cw)) with (sc_store cw). rewrite Hf.
  change (sc_engs (awaiting id f cw)) with (sc_engs cw). rewrite Ho. by split_and!.
Qed.

Lemma client_answered g nsp id f rs' fs n cw :
  quiet_acks cusr g → sc_recon cw = None → cbs (sc_acks cw) !! id = Some (Some f) →
  arrives fs (mkPacket Ack nsp id (VArr rs') n) →
  exec (client_reads unmarshal_into cusr fs) cw = Some (tt, cw, [Once (sc_invoke_ack cusr id rs')]) ∧
  ∃ cw', exec (sc_invoke_ack cusr id rs') cw = Some (tt, cw', []) ∧
    sc_app cw' = g f rs' (sc_app cw) ∧ cbs (sc_acks cw') = delete id (cbs (sc_acks cw)).
Proof.
  intros Hg Hr Hid Ha. split; [by rewrite (ex_client_reads _ _ _ _ _ Hr Ha)|].
  eexists. split; [by apply (ex_invoke_registered cusr g id f)|done].
Qed.

(** The server's half. *)
Lemma server_answers out g c ec nsp s ns event id args' n fs hs rs' st' ws :
  quiet_handlers susr out g → can_answer c ec nsp s ns ws →
  arrives fs (mkPacket Event nsp id (VArr (VStr event :: args')) n) → 0 <= id →
  hs ≡ₚ default [] (events ns !! event) →
  Forall (λ h, invokeHandler unmarshal_into (u_sig susr h) s args' ≠ Panics) hs →
  let rs := acknowledged ns (hs ≫= server_results unmarshal_into susr out s args') in
  sendable (ack_packet nsp id rs) → travels rs (store ws) rs' st' →
  let cl := length (cells ws) in
  let q := mkPacket Event nsp id (VArr (VStr event :: args')) n in
  ∃ ws1 ws2 fs2 n2,
    exec (server_reads rand ord unmarshal_into susr c fs) ws
    = Some (tt, ws1, event_goroutines unmarshal_into susr ns nsp s event args' q cl) ∧
    exec (for_each hs (run_handler unmarshal_into susr cl nsp s args') ≫= λ _, send_results cl nsp s q) ws1
    = Some (tt, ws2, hs ≫= server_reports unmarshal_into susr ns s args') ∧
    sent ws2 = sent ws ++ to_conn (ec_es ec) fs2 ∧ arrives fs2 (mkPacket Ack nsp id (VArr rs') n2) ∧
    app ws2 = foldl (λ u h, server_effect unmarshal_into susr g s args' h u) (app ws) hs.
Proof.
  intros Hq [Hc Hrec Hs (k & Hk & Hkn & Hkc) Hn] Ha Hid Hhs Hp rs Hsend Ht cl q.
  destruct (ack_frames _ _ _ _ _ _ Hsend Ht) as (fs2 & n2 & Hf & Ha2).
  destruct (ex_server_handlers unmarshal_into susr out g nsp ns s args' (cells ws) hs []
              (set_cells (λ l, l ++ [mkCell (length hs) []]) ws)) as (v & E & E1 & E2 & E3); [done..|].
  injection E2 as F1 F2 F3 F4 F5.
  eexists _, _, fs2, n2. split_and!; [| | |exact Ha2|].
  - rewrite (ex_server_reads rand ord unmarshal_into susr c ec fs q) by done.
    destruct (handleEvent_dispatch unmarshal_into susr c ec q ws Hc) as [Hev _].
    unfold process. cbn [pType q]. rewrite (Hev s k ns event args') by (done || by rewrite Hkn).
    by rewrite Hkn, <- (Permutation_length Hhs).
  - rewrite exec_bind. unfold cl. rewrite E.
    rewrite (ex_send_results (length (cells ws)) nsp ns s k ec q (hs ≫= server_results unmarshal_into susr out s args') v).
    + fold rs. change (pNsp q) with nsp. change (pID q) with id. rewrite F5.
      change (store (set_cells _ ws)) with (store ws). rewrite Hf. by rewrite app_nil_r.
    + rewrite E1. by rewrite lookup_snoc.
    + by rewrite F1.
    + by rewrite F2.
    + rewrite F3, Hkc. done.
  - simpl. by rewrite F4.
  - simpl. by rewrite E3.
Qed.

(** C6. A call from the client to the server and back.  [EmitWithAck] on a
    connected namespace gives the next id; the frames it hands to the session,
    read by the server on a connection that holds a socket of the namespace,
    start one goroutine for each function of [OnAny], one for each handler of
    the event, with the arguments sent (readers replaced by their bytes), and
    one that acknowledges; once the handlers have run, in whatever order, the
    frames the last one hands back start one goroutine in the client, which
    runs the callback, with what the handlers returned, and takes it out of
    the table; the other callbacks stay. *)
Theorem call_round_trip out h g cw e nsp event f args args' st1 ws c ec s ns hs rs' st2 :
  quiet_acks cusr g → quiet_handlers susr out h →
  can_call nsp e cw → can_answer c ec nsp s ns ws →
  let id := seq (sc_acks cw) + 1 in
  let rs := acknowledged ns (hs ≫= server_results unmarshal_into susr out s args') in
  sendable (event_packet nsp id event args) → travels args (sc_store cw) args' st1 →
  sendable (ack_packet nsp id rs) → travels rs (store ws) rs' st2 →
  hs ≡ₚ default [] (events ns !! event) →
  Forall (λ h, invokeHandler unmarshal_into (u_sig susr h) s args' ≠ Panics) hs →
  let cl := length (cells ws) in
  ∃ cw1 fs n ws1 ws2 fs2 cw2,
    let q := mkPacket Event nsp id (VArr (VStr event :: args')) n in
    exec (sc_EmitWithAck nsp event (Some f) args) cw = Some ((id, None), cw1, []) ∧
    sc_sent cw1 = sc_sent cw ++ to_conn e fs ∧
    exec (server_reads rand ord unmarshal_into susr c fs) ws
    = Some (tt, ws1, event_goroutines unmarshal_into susr ns nsp s event args' q cl) ∧
    exec (for_each hs (run_handler unmarshal_into susr cl nsp s args') ≫= λ _, send_results cl nsp s q) ws1
    = Some (tt, ws2, hs ≫= server_reports unmarshal_into susr ns s args') ∧
    app ws2 = foldl (λ u x, server_effect unmarshal_into susr h s args' x u) (app ws) hs ∧
    sent ws2 = sent ws ++ to_conn (ec_es ec) fs2 ∧
    exec (client_reads unmarshal_into cusr fs2) cw1 = Some (tt, cw1, [Once (sc_invoke_ack cusr id rs')]) ∧
    exec (sc_invoke_ack cusr id rs') cw1 = Some (tt, cw2, []) ∧
    sc_app cw2 = g f rs' (sc_app cw) ∧ cbs (sc_acks cw2) = delete id (cbs (sc_acks cw)).
Proof.
  intros Hg Hq Hcc Hca id rs Hs1 Ht1 Hs2 Ht2 Hhs Hp cl.
  destruct (client_calls nsp e event f args args' st1 cw Hcc Ht1 Hs1)
    as (fs & n & cw1 & H1 & H2 & Ha & Hr & Happ & Hcbs).
  destruct (server_answers out h c ec nsp s ns event id args' n fs hs rs' st2 ws Hq Hca Ha)
    as (ws1 & ws2 & fs2 & n2 & H3 & H4 & H5 & Ha2 & H6); [by destruct Hcc; unfold id; lia|done..|].
  destruct (client_answered g nsp id f rs' fs2 n2 cw1 Hg Hr) as (H7 & cw2 & H8 & H9 & H10);
    [rewrite Hcbs; apply lookup_insert_eq|done|].
  exists cw1, fs, n, ws1, ws2, fs2, cw2. split_and!; [done..|by rewrite H9, Happ|].
  by rewrite H10, Hcbs, delete_insert_eq.
Qed.
End Call.

(** ** Connecting a namespace *)

(** The ids the server gives are ASCII. *)
Lemma utf8_valid_ascii s : Forall (λ c, in_range 0 127 c = true) s → utf8_valid s = true.
Proof.
  unfold utf8_valid. induction 1 as [|c s Hc _ IH]; [done|]. cbn [length utf8_valid_fuel utf8_len].
  rewrite Hc. cbn [drop]. by rewrite drop_0.
Qed.

Lemma socket_id_valid rand n : utf8_valid (bytes_of (socket_id rand n)) = true.
Proof.
  unfold socket_id. rewrite bytes_of_string_of. apply utf8_valid_ascii. unfold raw_url_encode.
  assert (Forall (λ c, in_range 0 127 (url_char c) = true) (b64_pad :: b64_alphabet)) as Hall
    by (apply (bool_decide_unpack (Forall _ _)); by vm_compute).
  rewrite Forall_forall in Hall.
  apply Forall_fmap, Forall_forall. intros c [_ Hc]%list_elem_of_filter. apply Hall.
  pose proof (base64_encode_out (rand n)) as Ho. rewrite Forall_forall in Ho.
  destruct (Ho c Hc) as [Ha| ->]; [by right|left].
Qed.

Section Joining.
Context `{FL : Float64} `{!Float64Laws} `{FO : !FloatOps} `{JS : !JSON} {A : Type} `{AO : !Adapter A} `{AL : !AdapterLaws A}.
Context {CU SU data : Type}.
Context (rand : nat → bytes) (ord : nat → order) (Hord : ∀ n, is_order (ord n)) (choose : nat → bool)
  (draw : nat → f64) (unmarshal_into : gtype → bytes → option data).
Context (cusr : sc_user (U := CU) (data := data)) (susr : user A SU data).
Implicit Types (cw : scworld CU) (ws : world A SU).

Context `{RN : !Runner (scworld CU) sc_method}.
Abbreviation ev n q w es := (@exec_env (scworld CU) sc_method (@env_calls _ _ (the_methods choose draw unmarshal_into cusr) n) _ q w es).

(** A packet without attachments is one frame. *)
Lemma plain_arrives p :
  packet_ok p → is_binary_type (pType p) = false →
  arrives [(Encode p, false)] (mkPacket (pType p) (pNsp p) (pID p) (json_view (pData p)) (pAttachments p)).
Proof.
  intros Hp Hb. exists [], (Encode p), false, None. split_and!; [done..|].
  cbn [receive]. unfold receive_text. rewrite Decode_Encode_aux by done. cbn [pType]. by rewrite Hb.
Qed.

(** The session delivers frames to a client that waits. *)
Definition client_gets (fs : list (bytes * bool)) cw : scworld CU :=
  match exec (client_reads unmarshal_into cusr fs) cw with Some (_, cw', _) => cw' | None => cw end.

Lemma asked_waits nsp auth cw :
  sc_recon (asked nsp auth cw) = sc_recon cw ∧ waiter_ready nsp (asked nsp auth cw).
Proof.
  destruct (asked_fields nsp auth cw) as (E1 & E2 & _). split.
  - unfold asked.
    by destruct (sent_packet_shape (connect_request nsp auth) (begin_connect nsp auth cw).2) as (fs & st & ->).
  - intros ch. rewrite E1, lookup_insert_eq, E2. intros [= <-]. apply lookup_snoc.
Qed.

(** The answer [reply] of the server, in frames: accepted, or refused. *)
Lemma ev_joined n ctx nsp auth fs reply cw :
  sc_ctx_err ctx cw = None → sc_recon cw = None → arrives fs reply →
  pType reply = Connect → pNsp reply = nsp →
  ev n (connectNsp choose ctx nsp auth) cw [client_gets fs] = Some (None, welcomed nsp auth reply cw, [], []).
Proof.
  intros Hctx Hr Ha Ht Hn. destruct (asked_waits nsp auth cw) as [Er Hw].
  destruct (asked_fields nsp auth cw) as (E1 & _).
  apply ev_connect_told; [done| |done..].
  unfold client_gets. rewrite (ex_client_reads _ _ _ reply) by (done || by rewrite Er).
  unfold sc_process. rewrite Ht, (ex_handleConnect cusr) by by rewrite Hn.
  unfold handled_connect, connect_locked. by rewrite Hn, E1, lookup_insert_eq.
Qed.

Lemma ev_refused n ctx nsp auth fs reply cw :
  sc_ctx_err ctx cw = None → sc_recon cw = None → arrives fs reply →
  pType reply = ConnectError → pNsp reply = nsp →
  ∃ cw', ev n (connectNsp choose ctx nsp auth) cw [client_gets fs]
         = Some (Some (connect_error reply), cw', [], []) ∧ is_connected cw' nsp = false.
Proof.
  intros Hctx Hr Ha Ht Hn. destruct (asked_waits nsp auth cw) as [Er Hw].
  destruct (asked_fields nsp auth cw) as (E1 & _ & _ & E4).
  eexists. split.
  - apply (ev_connect_told choose draw unmarshal_into cusr n ctx nsp auth cw
             (client_gets fs) (Some (connect_error reply))
             (upd_nsp nsp (set_nc_connected false) (set_sc_connecting (delete nsp) (asked nsp auth cw))));
      [done| |done..].
    unfold client_gets. rewrite (ex_client_reads _ _ _ reply) by (done || by rewrite Er).
    unfold sc_process. rewrite Ht, (ex_handleConnectError cusr) by by rewrite Hn.
    unfold handled_error, connect_error_locked. by rewrite Hn, E1, lookup_insert_eq.
  - unfold is_connected. simpl. by rewrite lookup_alter_eq, E4, lookup_insert_eq.
Qed.

(** The client can ask for the namespace [nsp]. *)
Record can_join (ctx : ctxp) nsp (auth : auth_data) (e : engp) cw : Prop := {
  cj_ctx : sc_ctx_err ctx cw = None;
  cj_engine : sc_engine cw = Some e;
  cj_open : eng_open cw e = true;
  cj_recon : sc_recon cw = None;
  cj_plain : plain_auth auth = true;
  cj_packet : packet_ok (connect_request nsp auth);
}.

(** The connection can take the request, and the next id is new to the
    namespace. *)
Record can_host (c : connp) ec nsp ws : Prop := {
  ch_conn : conns ws !! c = Some ec;
  ch_recon : recon ec = None;
  ch_fresh ns : nsps ws !! nsp = Some ns →
    let id := socket_id rand (rnd ws) in
    ns_sockets ns !! id = None ∧ (id ∉ ids (adapter ns)) ∧ (∀ room, (room, id) ∉ members (adapter ns));
}.

Lemma server_reads_request f g c ec nsp auth ws :
  decides susr f g → can_host c ec nsp ws → packet_ok (connect_request nsp auth) →
  let s := length (socks ws) in
  let id := socket_id rand (rnd ws) in
  let payload := json_view (pData (connect_request nsp auth)) in
  ∃ ws' reply,
    exec (server_reads rand ord unmarshal_into susr c [(Encode (connect_request nsp auth), false)]) ws
    = Some (tt, ws', []) ∧
    sent ws' = sent ws ++ to_conn (ec_es ec) [(Encode reply, false)] ∧
    match nsps ws !! nsp with
    | None => reply = SioHandlers.connect_error nsp "Invalid namespace"
    | Some ns =>
        ∃ ec', conns ws' !! c = Some ec' ∧
        match verdict f g ns s payload with
        | Some msg => reply = SioHandlers.connect_error nsp msg ∧ ec_sockets ec' !! nsp = None
        | None => reply = connect_packet nsp id ∧ ec_sockets ec' !! nsp = Some s ∧
                  socks ws' !! s = Some (mkSocket id nsp c true newAckTable)
        end
    end.
Proof.
  intros Hd [Hc Hr Hf] Hp s id payload. pose proof (plain_arrives _ Hp eq_refl) as Ha.
  destruct Hp as [[Hhd _] _ _ _]. assert (nsp ≠ "") as Hne by by intros ->.
  set (q := mkPacket Connect nsp (-1) payload 0) in *.
  rewrite (ex_server_reads rand ord unmarshal_into susr c ec _ q) by done. unfold process. cbn [pType q].
  destruct (nsps ws !! nsp) as [ns|] eqn:Hns.
  - destruct (Hf ns eq_refl) as (F1 & F2 & F3).
    destruct (exec_connect_known rand ord Hord susr f g c ec q ws ns Hd Hc Hne Hns F1 F2 F3) as (ws' & -> & Hv).
    change (pNsp q) with nsp in Hv. change (pData q) with payload in Hv. fold s id in Hv |- *.
    destruct (verdict f g ns s payload) as [msg|]; destruct Hv as [E1 E2 _ _ (ec' & E3 & E4)].
    + exists ws', (SioHandlers.connect_error nsp msg). rewrite E1. split_and!; [done..|].
      exists ec'. rewrite E4. by rewrite lookup_delete_eq.
    + exists ws', (connect_packet nsp id). rewrite E1. split_and!; [done..|].
      exists ec'. rewrite E4, E2, lookup_insert_eq. split_and!; [done..|apply lookup_snoc].
  - rewrite (exec_connect_unknown rand ord susr c ec q ws Hc Hne Hns).
    eexists _, (SioHandlers.connect_error nsp "Invalid namespace"). by split_and!.
Qed.

Lemma json_ok_field key v :
  utf8_valid (bytes_of key) = true → utf8_valid (bytes_of v) = true → json_ok json_max_depth (VMap [(key, VStr v)]).
Proof.
  intros Hk Hv. apply json_ok_map. exists (pred json_max_depth). split; [by vm_compute|].
  split; [apply NoDup_singleton|]. by repeat constructor.
Qed.

(** The server's answers arrive as they are. *)
Lemma answer_arrives t nsp key v :
  nsp_ok nsp → utf8_valid (bytes_of key) = true → utf8_valid (bytes_of v) = true →
  t = Connect ∨ t = ConnectError →
  let p := mkPacket t nsp (-1) (VMap [(key, VStr v)]) 0 in arrives [(Encode p, false)] p.
Proof.
  intros Hn Hk Hv Ht p. assert (is_binary_type t = false) as Hb by by destruct Ht as [->| ->].
  assert (packet_ok p) as Hp.
  { split; cbn [p pNsp pID pType pAttachments pData]; [done|by left|by rewrite Hb|].
    right. split_and!; [done|by apply json_ok_field|by destruct Ht as [->| ->]]. }
  exact (plain_arrives p Hp Hb).
Qed.

(** C7. The two sides agree on a connection.  The one frame a client that joins
    a namespace hands to its session, read by the server, makes the server
    hand back one frame, and read by the waiting client that one ends its
    wait.  For a namespace the server does not have, or when a middleware or
    a connect handler objects, the call returns the server's message, the
    namespace is not connected and the server's connection holds no socket
    for it; otherwise it returns no error, and the namespace is connected
    under the id of the socket the server's connection now holds, which is
    connected. *)
Theorem connect_agrees n f g ctx nsp auth e cw c ec ws :
  can_join ctx nsp auth e cw → decides susr f g → can_host c ec nsp ws →
  let s := length (socks ws) in
  let payload := json_view (pData (connect_request nsp auth)) in
  (∀ ns msg, nsps ws !! nsp = Some ns → verdict f g ns s payload = Some msg → utf8_valid (bytes_of msg) = true) →
  ∃ fs ws' fs' cw' r,
    sc_sent (asked nsp auth cw) = sc_sent cw ++ to_conn e fs ∧
    exec (server_reads rand ord unmarshal_into susr c fs) ws = Some (tt, ws', []) ∧
    sent ws' = sent ws ++ to_conn (ec_es ec) fs' ∧
    ev n (connectNsp choose ctx nsp auth) cw [client_gets fs'] = Some (r, cw', [], []) ∧
    match (ns ← nsps ws !! nsp; Some (verdict f g ns s payload)) with
    | None => r = Some "Invalid namespace" ∧ is_connected cw' nsp = false
    | Some (Some msg) =>
        r = Some (if decide (msg = "") then "socketio: connection rejected" else msg)
        ∧ is_connected cw' nsp = false ∧ (ec' ← conns ws' !! c; ec_sockets ec' !! nsp) = None
    | Some None =>
        let id := socket_id rand (rnd ws) in
        r = None ∧ sc_nsps cw' !! nsp = Some (mkNsClient true id auth)
        ∧ (ec' ← conns ws' !! c; ec_sockets ec' !! nsp) = Some s
        ∧ socks ws' !! s = Some (mkSocket id nsp c true newAckTable)
    end.
Proof.
  intros [Hctx He Ho Hr Hpl Hp] Hd Hh s payload Hmsg.
  destruct (server_reads_request f g c ec nsp auth ws Hd Hh Hp) as (ws' & reply & H1 & H2 & H3).
  pose proof (ok_nsp _ Hp) as Hn. cbn [pNsp connect_request] in Hn. fold s payload in H3.
  exists [(Encode (connect_request nsp auth), false)], ws', [(Encode reply, false)].
  destruct (nsps ws !! nsp) as [ns|]; cbn [mbind option_bind].
  - destruct H3 as (ec' & -> & H3). specialize (Hmsg ns). destruct (verdict f g ns s payload) as [msg|].
    + destruct H3 as [-> H3].
      destruct (ev_refused n ctx nsp auth _ _ cw Hctx Hr 
        (answer_arrives ConnectError nsp "message" msg Hn eq_refl (Hmsg msg eq_refl eq_refl) (or_intror eq_refl))
        eq_refl eq_refl) as (cw' & H4 & H5).
      eexists cw', _. split_and!; [by apply asked_sent|done..].
    + destruct H3 as (-> & H3 & H4).
      exists (welcomed nsp auth (connect_packet nsp (socket_id rand (rnd ws))) cw), None.
      split_and!; [by apply asked_sent|done|done| |done| |done|done].
      * apply ev_joined; [done..| |done|done]. apply answer_arrives; [done..|apply socket_id_valid|by left].
      * destruct (welcomed_fields nsp auth (connect_packet nsp (socket_id rand (rnd ws))) cw) as (F & _).
        rewrite F. apply lookup_insert_eq.
  - subst reply.
    destruct (ev_refused n ctx nsp auth _ _ cw Hctx Hr 
        (answer_arrives ConnectError nsp "message" "Invalid namespace" Hn eq_refl eq_refl (or_intror eq_refl))
        eq_refl eq_refl) as (cw' & H4 & H5).
    eexists cw', _. split_and!; [by apply asked_sent|done..].
Qed.
End Joining.

(** ** The client of SioClientDemo and the server of SioHandlers *)

#[local] Instance demo_runner0 : Runner scw sc_method := calls 0.

(** An application that answers every event, with bytes. *)
Definition answerer : user Memory.memoryAdapter nat unit := {|
  u_middleware _ _ _ := mret None;
  u_connect _ _ := mret None;
  u_disconnect _ _ _ := skip;
  u_error _ _ _ := skip;
  u_any _ _ _ _ := skip;
  u_sig _ := mkHandler [TSocket] false;
  u_event _ _ := update (set_app S) ≫= λ _, mret [OVal (VStr "ok"); OVal (VBytes (bytes_of "y"))];
  u_ack _ _ := skip
|}.
Definition answers : list gval := [VStr "ok"; VBytes (bytes_of "y")].

Lemma answerer_quiet :
  quiet_handlers answerer (λ _ _, [OVal (VStr "ok"); OVal (VBytes (bytes_of "y"))]) (λ _ _, S).
Proof. intros h ins w. reflexivity. Qed.

Lemma diary_acks : quiet_acks diary (λ _ _ l, l ++ ["ack"]).
Proof. intros f args w. reflexivity. Qed.

Lemma root_ok : nsp_ok "/".
Proof. split; [done|]. apply (bool_decide_unpack (_ ∉ _)). by vm_compute. Qed.

Lemma sendable_ping : sendable (event_packet "/" 1 "ping" [VBytes (bytes_of "x")]).
Proof.
  destruct (sendable_buffer_event "ping" "x") as [H1 _ H3 H4 H5 H6 H7]; [done..|].
  split; [done|right; unfold int64_max; simpl; lia|done..].
Qed.

Lemma sendable_answers : sendable (ack_packet "/" 1 answers).
Proof.
  split; cbn [ack_packet pNsp pID pAttachments pType pData].
  - apply root_ok.
  - right. unfold int64_max. lia.
  - done.
  - by exists answers.
  - destruct (sendable_buffer_event "ok" "y") as [_ _ _ _ H _ _]; done.
  - done.
  - by vm_compute.
Qed.

Lemma call_round_trip_witness :
  ∃ (cw1 cw2 : scw) (ws1 ws2 : Demo.world) fs fs2,
    exec (sc_EmitWithAck "/" "ping" (Some 3%nat) [VBytes (bytes_of "x")]) (home None) = Some ((1, None), cw1, [])
    ∧ sc_sent cw1 = sc_sent (home None) ++ to_conn 0 fs
    ∧ (∃ ts, exec (server_reads Demo.rand Demo.ord Demo.unmarshal answerer 0 fs) one_socket = Some (tt, ws1, ts))
    ∧ sent ws2 = to_conn 9 fs2 ∧ app ws2 = 1%nat
    ∧ exec (client_reads sc_unmarshal diary fs2) cw1 = Some (tt, cw1, [Once (sc_invoke_ack diary 1 answers)])
    ∧ exec (sc_invoke_ack diary 1 answers) cw1 = Some (tt, cw2, []) ∧ sc_app cw2 = ["ack"].
Proof.
  destruct (call_round_trip Demo.rand Demo.ord Demo.unmarshal diary answerer
    (λ _ _, [OVal (VStr "ok"); OVal (VBytes (bytes_of "y"))]) (λ _ _, S) (λ _ _ l, l ++ ["ack"])
    (home None) 0 "/" "ping" 3 [VBytes (bytes_of "x")] [VBytes (bytes_of "x")] ∅
    one_socket 0 the_conn 0 the_namespace [1%nat] answers ∅ diary_acks answerer_quiet)
    as (cw1 & fs & n & ws1 & ws2 & fs2 & cw2 & H1 & H2 & H3 & _ & H4 & H5 & H6 & H7 & H8 & _).
  - split; try reflexivity. vm_compute. split; [discriminate|reflexivity].
  - split; try reflexivity. exists the_socket. split_and!; reflexivity.
  - exact sendable_ping.
  - exists [VBytes (bytes_of "x")]. split; reflexivity.
  - exact sendable_answers.
  - exists answers. split; reflexivity.
  - reflexivity.
  - repeat (apply List.Forall_cons); [discriminate|constructor].
  - exists cw1, cw2, ws1, ws2, fs, fs2. split; [exact H1|]. split; [exact H2|]. split; [eexists; exact H3|].
    split; [exact H5|]. split; [exact H4|]. split; [exact H6|]. split; [exact H7|]. rewrite H8. reflexivity.
Defined.

(** The server has a second namespace, and the client joins it with a token. *)
Definition with_a : Demo.world := set_nsps <["/a" := newNamespace None "/a"]> one_socket.
Definition token : auth_data := Some [("token", VStr "t")].

Lemma answerer_decides : decides answerer (λ _ _ _, None) (λ _ _, None).
Proof. split; reflexivity. Qed.

Lemma connect_agrees_witness :
  ∃ fs (ws' : Demo.world) fs' (cw' : scw),
    sc_sent (asked "/a" token (home None)) = sc_sent (home None) ++ to_conn 0 fs
    ∧ exec (server_reads Demo.rand Demo.ord Demo.unmarshal answerer 0 fs) with_a = Some (tt, ws', [])
    ∧ sent ws' = to_conn 9 fs'
    ∧ @exec_env scw sc_method (env_calls 1) _ (connectNsp sc_choose 0 "/a" token) (home None)
        [client_gets sc_unmarshal diary fs'] = Some (None, cw', [], [])
    ∧ sc_nsps cw' !! "/a" = Some (mkNsClient true (socket_id Demo.rand 1) token)
    ∧ connected <$> socks ws' !! 1%nat = Some true.
Proof.
  destruct (connect_agrees Demo.rand Demo.ord demo_order sc_choose sc_draw sc_unmarshal diary answerer 1
    (λ _ _ _, None) (λ _ _, None) 0 "/a" token 0 (home None) 0 the_conn with_a)
    as (fs & ws' & fs' & cw' & r & H1 & H2 & H3 & H4 & H5).
  - split; try reflexivity. split; [split|left; reflexivity|reflexivity|].
    + reflexivity.
    + apply (bool_decide_unpack (_ ∉ _)). vm_compute. exact I.
    + right. split; [reflexivity|]. split; [apply json_ok_field; reflexivity|reflexivity].
  - exact answerer_decides.
  - split; [reflexivity|reflexivity|]. intros ns. unfold with_a. simpl. rewrite lookup_insert_eq. intros [= <-].
    split; [reflexivity|]. split; [exact (not_elem_of_empty _)|]. intros room. exact (not_elem_of_empty _).
  - intros ns msg. unfold with_a. cbn [nsps set_nsps]. rewrite lookup_insert_eq. intros [= <-]. discriminate.
  - cbn [nsps with_a set_nsps] in H5. rewrite lookup_insert_eq in H5. destruct H5 as (-> & H5 & _ & H6).
    exists fs, ws', fs', cw'. split; [exact H1|]. split; [exact H2|]. split; [exact H3|]. split; [exact H4|].
    split; [exact H5|].
    apply (f_equal (fmap connected)) in H6. exact H6.
Defined.
