(* ===== verification/ChatServer.v ===== *)
(** * ChatServer: the chat server of the examples

    Models [examples/chat-server/server.go], an application of the Socket.IO
    server: the functions it registers are the [user] of SioServer, numbered in
    the order they are registered, and [main] up to [ListenAndServe] is a
    program on the server's world.  What it logs is its state.

    [chat_step] says what the chat means; [chat_refines] that the handlers do
    it. *)

From S2P Require Import Prelude.
From S2P Require Import EngineTypes.
From S2P Require Import EngineOptions.
From S2P Require Import EngineServer.
From S2P Require Import Utf8.
From S2P Require Import Value.
From S2P Require Import Json.
From S2P Require Import FixedFloat.
From S2P Require Import SioPacket.
From S2P Require Import AckTable.
From S2P Require Import PacketQueue.
From S2P Require Import Adapter.
From S2P Require Import Emitter.
From S2P Require Import Sched.
From S2P Require Import Safety.
From S2P Require Import SioHttp.
From S2P Require Import SioServer.
From S2P Require Import SioWire.
From S2P Require Import SioInvariant.
From S2P Require Import SioHandlers.

#[local] Opaque json_max_depth.

(** A line of the log: text, or the line of [OnAny], which prints the arguments
    with [%v]. *)
Inductive log_line `{Float64} :=
| Logged (text : string)
| LoggedEvent (id event : string) (args : list gval).

(** The parameter type [string], and a value of it as the handler sees it. *)
Definition TString : gtype := TData 0.

(** [json.Unmarshal] into a string, with the decoder that reads any value. *)
Definition unmarshal_text `{Float64} `{!JSON} (t : gtype) (b : bytes) : option string :=
  match json_unmarshal b with Some (VStr s) => Some s | _ => None end.

Definition str_of `{Float64} (r : rvalue (data := string)) : string := match r with RData _ s => s | _ => "" end.

Section Chat.
Context `{FL : Float64} `{JS : !JSON} {A : Type} `{AO : !Adapter A}.
Context (ord : nat → order).
Abbreviation W := (world A (list log_line)).
Abbreviation P := (prog W).

(** [log.Printf], and [log.Fatal], after which nothing of the caller runs (that
    the other goroutines end too is left out). *)
Definition printf (l : log_line) : P unit := update (set_app (λ log, log ++ [l])).
Definition Fatal (msg : string) : P unit := printf (Logged msg) ≫= λ _, await (λ _, None).

Definition ID (s : sockp) : P string := sock_get s "" sk_id.

(** ** The handlers *)

Definition lobby_message (s : sockp) (text : string) : P unit :=
  ID s ≫= λ id, printf (Logged ("[lobby] " +:+ id +:+ ": " +:+ text)) ≫= λ _,
  ID s ≫= λ id, BroadcastToNamespace ord "/lobby" "message" [VStr id; VStr text].

Definition message (s : sockp) (text : string) : P unit :=
  ID s ≫= λ id, printf (Logged (id +:+ ": " +:+ text)) ≫= λ _,
  ID s ≫= λ id, BroadcastToNamespace ord "/" "message" [VStr id; VStr text].

Definition join (s : sockp) (room : string) : P unit := JoinRoom s room.
Definition leave (s : sockp) (room : string) : P unit := LeaveRoom s room.

Definition room_message (s : sockp) (room text : string) : P unit :=
  ID s ≫= λ id, BroadcastToRoom ord "/" room "room message" [VStr id; VStr text].

Definition except (s : sockp) (room exceptID text : string) : P unit :=
  sock_ToExcept s room [exceptID] ≫= λ b,
  ID s ≫= λ id, op_Emit ord b "room message" [VStr id; VStr text].

Definition on_any_event (s : sockp) (event : string) (args : list gval) : P unit :=
  ID s ≫= λ id, printf (LoggedEvent id event args).
Definition on_handler_error (s : sockp) (err : string) : P unit :=
  ID s ≫= λ id, printf (Logged (id +:+ " handler error: " +:+ err)).
Definition on_connected (s : sockp) : P (option string) :=
  ID s ≫= λ id, printf (Logged (id +:+ " connected")) ≫= λ _, mret None.
Definition on_disconnected (s : sockp) (reason : string) : P unit :=
  ID s ≫= λ id, printf (Logged (id +:+ " disconnected: " +:+ reason)).

(** The functions of [OnEvent], by number, with what [reflect] shows of
    them. *)
Definition chat_sig (h : fn) : handler :=
  mkHandler
    match h with
    | 0%nat | 1%nat | 2%nat | 3%nat => [TSocket; TString]
    | 4%nat => [TSocket; TString; TString]
    | 5%nat => [TSocket; TString; TString; TString]
    | _ => [TSocket]
    end false.

Definition chat_event (h : fn) (ins : list rvalue) : P (list rout) :=
  match h, ins with
  | 0%nat, [RSocket s; text] => lobby_message s (str_of text) ≫= λ _, mret []
  | 1%nat, [RSocket s; text] => message s (str_of text) ≫= λ _, mret []
  | 2%nat, [RSocket s; room] => join s (str_of room) ≫= λ _, mret []
  | 3%nat, [RSocket s; room] => leave s (str_of room) ≫= λ _, mret []
  | 4%nat, [RSocket s; room; text] => room_message s (str_of room) (str_of text) ≫= λ _, mret []
  | 5%nat, [RSocket s; room; exceptID; text] =>
      except s (str_of room) (str_of exceptID) (str_of text) ≫= λ _, mret []
  | 6%nat, [RSocket s] => mret [OVal (VStr "pong")]
  | _, _ => mret []
  end.

(** No middleware and no acknowledgement callback is registered. *)
Definition chat : user A (list log_line) string := {|
  u_middleware _ _ _ := mret None;
  u_connect _ := on_connected;
  u_disconnect _ := on_disconnected;
  u_error _ := on_handler_error;
  u_any _ := on_any_event;
  u_sig := chat_sig;
  u_event := chat_event;
  u_ack _ _ := skip
|}.

(** ** [main] *)

Definition chat_config : server_config A := mkServerConfig None "/socket.io" (Some AllowAll_config) None.

Definition chat_start : W := srv_world (NewServerWithConfig (C := unit) (UE := unit) (Some chat_config) tt []).

(** Up to [ListenAndServe]. *)
Definition chat_main : P unit :=
  RegisterNamespace "/lobby" ≫= λ err,
  match err with
  | Some msg => Fatal msg
  | None =>
      OnEvent "/lobby" "message" 0 ≫= λ _,
      OnAny "/" 0 ≫= λ _,
      OnError "/" 0 ≫= λ _,
      OnConnect "/" 0 ≫= λ _,
      OnDisconnect "/" 0 ≫= λ _,
      OnEvent "/" "message" 1 ≫= λ _,
      OnEvent "/" "join" 2 ≫= λ _,
      OnEvent "/" "leave" 3 ≫= λ _,
      OnEvent "/" "room message" 4 ≫= λ _,
      OnEvent "/" "except" 5 ≫= λ _,
      OnEvent "/" "ping" 6 ≫= λ _,
      printf (Logged "chat server listening on :3000 (path /socket.io, CORS allow-all)")
  end.
End Chat.

(** ** What the chat means *)

Inductive chat_cmd :=
| Say (text : string)
| Join (room : string)
| Leave (room : string)
| RoomSay (room text : string)
| Whisper (room exceptID text : string)
| Ping
| LobbySay (text : string).

Definition cmd_nsp (c : chat_cmd) : string := match c with LobbySay _ => "/lobby" | _ => "/" end.
Definition cmd_event (c : chat_cmd) : string :=
  match c with
  | Say _ | LobbySay _ => "message" | Join _ => "join" | Leave _ => "leave"
  | RoomSay _ _ => "room message" | Whisper _ _ _ => "except" | Ping => "ping"
  end.
Definition cmd_args (c : chat_cmd) : list string :=
  match c with
  | Say text | LobbySay text => [text] | Join room | Leave room => [room]
  | RoomSay room text => [room; text] | Whisper room exceptID text => [room; exceptID; text]
  | Ping => []
  end.

(** The function registered for it. *)
Definition cmd_fn (c : chat_cmd) : fn :=
  match c with
  | LobbySay _ => 0 | Say _ => 1 | Join _ => 2 | Leave _ => 3 | RoomSay _ _ => 4 | Whisper _ _ _ => 5 | Ping => 6
  end%nat.

(** Who is there, and who is in which room. *)
Record membership := mkMembership { online : gset string; rooms : gset (string * string) }.

(** The members of a room; the empty room is everybody. *)
Definition in_room (room : string) (m : membership) : gset string :=
  if decide (room = "") then online m else set_map snd (filter (λ p, p.1 = room) (rooms m)).

(** What [from]'s command does to the rooms, and who is sent what. *)
Definition chat_step `{Float64} (from : string) (c : chat_cmd) (m : membership) :
  membership * option (string * list gval * gset string) :=
  match c with
  | Say text | LobbySay text => (m, Some ("message", [VStr from; VStr text], online m))
  | Join room => (mkMembership (online m) ({[(room, from)]} ∪ rooms m), None)
  | Leave room => (mkMembership (online m) (rooms m ∖ {[(room, from)]}), None)
  | RoomSay room text => (m, Some ("room message", [VStr from; VStr text], in_room room m))
  | Whisper room exceptID text =>
      (m, Some ("room message", [VStr from; VStr text], in_room room m ∖ {[from; exceptID]}))
  | Ping => (m, None)
  end.

(** What the handler logs, and what it returns. *)
Definition cmd_log `{Float64} (from : string) (c : chat_cmd) : list log_line :=
  match c with
  | Say text => [Logged (from +:+ ": " +:+ text)]
  | LobbySay text => [Logged ("[lobby] " +:+ from +:+ ": " +:+ text)]
  | _ => []
  end.
Definition cmd_outs `{Float64} (c : chat_cmd) : list rout :=
  match c with Ping => [OVal (VStr "pong")] | _ => [] end.

Section Refinement.
Context `{FL : Float64} `{JS : !JSON} {A : Type} `{AO : !Adapter A} `{AL : !AdapterLaws A}.
Context (rand : nat → bytes) (ord : nat → order) (Hord : ∀ n, is_order (ord n)).
Abbreviation W := (world A (list log_line)).
Implicit Types (w : W) (k : socket) (ns : namespace A).

Definition membership_of ns : membership := mkMembership (ids (adapter ns)) (members (adapter ns)).

(** The frames [l] are [frame], once for each of [R] that is connected. *)
Definition reaches w ns (frame : bytes) (R : gset string) (l : list (engp * bytes * bool)) : Prop :=
  ∃ targets, NoDup targets ∧ (∀ id, id ∈ targets ↔ id ∈ R) ∧ l = omap (target_frame w ns frame) targets.

Lemma elem_of_in_room room id ns :
  id ∈ in_room room (membership_of ns)
  ↔ (if decide (room = "") then id ∈ ids (adapter ns) else (room, id) ∈ members (adapter ns)).
Proof.
  unfold in_room. case_decide; [done|]. rewrite elem_of_map. split.
  - intros ([r i] & -> & [Hr Hm]%elem_of_filter). simpl in *. by subst.
  - intros Hm. exists (room, id). split; [done|]. by apply elem_of_filter.
Qed.

(** A broadcast of text, alone. *)
Lemma exec_chat_broadcast nsp ns room except e id text w :
  inv rand w → nsps w !! nsp = Some ns →
  ∃ w' l, exec (broadcast ord nsp room except e [VStr id; VStr text]) w = Some (tt, w', []) ∧
    sent w' = sent w ++ l ∧
    reaches w ns (Encode (event_packet nsp (-1) e [VStr id; VStr text]))
      (in_room room (membership_of ns) ∖ list_to_set except) l ∧
    (nsps w', socks w', conns w', app w', cells w') = (nsps w, socks w, conns w, app w, cells w).
Proof.
  intros Hi Hn. eexists _, _. split; [by apply (exec_broadcast rand ord nsp ns)|].
  split; [reflexivity|]. split; [|done]. eexists. split; [by apply broadcast_once|]. split; [|done].
  intros i. rewrite broadcast_targets by done. rewrite elem_of_difference, elem_of_list_to_set.
  by rewrite <- elem_of_in_room.
Qed.

Lemma exec_ID s k w : socks w !! s = Some k → exec (ID s) w = Some (sk_id k, w, []).
Proof. intros Hk. unfold ID. by rewrite (exec_sock_get s "" sk_id w), Hk. Qed.

Lemma exec_To_namespace nsp ns room e args w :
  nsp ≠ "" → nsps w !! nsp = Some ns →
  exec (BroadcastToRoom ord nsp room e args) w = exec (broadcast ord nsp room [] e args) w.
Proof.
  intros Hne Hn. unfold BroadcastToRoom, namespaceLookup. rewrite exec_bind, ex_gets.
  unfold ns_name. rewrite (decide_False (P := nsp = "")), Hn by done. rewrite decide_True by done.
  by destruct (exec (broadcast ord nsp room [] e args) w) as [[[[] ?] ?]|].
Qed.

(** A handler that logs a line, perhaps, and then broadcasts. *)
Lemma exec_say nsp ns room e text l s k w :
  inv rand w → nsp ≠ "" → nsps w !! nsp = Some ns → socks w !! s = Some k →
  ∃ w' frs,
    exec (printf l ≫= λ _, ID s ≫= λ id, BroadcastToRoom ord nsp room e [VStr id; VStr text]) w = Some (tt, w', []) ∧
    sent w' = sent w ++ frs ∧
    reaches w ns (Encode (event_packet nsp (-1) e [VStr (sk_id k); VStr text])) (in_room room (membership_of ns)) frs ∧
    (nsps w', socks w', conns w', app w', cells w') = (nsps w, socks w, conns w, app w ++ [l], cells w).
Proof.
  intros Hi Hne Hn Hk. set (w1 := set_app (λ log, log ++ [l]) w).
  assert (inv rand w1) as Hi1 by (by apply (good_same rand w w1)).
  destruct (exec_chat_broadcast nsp ns room [] e (sk_id k) text w1 Hi1 Hn) as (w' & frs & He & Hs & Hr & Heq).
  exists w', frs. split_and!; [|done| |done].
  - unfold printf. rewrite exec_bind, ex_update. fold w1.
    rewrite exec_bind, (exec_ID s k w1 Hk), (exec_To_namespace nsp ns) by done. by rewrite He.
  - by rewrite list_to_set_nil, difference_empty_L in Hr.
Qed.

Lemma alter_is_insert {B : Type} (f : B → B) i x (m : gmap string B) :
  m !! i = Some x → alter f i m = <[i := f x]> m.
Proof.
  intros Hi. apply map_eq. intros j. destruct (decide (i = j)) as [<-|Hne].
  - by rewrite lookup_alter_eq, lookup_insert_eq, Hi.
  - by rewrite lookup_alter_ne, lookup_insert_ne.
Qed.

(** A handler that enters or leaves a room. *)
Lemma exec_room (f : string → string → A → A) s k ns room w :
  socks w !! s = Some k → nsps w !! sk_nsp k = Some ns →
  exec (update (λ w : W, match socks w !! s with
                     | Some k => upd_ns (sk_nsp k) (set_adapter (f room (sk_id k))) w
                     | None => w
                     end)) w
  = Some (tt, set_nsps <[sk_nsp k := set_adapter (f room (sk_id k)) ns]> w, []).
Proof. intros Hk Hn. rewrite ex_update, Hk. unfold upd_ns, set_nsps. by rewrite (alter_is_insert _ _ ns). Qed.

(** The functions of the chat use the server through its API: with them it keeps
    the invariant of SioInvariant, whatever goroutines run. *)
Abbreviation sf w p := (safe (inv rand) (hist rand) w p (λ _ _, True)).

Lemma safe_printf l w : sf w (printf l).
Proof. apply safe_good. intros w1 _. by apply good_same. Qed.

Lemma safe_ID s w : sf w (ID s).
Proof. apply safe_get. Qed.

Lemma safe_to_room nsp room e args w : sf w (BroadcastToRoom ord nsp room e args).
Proof.
  eapply safe_then; [apply (safe_weaken rand w _ _ (safe_namespaceLookup rand nsp w))|].
  intros [n|] w1 _ _; [by apply safe_broadcast|apply safe_skip].
Qed.

#[local] Create HintDb chat.
#[local] Hint Resolve safe_printf safe_ID safe_to_room safe_done : chat.

(** One step of a handler after the other. *)
Ltac chat_safe := repeat (eapply safe_then; [solve [auto with chat]|intros ? ? _ _]); auto with chat.

Lemma safe_chat_event h ins w : sf w (chat_event ord h ins).
Proof.
  unfold chat_event, lobby_message, message, room_message, except, BroadcastToNamespace, op_Emit, sock_ToExcept.
  repeat (case_match; try apply safe_done).
  all: eapply safe_then; [|intros; apply safe_done].
  - chat_safe.
  - chat_safe.
  - apply safe_room.
  - apply safe_room.
  - chat_safe.
  - eapply safe_then; [apply safe_get|intros b w1 _ _]. chat_safe. by apply safe_broadcast.
Qed.

Lemma chat_safe : safe_user rand (chat ord).
Proof.
  split; cbn [chat u_middleware u_connect u_disconnect u_error u_any u_event u_ack]; intros.
  - apply safe_done.
  - unfold on_connected. chat_safe.
  - unfold on_disconnected. chat_safe.
  - unfold on_handler_error. chat_safe.
  - unfold on_any_event. chat_safe.
  - apply safe_chat_event.
  - apply safe_skip.
Qed.

Lemma safe_on nsp f w :
  (∀ ns, ns_sockets (f ns) = ns_sockets ns ∧ adapter (f ns) = adapter ns) → sf w (on_namespace nsp f).
Proof. by apply (safe_on_namespace rand ord). Qed.

Lemma safe_chat_main w : sf w chat_main.
Proof.
  unfold chat_main. eapply safe_then; [by apply (safe_RegisterNamespace rand ord)|intros [err|] w1 _ _].
  - eapply safe_then; [apply safe_printf|intros ? ? _ _]. by apply (safe_await (inv rand) (hist rand)).
  - repeat (eapply safe_then; [by apply safe_on|intros ? ? _ _]). apply safe_printf.
Qed.

(** The chat server, whatever its connections do and however the goroutines
    interleave: the invariant of SioInvariant holds. *)
Lemma chat_running unmarshal_into ps c :
  Forall (entry rand ord unmarshal_into (chat ord)) ps → reachable (chat_start, Once <$> chat_main :: ps) c →
  inv rand c.1.
Proof.
  intros Hps Hr. apply (reachable_safe (inv rand) (hist rand)) in Hr; [by destruct Hr|by apply (inv_NewServer rand ord (chat ord) Hord chat_safe)|].
  apply Forall_fmap, Forall_cons. split; [by apply (safe_once (inv rand) (hist rand)), safe_chat_main|].
  eapply Forall_impl; [exact Hps|]. intros p Hp.
  apply (safe_once (inv rand) (hist rand)). by apply (safe_entry rand ord unmarshal_into (chat ord) Hord chat_safe).
Qed.

(** What one command's step means of the frames: [chat_step]'s event, to its
    recipients. *)
Definition output_ok w ns nsp (out : option (string * list gval * gset string)) frs : Prop :=
  match out with
  | Some (e, args, R) => reaches w ns (Encode (event_packet nsp (-1) e args)) R frs
  | None => frs = []
  end.

(** Each handler does what the chat means by its command: run alone by a socket
    of the namespace, it leaves the membership [chat_step] gives, hands over
    the frame of [chat_step]'s event once for each connected recipient and
    nothing else, logs its line and returns its result; every other part of
    the server is as it was. *)
Lemma chat_cmd_refines c s k ns w :
  inv rand w → socks w !! s = Some k → sk_nsp k = cmd_nsp c → nsps w !! cmd_nsp c = Some ns →
  let '(m', out) := chat_step (sk_id k) c (membership_of ns) in
  ∃ w' ns' frs,
    exec (chat_event ord (cmd_fn c) (RSocket s :: (RData TString <$> cmd_args c))) w
      = Some (cmd_outs c, w', []) ∧
    nsps w' = <[cmd_nsp c := ns']> (nsps w) ∧ membership_of ns' = m' ∧
    (ns_sockets ns', events ns') = (ns_sockets ns, events ns) ∧
    sent w' = sent w ++ frs ∧ app w' = app w ++ cmd_log (sk_id k) c ∧
    (socks w', conns w', cells w') = (socks w, conns w, cells w) ∧
    output_ok w ns (cmd_nsp c) out frs.
Proof.
  intros Hi Hk Hkn Hn.
  assert (nsps w = <[cmd_nsp c := ns]> (nsps w)) as Hid by (by rewrite insert_id).
  destruct c as [text|room|room|room text|room exceptID text| |text];
    cbn [chat_step cmd_nsp cmd_fn cmd_args cmd_outs cmd_log chat_event fmap list_fmap str_of] in *.
  - destruct (exec_say "/" ns "" "message" text (Logged (sk_id k +:+ ": " +:+ text)) s k w)
      as (w' & frs & He & Hs & Hr & Heq); [done..|]. injection Heq as E1 E2 E3 E4 E5.
    exists w', ns, frs. rewrite E1, E2, E3, E4, E5. split_and!; try done.
    eapply ex_first; [|done]. unfold message. by eapply ex_first; [apply (exec_ID s k)|].
  - eexists _, _, []. split.
    { eapply ex_first; [|done]. by apply (exec_room AddToRoom s k ns); [|rewrite Hkn]. }
    rewrite Hkn. split_and!; try done; [|by rewrite app_nil_r..].
    unfold membership_of. simpl. by rewrite add_room_ids, add_room_members.
  - eexists _, _, []. split.
    { eapply ex_first; [|done]. by apply (exec_room RemoveFromRoom s k ns); [|rewrite Hkn]. }
    rewrite Hkn. split_and!; try done; [|by rewrite app_nil_r..].
    unfold membership_of. simpl. by rewrite remove_room_ids, remove_room_members.
  - destruct (exec_chat_broadcast "/" ns room [] "room message" (sk_id k) text w Hi Hn)
      as (w' & frs & He & Hs & Hr & Heq). injection Heq as E1 E2 E3 E4 E5.
    exists w', ns, frs. rewrite E1, E2, E3, E4, E5. rewrite list_to_set_nil, difference_empty_L in Hr.
    split_and!; try done; [|by rewrite app_nil_r].
    eapply ex_first; [|done]. unfold room_message. eapply ex_first; [by apply (exec_ID s k)|].
    by rewrite (exec_To_namespace "/" ns).
  - destruct (exec_chat_broadcast "/" ns room [sk_id k; exceptID] "room message" (sk_id k) text w Hi Hn)
      as (w' & frs & He & Hs & Hr & Heq). injection Heq as E1 E2 E3 E4 E5.
    exists w', ns, frs. rewrite E1, E2, E3, E4, E5.
    split_and!; try done; [|by rewrite app_nil_r|].
    + eapply ex_first; [|done]. unfold except, sock_ToExcept. eapply ex_first; [by rewrite exec_sock_get, Hk|].
      eapply ex_first; [by apply (exec_ID s k)|]. rewrite Hkn. exact He.
    + cbn [list_to_set list_to_set_singleton] in Hr. by rewrite union_empty_r_L in Hr.
  - exists w, ns, []. split_and!; try done; by rewrite app_nil_r.
  - destruct (exec_say "/lobby" ns "" "message" text (Logged ("[lobby] " +:+ sk_id k +:+ ": " +:+ text)) s k w)
      as (w' & frs & He & Hs & Hr & Heq); [done..|]. injection Heq as E1 E2 E3 E4 E5.
    exists w', ns, frs. rewrite E1, E2, E3, E4, E5. split_and!; try done.
    eapply ex_first; [|done]. unfold lobby_message. by eapply ex_first; [apply (exec_ID s k)|].
Qed.

(** *** A conversation *)

Definition id_at w (s : sockp) : string := match socks w !! s with Some k => sk_id k | None => "" end.
Definition handle_cmd (p : sockp * chat_cmd) : prog W unit :=
  chat_event ord (cmd_fn p.2) (RSocket p.1 :: (RData TString <$> cmd_args p.2)) ≫= λ _, skip.

(** The commands one after the other, each by its sender. *)
Fixpoint chat_run (l : list (string * chat_cmd)) (m : membership) :
  membership * list (option (string * list gval * gset string)) :=
  match l with
  | [] => (m, [])
  | (from, c) :: l' =>
      let '(m1, out) := chat_step from c m in
      let '(m2, outs) := chat_run l' m1 in (m2, out :: outs)
  end.

Definition speaks nsp w (p : sockp * chat_cmd) : Prop :=
  cmd_nsp p.2 = nsp ∧ ∃ k, socks w !! p.1 = Some k ∧ sk_nsp k = nsp.

Lemma speaks_at w s c : sk_nsp <$> socks w !! s = Some (cmd_nsp c) → speaks (cmd_nsp c) w (s, c).
Proof. destruct (socks w !! s) as [k|] eqn:Hk; [|done]. intros [= Hk']. split; [done|]. by exists k. Qed.

Lemma output_ok_same w w' ns ns' nsp out frs :
  socks w' = socks w → conns w' = conns w → ns_sockets ns' = ns_sockets ns →
  output_ok w' ns' nsp out frs → output_ok w ns nsp out frs.
Proof.
  intros E1 E2 E3. destruct out as [[[e args] R]|]; [|done].
  intros (targets & H1 & H2 & ->). exists targets. split_and!; [done..|].
  unfold target_frame. by rewrite E1, E2, E3.
Qed.

(** C11. The handlers refine the chat: the commands of a namespace, each handled
    by a socket of it, one after the other, leave the membership of
    [chat_run], and the frames handed over are, command by command, those of
    its outputs: [chat_step]'s event once for each connected recipient, nothing
    for a command without one.  The sockets, the connections and the handlers
    are as they were. *)
Theorem chat_refines l nsp ns w :
  inv rand w → nsps w !! nsp = Some ns → Forall (speaks nsp w) l →
  let '(m', outs) := chat_run ((λ p, (id_at w p.1, p.2)) <$> l) (membership_of ns) in
  ∃ w' ns' frss,
    exec (for_each l handle_cmd) w = Some (tt, w', []) ∧ inv rand w' ∧
    nsps w' = <[nsp := ns']> (nsps w) ∧ membership_of ns' = m' ∧
    (ns_sockets ns', events ns') = (ns_sockets ns, events ns) ∧
    sent w' = sent w ++ concat frss ∧ Forall2 (output_ok w ns nsp) outs frss ∧
    (socks w', conns w', cells w') = (socks w, conns w, cells w).
Proof.
  revert w ns. induction l as [|[s c] l IH]; intros w ns Hi Hn Hl; cbn [chat_run fmap list_fmap].
  { exists w, ns, []. cbn [concat]. rewrite app_nil_r, insert_id by done. by split_and!. }
  apply Forall_cons in Hl as [(Hc & k & Hk & Hkn) Hl]. cbn [fst snd] in Hc, Hk |- *. subst nsp.
  unfold id_at at 1. rewrite Hk. pose proof (chat_cmd_refines c s k ns w Hi Hk Hkn Hn) as H1.
  destruct (chat_step (sk_id k) c (membership_of ns)) as [m1 out].
  destruct H1 as (w1 & ns1 & frs & He & En & <- & Esk & Es & _ & Eo & Hout).
  injection Esk as E1 E2. injection Eo as E3 E4 E5.
  destruct (exec_safe (inv rand) (hist rand) _ _ _ _ _ _ (safe_chat_event _ _ w) Hi He) as (Hi1 & _).
  assert (nsps w1 !! cmd_nsp c = Some ns1) as Hn1 by (rewrite En; apply lookup_insert_eq).
  assert (id_at w1 = id_at w) as Eid by (unfold id_at; by rewrite E3).
  specialize (IH w1 ns1 Hi1 Hn1). rewrite Eid in IH.
  destruct (chat_run _ (membership_of ns1)) as [m2 outs].
  destruct IH as (w2 & ns2 & frss & He2 & Hi2 & En2 & Em2 & Esk2 & Es2 & Hf2 & Eo2).
  { eapply Forall_impl; [exact Hl|]. intros p. unfold speaks. by rewrite E3. }
  exists w2, ns2, (frs :: frss). split_and!; [|done|by rewrite En2, En, insert_insert_eq|done| | | |].
  - cbn [for_each]. eapply ex_first; [|exact He2]. unfold handle_cmd. cbn [fst snd].
    by eapply ex_first; [exact He|].
  - by rewrite Esk2, E1, E2.
  - cbn [concat]. by rewrite Es2, Es, <- app_assoc.
  - constructor; [done|]. eapply Forall2_impl; [exact Hf2|]. intros o fr. by apply output_ok_same.
  - by rewrite Eo2, E3, E4, E5.
Qed.
End Refinement.

(** ** The server it sets up *)

Definition chat_events : gmap string (list fn) :=
  {["message" := [1%nat]; "join" := [2%nat]; "leave" := [3%nat]; "room message" := [4%nat];
    "except" := [5%nat]; "ping" := [6%nat]]}.

Section Main.
Context `{FL : Float64} `{JS : !JSON} {A : Type} `{AO : !Adapter A}.
Abbreviation W := (world A (list log_line)).

(** The namespaces after [main] has registered its functions. *)
Definition chat_root : namespace A :=
  mkNamespace ∅ (NewAdapter "/") [] [0%nat] [0%nat] [0%nat] [0%nat] chat_events [].
Definition chat_lobby : namespace A :=
  mkNamespace ∅ (NewAdapter "/lobby") [] [] [] [] [] {["message" := [0%nat]]} [].

(** The server [main] hands to [ListenAndServe]. *)
Definition chat_world : W :=
  match exec chat_main chat_start with Some (_, w, _) => w | None => chat_start end.

(** [main] reaches [ListenAndServe]: both namespaces are there with their
    functions and nothing else, nobody is connected, and nothing was sent. *)
Theorem chat_main_ready :
  exec chat_main chat_start = Some (tt, chat_world, []) ∧
  nsps chat_world = {["/" := chat_root; "/lobby" := chat_lobby]} ∧
  app chat_world = [Logged "chat server listening on :3000 (path /socket.io, CORS allow-all)"] ∧
  sent chat_world = [] ∧ conns chat_world = [] ∧ socks chat_world = [] ∧ adapterLocked chat_world = false.
Proof. split_and!; vm_compute; reflexivity. Qed.
End Main.

(** ** Two people in a room

    Two connections join the root namespace, one of them the lobby as well. *)
Module ChatDemo.
Abbreviation world := (SioServer.world Memory.memoryAdapter (list log_line)).
Definition app : user Memory.memoryAdapter (list log_line) string := chat Demo.ord.
Definition connect_frame (nsp : string) : bytes := Encode (mkPacket Connect nsp (-1) VNil 0).
Definition receives (es : engp) (b : bytes) : prog world unit :=
  onEngineData Demo.rand Demo.ord unmarshal_text app es b false.
Definition calls : list (prog world unit) :=
  [(onEngineConnect 5 ≫= λ _, onEngineConnect 7);
   (receives 5 (connect_frame "/") ≫= λ _, receives 7 (connect_frame "/") ≫= λ _,
    receives 5 (connect_frame "/lobby"))].
Definition state : config world Empty_set := run_all 4 (chat_start, Once <$> chat_main :: calls).
Definition ann : string := socket_id Demo.rand 0.
Definition bob : string := socket_id Demo.rand 2.

Lemma state_inv : inv Demo.rand state.1.
Proof.
  apply (chat_running Demo.rand Demo.ord demo_order unmarshal_text calls); [|apply run_all_reachable].
  repeat (apply List.Forall_cons); [| |constructor]; repeat first [apply entry_seq|apply entry_connect|apply entry_data].
Qed.

(** Both enter the room; what Ann says there goes to both, what Bob whispers
    beside Ann to nobody, and what Ann says after she has left to Bob. *)
Definition talk : list (sockp * chat_cmd) :=
  [(0, Join "r"); (2, Join "r"); (0, RoomSay "r" "hi"); (2, Whisper "r" ann "psst"); (0, Leave "r");
   (0, RoomSay "r" "bye")]%nat.
Definition root : namespace Memory.memoryAdapter := default (newNamespace None "/") (nsps state.1 !! "/").

Lemma root_there : nsps state.1 !! "/" = Some root.
Proof.
  unfold root. destruct (nsps state.1 !! "/") as [ns|] eqn:Hns; [done|]. exfalso.
  enough (is_Some (nsps state.1 !! "/")) as [? Hs] by congruence.
  apply (bool_decide_unpack (is_Some _)). by vm_compute.
Qed.

Definition told (from text : string) (to : gset string) : option (string * list gval * gset string) :=
  Some ("room message", [VStr from; VStr text], to).

(** Every socket is in a room of its own as well. *)
Lemma talk_means :
  chat_run ((λ p, (id_at state.1 p.1, p.2)) <$> talk) (membership_of root)
  = (mkMembership {[ann; bob]} {[("r", bob); (ann, ann); (bob, bob)]},
     [None; None; told ann "hi" {[ann; bob]}; told bob "psst" ∅; None; told ann "bye" {[bob]}]).
Proof. vm_cast_no_check (@eq_refl (membership * list (option (string * list gval * gset string)))
  (mkMembership {[ann; bob]} {[("r", bob); (ann, ann); (bob, bob)]},
     [None; None; told ann "hi" {[ann; bob]}; told bob "psst" ∅; None; told ann "bye" {[bob]}])). Qed.
End ChatDemo.

Lemma chat_refines_witness :
  ∃ (w' : ChatDemo.world) ns' frss,
    exec (for_each ChatDemo.talk (handle_cmd Demo.ord)) ChatDemo.state.1 = Some (tt, w', []) ∧
    nsps w' !! "/" = Some ns' ∧
    membership_of ns' = mkMembership {[ChatDemo.ann; ChatDemo.bob]}
      {[("r", ChatDemo.bob); (ChatDemo.ann, ChatDemo.ann); (ChatDemo.bob, ChatDemo.bob)]} ∧
    sent w' = sent ChatDemo.state.1 ++ concat frss ∧
    Forall2 (output_ok ChatDemo.state.1 ChatDemo.root "/")
      [None; None; ChatDemo.told ChatDemo.ann "hi" {[ChatDemo.ann; ChatDemo.bob]};
       ChatDemo.told ChatDemo.bob "psst" ∅; None; ChatDemo.told ChatDemo.ann "bye" {[ChatDemo.bob]}] frss.
Proof.
  pose proof (chat_refines Demo.rand Demo.ord demo_order ChatDemo.talk "/" ChatDemo.root ChatDemo.state.1
    ChatDemo.state_inv ChatDemo.root_there) as H1.
  rewrite ChatDemo.talk_means in H1. destruct H1 as (w' & ns' & frss & H1 & _ & H2 & H3 & _ & H4 & H5 & _).
  - repeat (apply List.Forall_cons; [refine (speaks_at ChatDemo.state.1 _ _ _); vm_compute; reflexivity|]). constructor.
  - exists w', ns', frss. rewrite H2, lookup_insert_eq. split_and!; [exact H1|reflexivity|exact H3|exact H4|exact H5].
Defined.
