(* ===== verification/ChatClient.v ===== *)
(** * ChatClient: the chat client of the examples

    Models [examples/chat-client/client.go]: the lines of standard input
    ([bufio.Scanner], [strings.TrimSpace], [SplitN] and the prefixes, on byte
    strings), what each of them calls, and [main], as programs of the client of
    SioClient.  What it prints is its state.

    [line_call_render] says how a command is typed; ChatEndToEnd puts the client,
    the server and the library between them together. *)

From S2P Require Import Prelude.
From S2P Require Import EngineTypes.
From S2P Require Import Value.
From S2P Require Import SioPacket.
From S2P Require Import AckTable.
From S2P Require Import PacketQueue.
From S2P Require Import Adapter.
From S2P Require Import Emitter.
From S2P Require Import Sched.
From S2P Require Import SioServer.
From S2P Require Import SioClientTypes.
From S2P Require Import SioClient.
From S2P Require Import ChatServer.

#[local] Opaque json_max_depth.

(** ** Lines *)

Definition newline : Byte.byte := "010"%byte.
Definition return_byte : Byte.byte := "013"%byte.
Definition space : Byte.byte := " "%byte.

(** [bufio.Scanner] with [ScanLines] and its limit of 64 KiB, newline included:
    the lines [Scan] gives until the input ends or a line is too long.  [cur] is
    the line so far. *)
Definition MaxScanTokenSize : Z := 65536.

Definition dropCR (l : bytes) : bytes :=
  match last l with
  | Some c => if decide (c = return_byte) then take (length l - 1) l else l
  | None => l
  end.

Fixpoint scan_lines (cur s : bytes) : list bytes :=
  match s with
  | [] => if bool_decide (cur = []) then [] else [dropCR cur]
  | c :: s' =>
      if decide (c = newline) then dropCR cur :: scan_lines [] s'
      else if MaxScanTokenSize <=? blen (cur ++ [c]) then [] else scan_lines (cur ++ [c]) s'
  end.

(** The encodings of the runes of [unicode.IsSpace]. *)
Definition bytes_of_codes (l : list Z) : bytes := byte_of_val <$> l.
Definition space_runes : list bytes := map (λ z, bytes_of_codes [z]) [9; 10; 11; 12; 13; 32].
Definition wide_space_runes : list bytes :=
  map bytes_of_codes
     [[194; 133]; [194; 160]; [225; 154; 128]; [226; 128; 168]; [226; 128; 169]; [226; 128; 175];
      [226; 129; 159]; [227; 128; 128]]
  ++ map (λ z, bytes_of_codes [226; 128; z]) (seqZ 128 11).

Definition is_prefix (p s : bytes) : bool := bool_decide (take (length p) s = p).

(** Dropping [runes] at the front of a string, as often as they occur. *)
Fixpoint trim_front (fuel : nat) (runes : list bytes) (s : bytes) : bytes :=
  match fuel with
  | O => s
  | S fuel' =>
      match list_find (λ r, is_prefix r s = true) runes with
      | Some (_, r) => trim_front fuel' runes (drop (length r) s)
      | None => s
      end
  end.

(** [strings.TrimSpace]; [length s] rounds are enough, for each drops a byte. *)
Definition spaces : list bytes := space_runes ++ wide_space_runes.
Definition TrimSpace (s : bytes) : bytes :=
  let s1 := trim_front (length s) spaces s in
  reverse (trim_front (length s1) (reverse <$> spaces) (reverse s1)).

(** [strings.HasPrefix], [TrimPrefix] *)
Definition HasPrefix (s p : bytes) : bool := is_prefix p s.
Definition TrimPrefix (s p : bytes) : bytes := if HasPrefix s p then drop (length p) s else s.

(** [strings.SplitN(s, " ", n)] *)
Fixpoint cut (s : bytes) : option (bytes * bytes) :=
  match s with
  | [] => None
  | c :: s' => if decide (c = space) then Some ([], s')
               else '(a, b) ← cut s'; Some (c :: a, b)
  end.
Fixpoint SplitN (s : bytes) (n : nat) : list bytes :=
  match n with
  | O => []
  | S O => [s]
  | S n' => match cut s with Some (a, b) => a :: SplitN b n' | None => [s] end
  end.

(** What a line of input calls: [EmitWithAck] of a ping, or [Emit]. *)
Inductive line_action :=
| SendPing
| Send (nsp event : string) (args : list bytes).

Definition line_call (line : bytes) : option line_action :=
  let line := TrimSpace line in
  let has p := HasPrefix line (bytes_of p) in
  let rest p := TrimPrefix line (bytes_of p) in
  if decide (line = bytes_of "/ping") then Some SendPing
  else if has "/lobby " then Some (Send "/lobby" "message" [rest "/lobby "])
  else if has "/join " then Some (Send "/" "join" [rest "/join "])
  else if has "/leave " then Some (Send "/" "leave" [rest "/leave "])
  else if has "/room " then
    match SplitN (rest "/room ") 2 with
    | [room; text] => Some (Send "/" "room message" [room; text])
    | _ => None
    end
  else if has "/except " then
    match SplitN (rest "/except ") 3 with
    | [room; exceptID; text] => Some (Send "/" "except" [room; exceptID; text])
    | _ => None
    end
  else if decide (line = []) then None
  else Some (Send "/" "message" [line]).

(** ** How a command is typed *)

(** No space at the beginning; at the end. *)
Definition begins_well (s : bytes) : Prop := Forall (λ r, is_prefix r s = false) spaces.
Definition ends_well (s : bytes) : Prop := Forall (λ r, is_prefix r (reverse s) = false) (reverse <$> spaces).

Definition typed (c : chat_cmd) : bytes :=
  match c with
  | Say text => bytes_of text
  | Join room => bytes_of "/join " ++ bytes_of room
  | Leave room => bytes_of "/leave " ++ bytes_of room
  | RoomSay room text => bytes_of "/room " ++ bytes_of room ++ [space] ++ bytes_of text
  | Whisper room exceptID text =>
      bytes_of "/except " ++ bytes_of room ++ [space] ++ bytes_of exceptID ++ [space] ++ bytes_of text
  | Ping => bytes_of "/ping"
  | LobbySay text => bytes_of "/lobby " ++ bytes_of text
  end.

Definition commands : list string := ["/lobby "; "/join "; "/leave "; "/room "; "/except "].

(** The last word is there and does not end in a space; the words before it have
    no blank in them; what is said does not look like a command. *)
Definition typable (c : chat_cmd) : Prop :=
  (newline ∉ typed c) ∧ blen (typed c) < MaxScanTokenSize ∧
  (c = Ping ∨ List.last (cmd_args c) "" ≠ "" ∧ ends_well (bytes_of (List.last (cmd_args c) ""))) ∧
  match c with
  | Say text =>
      begins_well (bytes_of text) ∧ text ≠ "/ping" ∧
      Forall (λ p, HasPrefix (bytes_of text) (bytes_of p) = false) commands
  | RoomSay room _ => space ∉ bytes_of room
  | Whisper room exceptID _ => (space ∉ bytes_of room) ∧ space ∉ bytes_of exceptID
  | _ => True
  end.

Definition cmd_action (c : chat_cmd) : line_action :=
  match c with Ping => SendPing | _ => Send (cmd_nsp c) (cmd_event c) (bytes_of <$> cmd_args c) end.

Lemma trim_front_none n runes s :
  Forall (λ r, is_prefix r s = false) runes → trim_front n runes s = s.
Proof.
  intros Hr. destruct n as [|n]; [done|]. cbn [trim_front].
  replace (list_find (λ r, is_prefix r s = true) runes) with (@None (nat * bytes)); [done|].
  symmetry. apply list_find_None. eapply Forall_impl; [exact Hr|]. by intros r ->.
Qed.

Lemma TrimSpace_id s : begins_well s → ends_well s → TrimSpace s = s.
Proof.
  intros Hb He. unfold TrimSpace. rewrite (trim_front_none (length s) spaces s Hb).
  rewrite (trim_front_none (length s) _ _ He). apply reverse_involutive.
Qed.

(** The slash of a command is not a space. *)
Lemma begins_slash s : begins_well (slash :: s).
Proof.
  assert (Forall (λ r, take 1 r ≠ take 1 [slash] ∧ r ≠ []) spaces) as Hall
    by (apply (bool_decide_unpack (Forall _ _)); by vm_compute).
  eapply Forall_impl; [exact Hall|]. intros [|c r] [Hc Hne]; [done|]. apply bool_decide_eq_false.
  cbn [length take] in *. rewrite !take_0 in Hc. congruence.
Qed.

(** A space at the end of a line that goes on, after an ASCII character, with a
    word is one at the end of the word. *)
Lemma space_shape r : r ∈ spaces → (length r ≤ 1)%nat ∨ Forall (λ c, 128 <= byte_val c) r.
Proof.
  intros Hr. apply (bool_decide_unpack (_ ∨ _)). revert r Hr. apply Forall_forall.
  apply (bool_decide_unpack (Forall _ _)). by vm_compute.
Qed.

Lemma ends_well_app pre c s :
  s ≠ [] → byte_val c < 128 → ends_well s → ends_well (pre ++ c :: s).
Proof.
  intros Hs Hc He. apply Forall_fmap, Forall_forall. intros r Hr. unfold ends_well in He.
  apply Forall_fmap in He. pose proof (proj1 (Forall_forall _ _) He r Hr) as H1. simpl in *.
  unfold is_prefix in *. apply bool_decide_eq_false in H1. apply bool_decide_eq_false. intros H2. apply H1.
  rewrite reverse_app, reverse_cons, <- app_assoc in H2.
  destruct (decide (length (reverse r) ≤ length (reverse s))%nat) as [Hl|Hl]; [by rewrite take_app_le in H2|].
  destruct (space_shape r Hr) as [Hr1|Hr1].
  { rewrite !length_reverse in Hl. destruct s; [done|]. simpl in Hl. lia. }
  assert (c ∈ reverse r) as Hin.
  { rewrite <- H2, take_app_ge by lia. destruct (length (reverse r) - length (reverse s))%nat eqn:E; [lia|].
    simpl. set_solver. }
  rewrite elem_of_reverse in Hin. pose proof (proj1 (Forall_forall _ _) Hr1 c Hin). simpl in *. lia.
Qed.

Lemma cut_space a b : space ∉ a → cut (a ++ space :: b) = Some (a, b).
Proof.
  induction a as [|c a IH]; intros Ha; simpl; [done|].
  rewrite decide_False by set_solver. by rewrite IH by set_solver.
Qed.

Lemma SplitN_cut n a b : space ∉ a → SplitN (a ++ [space] ++ b) (S (S n)) = a :: SplitN b (S n).
Proof. intros Ha. cbn [SplitN]. change ([space] ++ b) with (space :: b). by rewrite cut_space. Qed.

(** *** Lines *)

Lemma scan_line cur l s :
  newline ∉ l → blen (cur ++ l) < MaxScanTokenSize →
  scan_lines cur (l ++ newline :: s) = dropCR (cur ++ l) :: scan_lines [] s.
Proof.
  revert cur. induction l as [|c l IH]; intros cur Hn Hl; simpl.
  - by rewrite app_nil_r.
  - rewrite decide_False by set_solver. rewrite cons_middle, app_assoc in Hl.
    replace (MaxScanTokenSize <=? _) with false; [by rewrite IH, <- app_assoc by set_solver|].
    symmetry. apply Z.leb_gt. rewrite blen_app in Hl. pose proof (blen_nonneg l). lia.
Qed.

Lemma ends_well_dropCR s : ends_well s → dropCR s = s.
Proof.
  intros He. unfold dropCR. destruct (last s) as [c|] eqn:Hl; [|done]. case_decide as Hc; [|done]. subst c.
  apply last_Some in Hl as [l' ->]. exfalso.
  assert (is_prefix (reverse [return_byte]) (reverse (l' ++ [return_byte])) = false) as H1.
  { apply (proj1 (Forall_forall _ _) (proj1 (Forall_fmap _ _ _) He)). apply list_elem_of_In. simpl. tauto. }
  rewrite reverse_app in H1. by vm_compute in H1.
Qed.

(** *** Commands *)

Lemma typable_ends c : typable c → ends_well (typed c).
Proof.
  intros (_ & _ & He & Hc).
  assert (∀ (q : bytes) (s : string), c = Ping ∨ s ≠ "" ∧ ends_well (bytes_of s) → c ≠ Ping →
    ends_well (q ++ space :: bytes_of s)) as Hw.
  { intros q s [Hs|[Hs He']] Hp; [done|]. by apply ends_well_app; [destruct s| |]. }
  destruct c as [text|room|room|room text|room exceptID text| |text]; cbn [typed cmd_args List.last] in *.
  - by destruct He as [|[_ He]].
  - by apply (Hw (bytes_of "/join")).
  - by apply (Hw (bytes_of "/leave")).
  - rewrite (app_assoc _ (bytes_of room)). by apply Hw.
  - pose proof (Hw (bytes_of "/except " ++ bytes_of room ++ [space] ++ bytes_of exceptID) text He) as H1.
    rewrite <- !app_assoc in H1. by apply H1.
  - apply (bool_decide_unpack (Forall _ _)). by vm_compute.
  - by apply (Hw (bytes_of "/lobby")).
Qed.

Lemma typable_begins c : typable c → begins_well (typed c).
Proof.
  intros (_ & _ & _ & Hc). destruct c; try apply begins_slash. exact (proj1 Hc).
Qed.

Lemma TrimPrefix_app p s : TrimPrefix (p ++ s) p = s ∧ HasPrefix (p ++ s) p = true.
Proof.
  assert (HasPrefix (p ++ s) p = true) as H1 by (apply bool_decide_eq_true; by rewrite take_app_length).
  unfold TrimPrefix. rewrite H1. split; [by rewrite drop_app_length|done].
Qed.

(** The commands differ in their first letters. *)
Lemma other_command (p q : string) s :
  (3 ≤ String.length p)%nat → (3 ≤ String.length q)%nat →
  take 3 (bytes_of p) ≠ take 3 (bytes_of q) → HasPrefix (bytes_of p ++ s) (bytes_of q) = false.
Proof.
  intros Hp Hq Hne. apply bool_decide_eq_false. intros E. apply Hne. rewrite <- E, take_take.
  assert (∀ t : string, length (bytes_of t) = String.length t) as Hlen.
  { intros t. induction t as [|x t IH]; [done|]. by apply (f_equal S). }
  by rewrite Nat.min_l, take_app_le by (rewrite Hlen; lia).
Qed.

Lemma line_call_typed c : typable c → line_call (typed c) = Some (cmd_action c).
Proof.
  intros Ht. unfold line_call. rewrite TrimSpace_id by (by apply typable_begins || by apply typable_ends).
  destruct Ht as (_ & _ & He & Hc).
  destruct c as [text|room|room|room text|room exceptID text| |text]; cbn [typed cmd_args List.last] in *.
  1:{ destruct Hc as (_ & Hp & Hcs). destruct He as [|[Hne _]]; [done|].
    assert (∀ s, bytes_of text = bytes_of s → text = s) as Hinj
      by (intros s E; by rewrite <- (string_of_bytes_of text), E, string_of_bytes_of).
    rewrite decide_False by (intros E; by apply Hp, Hinj).
    repeat (apply Forall_cons in Hcs as [-> Hcs]). rewrite decide_False; [done|]. intros E.
    by apply Hne, (Hinj ""). }
  5: done.
  all: rewrite decide_False by done.
  all: repeat match goal with
       | |- context [HasPrefix (bytes_of ?p ++ ?s) (bytes_of ?q)] =>
           rewrite (other_command p q s) by (done || (simpl; lia))
       end.
  all: rewrite (proj2 (TrimPrefix_app _ _)), (proj1 (TrimPrefix_app _ _)); try done.
  - by rewrite SplitN_cut.
  - destruct Hc as [H1 H2]. by rewrite (SplitN_cut 1), (SplitN_cut 0).
Qed.

Definition typed_lines (cs : list chat_cmd) : bytes := concat ((λ c, typed c ++ [newline]) <$> cs).

Lemma scan_typed cs : Forall typable cs → scan_lines [] (typed_lines cs) = typed <$> cs.
Proof.
  induction 1 as [|c cs Hc _ IH]; [done|]. unfold typed_lines in *. cbn [fmap list_fmap concat].
  rewrite <- app_assoc. pose proof (typable_ends c Hc) as He. destruct Hc as (H1 & H2 & _).
  change ([newline] ++ ?l) with (newline :: l). rewrite scan_line by done. f_equal; [|done].
  by apply ends_well_dropCR.
Qed.

(** C33. What is typed is what is meant: the lines of an input in which each command
    is typed on a line of its own, as the source's comments write it, call
    exactly these commands, in their order: the event of the command, with its
    words. *)
Theorem line_call_render cs :
  Forall typable cs →
  line_call <$> scan_lines [] (typed_lines cs) = (λ c, Some (cmd_action c)) <$> cs.
Proof.
  intros Hcs. rewrite scan_typed by done. induction Hcs as [|c cs Hc _ IH]; [done|].
  cbn [fmap list_fmap]. f_equal; [by apply line_call_typed|done].
Qed.

Lemma line_call_render_witness :
  line_call <$> scan_lines [] (typed_lines [Say "hi all"; Join "r"; Whisper "r" "id7" "not you"; Ping])
  = [Some (Send "/" "message" [bytes_of "hi all"]); Some (Send "/" "join" [bytes_of "r"]);
     Some (Send "/" "except" [bytes_of "r"; bytes_of "id7"; bytes_of "not you"]); Some SendPing].
Proof.
  apply (line_call_render [Say "hi all"; Join "r"; Whisper "r" "id7" "not you"; Ping]).
  repeat (apply List.Forall_cons; [split; [|split; [reflexivity|split;
    [first [left; reflexivity|right; split; [discriminate|]]|]]]|]); try constructor;
    try (apply (bool_decide_unpack _); vm_compute; exact I).
Defined.

(** What the parser makes of lines beside the typed commands: a command without
    its argument is said to everybody, a second blank gives a room without a
    name, which is everybody too, a missing text is nothing, and nothing after
    a line of 64 KiB is read. *)
Lemma line_edges :
  line_call (bytes_of "/join") = Some (Send "/" "message" [bytes_of "/join"]) ∧
  line_call (bytes_of "/room  hi") = Some (Send "/" "room message" [[]; bytes_of "hi"]) ∧
  line_call (bytes_of "/room r") = None ∧
  line_call (bytes_of "  /ping ") = Some SendPing ∧
  ∀ cur s, MaxScanTokenSize <= blen cur → newline ∉ take 1 s → s ≠ [] → scan_lines cur s = [].
Proof.
  split_and!; [vm_compute; reflexivity..|]. intros cur [|c s] Hl Hn Hs; [done|]. simpl.
  rewrite decide_False by set_solver. replace (MaxScanTokenSize <=? _) with true; [done|].
  symmetry. apply Z.leb_le. rewrite blen_app. pose proof (blen_nonneg [c]). lia.
Qed.

(** ** The program *)

(** What it prints: to standard output, to the log, and the arguments of an
    acknowledgement, printed with [%v]. *)
Inductive out_line `{Float64} :=
| Printed (text : string)
| LoggedLine (text : string)
| PrintedAck (args : list gval).

Section Client.
Context `{FL : Float64} `{FO : !FloatOps} `{JS : !JSON}.
Context (ord : nat → order) (choose : nat → bool).
Context (unmarshal_into : gtype → bytes → option string).
Abbreviation W := (scworld (list out_line)).
Abbreviation P := (mprog W sc_method).

Definition out (l : out_line) : P unit := update (set_sc_app (λ ls, ls ++ [l])).

Definition lf : string := String (Ascii.ascii_of_nat 10) "".
Definition shown (h : fn) (from text : string) : string :=
  (match h with 1%nat => "[room] " | 2%nat => "[lobby] " | _ => "" end)
  +:+ from +:+ ": " +:+ text +:+ lf.

(** The functions of [OnEvent]: 0 for messages, 1 for those of a room, 2 for
    those of the lobby. *)
Definition chat_client_event (h : fn) (ins : list (rvalue (data := string))) : P (list rout) :=
  match ins with
  | [from; text] => out (Printed (shown h (str_of from) (str_of text))) ≫= λ _, mret []
  | _ => mret []
  end.

Definition chat_client : sc_user (U := list out_line) (data := string) := {|
  uc_connect _ := out (Printed ("connected" +:+ lf));
  uc_disconnect _ reason := out (Printed ("disconnected: " +:+ reason +:+ lf));
  uc_error _ err := out (Printed ("handler error: " +:+ err +:+ lf));
  uc_sig _ := mkHandler [TString; TString] false;
  uc_event := chat_client_event;
  uc_ack _ args := out (PrintedAck args)
|}.

Definition handle_line (line : bytes) : P unit :=
  match line_call line with
  | None => skip
  | Some SendPing =>
      sc_EmitWithAck "/" "ping" (Some 0%nat) [] ≫= λ r,
      match r.2 with Some err => out (LoggedLine ("ping: " +:+ err)) | None => skip end
  | Some (Send nsp event args) => sc_Emit nsp event ((λ a, VStr (string_of a)) <$> args) ≫= λ _, skip
  end.

(** The options given to [Dial]; the contexts are [context.Background()]. *)
Definition chat_options : sc_options :=
  mkScOptions [] None None true 0 0 0 (f64_of_Z 0) 0.
Definition chat_client_start : W := newClient (Some chat_options) ∅ [].

(** [log.Fatalf] and [select {}] are where nothing more of [main] runs, so the
    deferred [Close] is not reached. *)
Definition chat_client_main (stdin : bytes) : P unit :=
  atomic sc_add_ctx ≫= λ ctx,
  sc_Dial ord choose unmarshal_into chat_client ctx ≫= λ err,
  match err with
  | Some msg => out (LoggedLine ("dial: " +:+ msg)) ≫= λ _, await (λ _, None)
  | None =>
      sc_OnConnect "/" 0 ≫= λ _,
      sc_OnDisconnect "/" 0 ≫= λ _,
      sc_OnEvent "/" "message" 0 ≫= λ _,
      sc_OnEvent "/" "room message" 1 ≫= λ _,
      sc_OnError "/" 0 ≫= λ _,
      atomic sc_add_ctx ≫= λ ctx,
      ConnectNamespace choose ctx "/lobby" None ≫= λ err,
      match err with Some msg => out (LoggedLine ("connect lobby: " +:+ msg)) | None => skip end ≫= λ _,
      sc_OnEvent "/lobby" "message" 2 ≫= λ _,
      go (for_each (scan_lines [] stdin) handle_line) ≫= λ _,
      await (λ _, None)
  end.
End Client.
