(* ===== verification/ChatEndToEnd.v ===== *)
(** * ChatEndToEnd: a conversation across the library

    The chat client of ChatClient, the chat server of ChatServer and the
    Socket.IO client and server between them: what a line typed by one client
    makes the others print. *)

From S2P Require Import Prelude.
From S2P Require Import EngineTypes.
From S2P Require Import EngineOptions.
From S2P Require Import EngineServer.
From S2P Require Import Utf8.
From S2P Require Import Strconv.
From S2P Require Import Value.
From S2P Require Import Json.
From S2P Require Import FixedFloat.
From S2P Require Import SioPacket.
From S2P Require Import AckTable.
From S2P Require Import PacketQueue.
From S2P Require Import Adapter.
From S2P Require Import Emitter.
From S2P Require Import Sched.
From S2P Require Import Safety.
From S2P Require Import SioServer.
From S2P Require Import SioWire.
From S2P Require Import SioInvariant.
From S2P Require Import SioHandlers.
From S2P Require Import SioClientTypes.
From S2P Require Import SioClient.
From S2P Require Import SioClientDemo.
From S2P Require Import SioClientHandlers.
From S2P Require Import SioEndToEnd.
From S2P Require Import ChatServer.
From S2P Require Import ChatClient.

#[local] Opaque json_max_depth.

(** [json.Unmarshal] of the text of a string into a Go string. *)
Class StringJSON `{Float64} `{!JSON} (unmarshal_into : gtype → bytes → option string) := {
  unmarshal_string s j :
    utf8_valid (bytes_of s) = true → json_marshal (VStr s) = Some j → unmarshal_into TString j = Some s
}.

#[export] Instance text_json `{FL : Float64} `{JS : !JSON} : StringJSON unmarshal_text.
Proof.
  split. intros s j Hs Hj. destruct (json_round_trip (VStr s)) as (j' & Hj' & Hu).
  { by replace json_max_depth with (S (pred json_max_depth)) by (by vm_compute). }
  unfold unmarshal_text. simplify_eq. by rewrite Hu.
Qed.

(** Texts that JSON carries. *)
Abbreviation texts l := (Forall (λ s : string, utf8_valid (bytes_of s) = true) l).

Section Strings.
Context `{FL : Float64} `{FLL : !Float64Laws} `{JS : !JSON}.
Context (unmarshal_into : gtype → bytes → option string) `{SJ : !StringJSON unmarshal_into}.

Lemma convert_text s :
  utf8_valid (bytes_of s) = true → convertArg unmarshal_into (VStr s) TString = Some (RData TString s).
Proof.
  intros Hs. unfold convertArg. rewrite decide_False by done. rewrite decide_False by (by intros []).
  destruct (json_round_trip (VStr s)) as (j & Hj & _).
  { by replace json_max_depth with (S (pred json_max_depth)) by (by vm_compute). }
  rewrite Hj. by rewrite (unmarshal_string s j).
Qed.

Lemma fill_texts l :
  texts l → fill unmarshal_into (replicate (length l) TString) (VStr <$> l) = Some (RData TString <$> l).
Proof.
  induction 1 as [|s l Hs _ IH]; [done|]. cbn [length replicate fill fmap list_fmap head tail param_value].
  rewrite convert_text by done. cbn [mbind option_bind]. by rewrite IH.
Qed.

Lemma fits_texts (l : list string) :
  fits (RData TString <$> l) (replicate (length l) TString) = true.
Proof.
  apply andb_true_iff. split; [apply bool_decide_eq_true; by rewrite length_fmap, length_replicate|].
  induction l as [|s l IH]; [done|]. done.
Qed.

(** A handler of strings is called with the strings it was sent. *)
Lemma invoke_texts s l :
  texts l →
  invokeHandler unmarshal_into (mkHandler (TSocket :: replicate (length l) TString) false) s (VStr <$> l)
  = Calls (RSocket s :: (RData TString <$> l)).
Proof.
  intros Hl. unfold invokeHandler. cbn [hin]. rewrite bool_decide_true by done. cbn [negb].
  rewrite fill_texts by done. unfold Emitter.Call. cbn [variadic hin].
  replace (fits _ _) with true; [done|]. symmetry. pose proof (fits_texts l) as Hf.
  apply andb_true_iff in Hf as [H1 H2]. apply andb_true_iff. split; [|done].
  apply bool_decide_eq_true in H1. apply bool_decide_eq_true. cbn [length]. by f_equal.
Qed.

Lemma invoke_client_texts l :
  texts l →
  invokeClientHandler unmarshal_into (mkHandler (replicate (length l) TString) false) (VStr <$> l)
  = Calls (RData TString <$> l).
Proof.
  intros Hl. unfold invokeClientHandler, numIn. cbn [variadic hin].
  rewrite take_ge by done. rewrite fill_texts by done. unfold Emitter.Call. cbn [variadic hin].
  by rewrite fits_texts.
Qed.

(** An event of strings is one frame, and arrives as it is. *)
Lemma packet_ok_texts nsp e l :
  nsp_ok nsp → isReservedEvent e = false → texts (e :: l) → packet_ok (event_packet nsp (-1) e (VStr <$> l)).
Proof.
  intros Hn He Hl. split; [done|by left|done|]. right. split_and!; [done| |].
  - apply json_ok_arr. exists (pred json_max_depth). split; [by vm_compute|].
    replace (pred json_max_depth) with (S (pred (pred json_max_depth))) by (by vm_compute).
    change (VStr e :: (VStr <$> l)) with (VStr <$> e :: l). apply Forall_fmap. by eapply Forall_impl.
  - cbn. by rewrite He.
Qed.

Lemma json_view_texts (l : list string) : json_view <$> (VStr <$> l) = VStr <$> l.
Proof. rewrite <- list_fmap_compose. by apply list_fmap_ext. Qed.

Lemma texts_arrive nsp e l :
  nsp_ok nsp → isReservedEvent e = false → texts (e :: l) →
  let p := event_packet nsp (-1) e (VStr <$> l) in arrives [(Encode p, false)] p.
Proof.
  intros Hn He Hl p. pose proof (plain_arrives p (packet_ok_texts _ _ _ Hn He Hl) eq_refl) as Ha.
  unfold p, event_packet in *. cbn [pType pNsp pID pData pAttachments json_view] in Ha.
  change (VStr e :: (VStr <$> l)) with (VStr <$> e :: l) in *. by rewrite json_view_texts in Ha.
Qed.

Lemma frames_texts nsp e l st :
  frames (event_packet nsp (-1) e (VStr <$> l)) st = ([(Encode (event_packet nsp (-1) e (VStr <$> l)), false)], st).
Proof.
  unfold frames. replace (hasBinary _) with false; [done|].
  symmetry. cbn. induction l as [|s l IH]; [done|]. exact IH.
Qed.
End Strings.

(** ** What a line makes the others print *)

(** The event and the function of the client that prints a command, and the text
    that is printed. *)
Definition heard (c : chat_cmd) : option (string * fn) :=
  match c with
  | Say _ => Some ("message", 0%nat)
  | LobbySay _ => Some ("message", 2%nat)
  | RoomSay _ _ | Whisper _ _ _ => Some ("room message", 1%nat)
  | _ => None
  end.
Definition cmd_text (c : chat_cmd) : string := List.last (cmd_args c) "".

Section Conversation.
Context `{FL : Float64} `{FLL : !Float64Laws} `{FO : !FloatOps} `{JS : !JSON} {A : Type} `{AO : !Adapter A} `{AL : !AdapterLaws A}.
Context (rand : nat → bytes) (ord : nat → order) (Hord : ∀ n, is_order (ord n)).
Context (unmarshal_into : gtype → bytes → option string) `{SJ : !StringJSON unmarshal_into}.
Abbreviation CW := (scworld (list out_line)).
Context `{RN : !Runner CW sc_method}.
Abbreviation SW := (world A (list log_line)).
Implicit Types (cw : CW) (ws : SW) (k : socket) (ns : namespace A).

(** What a message makes the client print. *)
Definition prints (h : fn) (ins : list (rvalue (data := string))) (ls : list out_line) : list out_line :=
  match ins with [from; text] => ls ++ [Printed (shown h (str_of from) (str_of text))] | _ => ls end.

Lemma chat_client_quiet : quiet_events chat_client (λ _ _, []) prints.
Proof.
  intros h ins w. cbn [uc_event chat_client]. unfold chat_client_event, prints, out.
  by destruct ins as [|from [|text [|x ins]]]; destruct w.
Qed.

(** A client that listens prints what it is sent. *)
Lemma client_prints nsp e h from text cw :
  nsp_ok nsp → isReservedEvent e = false → texts [e; from; text] →
  sc_recon cw = None → event_handlers cw nsp e = [h] →
  let frame := Encode (event_packet nsp (-1) e [VStr from; VStr text]) in
  ∃ cw1 t cw2,
    exec (client_reads unmarshal_into chat_client [(frame, false)]) cw = Some (tt, cw1, [Once t]) ∧
    exec t cw1 = Some (tt, cw2, []) ∧
    sc_app cw2 = sc_app cw ++ [Printed (shown h from text)].
Proof.
  intros Hn He Ht Hr Hh frame.
  pose proof (texts_arrive nsp e [from; text] Hn He Ht) as Ha. cbn [fmap list_fmap] in Ha.
  pose proof (invoke_client_texts unmarshal_into [from; text] (proj2 (proj1 (Forall_cons _ _ _) Ht))) as Hi.
  cbn [length replicate fmap list_fmap] in Hi.
  eexists _, _, _. split_and!.
  - rewrite (ex_client_reads _ _ _ _ _ Hr Ha). unfold sc_process. cbn [pType event_packet].
    rewrite (ex_handleEvent _ _ _ e [VStr from; VStr text]) by done. cbn [pNsp event_packet]. rewrite Hh. done.
  - rewrite (ex_run_handler unmarshal_into chat_client (λ _ _, []) prints).
    + unfold handler_reports. cbn [uc_sig chat_client]. rewrite Hi. reflexivity.
    + exact chat_client_quiet.
    + cbn [uc_sig chat_client]. by rewrite Hi.
    + cbn [sc_cells set_sc_cells]. rewrite lookup_snoc. by eexists.
  - unfold after_handler, handler_effect. cbn [uc_sig chat_client]. rewrite Hi. reflexivity.
Qed.

(** A line of the input is one event, on a namespace that is connected. *)
Lemma handle_line_typed c cw :
  typable c → c ≠ Ping → is_connected cw (cmd_nsp c) = true →
  exec (handle_line (typed c)) cw
  = Some (tt, sent_packet (event_packet (cmd_nsp c) (-1) (cmd_event c) (VStr <$> cmd_args c)) cw, []).
Proof.
  intros Ht Hp Hc. unfold handle_line. rewrite line_call_typed by done.
  replace (cmd_action c) with (Send (cmd_nsp c) (cmd_event c) (bytes_of <$> cmd_args c)) by (by destruct c).
  unfold sc_Emit, sc_Connected. rewrite exec_bind, exec_bind, ex_gets, Hc, exec_bind, ex_sendPacket.
  replace ((λ a, VStr (string_of a)) <$> (bytes_of <$> cmd_args c)) with (VStr <$> cmd_args c); [done|].
  rewrite <- list_fmap_compose. apply list_fmap_ext. intros _ s _. cbn. by rewrite string_of_bytes_of.
Qed.

(** The server handles it: its reading starts the goroutine of the handler, and
    that one, run alone, does what the chat means by the command. *)
Lemma server_handles c ec cn s k ns ws :
  texts (cmd_event c :: cmd_args c) →
  can_answer cn ec (cmd_nsp c) s ns ws → socks ws !! s = Some k → sk_nsp k = cmd_nsp c →
  inv rand ws → events ns !! cmd_event c = Some [cmd_fn c] → nsp_ok (cmd_nsp c) →
  let p := event_packet (cmd_nsp c) (-1) (cmd_event c) (VStr <$> cmd_args c) in
  let '(m', out) := chat_step (sk_id k) c (membership_of ns) in
  ∃ ws1 anys t ws2 ns' frs,
    exec (server_reads rand ord unmarshal_into (chat ord) cn [(Encode p, false)]) ws
    = Some (tt, ws1, anys ++ [Once t]) ∧
    anys = (λ h, Once (u_any (chat ord) h s (cmd_event c) (VStr <$> cmd_args c))) <$> on_any ns ∧
    exec t ws1 = Some (tt, ws2, []) ∧
    nsps ws2 = <[cmd_nsp c := ns']> (nsps ws) ∧ membership_of ns' = m' ∧
    sent ws2 = sent ws ++ frs ∧ app ws2 = app ws ++ cmd_log (sk_id k) c ∧
    output_ok ws ns (cmd_nsp c) out frs.
Proof.
  intros Ht [Hc Hr Hs _ Hn] Hk Hkn Hi He Hnsp p.
  assert (arrives [(Encode p, false)] p) as Ha.
  { apply texts_arrive; [done| |done]. by destruct c. }
  set (ws1 := set_cells (λ l, l ++ [mkCell 1 []]) ws).
  assert (inv rand ws1) as Hi1 by (by apply (good_same rand ws ws1)).
  pose proof (chat_cmd_refines rand ord Hord c s k ns ws1 Hi1 Hk Hkn Hn) as H1.
  destruct (chat_step (sk_id k) c (membership_of ns)) as [m' out].
  destruct H1 as (w' & ns' & frs & Hex & H1 & H2 & H3 & H4 & H5 & H6 & H7).
  eexists ws1, _, _, _, ns', frs. split_and!.
  - rewrite (ex_server_reads rand ord unmarshal_into (chat ord) cn ec _ p) by done.
    destruct (handleEvent_dispatch unmarshal_into (chat ord) cn ec p ws Hc) as [Hev _].
    unfold process. cbn [pType p event_packet].
    rewrite (Hev s k ns (cmd_event c) (VStr <$> cmd_args c)) by (done || by rewrite Hkn).
    rewrite He. unfold event_goroutines. rewrite He. reflexivity.
  - reflexivity.
  - unfold run_handler. replace (u_sig (chat ord) (cmd_fn c))
      with (mkHandler (TSocket :: replicate (length (cmd_args c)) TString) false) by (by destruct c).
    rewrite invoke_texts by by apply Forall_cons in Ht as [_ Ht].
    rewrite exec_bind. change (u_event (chat ord)) with (chat_event ord). rewrite Hex.
    rewrite exec_bind, ex_update. unfold wg_Done. rewrite ex_update. reflexivity.
  - exact H1.
  - exact H2.
  - exact H4.
  - exact H5.
  - exact H7.
Qed.

Lemma cmd_nsp_ok c : nsp_ok (cmd_nsp c).
Proof. by destruct c; (split; [done|]; apply (bool_decide_unpack (_ ∉ _)); vm_compute). Qed.

(** The frames of an output are those of its event. *)
Lemma output_frames ws ns nsp e args R frs :
  output_ok ws ns nsp (Some (e, args, R)) frs →
  Forall (λ fr, fr.1.2 = Encode (event_packet nsp (-1) e args) ∧ fr.2 = false) frs.
Proof.
  intros (targets & _ & _ & ->). apply Forall_forall. intros fr (id & _ & Hf)%list_elem_of_omap.
  unfold target_frame in Hf. repeat (case_match || (destruct (_ !! _); cbn [mbind option_bind] in Hf)); by simplify_eq/=.
Qed.

(** What the others print: each frame of the command, read by a client that
    listens to its event, starts one goroutine, which prints the text with its
    sender's id. *)
Definition printed_by_all (from : string) (c : chat_cmd) (frs : list (engp * bytes * bool)) : Prop :=
  ∀ e h cw, heard c = Some (e, h) → sc_recon cw = None → event_handlers cw (cmd_nsp c) e = [h] →
  Forall (λ fr : engp * bytes * bool, ∃ cw1 t cw2,
    exec (client_reads unmarshal_into chat_client [(fr.1.2, fr.2)]) cw = Some (tt, cw1, [Once t]) ∧
    exec t cw1 = Some (tt, cw2, []) ∧
    sc_app cw2 = sc_app cw ++ [Printed (shown h from (cmd_text c))]) frs.

Lemma output_printed from c m ws ns frs :
  texts [from; cmd_text c] → output_ok ws ns (cmd_nsp c) (chat_step from c m).2 frs →
  printed_by_all from c frs.
Proof.
  intros Ht Ho e h cw Hh Hr Hl.
  assert (∃ R, (chat_step from c m).2 = Some (e, [VStr from; VStr (cmd_text c)], R) ∧ isReservedEvent e = false
          ∧ utf8_valid (bytes_of e) = true) as (R & E & He & Hu).
  { destruct c; try done; injection Hh as <- <-; eexists; by split_and!. }
  rewrite E in Ho. apply output_frames in Ho. eapply Forall_impl; [exact Ho|]. intros fr [-> ->].
  apply client_prints; [apply cmd_nsp_ok|done| |done..]. by constructor.
Qed.

(** C8. A line typed by one client and what comes of it.  The line hands the frame
    of its event to the session; the server that reads it on a connection with a
    socket of the namespace starts the goroutines of [OnAny] and of the one
    handler, and that handler, run alone, leaves the membership [chat_step]
    gives, logs its line and hands over the frame of [chat_step]'s event once
    for each connected recipient; each of these frames makes a client that
    listens print the text with its sender's id. *)
Theorem chat_line_crosses c cw e cn ec s k ns ws :
  typable c → c ≠ Ping → texts (cmd_args c) →
  is_connected cw (cmd_nsp c) = true → sc_engine cw = Some e → eng_open cw e = true →
  inv rand ws → can_answer cn ec (cmd_nsp c) s ns ws → socks ws !! s = Some k →
  events ns !! cmd_event c = Some [cmd_fn c] →
  let '(m', o) := chat_step (sk_id k) c (membership_of ns) in
  ∃ cw1 fs ws1 anys t ws2 ns' frs,
    exec (handle_line (typed c)) cw = Some (tt, cw1, []) ∧ sc_sent cw1 = sc_sent cw ++ to_conn e fs ∧
    exec (server_reads rand ord unmarshal_into (chat ord) cn fs) ws = Some (tt, ws1, anys ++ [Once t]) ∧
    anys = (λ h, Once (u_any (chat ord) h s (cmd_event c) (VStr <$> cmd_args c))) <$> on_any ns ∧
    exec t ws1 = Some (tt, ws2, []) ∧
    nsps ws2 = <[cmd_nsp c := ns']> (nsps ws) ∧ membership_of ns' = m' ∧
    sent ws2 = sent ws ++ frs ∧ app ws2 = app ws ++ cmd_log (sk_id k) c ∧
    output_ok ws ns (cmd_nsp c) o frs ∧ printed_by_all (sk_id k) c frs.
Proof.
  intros Hty Hp Ht Hcon He Ho Hi Hca Hk Hev.
  assert (sk_nsp k = cmd_nsp c) as Hkn by (destruct (ca_sock _ _ _ _ _ _ Hca) as (k' & ? & ? & _); by simplify_eq).
  assert (texts (cmd_event c :: cmd_args c)) as Hte by (constructor; [by destruct c|done]).
  pose proof (server_handles c ec cn s k ns ws Hte Hca Hk Hkn Hi Hev (cmd_nsp_ok c)) as Hs. cbn zeta in Hs.
  pose proof (handle_line_typed c cw Hty Hp Hcon) as Hl. set (p := event_packet _ _ _ _) in *.
  assert (utf8_valid (bytes_of (sk_id k)) = true) as Hid
    by (destruct (inv_sock _ _ Hi s k Hk) as (-> & _); apply socket_id_valid).
  assert (utf8_valid (bytes_of (cmd_text c)) = true) as Htx.
  { destruct c; cbn in *; try done; by repeat (apply Forall_cons in Ht as [? Ht]). }
  destruct (chat_step (sk_id k) c (membership_of ns)) as [m' o] eqn:Est.
  destruct Hs as (ws1 & anys & t & ws2 & ns' & frs & H1 & H2 & H3 & H4 & H5 & H6 & H7 & H8).
  exists (sent_packet p cw), [(Encode p, false)], ws1, anys, t, ws2, ns', frs.
  split; [done|]. split.
  { unfold sent_packet. rewrite He. unfold p. rewrite frames_texts. by rewrite Ho. }
  split_and!; try done. apply (output_printed (sk_id k) c (membership_of ns) ws ns); [by repeat constructor|].
  by rewrite Est.
Qed.

(** *** The ping *)

Lemma sendable_texts t nsp id (l : list string) :
  nsp_ok nsp → id_ok id → args_ok t (VArr (VStr <$> l)) → texts l → sendable (mkPacket t nsp id (VArr (VStr <$> l)) 0).
Proof.
  intros Hn Hi Ha Hl. split; cbn [pNsp pID pAttachments pType pData]; [done..| | |].
  - apply json_ok_arr. exists (pred json_max_depth). split; [by vm_compute|].
    replace (pred json_max_depth) with (S (pred (pred json_max_depth))) by (by vm_compute).
    rewrite <- list_fmap_compose. apply Forall_fmap. by eapply Forall_impl.
  - cbn [marker_free]. clear. induction l; [done|]. by split.
  - cbn [binary_leaves]. replace (foldr _ _ _) with 0%nat; [unfold f64_exact; lia|]. clear. by induction l as [|a l IH]; [|exact IH].
Qed.

Lemma travels_texts (l : list string) st : travels (VStr <$> l) st (VStr <$> l) st.
Proof.
  exists (VStr <$> l). split; [|by rewrite json_view_texts]. cbn [resolve]. unfold mbind, SE_bind.
  rewrite SE_map_ret; [done|]. by apply Forall_fmap, Forall_true.
Qed.

Lemma chat_client_acks : quiet_acks chat_client (λ _ args ls, ls ++ [PrintedAck args]).
Proof. done. Qed.

Lemma exec_pong s (cs : list cell) ws :
  cells ws = cs ++ [mkCell 1 []] →
  exec (run_handler unmarshal_into (chat ord) (length cs) "/" s [] 6) ws
  = Some (tt, set_cells (λ _, cs ++ [mkCell 0 [VStr "pong"]]) ws, []).
Proof.
  intros Hc. unfold run_handler. cbn [u_sig chat chat_sig].
  replace (invokeHandler _ _ _ _) with (Calls [@RSocket _ string s]) by done.
  rewrite exec_bind. change (exec (u_event (chat ord) 6 [RSocket s]) ws) with (Some ([OVal (VStr "pong")], ws, @nil (thread SW Empty_set))).
  cbn beta iota. rewrite exec_bind, ex_update. unfold wg_Done. rewrite ex_update. unfold upd_cell, set_cells. simpl.
  by rewrite Hc, !alter_snoc.
Qed.

(** The acknowledgement of a ping: the line starts a call, the server answers
    "pong" from the goroutine that waits for the handler, and the frames of the
    answer start one goroutine in the client that typed it, which prints it. *)
Lemma chat_ping cw e cn ec s k ns ws :
  can_call "/" e cw → can_answer cn ec "/" s ns ws → socks ws !! s = Some k → events ns !! "ping" = Some [6%nat] →
  ∃ cw1 fs ws1 anys t1 t2 ws2 fs2 t3 cw2,
    exec (handle_line (typed Ping)) cw = Some (tt, cw1, []) ∧ sc_sent cw1 = sc_sent cw ++ to_conn e fs ∧
    exec (server_reads rand ord unmarshal_into (chat ord) cn fs) ws = Some (tt, ws1, anys ++ [Once t1; Once t2]) ∧
    anys = (λ h, Once (u_any (chat ord) h s "ping" [])) <$> on_any ns ∧
    exec (t1 ≫= λ _, t2) ws1 = Some (tt, ws2, []) ∧ sent ws2 = sent ws ++ to_conn (ec_es ec) fs2 ∧
    exec (client_reads unmarshal_into chat_client fs2) cw1 = Some (tt, cw1, [Once t3]) ∧
    exec t3 cw1 = Some (tt, cw2, []) ∧ sc_app cw2 = sc_app cw ++ [PrintedAck [VStr "pong"]].
Proof.
  intros Hcc [Hc Hr Hs (k' & Hk' & Hkn & Hkc) Hn] Hk He. assert (k' = k) as -> by congruence.
  pose proof (cc_seq _ _ _ Hcc) as Hseq. set (id := seq (sc_acks cw) + 1).
  assert (id_ok id) as Hid by (right; unfold id; lia).
  destruct (client_calls "/" e "ping" 0%nat [] [] (sc_store cw) cw Hcc (travels_texts [] _)) as
    (fs & n & cw1 & H1 & H2 & Ha & Hr1 & Happ & Hcbs).
  { apply (sendable_texts Event "/" id ["ping"]); [apply root_ok|done|by exists "ping", []|by constructor]. }
  destruct (ack_frames "/" id [VStr "pong"] (store ws) [VStr "pong"] (store ws)) as (fs2 & n2 & Hf & Ha2).
  { apply (sendable_texts Ack "/" id ["pong"]); [apply root_ok|done|by eexists|by constructor]. }
  { apply (travels_texts ["pong"]). }
  destruct (client_answered unmarshal_into chat_client _ "/" id 0%nat [VStr "pong"] fs2 n2 cw1 chat_client_acks Hr1) as
    (H3 & cw2 & H4 & H5 & _); [rewrite Hcbs; apply lookup_insert_eq|done|].
  set (q := mkPacket Event "/" id (VArr [VStr "ping"]) n) in *.
  destruct (handleEvent_dispatch unmarshal_into (chat ord) cn ec q ws Hc) as [Hev _].
  specialize (Hev s k ns "ping" []). rewrite Hkn in Hev.
  eexists cw1, fs, _, _, _, _, _, fs2, _, cw2. split_and!; try done.
  - unfold handle_line. replace (line_call (typed Ping)) with (Some SendPing) by (by vm_compute).
    by rewrite exec_bind, H1.
  - rewrite (ex_server_reads rand ord unmarshal_into (chat ord) cn ec fs q) by done.
    unfold process. cbn [pType q]. rewrite Hev by done. unfold event_goroutines. rewrite He.
    cbn [pID q]. replace (0 <=? id) with true by (symmetry; apply Z.leb_le; unfold id; lia). reflexivity.
  - rewrite exec_bind, (exec_pong s (cells ws)) by done.
    rewrite (ex_send_results (length (cells ws)) "/" ns s k ec q [VStr "pong"]).
    + change (acknowledged ns [VStr "pong"]) with [VStr "pong"]. cbn [pNsp pID q].
      change (store (set_cells _ _)) with (store ws). rewrite Hf. reflexivity.
    + cbn [cells set_cells]. by rewrite lookup_snoc.
    + done.
    + done.
    + by rewrite Hkc.
  - done.
  - by rewrite H5, Happ.
Qed.
End Conversation.

(** ** Ann's client

    [main] of the client on a session whose peer welcomes it to both
    namespaces; three lines are typed. *)
Module ChatClientDemo.
Abbreviation world := (scworld (list out_line)).
#[local] Instance methods : Methods world sc_method := sio_client_methods sc_choose sc_draw unmarshal_text chat_client.
Definition stdin : bytes := typed_lines [Say "hello"; Join "r"; RoomSay "r" "hi"].
Definition goroutines : list (mprog world sc_method unit) :=
  [chat_client_main sc_ord sc_choose unmarshal_text stdin; dial_ends 0 None;
   eng_data 0 (welcomes "/") false; eng_data 0 (welcomes "/lobby") false].
Definition state (ns : list nat) : config world sc_method := turns ns (chat_client_start, Once <$> goroutines).
(** Up to the goroutine of the input, and with it. *)
Definition ready : config world sc_method := state [0; 1; 0; 2; 4; 0; 3; 4; 0]%nat.
Definition after : config world sc_method := state [0; 1; 0; 2; 4; 0; 3; 4; 0; 5]%nat.

(** The three lines are the three events, after the two requests to connect.
    Nothing was printed: the handlers of [OnConnect] are looked up before [Dial]
    returns, so [main]'s own is not called for this connection. *)
Example typed_session :
  (λ f, string_of f.1.2) <$> sc_sent after.1
  = string_of <$> [bytes_of "0"; bytes_of "0/lobby,"; Encode (event_packet "/" (-1) "message" [VStr "hello"]);
     Encode (event_packet "/" (-1) "join" [VStr "r"]); Encode (event_packet "/" (-1) "room message" [VStr "r"; VStr "hi"])]
  ∧ sc_app after.1 = [] ∧ handlers_of (sc_onConnect after.1) "/" = [0%nat].
Proof.
  split; [vm_compute; reflexivity|]. split; [apply nil_length_inv|]; vm_compute; reflexivity.
Qed.
End ChatClientDemo.

(** A connection and its socket, as a check on a concrete state. *)
Definition seated {A U : Type} (w : SioServer.world A U) (cn : connp) (s : sockp) (nsp id : string) : bool :=
  match conns w !! cn, socks w !! s with
  | Some ec, Some k =>
      match recon ec with None => true | Some _ => false end && bool_decide (ec_sockets ec !! nsp = Some s)
      && bool_decide (sk_nsp k = nsp ∧ sk_ec k = cn ∧ sk_id k = id)
  | _, _ => false
  end.

Lemma seated_answers {A U : Type} (w : SioServer.world A U) cn s nsp id ns :
  seated w cn s nsp id = true → nsps w !! nsp = Some ns →
  ∃ ec k, can_answer cn ec nsp s ns w ∧ socks w !! s = Some k ∧ sk_id k = id.
Proof.
  unfold seated. destruct (conns w !! cn) as [ec|] eqn:Hc; [|done]. destruct (socks w !! s) as [k|] eqn:Hk; [|done].
  destruct (recon ec) eqn:Hr; [done|]. intros [H1%bool_decide_eq_true (H2 & H3 & H4)%bool_decide_eq_true]%andb_true_iff Hn.
  exists ec, k. split_and!; [|done..]. split; [done..| |done]. by exists k.
Qed.

Definition idle (w : ChatClientDemo.world) : bool := match sc_recon w with None => true | Some _ => false end.
Lemma idle_recon w : idle w = true → sc_recon w = None.
Proof. unfold idle. by destruct (sc_recon w). Qed.

Lemma root_membership :
  membership_of ChatDemo.root = mkMembership {[ChatDemo.ann; ChatDemo.bob]}
    {[(ChatDemo.ann, ChatDemo.ann); (ChatDemo.bob, ChatDemo.bob)]}.
Proof.
  vm_cast_no_check (@eq_refl membership (mkMembership {[ChatDemo.ann; ChatDemo.bob]}
    {[(ChatDemo.ann, ChatDemo.ann); (ChatDemo.bob, ChatDemo.bob)]})).
Qed.

Lemma hello_typable : typable (Say "hello").
Proof. split_and!; [|done|right; split; [done|]|..]; apply (bool_decide_unpack _); by vm_compute. Qed.

#[local] Instance chat_runner : Runner ChatClientDemo.world sc_method :=
  @calls _ _ ChatClientDemo.methods 0.

Lemma chat_line_crosses_witness :
  ∃ cw1 fs ws1 anys t (ws2 : ChatDemo.world) frs,
    exec (handle_line (bytes_of "hello")) ChatClientDemo.ready.1 = Some (tt, cw1, []) ∧
    sc_sent cw1 = sc_sent ChatClientDemo.ready.1 ++ to_conn 0 fs ∧
    exec (server_reads Demo.rand Demo.ord unmarshal_text ChatDemo.app 0 fs) ChatDemo.state.1
    = Some (tt, ws1, anys ++ [Once t]) ∧
    exec t ws1 = Some (tt, ws2, []) ∧ sent ws2 = sent ChatDemo.state.1 ++ frs ∧
    output_ok ChatDemo.state.1 ChatDemo.root "/"
      (Some ("message", [VStr ChatDemo.ann; VStr "hello"], {[ChatDemo.ann; ChatDemo.bob]})) frs ∧
    Forall (λ fr : engp * bytes * bool, ∃ cw1 t cw2,
      exec (client_reads unmarshal_text chat_client [(fr.1.2, fr.2)]) ChatClientDemo.ready.1 = Some (tt, cw1, [Once t]) ∧
      exec t cw1 = Some (tt, cw2, []) ∧ sc_app cw2 = [Printed (ChatDemo.ann +:+ ": hello" +:+ lf)]) frs.
Proof.
  destruct (seated_answers ChatDemo.state.1 0 0 "/" ChatDemo.ann ChatDemo.root) as (ec & k & H1 & H2 & H3);
    [vm_compute; reflexivity|exact ChatDemo.root_there|].
  pose proof (chat_line_crosses Demo.rand Demo.ord demo_order unmarshal_text (Say "hello") ChatClientDemo.ready.1 0 0
    ec 0 k ChatDemo.root ChatDemo.state.1 hello_typable) as H4.
  rewrite root_membership, H3 in H4. cbn [chat_step online] in H4.
  destruct H4 as (cw1 & fs & ws1 & anys & t & ws2 & ns' & frs & E1 & E2 & E3 & _ & E4 & _ & _ & E5 & _ & E6 & E7).
  - discriminate.
  - constructor; [reflexivity|constructor].
  - vm_compute. reflexivity.
  - vm_compute. reflexivity.
  - vm_compute. reflexivity.
  - exact ChatDemo.state_inv.
  - exact H1.
  - exact H2.
  - vm_compute. reflexivity.
  - exists cw1, fs, ws1, anys, t, ws2, frs.
    split; [exact E1|]. split; [exact E2|]. split; [exact E3|]. split; [exact E4|]. split; [exact E5|].
    split; [exact E6|].
    pose proof (E7 "message" 0%nat ChatClientDemo.ready.1 eq_refl) as E8.
    rewrite (nil_length_inv (sc_app ChatClientDemo.ready.1)) in E8 by (vm_compute; reflexivity).
    apply E8; [apply idle_recon|]; vm_compute; reflexivity.
Defined.
